(* ===== verification/_CoqProject ===== *)
-Q . S2P
Prelude.v
Utf8.v
Protocol.v
ByteRing.v
Accumulator.v
DeliveryPool.v
ProducerClient.v
Pipeline.v
ControlSelect.v
Float64.v
Capacity.v
Producers.v
Consumers.v
Metrics.v
Matchmaker.v
Fairness.v
Server.v
Tasks.v
Interleaving.v
Relay.v
Turns.v
Progress.v
Assignments.v
Reports.v
Text.v
Config.v
Gate.v
ConsumerClient.v
EndToEnd.v
DataStream.v
Conservation.v
Network.v
Facade.v
Examples.v
Entry.v
UnitTests.v
