(* ===== verification/Prelude.v ===== *)
(** * CupidMQ: a verification library for the broker and its Rust clients

    CupidMQ (Rust, [src/master]) matches consumers that ask for a batch with
    producers that hold one.  The payloads never pass through the master: a consumer
    registers its data address (REG!) and asks (CRDY); a producer announces its
    backlog (HBRP) and itself (PRDY); the master writes the producer an ASGN; the
    producer writes a BATC to the consumer and reports (DELV or FAIL).  This library
    models the crate's protocol, master and two clients, and proves what they do.

    ** The files

    Foundations:
    - [Prelude] (this file): machine integers, results, bytes, readers of a stream,
      reachability ([star]), tactics and hints.
    - [Utf8], [Text], [Float64]: what the source uses of the Rust standard library:
      lossy UTF-8, [str] methods and number parsing, [f64] as the specification floats.

    The wire:
    - [Protocol] ([protocol.rs]): every frame, its encoder and its reader.

    The producer client:
    - [ByteRing] ([ring/byte_ring.rs]), [Accumulator] ([producer/accumulator.rs]),
      [DeliveryPool] ([producer/delivery_pool.rs] and the delivery of
      [producer/client.rs]): its data structures.
    - [ProducerClient] ([producer/client.rs]): publishing, the accumulator task, an
      ASGN in its two halves, the control task as a step function.
    - [Pipeline]: the client's contract, a lossy first-in first-out queue, and the
      refinement of it.
    - [ControlSelect]: the [select!] of the control task, byte by byte.

    The master:
    - [Producers], [Matchmaker] ([producers.rs]), [Consumers] ([consumers.rs]),
      [Capacity] ([capacity.rs]), [Metrics] ([metrics.rs], [tick_buffer.rs],
      [metrics_history.rs]): the shared state and its methods, each method one
      function on that state.
    - [Server] ([server.rs], [metrics_cache.rs]): the turns of the connections, the
      background tasks, the HTTP handlers; [Relay]: all of them, turn by turn.
    - [Tasks]: the matchmaker's methods, the handlers of frames and the methods of the
      consumer table one critical section at a time; [Interleaving]: any number of
      such tasks at once; [Turns]: the runs of [Relay] are runs of [Interleaving].
    - [Fairness], [Progress], [Assignments], [Reports]: theorems about the master.
    - [Config] ([config.rs]): the configuration; [Entry] ([main.rs], the routes of
      [server.rs], [dashboard_embed.rs]): the program around the relay.

    The consumer client:
    - [Gate] ([EventGate] of [consumer/client.rs]): the gates of the client, access by
      access.
    - [ConsumerClient] ([consumer/client.rs]): its control task, data connections and
      application as a transition system on their shared state.
    - [Conservation]: the account of every batch a consumer reads.

    The parts together:
    - [EndToEnd]: one exchange through all of the above; [DataStream]: the two ends of
      a data connection that carries many batches; [Network]: any number of producers,
      consumers and connections at once; [Facade] ([client/mod.rs]).

    The programs that use the crate:
    - [Examples] ([master/examples]): the stress producer with its loop and pacing,
      the consumer of the container, the two minimal clients.
    - [UnitTests]: the crate's unit tests, run on the definitions of this library.

    ** The model

    State is explicit: a struct is a [Record] with its fields, an enum an inductive
    type; a method that takes [&mut self] returns the new state; [Result] is
    [result].  Integers are [Z] with their wrap-around or saturation written out.  A
    stream is the list of the bytes still to come, and a reader consumes a prefix of
    it.  What comes from outside is an argument: the clock (at every reading, where a
    method reads it more than once), what a write or a connect
    answers, the bytes a peer sends.  A [HashMap] is a [gmap]; where its order can
    matter (the pool's snapshot in [Interleaving]) every order is a run.

    Concurrency has three granularities.  [Relay] interleaves whole turns of
    connections.  [Interleaving] interleaves critical sections, each under one lock:
    of the matchmaker, of the two locks of the consumer table, of the producer table
    and of the totals.  [sections_refine_methods] says that a call which is not
    interrupted computes the function of its handler, [relay_refines_interleaving]
    that every run of [Relay] is a run of [Interleaving].  [ConsumerClient] and
    [Pipeline] interleave the tasks of a client between the points where they await or
    release their lock (a data connection tests [stop] before it reads, and a read that
    has begun is not stopped; the future of [consume] may be dropped); [gate_is_flag] says that the gates, which [ConsumerClient]
    raises and takes in one step, behave as if they were.  [Network] interleaves the
    steps of all the clients with what the connections do; there a write takes every
    byte or none, and a delivery that times out wrote nothing.  What a write that
    takes a part does is [short_write_corrupts].

    Fuel: [try_match_loop] gets one turn more than there are producers in the pool,
    and every turn that goes on removes one ([try_match_terminates]); [stress_loop]
    has the fuel of its caller, and [stress_terminates] says how much is enough;
    [read_stream] gets the length of the stream ([data_stream_integrity]);
    [drain_pending] gets the length of the queue it empties; [trim_pats] the length
    of its text; retry loops have the source's bounds.

    ** The theorems

    - Round trips and exact parsers of every frame ([Protocol]); the configuration
      file and addresses ([Config], [ConsumerClient]).
    - Invariants of everything reachable: rings, registries, the running master
      ([relay_reachable_ok]), the consumer client ([client_reachable_ok]).
    - Functional theorems of each operation on every branch: [push_spec],
      [assign_take_correct], [deliver_assign_correct], [try_match_correct] (who is paired
      with whom, in which order, and what becomes of the others), [report_settled], the
      two disconnects, [record_heartbeat_correct], [rank_ready_candidates_correct] (the
      heaviest backlog, ties in rotation).
    - Refinement: the producer is a lossy queue, in order and without loss below its
      cap ([Pipeline]); the critical sections are the methods ([Tasks]); whole turns
      are interleavings ([Turns]).
    - What ends a record and what does not: [outstanding_assignment_kept], over any
      number of steps of the relay; [consumer_disconnect_correct],
      [producer_disconnect_correct]; the index of [consumers_reachable_ok] against the
      assignments, in both directions.
    - Termination: [stress_terminates], and the fuel of every loop above.
    - Liveness within bounds: [match_loop_serves], [waiting_consumer_served].
    - Composition: [cycle_reaches_handler], from a published payload to the handler;
      [data_stream_integrity], from many deliveries to what a connection hands over;
      [stress_run_correct], from the arguments of a program to what its producer
      delivers; [http_get_correct], the HTTP server over the relay;
      [deployment_at_most_once], whatever any number of clients and the master do:
      what the applications are given was published, each payload at most once.
    - Conservation: [batches_conserved], where every batch a consumer reads ends up;
      [requests_accounted], the same for the requests in the master.
    - Behaviour that departs from the documents or from the evident intent, each as a
      theorem about the model: [double_assignment_race], [put_back_duplicates],
      [early_report_uncounted], [stale_index_strands],
      [interrupted_assign_is_lost], [short_write_corrupts],
      [oversize_item_reported_delivered], [full_ring_heartbeat_is_zero],
      [late_report_unassigns], [second_batch_overwrites], [early_batch_dropped],
      [no_prefetch],
      [long_failure_report_refused].

    ** Not modelled

    Sockets, DNS and durations (only the order of events and what calls answer); the
    accept loop, the router, static files, CORS and JSON of the HTTP server; logging,
    the command line parser, the random generator and the embedded assets, which are
    parameters where the code uses their results ([Notify] of tokio is the class
    [Notifier] of [Gate], with the one law the gates rely on; the router of axum the class
    [AxumRouter] of [Entry], with what a route and a fallback are); the Python client and the
    TypeScript dashboard, which are other programs.  Memory ordering of the atomics is
    sequential. *)

From Stdlib Require Export ZArith Lia String.
From coqutil Require Export Byte Word.LittleEndianList.
From stdpp Require Export base tactics list gmap sets strings sorting pretty.
(* The reference libraries open their own scopes; numbers here are Z unless marked. *)
#[global] Open Scope Z_scope.
#[global] Open Scope list_scope.

(** ** Machine integers

    A [u16], [u32], [u64] or [usize] of the source is a [Z] in its range; an
    operation that can leave the range is written out: [wrap w] for a cast
    ([as u16], [as u32]) and for [fetch_add] and the release build's [+=],
    [sat_add]/[sat_sub] for [saturating_add]/[saturating_sub]. *)

Definition umax (w : Z) : Z := 2 ^ w - 1.

Definition in_u (w z : Z) : Prop := 0 <= z <= umax w.

Definition wrap (w z : Z) : Z := z mod 2 ^ w.

Definition sat_add (w x y : Z) : Z := Z.min (x + y) (umax w).

Definition sat_sub (x y : Z) : Z := Z.max 0 (x - y).

(** [usize] on the 64-bit targets the crate is released for. *)
Definition usize_w : Z := 64.

(** ** Fallible code

    [anyhow::Result] and [Result<_, String>]. *)

Inductive result (E A : Type) : Type :=
| Ok (a : A)
| Err (e : E).
Arguments Ok {E A} a.
Arguments Err {E A} e.

Definition res_bind {E A B} (m : result E A) (k : A -> result E B) : result E B :=
  match m with
  | Ok a => k a
  | Err e => Err e
  end.

Declare Scope cupid_scope.
Delimit Scope cupid_scope with cupid.

Notation "'let?' x := m 'in' k" := (res_bind m (fun x => k))
  (at level 10, x pattern, m at level 100, k at level 200) : cupid_scope.
#[global] Open Scope cupid_scope.

Definition is_ok {E A} (r : result E A) : bool :=
  match r with Ok _ => true | Err _ => false end.

(** ** Bytes

    A byte buffer ([Vec<u8>], [Bytes], [&[u8]]) is a [list byte]; a Rust
    [String] is a Rocq [string] whose characters are its UTF-8 bytes. *)

Definition blen (bs : list byte) : Z := Z.of_nat (length bs).

Definition as_bytes (s : string) : list byte := list_byte_of_string s.

Definition slen (s : string) : Z := blen (as_bytes s).

#[export] Instance byte_eq_decision : EqDecision byte := Byte.byte_eq_dec.

(** [x.to_le_bytes()] for a value of [n] bytes, and [from_le_bytes]. *)
Definition to_le (n : nat) (z : Z) : list byte := le_split n z.

Definition from_le (bs : list byte) : Z := le_combine bs.

Arguments to_le : simpl never.
Arguments from_le : simpl never.
Arguments blen : simpl never.

(** [Vec<Bytes>] byte total. *)
Definition total_len (items : list (list byte)) : Z := foldr (fun i acc => blen i + acc) 0 items.

(** ** Transition systems *)

Section Star.
Context {St : Type} (R : St -> St -> Prop).

Inductive star : St -> St -> Prop :=
| star_refl s : star s s
| star_step s t u : R s t -> star t u -> star s u.

Lemma star_invariant (P : St -> Prop) s t :
  (forall a b, P a -> R a b -> P b) -> star s t -> P s -> P t.
Proof. intros Hstep; induction 1; eauto. Qed.

Lemma star_trans s t u : star s t -> star t u -> star s u.
Proof. induction 1; eauto using star. Qed.

Lemma star_snoc s t u : star s t -> R t u -> star s u.
Proof. induction 1; eauto using star. Qed.
End Star.

(** ** Shared lemmas *)

Create HintDb cupid.
Create Rewrite HintDb cupid.

(** [mauto]: the closing tactic of the development: its own hints, then [lia]. *)
Ltac mauto := eauto 4 with cupid lia.

(** [destruct_match H]: case on the scrutinee of the outermost match in [H]. *)
Ltac destruct_match H :=
  match type of H with
  | context [match ?x with _ => _ end] => destruct x eqn:?
  end.

Lemma res_bind_ok {E A B} (m : result E A) (k : A -> result E B) b :
  res_bind m k = Ok b <-> exists a, m = Ok a /\ k a = Ok b.
Proof. destruct m; simpl; naive_solver. Qed.

Lemma wrap_small w z : in_u w z -> wrap w z = z.
Proof.
  unfold in_u, umax, wrap. intros ?. apply Z.mod_small. lia.
Qed.

Lemma wrap_range w z : 0 <= w -> in_u w (wrap w z).
Proof.
  intros Hw. unfold in_u, umax, wrap.
  pose proof (Z.mod_pos_bound z (2 ^ w) ltac:(apply Z.pow_pos_nonneg; lia)). lia.
Qed.

Lemma sat_add_small w x y : x + y <= umax w -> sat_add w x y = x + y.
Proof. unfold sat_add. lia. Qed.

Lemma sat_sub_le x y : y <= x -> sat_sub x y = x - y.
Proof. unfold sat_sub. lia. Qed.

Lemma blen_nonneg bs : 0 <= blen bs.
Proof. unfold blen. lia. Qed.

Lemma blen_nil : blen [] = 0.
Proof. reflexivity. Qed.

Lemma blen_cons b bs : blen (b :: bs) = 1 + blen bs.
Proof. unfold blen. simpl length. lia. Qed.

Lemma blen_app xs ys : blen (xs ++ ys) = blen xs + blen ys.
Proof. unfold blen. rewrite length_app. lia. Qed.

Lemma blen_0 bs : blen bs = 0 -> bs = [].
Proof. destruct bs; [done|]. rewrite blen_cons. pose proof (blen_nonneg bs). lia. Qed.

Lemma length_to_le n z : length (to_le n z) = n.
Proof. apply length_le_split. Qed.

Lemma blen_to_le n z : blen (to_le n z) = Z.of_nat n.
Proof. unfold blen. by rewrite length_to_le. Qed.

Lemma from_to_le n z : from_le (to_le n z) = wrap (Z.of_nat n * 8) z.
Proof. apply le_combine_split. Qed.

Lemma to_from_le n bs : length bs = n -> to_le n (from_le bs) = bs.
Proof. intros <-. apply split_le_combine. Qed.

Lemma from_le_range bs : in_u (8 * Z.of_nat (length bs)) (from_le bs).
Proof. unfold in_u, umax, from_le. pose proof (le_combine_bound bs). lia. Qed.

Lemma total_len_nonneg items : 0 <= total_len items.
Proof. induction items; simpl; [lia|]. pose proof (blen_nonneg a). lia. Qed.

Lemma total_len_app xs ys : total_len (xs ++ ys) = total_len xs + total_len ys.
Proof. induction xs as [|x xs IH]; simpl; lia. Qed.

Lemma total_len_cons x xs : total_len (x :: xs) = blen x + total_len xs.
Proof. reflexivity. Qed.

Lemma total_len_in x xs : x ∈ xs -> blen x <= total_len xs.
Proof.
  induction 1 as [y ys|y z ys ? IH]; rewrite total_len_cons.
  - pose proof (total_len_nonneg ys). lia.
  - pose proof (blen_nonneg z). lia.
Qed.

#[export] Hint Rewrite blen_nil blen_cons blen_app blen_to_le total_len_app total_len_cons
  length_to_le : cupid.
#[export] Hint Resolve blen_nonneg total_len_nonneg : cupid.

Lemma as_bytes_of_bytes bs : as_bytes (string_of_list_byte bs) = bs.
Proof. apply list_byte_of_string_of_list_byte. Qed.

Lemma of_bytes_as_bytes s : string_of_list_byte (as_bytes s) = s.
Proof. apply string_of_list_byte_of_string. Qed.

Lemma slen_of_bytes bs : slen (string_of_list_byte bs) = blen bs.
Proof. unfold slen, as_bytes. by rewrite list_byte_of_string_of_list_byte. Qed.

(** A prefix of known length is what [take] gives, the rest what [drop] gives. *)
Lemma take_app_blen {A} (xs ys : list A) n : n = length xs -> take n (xs ++ ys) = xs.
Proof. intros ->. apply take_app_length. Qed.

Lemma drop_app_blen {A} (xs ys : list A) n : n = length xs -> drop n (xs ++ ys) = ys.
Proof. intros ->. apply drop_app_length. Qed.

(** A set that lost an element fits one smaller bound. *)
Lemma size_shrinks (s t : gset Z) p n :
  p ∈ s -> t ⊆ s ∖ {[p]} -> (size s < S n)%nat -> (size t < n)%nat.
Proof.
  intros Hp Hsub Hn. pose proof (subseteq_size _ _ Hsub) as Hle.
  rewrite size_difference, size_singleton in Hle by set_solver.
  assert (size s <> 0%nat) by (intros Hz%size_empty_inv; set_solver). lia.
Qed.

(** A list with an equation on its length, split into its elements. *)
Lemma list_len_S {A} (l : list A) n : length l = S n -> exists x l', l = x :: l' /\ length l' = n.
Proof. destruct l; simpl; [lia|]. eauto. Qed.

(** Two filters that agree on the elements of the list. *)
Lemma filter_ext_in {A} (P Q : A -> Prop) `{!forall x, Decision (P x)} `{!forall x, Decision (Q x)}
    (l : list A) :
  (forall x, x ∈ l -> P x <-> Q x) -> filter P l = filter Q l.
Proof.
  induction l as [|x l IH]; intros Hpq; [done|]. rewrite !filter_cons.
  rewrite IH by (intros; apply Hpq; by right). specialize (Hpq x ltac:(by left)).
  repeat case_decide; tauto.
Qed.

Lemma filter_none {A} (P : A -> Prop) `{!forall x, Decision (P x)} (l : list A) :
  (forall x, x ∈ l -> ~ P x) -> filter P l = [].
Proof.
  induction l as [|x l IH]; intros Hno; [done|]. rewrite filter_cons_False by (apply Hno; by left).
  apply IH. intros y Hy. apply Hno. by right.
Qed.

Lemma filter_all {A} (P : A -> Prop) `{!forall x, Decision (P x)} (l : list A) :
  (forall x, x ∈ l -> P x) -> filter P l = l.
Proof.
  induction l as [|x l IH]; intros Hall; [done|]. rewrite filter_cons_True by (apply Hall; by left).
  f_equal. apply IH. intros y Hy. apply Hall. by right.
Qed.

(** ** Lists updated at an index *)

Lemma omap_insert {A B} (f : A -> option B) l i x y :
  l !! i = Some x -> Permutation (omap f (<[i := y]> l) ++ option_list (f x)) (omap f l ++ option_list (f y)).
Proof.
  revert i. induction l as [|z l IH]; intros [|i] Hi; cbn in *; [done..| |].
  - simplify_eq. destruct (f x), (f y); cbn; solve_Permutation.
  - destruct (f z); cbn; [constructor|]; by apply IH.
Qed.

Lemma alter_lookup {A} (f : A -> A) (i : nat) (l : list A) :
  alter f i l = match l !! i with Some x => <[i := f x]> l | None => l end.
Proof.
  revert i. induction l as [|x l IH]; intros [|i]; cbn; try done. rewrite IH. by destruct (l !! i).
Qed.

Lemma Forall2_concat_insert {A B} (P : A -> list B -> Prop) l k (i : nat) a a' extra :
  Forall2 P l k -> l !! i = Some a ->
  (forall b, P a b -> exists b', P a' b' /\ b' ⊆+ b ++ extra) ->
  exists k', Forall2 P (<[i := a']> l) k' /\ concat k' ⊆+ concat k ++ extra.
Proof.
  intros H. revert i. induction H as [|x y l k Hxy Hlk IH]; intros [|i] Hi Hstep; cbn in Hi; try done.
  - simplify_eq. destruct (Hstep y Hxy) as (y' & Hy' & Hs). exists (y' :: k). split; [by constructor|]. cbn.
    etrans; [by apply submseteq_skips_r|]. solve_submseteq.
  - destruct (IH i Hi Hstep) as (k' & Hk' & Hs). exists (y :: k'). split; [by constructor|]. cbn.
    rewrite <- app_assoc. by apply submseteq_skips_l.
Qed.

Lemma Forall2_replace {A B} (P : A -> B -> Prop) l k (j : nat) b b' :
  Forall2 P l k -> k !! j = Some b -> (forall a, a ∈ l -> P a b -> P a b') -> Forall2 P l (<[j := b']> k).
Proof.
  intros H. revert j. induction H as [|x y l k Hxy Hlk IH]; intros [|j] Hj Hstep; cbn in Hj; try done.
  - simplify_eq. constructor; [|done]. apply Hstep; [by left|done].
  - constructor; [done|]. apply IH; [done|]. intros a Ha. apply Hstep. by right.
Qed.

Lemma map_insert_same {A B} (f : A -> B) l (j : nat) n n' : l !! j = Some n -> f n' = f n -> map f (<[j := n']> l) = map f l.
Proof.
  revert j. induction l as [|x l IH]; intros [|j] Hj Hf; cbn in *; try done; [simplify_eq; congruence|].
  f_equal. by apply IH.
Qed.

Lemma concat_insert_more {A B} (f : A -> list B) l (j : nat) n n' extra :
  l !! j = Some n -> f n' = f n ++ extra -> Permutation (concat (map f (<[j := n']> l))) (concat (map f l) ++ extra).
Proof.
  revert j. induction l as [|x l IH]; intros [|j] Hj Hf; cbn in *; try done.
  - simplify_eq. rewrite Hf. solve_Permutation.
  - rewrite (IH j) by done. by rewrite app_assoc.
Qed.

Lemma concat_submseteq {A} (l k : list (list A)) : l ⊆+ k -> concat l ⊆+ concat k.
Proof.
  induction 1 as [|x l k _ IH|x y l|x l k _ IH|l1 l2 l3 _ IH1 _ IH2]; cbn; [done|by apply submseteq_skips_l| |by apply submseteq_inserts_l|by etrans].
  solve_submseteq.
Qed.

Lemma concat_map_submseteq {A B} (f g : A -> list B) l :
  Forall (fun x => f x ⊆+ g x) l -> concat (map f l) ⊆+ concat (map g l).
Proof. induction 1; cbn; [done|by apply submseteq_app]. Qed.
