(* ===== verification/Utf8.v ===== *)
(** * UTF-8: [String::from_utf8_lossy]

    The frames carry strings as raw bytes and the readers of
    [master/src/protocol.rs] turn them into a [String] with the standard
    library's [String::from_utf8_lossy]: well-formed UTF-8 is kept, every maximal
    ill-formed subpart becomes U+FFFD.  The definitions follow the standard
    library ([Utf8Chunks]); the lemmas are what the codec proofs use. *)

From S2P Require Import Prelude.

(** ** Definitions *)

Definition in_bytes (lo hi : Z) (b : byte) : bool :=
  (lo <=? byte.unsigned b) && (byte.unsigned b <=? hi).

(** A continuation byte: [b & 192 == 128]. *)
Definition cont (b : byte) : bool := in_bytes 128 191 b.

(** [utf8_char_width]: 0 for a byte that starts no character. *)
Definition char_width (b : byte) : nat :=
  if in_bytes 0 127 b then 1%nat
  else if in_bytes 194 223 b then 2%nat
  else if in_bytes 224 239 b then 3%nat
  else if in_bytes 240 244 b then 4%nat
  else 0%nat.

(** The second byte allowed after [b0] in a three and a four byte character. *)
Definition second3 (b0 b1 : byte) : bool :=
  if in_bytes 224 224 b0 then in_bytes 160 191 b1
  else if in_bytes 237 237 b0 then in_bytes 128 159 b1
  else cont b1.

Definition second4 (b0 b1 : byte) : bool :=
  if in_bytes 240 240 b0 then in_bytes 144 191 b1
  else if in_bytes 244 244 b0 then in_bytes 128 143 b1
  else cont b1.

(** One step over a nonempty buffer: whether a character was read, and the
    number of bytes read (of the character, or of the ill-formed subpart). *)
Definition utf8_step (l : list byte) : bool * nat :=
  match l with
  | [] => (false, 0%nat)
  | b0 :: r0 =>
    match char_width b0, r0 with
    | 1%nat, _ => (true, 1%nat)
    | 2%nat, b1 :: _ => if cont b1 then (true, 2%nat) else (false, 1%nat)
    | 3%nat, b1 :: r1 =>
      if second3 b0 b1 then
        match r1 with
        | b2 :: _ => if cont b2 then (true, 3%nat) else (false, 2%nat)
        | [] => (false, 2%nat)
        end
      else (false, 1%nat)
    | 4%nat, b1 :: r1 =>
      if second4 b0 b1 then
        match r1 with
        | b2 :: r2 =>
          if cont b2 then
            match r2 with
            | b3 :: _ => if cont b3 then (true, 4%nat) else (false, 3%nat)
            | [] => (false, 3%nat)
            end
          else (false, 2%nat)
        | [] => (false, 2%nat)
        end
      else (false, 1%nat)
    | _, _ => (false, 1%nat)
    end
  end.

(** U+FFFD *)
Definition replacement : list byte := [Byte.xef; Byte.xbf; Byte.xbd].

(** Every step reads at least one byte, so the buffer's length is enough fuel. *)
Fixpoint lossy_fuel (fuel : nat) (l : list byte) : list byte :=
  match fuel, l with
  | S n, _ :: _ =>
    let '(ok, k) := utf8_step l in
    (if ok then take k l else replacement) ++ lossy_fuel n (drop k l)
  | _, _ => []
  end.

Definition from_utf8_lossy (l : list byte) : list byte := lossy_fuel (length l) l.

Fixpoint valid_fuel (fuel : nat) (l : list byte) : bool :=
  match fuel, l with
  | S n, _ :: _ =>
    let '(ok, k) := utf8_step l in ok && valid_fuel n (drop k l)
  | _, [] => true
  | O, _ => false
  end.

(** What the type [String] guarantees of its bytes. *)
Definition utf8_valid (l : list byte) : bool := valid_fuel (length l) l.

(** ** Lemmas *)

(** Case on every test of the step equation [H]. *)
Ltac step_cases H := repeat destruct_match H.

Lemma utf8_step_bounds b l ok k :
  utf8_step (b :: l) = (ok, k) -> (1 <= k <= length (b :: l))%nat.
Proof. unfold utf8_step. intros H. step_cases H; simplify_eq/=; lia. Qed.

Lemma utf8_step_prefix l r k :
  utf8_step l = (true, k) -> utf8_step (take k l ++ r) = (true, k).
Proof.
  unfold utf8_step. intros H. step_cases H; simplify_eq/=;
    repeat match goal with E : ?x = _ |- context [match ?x with _ => _ end] => rewrite E end;
    reflexivity.
Qed.

Lemma lossy_fuel_enough n m l :
  (length l <= n)%nat -> (length l <= m)%nat -> lossy_fuel n l = lossy_fuel m l.
Proof.
  revert m l. induction n as [|n IH]; intros [|m] [|b l] Hn Hm; try (simpl in *; lia || done).
  cbn [lossy_fuel]. destruct (utf8_step (b :: l)) as [ok k] eqn:Hs.
  apply utf8_step_bounds in Hs. f_equal.
  apply IH; rewrite length_drop; simpl in *; lia.
Qed.

Lemma valid_fuel_enough n m l :
  (length l <= n)%nat -> (length l <= m)%nat -> valid_fuel n l = valid_fuel m l.
Proof.
  revert m l. induction n as [|n IH]; intros [|m] [|b l] Hn Hm; try (simpl in *; lia || done).
  cbn [valid_fuel]. destruct (utf8_step (b :: l)) as [ok k] eqn:Hs.
  apply utf8_step_bounds in Hs. f_equal.
  apply IH; rewrite length_drop; simpl in *; lia.
Qed.

(** The recursion equations, with no fuel. *)
Lemma lossy_cons b l :
  from_utf8_lossy (b :: l) =
    let '(ok, k) := utf8_step (b :: l) in
    (if ok then take k (b :: l) else replacement) ++ from_utf8_lossy (drop k (b :: l)).
Proof.
  unfold from_utf8_lossy at 1. cbn [length lossy_fuel].
  destruct (utf8_step (b :: l)) as [ok k] eqn:Hs. f_equal.
  apply utf8_step_bounds in Hs. apply lossy_fuel_enough; rewrite ?length_drop; simpl in *; lia.
Qed.

Lemma valid_cons b l :
  utf8_valid (b :: l) = let '(ok, k) := utf8_step (b :: l) in ok && utf8_valid (drop k (b :: l)).
Proof.
  unfold utf8_valid at 1. cbn [length valid_fuel].
  destruct (utf8_step (b :: l)) as [ok k] eqn:Hs. f_equal.
  apply utf8_step_bounds in Hs. apply valid_fuel_enough; rewrite ?length_drop; simpl in *; lia.
Qed.

(** Induction over the steps of a buffer. *)
Lemma utf8_ind (P : list byte -> Prop) :
  P [] ->
  (forall b l ok k, utf8_step (b :: l) = (ok, k) -> P (drop k (b :: l)) -> P (b :: l)) ->
  forall l, P l.
Proof.
  intros H0 HS l. induction l as [l IH] using (induction_ltof1 _ (@length byte)).
  destruct l as [|b l]; [done|].
  destruct (utf8_step (b :: l)) as [ok k] eqn:Hs.
  eapply HS; [done|]. apply IH. unfold ltof.
  apply utf8_step_bounds in Hs. rewrite length_drop. lia.
Qed.

Lemma lossy_valid_id l : utf8_valid l = true -> from_utf8_lossy l = l.
Proof.
  induction l as [|b l ok k Hs IH] using utf8_ind; [done|].
  rewrite valid_cons, lossy_cons, Hs. destruct ok; [|done]. intros Hv.
  rewrite IH by done. apply take_drop.
Qed.

Lemma valid_app_step b l k r :
  utf8_step (b :: l) = (true, k) -> utf8_valid (take k (b :: l) ++ r) = utf8_valid r.
Proof.
  intros Hs. pose proof (utf8_step_bounds _ _ _ _ Hs) as Hk.
  pose proof (utf8_step_prefix _ r _ Hs) as Hp.
  assert (Hlen : length (take k (b :: l)) = k) by (rewrite length_take; lia).
  destruct (take k (b :: l)) as [|c t] eqn:Ht; [simpl in Hlen; lia|].
  change ((c :: t) ++ r) with (c :: (t ++ r)) in *.
  rewrite valid_cons, Hp. change (c :: t ++ r) with ((c :: t) ++ r).
  by rewrite drop_app_blen.
Qed.

Lemma valid_replacement r : utf8_valid (replacement ++ r) = utf8_valid r.
Proof. apply (valid_app_step Byte.xef [Byte.xbf; Byte.xbd] 3%nat). reflexivity. Qed.

Lemma lossy_is_valid l : utf8_valid (from_utf8_lossy l) = true.
Proof.
  induction l as [|b l ok k Hs IH] using utf8_ind; [done|].
  rewrite lossy_cons, Hs. destruct ok.
  - by rewrite valid_app_step.
  - by rewrite valid_replacement.
Qed.

Lemma lossy_len l : blen (from_utf8_lossy l) <= 3 * blen l.
Proof.
  induction l as [|b l ok k Hs IH] using utf8_ind; [done|].
  rewrite lossy_cons, Hs. pose proof (utf8_step_bounds _ _ _ _ Hs) as Hk.
  assert (blen (b :: l) = blen (take k (b :: l)) + blen (drop k (b :: l))) as Heq
    by (rewrite <- blen_app, take_drop; done).
  assert (blen (take k (b :: l)) = Z.of_nat k) as Hkl
    by (unfold blen; rewrite length_take; lia).
  rewrite blen_app. destruct ok; [lia|].
  change (blen replacement) with 3. lia.
Qed.

Lemma lossy_nil_inv l : from_utf8_lossy l = [] -> l = [].
Proof.
  destruct l as [|b l]; [done|]. rewrite lossy_cons.
  destruct (utf8_step (b :: l)) as [ok k] eqn:Hs.
  pose proof (utf8_step_bounds _ _ _ _ Hs) as Hk.
  destruct ok, k as [|k]; simpl in *; try lia; done.
Qed.

(** *** ASCII bytes survive the replacement

    What [from_utf8_lossy] replaces has no ASCII byte, and U+FFFD has none. *)

Definition ascii (b : byte) : bool := in_bytes 0 127 b.

Definition ascii_count (l : list byte) : nat := length (filter (fun b => ascii b = true) l).

Lemma ascii_count_app xs ys : ascii_count (xs ++ ys) = (ascii_count xs + ascii_count ys)%nat.
Proof. unfold ascii_count. by rewrite filter_app, length_app. Qed.

Lemma ascii_count_cons b l : ascii_count (b :: l) = ((if ascii b then 1 else 0) + ascii_count l)%nat.
Proof. unfold ascii_count. rewrite filter_cons. destruct (ascii b); by case_decide. Qed.

Lemma ascii_count_le l : (ascii_count l <= length l)%nat.
Proof. apply length_filter. Qed.

Lemma not_ascii lo hi b : 128 <= lo -> in_bytes lo hi b = true -> ascii b = false.
Proof.
  intros Hlo [H1%Z.leb_le H2%Z.leb_le]%andb_true_iff. unfold ascii, in_bytes.
  apply andb_false_iff. right. apply Z.leb_gt. lia.
Qed.

Lemma not_ascii_cont b : cont b = true -> ascii b = false.
Proof. by apply not_ascii. Qed.

Lemma not_ascii_second3 b0 b : second3 b0 b = true -> ascii b = false.
Proof. unfold second3. destruct (in_bytes 224 224 b0); [|destruct (in_bytes 237 237 b0)]; by apply not_ascii. Qed.

Lemma not_ascii_second4 b0 b : second4 b0 b = true -> ascii b = false.
Proof. unfold second4. destruct (in_bytes 240 240 b0); [|destruct (in_bytes 244 244 b0)]; by apply not_ascii. Qed.

Lemma ascii_width b : char_width b <> 1%nat -> ascii b = false.
Proof. unfold char_width, ascii. by destruct (in_bytes 0 127 b). Qed.

Lemma step_bad_ascii b l k : utf8_step (b :: l) = (false, k) -> ascii_count (take k (b :: l)) = 0%nat.
Proof.
  unfold utf8_step. intros H.
  assert (Hb : ascii b = false) by (apply ascii_width; intros Hw; by rewrite Hw in H).
  step_cases H; simplify_eq; cbn [take]; rewrite !ascii_count_cons, Hb; try done;
    repeat match goal with
    | E : cont _ = true |- _ => apply not_ascii_cont in E
    | E : second3 _ _ = true |- _ => apply not_ascii_second3 in E
    | E : second4 _ _ = true |- _ => apply not_ascii_second4 in E
    end;
    repeat match goal with E : ascii _ = false |- _ => rewrite E; clear E end; done.
Qed.

Lemma lossy_ascii l : ascii_count (from_utf8_lossy l) = ascii_count l.
Proof.
  induction l as [|b l ok k Hs IH] using utf8_ind; [done|].
  rewrite lossy_cons, Hs, ascii_count_app, IH.
  rewrite <- (take_drop k (b :: l)) at 3. rewrite ascii_count_app. f_equal.
  destruct ok; [done|]. by rewrite (step_bad_ascii _ _ _ Hs).
Qed.
