(* ===== verification/Protocol.v ===== *)
(** * The wire protocol ([master/src/protocol.rs])

    Frames are little-endian byte strings.  A reader ([impl AsyncRead]) is the
    list of bytes its peer sends before the connection ends: [read_exact] takes
    a prefix of it or fails with the I/O error.  A writer's [write_vectored] is
    an argument of the functions that call it: it takes as many bytes of the
    slices as it wants, as the trait documents.

    The first part holds the definitions, in the order of the source file, the
    second the codec lemmas, the third the properties and their witnesses. *)

From S2P Require Import Prelude Utf8.

(** ** Constants *)

Definition MAGIC_CONSUMER_READY : list byte := as_bytes "CRDY".
Definition MAGIC_PUB : list byte := as_bytes "PUB!".
Definition MAGIC_PUB_BATCH : list byte := as_bytes "PUBB".
Definition MAGIC_BATCH : list byte := as_bytes "BATC".
Definition MAGIC_ERR : list byte := as_bytes "ERR!".
Definition MAGIC_PRODUCER_READY : list byte := as_bytes "PRDY".
Definition MAGIC_REGISTER : list byte := as_bytes "REG!".
Definition MAGIC_ASSIGN : list byte := as_bytes "ASGN".
Definition MAGIC_DELIVERED : list byte := as_bytes "DELV".
Definition MAGIC_FAILED : list byte := as_bytes "FAIL".
Definition MAGIC_HEARTBEAT : list byte := as_bytes "HBRP".

Definition MAX_INGRESS_ITEM_BYTES : Z := 32 * 1024 * 1024.
Definition MAX_INGRESS_BATCH_FRAME_BYTES : Z := 64 * 1024 * 1024.

Definition ERR_BUSY : Z := 1.
Definition ERR_PROTOCOL : Z := 2.

(** ** Errors and readers *)

(** An [anyhow] error: the I/O failure of [read_exact] or of a write, or the
    message of a [bail!] with the numbers it formats. *)
Inductive error : Type :=
| ReadExact
| WriteError
| Bail (msg : string) (args : list Z).

Definition bail {A} (msg : string) : result error A := Err (Bail msg []).

(** A reader takes the bytes still to come and gives a value and the rest. *)
Definition reader (A : Type) : Type := list byte -> result error (A * list byte).

Definition ret {A} (a : A) : reader A := fun s => Ok (a, s).
Definition fail {A} (e : error) : reader A := fun _ => Err e.
Definition bind {A B} (m : reader A) (k : A -> reader B) : reader B :=
  fun s => match m s with Ok (a, s') => k a s' | Err e => Err e end.

Notation "'let!' x := m 'in' k" := (bind m (fun x => k))
  (at level 10, x pattern, m at level 100, k at level 200) : cupid_scope.

(** A value of the pure parsers inside a reader. *)
Definition lift {A} (r : result error A) : reader A :=
  match r with Ok a => ret a | Err e => fail e end.

Definition read_exact (n : nat) : reader (list byte) :=
  fun s => if (n <=? length s)%nat then Ok (take n s, drop n s) else Err ReadExact.

(** [&buf[off..off + n]] *)
Definition slice (off n : nat) (bs : list byte) : list byte := take n (drop off bs).

Definition u_at (n off : nat) (bs : list byte) : Z := from_le (slice off n bs).

Definition bytes_eqb (xs ys : list byte) : bool := bool_decide (xs = ys).

(** ** Messages *)

Record ReadyRequest := { rr_max_items : Z; rr_consumer_tag : string }.

Record AssignRequest :=
  { ar_max_items : Z; ar_consumer_tag : string; ar_data_addr : string }.

Record DeliveryReport := { dr_msg_count : Z; dr_batch_bytes : Z }.

Record FailureReport :=
  { fr_msg_count : Z; fr_batch_bytes : Z; fr_code : Z; fr_message : string }.

Record ProducerHeartbeat :=
  { hb_pending_messages : Z; hb_pending_bytes : Z;
    hb_ring_messages : Z; hb_ring_bytes : Z; hb_drops_total : Z }.

(** ** Batches *)

Definition inner_batch_payload_len (items : list (list byte)) : Z :=
  2 + foldr (fun i acc => 4 + blen i + acc) 0 items.

Definition encode_item (b : list byte) : list byte := to_le 4 (wrap 32 (blen b)) ++ b.

Arguments encode_item : simpl never.

Definition encode_batch_payload (items : list (list byte)) : list byte :=
  to_le 2 (wrap 16 (Z.of_nat (length items))) ++ concat (map encode_item items).

Definition encode_framed_batch (magic : list byte) (items : list (list byte)) : list byte :=
  let payload := encode_batch_payload items in
  magic ++ to_le 2 (wrap 16 (Z.of_nat (length items))) ++ to_le 4 (wrap 32 (blen payload)) ++ payload.

Definition encode_batch (items : list (list byte)) : list byte :=
  encode_framed_batch MAGIC_BATCH items.

(** The gather list handed to [write_vectored]. *)
Definition batch_slices (magic : list byte) (items : list (list byte)) : list (list byte) :=
  let outer_count := to_le 2 (wrap 16 (Z.of_nat (length items))) in
  let payload_len_bytes := to_le 4 (wrap 32 (inner_batch_payload_len items)) in
  [magic; outer_count; payload_len_bytes; outer_count] ++
  concat (map (fun item => [to_le 4 (wrap 32 (blen item)); item]) items).

(** [write_vectored] returns how many bytes it took: the bytes on the stream
    are that prefix of the slices. *)
Definition write_framed_batch_vectored (write_vectored : list (list byte) -> result error nat)
    (magic : list byte) (items : list (list byte)) : list byte * result error Z :=
  let payload_len := wrap 32 (inner_batch_payload_len items) in
  let slices := batch_slices magic items in
  match write_vectored slices with
  | Ok n => (take n (concat slices), Ok (10 + payload_len))
  | Err e => ([], Err e)
  end.

Definition write_batch_vectored (write_vectored : list (list byte) -> result error nat)
    (items : list (list byte)) : list byte * result error Z :=
  write_framed_batch_vectored write_vectored MAGIC_BATCH items.

Definition read_batch_frame : reader (list byte) :=
  let! magic := read_exact 4 in
  if negb (bytes_eqb magic MAGIC_BATCH) then fail (Bail "expected BATC magic" [])
  else
    let! hdr := read_exact 6 in
    let payload_len := u_at 4 2 hdr in
    if MAX_INGRESS_BATCH_FRAME_BYTES <? payload_len
    then fail (Bail "batch payload too large" [payload_len])
    else if 0 <? payload_len then read_exact (Z.to_nat payload_len) else ret [].

Definition batch_wire_bytes (items : list (list byte)) : Z := 10 + inner_batch_payload_len items.

(** ** Control frames *)


Definition encode_error (code : Z) (message : string) : list byte :=
  let msg := as_bytes message in
  let msg_len := Z.min (blen msg) (umax 16) in
  MAGIC_ERR ++ to_le 2 code ++ to_le 2 msg_len ++ take (Z.to_nat msg_len) msg.

Definition parse_ready_header (body : list byte) : result error (Z * Z) :=
  if blen body <? 4 then bail "CRDY header too short (expected 4 bytes)"
  else Ok (u_at 2 0 body, u_at 2 2 body).

Definition read_utf8_field (len : Z) (field : string) : reader string :=
  if len =? 0 then ret ""%string
  else if 256 <? len then fail (Bail ("CRDY " +:+ field +:+ " too long") [])
  else
    let! buf := read_exact (Z.to_nat len) in
    ret (string_of_list_byte (from_utf8_lossy buf)).

Definition read_consumer_ready_request : reader ReadyRequest :=
  let! prefix := read_exact 8 in
  if negb (bytes_eqb (take 4 prefix) MAGIC_CONSUMER_READY) then fail (Bail "expected CRDY magic" [])
  else
    let! (max_items, tag_len) := lift (parse_ready_header (slice 4 4 prefix)) in
    let! consumer_tag := read_utf8_field tag_len "consumer_tag" in
    ret {| rr_max_items := max_items; rr_consumer_tag := consumer_tag |}.

Definition parse_ready (body : list byte) : result error ReadyRequest :=
  if blen body <? 8 then bail "CRDY frame too short"
  else if negb (bytes_eqb (take 4 body) MAGIC_CONSUMER_READY) then bail "expected CRDY magic"
  else
    let? (max_items, tag_len) := parse_ready_header (slice 4 4 body) in
    if blen body <? 8 + tag_len then bail "CRDY frame too short for consumer_tag"
    else
      let consumer_tag :=
        if tag_len =? 0 then ""%string
        else string_of_list_byte (from_utf8_lossy (slice 8 (Z.to_nat tag_len) body)) in
      Ok {| rr_max_items := max_items; rr_consumer_tag := consumer_tag |}.

Definition parse_pub_payload_len (header : list byte) : result error Z :=
  if blen header <? 8 then bail "PUB header too short" else Ok (u_at 4 4 header).

Definition batch_item_count (payload : list byte) : result error nat :=
  if blen payload <? 2 then bail "batch payload too short"
  else Ok (Z.to_nat (u_at 2 0 payload)).

(** The loop of [parse_batch_payload_items], from [offset]. *)
Fixpoint parse_items (count : nat) (payload : list byte) (offset : nat) :
    result error (list (list byte)) :=
  match count with
  | O => Ok []
  | S n =>
    if (length payload <? offset + 4)%nat then bail "batch payload truncated at item len"
    else
      let item_len := u_at 4 offset payload in
      let offset := (offset + 4)%nat in
      if (item_len =? 0) || (MAX_INGRESS_ITEM_BYTES <? item_len)
      then Err (Bail "invalid batch item len" [item_len])
      else if blen payload <? Z.of_nat offset + item_len
      then bail "batch payload truncated at item body"
      else
        let k := Z.to_nat item_len in
        let? rest := parse_items n payload (offset + k)%nat in
        Ok (slice offset k payload :: rest)
  end.

Definition parse_batch_payload_items (payload : list byte) : result error (list (list byte)) :=
  let? count := batch_item_count payload in
  parse_items count payload 2%nat.

Definition read_pub_batch_body : reader (list (list byte)) :=
  let! hdr := read_exact 6 in
  let outer_count := u_at 2 0 hdr in
  let payload_len := u_at 4 2 hdr in
  if (payload_len =? 0) || (MAX_INGRESS_BATCH_FRAME_BYTES <? payload_len)
  then fail (Bail "invalid PUBB payload len" [payload_len])
  else
    let! payload := read_exact (Z.to_nat payload_len) in
    let! items := lift (parse_batch_payload_items payload) in
    if negb (Z.of_nat (length items) =? outer_count)
    then fail (Bail "PUBB count mismatch" [outer_count; Z.of_nat (length items)])
    else ret items.

Definition read_ingress_items : reader (list (list byte)) :=
  let! magic := read_exact 4 in
  if bytes_eqb magic MAGIC_PUB then
    let! len_buf := read_exact 4 in
    let len := from_le len_buf in
    if (len =? 0) || (MAX_INGRESS_ITEM_BYTES <? len)
    then fail (Bail "invalid PUB payload len" [len])
    else
      let! payload := read_exact (Z.to_nat len) in
      ret [payload]
  else if bytes_eqb magic MAGIC_PUB_BATCH then read_pub_batch_body
  else fail (Bail "unknown ingress magic" (map byte.unsigned magic)).

Definition read_pub_item : reader (list byte) :=
  let! items := read_ingress_items in
  match items with
  | [item] => ret item
  | _ => fail (Bail "read_pub_item expected single item, got" [Z.of_nat (length items)])
  end.

Definition encode_pub_batch (items : list (list byte)) : list byte :=
  encode_framed_batch MAGIC_PUB_BATCH items.

Definition write_pub_batch_vectored (write_vectored : list (list byte) -> result error nat)
    (items : list (list byte)) : list byte * result error Z :=
  match items with
  | [] => ([], bail "PUBB requires at least one item")
  | _ :: _ =>
    if umax 16 <? Z.of_nat (length items) then ([], bail "PUBB item count overflow")
    else write_framed_batch_vectored write_vectored MAGIC_PUB_BATCH items
  end.

Definition pub_batch_wire_bytes (items : list (list byte)) : Z := batch_wire_bytes items.

Definition encode_consumer_ready (max_items : Z) (consumer_tag : string) : result error (list byte) :=
  let tag := as_bytes consumer_tag in
  if umax 16 <? blen tag then bail "consumer_tag too long"
  else Ok (MAGIC_CONSUMER_READY ++ to_le 2 max_items ++ to_le 2 (wrap 16 (blen tag)) ++ tag).

Definition encode_register (data_addr : string) : result error (list byte) :=
  let addr := as_bytes data_addr in
  if (blen addr =? 0) || (umax 16 <? blen addr) then bail "invalid data_addr len"
  else Ok (MAGIC_REGISTER ++ to_le 2 (wrap 16 (blen addr)) ++ addr).

Definition read_register_payload : reader string :=
  let! len_buf := read_exact 2 in
  let len := from_le len_buf in
  if (len =? 0) || (256 <? len) then fail (Bail "invalid REG data_addr len" [len])
  else
    let! buf := read_exact (Z.to_nat len) in
    ret (string_of_list_byte (from_utf8_lossy buf)).

(** The shape every [read_*] of a frame with its magic has. *)
Definition expect_magic {A} (magic : list byte) (msg : string) (k : reader A) : reader A :=
  let! m := read_exact 4 in
  if negb (bytes_eqb m magic) then fail (Bail msg []) else k.

Definition read_register : reader string :=
  expect_magic MAGIC_REGISTER "expected REG! magic" read_register_payload.

Definition encode_assign (req : AssignRequest) : result error (list byte) :=
  let tag := as_bytes (ar_consumer_tag req) in
  let data := as_bytes (ar_data_addr req) in
  if (umax 16 <? blen tag) || (blen data =? 0) || (umax 16 <? blen data)
  then bail "invalid assign field len"
  else Ok (MAGIC_ASSIGN ++ to_le 2 (ar_max_items req) ++ to_le 2 (wrap 16 (blen tag)) ++ tag
           ++ to_le 2 (wrap 16 (blen data)) ++ data).

Definition read_assign_payload : reader AssignRequest :=
  let! hdr := read_exact 4 in
  let max_items := u_at 2 0 hdr in
  let tag_len := u_at 2 2 hdr in
  let! consumer_tag := read_utf8_field tag_len "consumer_tag" in
  let! data_len_buf := read_exact 2 in
  let! data_addr := read_utf8_field (from_le data_len_buf) "data_addr" in
  if String.eqb data_addr "" then fail (Bail "assign data_addr empty" [])
  else ret {| ar_max_items := max_items; ar_consumer_tag := consumer_tag;
              ar_data_addr := data_addr |}.

Definition read_assign : reader AssignRequest :=
  expect_magic MAGIC_ASSIGN "expected ASGN magic" read_assign_payload.

Definition encode_producer_ready : list byte := MAGIC_PRODUCER_READY.

Definition encode_heartbeat (report : ProducerHeartbeat) : list byte :=
  MAGIC_HEARTBEAT ++ to_le 4 (hb_pending_messages report) ++ to_le 4 (hb_pending_bytes report)
  ++ to_le 4 (hb_ring_messages report) ++ to_le 4 (hb_ring_bytes report)
  ++ to_le 8 (hb_drops_total report).

Definition read_heartbeat_payload : reader ProducerHeartbeat :=
  let! body := read_exact 24 in
  ret {| hb_pending_messages := u_at 4 0 body; hb_pending_bytes := u_at 4 4 body;
         hb_ring_messages := u_at 4 8 body; hb_ring_bytes := u_at 4 12 body;
         hb_drops_total := u_at 8 16 body |}.

Definition read_heartbeat : reader ProducerHeartbeat :=
  expect_magic MAGIC_HEARTBEAT "expected HBRP magic" read_heartbeat_payload.

Definition read_producer_ready : reader unit :=
  expect_magic MAGIC_PRODUCER_READY "expected PRDY magic" (ret tt).

Definition encode_delivered (report : DeliveryReport) : list byte :=
  MAGIC_DELIVERED ++ to_le 2 (dr_msg_count report) ++ to_le 4 (dr_batch_bytes report).

Definition read_delivery_report_payload : reader DeliveryReport :=
  let! body := read_exact 6 in
  ret {| dr_msg_count := u_at 2 0 body; dr_batch_bytes := u_at 4 2 body |}.

Definition read_delivered : reader DeliveryReport :=
  expect_magic MAGIC_DELIVERED "expected DELV magic" read_delivery_report_payload.

Definition encode_failed (report : FailureReport) : list byte :=
  let msg := as_bytes (fr_message report) in
  let msg_len := Z.min (blen msg) (umax 16) in
  MAGIC_FAILED ++ to_le 2 (fr_msg_count report) ++ to_le 4 (fr_batch_bytes report)
  ++ to_le 2 (fr_code report) ++ to_le 2 msg_len ++ take (Z.to_nat msg_len) msg.

Definition read_failure_report_payload : reader FailureReport :=
  let! hdr := read_exact 10 in
  let! message := read_utf8_field (u_at 2 8 hdr) "fail_message" in
  ret {| fr_msg_count := u_at 2 0 hdr; fr_batch_bytes := u_at 4 2 hdr;
         fr_code := u_at 2 6 hdr; fr_message := message |}.

Definition read_failed : reader FailureReport :=
  expect_magic MAGIC_FAILED "expected FAIL magic" read_failure_report_payload.

(** ** Codec lemmas *)

Lemma bind_ok {A B} (m : reader A) (k : A -> reader B) s b s' :
  bind m k s = Ok (b, s') <-> exists a s1, m s = Ok (a, s1) /\ k a s1 = Ok (b, s').
Proof. unfold bind. destruct (m s) as [[a s1]|e]; naive_solver. Qed.

Lemma read_exact_app n bs rest : length bs = n -> read_exact n (bs ++ rest) = Ok (bs, rest).
Proof.
  intros Hn. unfold read_exact. rewrite length_app.
  destruct (Nat.leb_spec n (length bs + length rest)); [|lia].
  by rewrite take_app_blen, drop_app_blen.
Qed.

Lemma read_exact_ok n s bs rest :
  read_exact n s = Ok (bs, rest) <-> s = bs ++ rest /\ length bs = n.
Proof.
  split.
  - unfold read_exact. destruct (Nat.leb_spec n (length s)); [|done]. intros [= <- <-].
    rewrite take_drop, length_take. split; [done|lia].
  - intros [-> ?]. by apply read_exact_app.
Qed.

Lemma bind_read_exact {A} n bs rest (k : list byte -> reader A) :
  length bs = n -> bind (read_exact n) k (bs ++ rest) = k bs rest.
Proof. intros ?. unfold bind. by rewrite read_exact_app. Qed.

Lemma bytes_eqb_refl xs : bytes_eqb xs xs = true.
Proof. by apply bool_decide_eq_true. Qed.

Lemma bytes_eqb_true xs ys : bytes_eqb xs ys = true <-> xs = ys.
Proof. apply bool_decide_eq_true. Qed.

Lemma slice_mid off n (xs m ys : list byte) :
  length xs = off -> length m = n -> slice off n (xs ++ m ++ ys) = m.
Proof. intros. unfold slice. rewrite drop_app_blen by done. by apply take_app_blen. Qed.

(** A little-endian field at its offset: what was encoded, cut to its width. *)
Lemma u_at_mid n off xs z ys :
  length xs = off -> u_at n off (xs ++ to_le n z ++ ys) = wrap (Z.of_nat n * 8) z.
Proof. intros. unfold u_at. rewrite slice_mid by auto using length_to_le. apply from_to_le. Qed.

Lemma u_at_head n z ys : u_at n 0 (to_le n z ++ ys) = wrap (Z.of_nat n * 8) z.
Proof. by apply (u_at_mid n 0 []). Qed.

Lemma u_at_only n z : u_at n 0 (to_le n z) = wrap (Z.of_nat n * 8) z.
Proof. rewrite <- (app_nil_r (to_le n z)). apply u_at_head. Qed.

Lemma u_at_skip n off k z ys :
  (k <= off)%nat -> u_at n off (to_le k z ++ ys) = u_at n (off - k) ys.
Proof.
  intros. unfold u_at, slice. do 2 f_equal.
  rewrite drop_app, drop_ge by (rewrite length_to_le; lia). by rewrite length_to_le.
Qed.

Lemma u_at_range n off bs : in_u (8 * Z.of_nat n) (u_at n off bs).
Proof.
  unfold u_at. pose proof (from_le_range (slice off n bs)) as H. unfold in_u, umax in *.
  assert (length (slice off n bs) <= n)%nat by (unfold slice; rewrite length_take; lia).
  pose proof (Z.pow_le_mono_r 2 (8 * Z.of_nat (length (slice off n bs))) (8 * Z.of_nat n)
                ltac:(lia) ltac:(lia)). lia.
Qed.

Lemma expect_magic_app {A} magic msg (k : reader A) rest :
  length magic = 4%nat -> expect_magic magic msg k (magic ++ rest) = k rest.
Proof.
  intros. unfold expect_magic. rewrite bind_read_exact by done. by rewrite bytes_eqb_refl.
Qed.

(** A string field of at most 256 bytes is read back, up to UTF-8 repair. *)
Lemma read_utf8_field_app field bs rest :
  blen bs <= 256 ->
  read_utf8_field (blen bs) field (bs ++ rest) =
    Ok (string_of_list_byte (from_utf8_lossy bs), rest).
Proof.
  intros Hlen. unfold read_utf8_field. case_eq (blen bs =? 0); intros H0.
  - apply Z.eqb_eq, blen_0 in H0. by subst.
  - destruct (Z.ltb_spec 256 (blen bs)); [lia|].
    rewrite bind_read_exact by (unfold blen; lia). reflexivity.
Qed.

Lemma read_utf8_field_string field s rest :
  slen s <= 256 -> utf8_valid (as_bytes s) = true ->
  read_utf8_field (slen s) field (as_bytes s ++ rest) = Ok (s, rest).
Proof.
  intros. unfold slen. rewrite read_utf8_field_app by done.
  rewrite lossy_valid_id by done. by rewrite of_bytes_as_bytes.
Qed.

Lemma read_utf8_field_long field len s :
  256 < len -> read_utf8_field len field s = Err (Bail ("CRDY " +:+ field +:+ " too long") []).
Proof.
  intros. unfold read_utf8_field. destruct (Z.eqb_spec len 0); [lia|].
  destruct (Z.ltb_spec 256 len); [done|lia].
Qed.

(** *** Batches *)

(** What the parser accepts as an item. *)
Definition item_ok (b : list byte) : Prop := 1 <= blen b <= MAX_INGRESS_ITEM_BYTES.

Lemma blen_encode_item b : blen (encode_item b) = 4 + blen b.
Proof. unfold encode_item. by autorewrite with cupid. Qed.

Lemma inner_batch_payload_len_spec items :
  inner_batch_payload_len items = blen (encode_batch_payload items).
Proof.
  unfold inner_batch_payload_len, encode_batch_payload. rewrite blen_app, blen_to_le. f_equal.
  induction items as [|i items IH]; [done|]. cbn [foldr map concat].
  rewrite blen_app, blen_encode_item, <- IH. lia.
Qed.

Lemma inner_batch_payload_len_total items :
  inner_batch_payload_len items = 2 + 4 * Z.of_nat (length items) + total_len items.
Proof.
  unfold inner_batch_payload_len. induction items as [|i items IH]; simpl in *; lia.
Qed.

Lemma encode_batch_payload_ge items : 2 <= blen (encode_batch_payload items).
Proof.
  rewrite <- inner_batch_payload_len_spec, inner_batch_payload_len_total.
  pose proof (total_len_nonneg items). lia.
Qed.

Lemma item_len_field b : item_ok b -> wrap 32 (wrap 32 (blen b)) = blen b.
Proof.
  unfold item_ok, MAX_INGRESS_ITEM_BYTES. intros.
  assert (in_u 32 (blen b)) by (unfold in_u, umax; lia).
  by rewrite !wrap_small by (rewrite ?wrap_small; done).
Qed.

(** One turn of the loop on an item laid out at [offset]. *)
Lemma parse_items_step n pre i rest :
  item_ok i ->
  parse_items (S n) (pre ++ encode_item i ++ rest) (length pre) =
    (let? items := parse_items n ((pre ++ encode_item i) ++ rest) (length (pre ++ encode_item i)) in
     Ok (i :: items)).
Proof.
  intros Hi. pose proof (item_len_field i Hi) as Hw. unfold item_ok in Hi.
  cbn [parse_items]. unfold encode_item. rewrite <- (app_assoc (to_le 4 _)).
  rewrite u_at_mid by done. change (Z.of_nat 4 * 8) with 32. rewrite Hw.
  rewrite !length_app, length_to_le, !blen_app, blen_to_le.
  replace (length pre + (4 + (length i + length rest)) <? length pre + 4)%nat with false
    by (symmetry; apply Nat.ltb_ge; lia).
  replace (blen i =? 0) with false by (symmetry; apply Z.eqb_neq; lia).
  replace (MAX_INGRESS_ITEM_BYTES <? blen i) with false by (symmetry; apply Z.ltb_ge; lia).
  cbn [orb].
  match goal with |- context [if ?c then _ else _] =>
    replace c with false by (symmetry; apply Z.ltb_ge; unfold blen; lia) end.
  replace (Z.to_nat (blen i)) with (length i) by (unfold blen; lia).
  rewrite <- Nat.add_assoc, <- !app_assoc. f_equal.
  rewrite app_assoc, slice_mid; [done| |done]. by rewrite length_app, length_to_le.
Qed.

Lemma parse_items_encode items pre tail :
  Forall item_ok items ->
  parse_items (length items) (pre ++ concat (map encode_item items) ++ tail) (length pre)
    = Ok items.
Proof.
  intros Hf. revert pre. induction Hf as [|i items Hi Hf IH]; intros pre; [done|].
  cbn [length map concat]. rewrite <- (app_assoc (encode_item i)).
  rewrite parse_items_step by done. by rewrite IH.
Qed.

Lemma parse_items_sound n payload off items :
  (off <= length payload)%nat ->
  parse_items n payload off = Ok items ->
  length items = n /\ Forall item_ok items /\
  exists tail, drop off payload = concat (map encode_item items) ++ tail.
Proof.
  revert off items. induction n as [|n IH]; intros off items Hoff.
  { intros [= <-]. split_and!; [done|constructor|]. by exists (drop off payload). }
  cbn [parse_items]. destruct (Nat.ltb_spec (length payload) (off + 4)) as [|Hlen]; [done|].
  set (len := u_at 4 off payload).
  destruct ((len =? 0) || (MAX_INGRESS_ITEM_BYTES <? len)) eqn:Hr; [done|].
  apply orb_false_iff in Hr as [Hne%Z.eqb_neq Hmax%Z.ltb_ge].
  destruct (Z.ltb_spec (blen payload) (Z.of_nat (off + 4) + len)) as [|Hbody]; [done|].
  pose proof (u_at_range 4 off payload) as Hrange. fold len in Hrange. unfold in_u, umax in Hrange.
  unfold blen in Hbody. rewrite res_bind_ok. intros (rest & Hrest & [= <-]).
  apply IH in Hrest as (Hl & Hf & tail & Htail); [|lia].
  set (body := slice (off + 4) (Z.to_nat len) payload).
  assert (Hbl : blen body = len).
  { unfold blen, body, slice. rewrite length_take, length_drop. lia. }
  split_and!; [simpl; by rewrite Hl|constructor; [|done]; unfold item_ok; lia|].
  exists tail. cbn [map concat]. rewrite <- app_assoc, <- Htail. unfold encode_item.
  rewrite Hbl, (wrap_small 32) by (unfold in_u, umax; lia).
  unfold len, u_at. rewrite to_from_le by (unfold slice; rewrite length_take, length_drop; lia).
  unfold body, slice. rewrite <- !app_assoc, <- !drop_drop, (take_drop (Z.to_nat _)).
  by rewrite take_drop.
Qed.

Lemma parse_batch_payload_items_complete items tail :
  Forall item_ok items -> Z.of_nat (length items) <= umax 16 ->
  parse_batch_payload_items (encode_batch_payload items ++ tail) = Ok items.
Proof.
  intros Hf Hn. unfold parse_batch_payload_items, batch_item_count, encode_batch_payload.
  rewrite <- app_assoc, blen_app, blen_to_le.
  pose proof (blen_nonneg (concat (map encode_item items) ++ tail)).
  destruct (Z.ltb_spec (Z.of_nat 2 + blen (concat (map encode_item items) ++ tail)) 2); [lia|].
  rewrite u_at_head. change (Z.of_nat 2 * 8) with 16.
  rewrite !(wrap_small 16) by (rewrite ?wrap_small; unfold in_u; lia).
  rewrite Nat2Z.id. cbn [res_bind].
  rewrite <- (length_to_le 2 (Z.of_nat (length items))). by apply parse_items_encode.
Qed.

(** The header of a frame and its payload, read back. *)
Lemma read_batch_frame_app cnt payload rest :
  length cnt = 2%nat -> blen payload <= MAX_INGRESS_BATCH_FRAME_BYTES ->
  read_batch_frame (MAGIC_BATCH ++ cnt ++ to_le 4 (blen payload) ++ payload ++ rest)
    = Ok (payload, rest).
Proof.
  intros Hcnt Hmax. unfold read_batch_frame. rewrite bind_read_exact by done.
  rewrite bytes_eqb_refl. cbn [negb]. rewrite (app_assoc cnt).
  rewrite bind_read_exact by (by rewrite length_app, length_to_le, Hcnt).
  rewrite <- (app_nil_r (cnt ++ _)), <- app_assoc, u_at_mid by done. pose proof (blen_nonneg payload).
  unfold MAX_INGRESS_BATCH_FRAME_BYTES in *.
  change (Z.of_nat 4 * 8) with 32. rewrite wrap_small by (unfold in_u, umax; lia).
  destruct (Z.ltb_spec (64 * 1024 * 1024) (blen payload)); [lia|].
  destruct (Z.ltb_spec 0 (blen payload)).
  - apply read_exact_app. unfold blen. lia.
  - assert (payload = []) as -> by (apply blen_0; lia). done.
Qed.

Lemma read_batch_frame_too_large cnt len rest :
  length cnt = 2%nat -> MAX_INGRESS_BATCH_FRAME_BYTES < len <= umax 32 ->
  read_batch_frame (MAGIC_BATCH ++ cnt ++ to_le 4 len ++ rest)
    = Err (Bail "batch payload too large" [len]).
Proof.
  intros Hcnt Hmax. unfold read_batch_frame. rewrite bind_read_exact by done.
  rewrite bytes_eqb_refl. cbn [negb]. rewrite (app_assoc cnt).
  rewrite bind_read_exact by (by rewrite length_app, length_to_le, Hcnt).
  rewrite <- (app_nil_r (cnt ++ _)), <- app_assoc, u_at_mid by done. unfold MAX_INGRESS_BATCH_FRAME_BYTES in *.
  change (Z.of_nat 4 * 8) with 32. rewrite wrap_small by (unfold in_u; lia).
  destruct (Z.ltb_spec (64 * 1024 * 1024) len); [done|lia].
Qed.

Lemma encode_batch_shape items rest :
  inner_batch_payload_len items <= umax 32 ->
  exists cnt, length cnt = 2%nat /\
  encode_batch items ++ rest =
    MAGIC_BATCH ++ cnt ++ to_le 4 (inner_batch_payload_len items) ++ encode_batch_payload items ++ rest.
Proof.
  intros Hmax. exists (to_le 2 (wrap 16 (Z.of_nat (length items)))).
  split; [apply length_to_le|]. unfold encode_batch, encode_framed_batch.
  rewrite <- inner_batch_payload_len_spec, (wrap_small 32).
  - by rewrite <- !app_assoc.
  - unfold in_u. rewrite inner_batch_payload_len_spec in *. pose proof (blen_nonneg (encode_batch_payload items)). lia.
Qed.

(** The gather list is the contiguous frame. *)
Lemma batch_slices_concat magic items :
  concat (batch_slices magic items) = encode_framed_batch magic items.
Proof.
  unfold batch_slices, encode_framed_batch, encode_batch_payload at 2.
  rewrite inner_batch_payload_len_spec. cbn [app concat]. do 4 f_equal.
  induction items as [|i items IH]; [done|]. cbn [map concat app].
  rewrite IH. unfold encode_item. by rewrite <- !app_assoc.
Qed.

Lemma blen_encode_batch items : blen (encode_batch items) = batch_wire_bytes items.
Proof.
  unfold encode_batch, encode_framed_batch, batch_wire_bytes.
  rewrite !blen_app, !blen_to_le, inner_batch_payload_len_spec.
  change (blen MAGIC_BATCH) with 4. lia.
Qed.

(** *** Control frames *)

(** [field_at]: read a little-endian field of a header written as a concatenation
    of fields; [fields] reads them all and drops the cuts their ranges make idle. *)
Ltac field_at :=
  match goal with
  | |- context [u_at ?n 0 (to_le ?n ?z ++ ?ys)] => rewrite (u_at_head n z ys)
  | |- context [u_at ?n 0 (to_le ?n ?z)] => rewrite (u_at_only n z)
  | |- context [u_at ?n ?off (to_le ?k ?z ++ ?ys)] =>
      rewrite (u_at_skip n off k z ys) by lia; cbn [Nat.sub]
  end.

Ltac fields :=
  repeat field_at; rewrite ?from_to_le;
  change (Z.of_nat 2 * 8) with 16; change (Z.of_nat 4 * 8) with 32;
  change (Z.of_nat 8 * 8) with 64;
  repeat (rewrite wrap_small by (rewrite ?wrap_small; eassumption)).

Lemma slen_range s : slen s <= 256 -> in_u 16 (slen s).
Proof. unfold in_u, umax, slen. pose proof (blen_nonneg (as_bytes s)). lia. Qed.

Lemma string_nonempty s : 1 <= slen s -> String.eqb s "" = false.
Proof. intros H. apply String.eqb_neq. intros ->. by cbv in H. Qed.

(** A tag or an address as the wire carries it. *)
Definition wire_string (s : string) : Prop := slen s <= 256 /\ utf8_valid (as_bytes s) = true.

Lemma read_assign_encode m tag addr rest :
  in_u 16 m -> wire_string tag -> wire_string addr -> 1 <= slen addr ->
  exists frame,
    encode_assign {| ar_max_items := m; ar_consumer_tag := tag; ar_data_addr := addr |} = Ok frame /\
    read_assign (frame ++ rest)
      = Ok ({| ar_max_items := m; ar_consumer_tag := tag; ar_data_addr := addr |}, rest).
Proof.
  intros Hm [Ht Htv] [Ha Hav] Hne. pose proof (slen_range _ Ht). pose proof (slen_range _ Ha).
  unfold encode_assign. cbn [ar_consumer_tag ar_data_addr ar_max_items].
  change (blen (as_bytes tag)) with (slen tag). change (blen (as_bytes addr)) with (slen addr).
  destruct (Z.ltb_spec (umax 16) (slen tag)); [unfold in_u in *; lia|].
  destruct (Z.eqb_spec (slen addr) 0); [lia|].
  destruct (Z.ltb_spec (umax 16) (slen addr)); [unfold in_u in *; lia|].
  cbn [orb]. eexists; split; [done|]. unfold read_assign. rewrite <- !app_assoc.
  rewrite expect_magic_app by done. unfold read_assign_payload.
  rewrite (app_assoc (to_le 2 m)), bind_read_exact by (by rewrite length_app, !length_to_le).
  fields.
  unfold bind at 1. rewrite read_utf8_field_string by done.
  rewrite bind_read_exact by apply length_to_le.
  fields.
  unfold bind at 1. rewrite read_utf8_field_string by done. by rewrite string_nonempty.
Qed.

Lemma read_ready_encode m tag rest :
  in_u 16 m -> wire_string tag ->
  exists frame, encode_consumer_ready m tag = Ok frame /\
    read_consumer_ready_request (frame ++ rest)
      = Ok ({| rr_max_items := m; rr_consumer_tag := tag |}, rest).
Proof.
  intros Hm [Ht Htv]. pose proof (slen_range _ Ht).
  unfold encode_consumer_ready. change (blen (as_bytes tag)) with (slen tag).
  destruct (Z.ltb_spec (umax 16) (slen tag)); [unfold in_u in *; lia|].
  eexists; split; [done|]. unfold read_consumer_ready_request. rewrite <- !app_assoc.
  set (hdr := to_le 2 m ++ to_le 2 (wrap 16 (slen tag))).
  assert (Hh : length hdr = 4%nat) by (unfold hdr; by rewrite length_app, !length_to_le).
  rewrite (app_assoc (to_le 2 m)). fold hdr. rewrite (app_assoc MAGIC_CONSUMER_READY).
  rewrite bind_read_exact by (by rewrite length_app, Hh).
  rewrite take_app_blen, bytes_eqb_refl by done. cbn [negb].
  unfold slice. rewrite drop_app_blen, take_ge by (rewrite ?Hh; done).
  unfold parse_ready_header. replace (blen hdr) with 4 by (unfold blen; by rewrite Hh).
  cbn [lift Z.ltb Z.compare Pos.compare Pos.compare_cont].
  unfold hdr. fields. unfold bind, ret. by rewrite read_utf8_field_string.
Qed.

Lemma read_register_encode addr rest :
  wire_string addr -> 1 <= slen addr ->
  exists frame, encode_register addr = Ok frame /\ read_register (frame ++ rest) = Ok (addr, rest).
Proof.
  intros [Ha Hav] Hne. pose proof (slen_range _ Ha).
  unfold encode_register. change (blen (as_bytes addr)) with (slen addr).
  destruct (Z.eqb_spec (slen addr) 0); [lia|].
  destruct (Z.ltb_spec (umax 16) (slen addr)); [unfold in_u in *; lia|].
  cbn [orb]. eexists; split; [done|]. unfold read_register. rewrite <- !app_assoc.
  rewrite expect_magic_app by done. unfold read_register_payload.
  rewrite bind_read_exact by apply length_to_le. fields.
  destruct (Z.eqb_spec (slen addr) 0); [lia|].
  destruct (Z.ltb_spec 256 (slen addr)); [lia|]. cbn [orb].
  rewrite bind_read_exact by (unfold slen, blen; lia). unfold ret.
  by rewrite lossy_valid_id, of_bytes_as_bytes.
Qed.

Lemma read_heartbeat_encode hb rest :
  in_u 32 (hb_pending_messages hb) -> in_u 32 (hb_pending_bytes hb) ->
  in_u 32 (hb_ring_messages hb) -> in_u 32 (hb_ring_bytes hb) -> in_u 64 (hb_drops_total hb) ->
  read_heartbeat (encode_heartbeat hb ++ rest) = Ok (hb, rest).
Proof.
  intros. destruct hb as [pm pb rm rb dr]; cbn [hb_pending_messages hb_pending_bytes
    hb_ring_messages hb_ring_bytes hb_drops_total] in *.
  unfold read_heartbeat, encode_heartbeat. cbn [hb_pending_messages hb_pending_bytes
    hb_ring_messages hb_ring_bytes hb_drops_total].
  rewrite <- app_assoc, expect_magic_app by done. unfold read_heartbeat_payload.
  rewrite bind_read_exact by (by rewrite !length_app, !length_to_le). by fields.
Qed.

Lemma read_delivered_encode r rest :
  in_u 16 (dr_msg_count r) -> in_u 32 (dr_batch_bytes r) ->
  read_delivered (encode_delivered r ++ rest) = Ok (r, rest).
Proof.
  intros. destruct r as [mc bb]; cbn [dr_msg_count dr_batch_bytes] in *.
  unfold read_delivered, encode_delivered; cbn [dr_msg_count dr_batch_bytes].
  rewrite <- app_assoc, expect_magic_app by done. unfold read_delivery_report_payload.
  rewrite bind_read_exact by (by rewrite length_app, !length_to_le). by fields.
Qed.

(** The header of a FAIL frame, then whatever its message field reads as. *)
Lemma read_failed_header r rest :
  in_u 16 (fr_msg_count r) -> in_u 32 (fr_batch_bytes r) -> in_u 16 (fr_code r) ->
  in_u 16 (slen (fr_message r)) ->
  read_failed (encode_failed r ++ rest) =
    bind (read_utf8_field (slen (fr_message r)) "fail_message")
      (fun message => ret {| fr_msg_count := fr_msg_count r; fr_batch_bytes := fr_batch_bytes r;
                             fr_code := fr_code r; fr_message := message |})
      (as_bytes (fr_message r) ++ rest).
Proof.
  intros ? ? ? Hl. destruct r as [mc bb cd msg];
    cbn [fr_msg_count fr_batch_bytes fr_code fr_message] in *.
  unfold read_failed, encode_failed; cbn [fr_msg_count fr_batch_bytes fr_code fr_message].
  change (blen (as_bytes msg)) with (slen msg).
  rewrite Z.min_l by (unfold in_u in *; lia).
  rewrite take_ge by (unfold slen, blen; lia). rewrite <- !app_assoc.
  rewrite expect_magic_app by done. unfold read_failure_report_payload.
  rewrite (app_assoc (to_le 2 mc)), (app_assoc (_ ++ to_le 4 bb)), (app_assoc (_ ++ to_le 2 cd)).
  rewrite bind_read_exact by (by rewrite !length_app, !length_to_le).
  rewrite <- !app_assoc. by fields.
Qed.

(** ** Properties *)

(** C14: a batch whose items are nonempty and at most 32 MiB, in a frame of at
    most 64 MiB, is read back by the consumer exactly as it was encoded, and the
    bytes after the frame are left on the stream. *)
Theorem batch_roundtrip items rest :
  Forall item_ok items -> Z.of_nat (length items) <= umax 16 ->
  inner_batch_payload_len items <= MAX_INGRESS_BATCH_FRAME_BYTES ->
  exists payload,
    read_batch_frame (encode_batch items ++ rest) = Ok (payload, rest) /\
    parse_batch_payload_items payload = Ok items.
Proof.
  intros Hf Hn Hmax. exists (encode_batch_payload items). split.
  - destruct (encode_batch_shape items rest) as (cnt & Hc & ->).
    { unfold MAX_INGRESS_BATCH_FRAME_BYTES, umax in *. lia. }
    rewrite inner_batch_payload_len_spec in *. by apply read_batch_frame_app.
  - rewrite <- (app_nil_r (encode_batch_payload items)).
    by apply parse_batch_payload_items_complete.
Qed.

Lemma batch_roundtrip_witness :
  exists payload,
    read_batch_frame (encode_batch [[Byte.x01; Byte.x02]; [Byte.x03]] ++ [Byte.xff])
      = Ok (payload, [Byte.xff]) /\
    parse_batch_payload_items payload = Ok [[Byte.x01; Byte.x02]; [Byte.x03]].
Proof.
  apply batch_roundtrip; [repeat constructor; vm_compute; discriminate|vm_compute; discriminate..].
Defined.

(** C16: the batch parser accepts exactly the encodings of lists of admissible
    items, possibly followed by bytes it ignores: it never makes up, drops,
    reorders or resizes an item, and it never reads outside the payload. *)
Theorem parse_batch_payload_items_spec payload items :
  parse_batch_payload_items payload = Ok items <->
  Forall item_ok items /\ Z.of_nat (length items) <= umax 16 /\
  exists tail, payload = encode_batch_payload items ++ tail.
Proof.
  split; [|intros (? & ? & tail & ->); by apply parse_batch_payload_items_complete].
  unfold parse_batch_payload_items, batch_item_count.
  destruct (Z.ltb_spec (blen payload) 2) as [|Hlen]; [done|]. cbn [res_bind].
  unfold blen in Hlen.
  intros (Hn & Hf & tail & Htail)%parse_items_sound; [|lia].
  pose proof (u_at_range 2 0 payload) as Hr. unfold in_u in Hr.
  change (8 * Z.of_nat 2) with 16 in Hr.
  split_and!; [done|lia|]. exists tail. unfold encode_batch_payload.
  rewrite <- app_assoc, <- Htail, Hn, Z2Nat.id, wrap_small by (unfold in_u; lia).
  unfold u_at. rewrite to_from_le by (unfold slice; rewrite length_take, length_drop; lia).
  unfold slice. rewrite drop_0. by rewrite take_drop.
Qed.

(** An ASGN frame carries the match to the producer unchanged, for every tag
    and address the 256 byte limit of the reader admits. *)
Theorem assign_roundtrip req rest :
  in_u 16 (ar_max_items req) -> wire_string (ar_consumer_tag req) ->
  wire_string (ar_data_addr req) -> 1 <= slen (ar_data_addr req) ->
  exists frame, encode_assign req = Ok frame /\ read_assign (frame ++ rest) = Ok (req, rest).
Proof. destruct req. apply read_assign_encode. Qed.

Lemma assign_roundtrip_witness :
  let req := {| ar_max_items := 32; ar_consumer_tag := "consumer-g0"; ar_data_addr := "127.0.0.1:9760" |} in
  exists frame, encode_assign req = Ok frame /\ read_assign (frame ++ []) = Ok (req, []).
Proof.
  intros req. apply assign_roundtrip; vm_compute; repeat split; discriminate.
Defined.

(** The consumer's frames, CRDY and REG!, are read back by the master as they
    were encoded. *)
Theorem consumer_frames_roundtrip m tag addr rest :
  in_u 16 m -> wire_string tag -> wire_string addr -> 1 <= slen addr ->
  (exists f, encode_consumer_ready m tag = Ok f /\
     read_consumer_ready_request (f ++ rest)
       = Ok ({| rr_max_items := m; rr_consumer_tag := tag |}, rest)) /\
  (exists f, encode_register addr = Ok f /\ read_register (f ++ rest) = Ok (addr, rest)).
Proof. intros. split; [by apply read_ready_encode|by apply read_register_encode]. Qed.

Lemma consumer_frames_roundtrip_witness :
  (exists f, encode_consumer_ready 16 "c" = Ok f /\
     read_consumer_ready_request (f ++ [])
       = Ok ({| rr_max_items := 16; rr_consumer_tag := "c" |}, [])) /\
  (exists f, encode_register "h:1" = Ok f /\ read_register (f ++ []) = Ok ("h:1"%string, [])).
Proof. apply consumer_frames_roundtrip; vm_compute; repeat split; discriminate. Defined.

(** The producer's reports HBRP, DELV and FAIL are read back by the master as
    they were encoded, FAIL for messages of at most 256 bytes. *)
Theorem producer_frames_roundtrip hb d f rest :
  in_u 32 (hb_pending_messages hb) -> in_u 32 (hb_pending_bytes hb) ->
  in_u 32 (hb_ring_messages hb) -> in_u 32 (hb_ring_bytes hb) -> in_u 64 (hb_drops_total hb) ->
  in_u 16 (dr_msg_count d) -> in_u 32 (dr_batch_bytes d) ->
  in_u 16 (fr_msg_count f) -> in_u 32 (fr_batch_bytes f) -> in_u 16 (fr_code f) ->
  wire_string (fr_message f) ->
  read_heartbeat (encode_heartbeat hb ++ rest) = Ok (hb, rest) /\
  read_delivered (encode_delivered d ++ rest) = Ok (d, rest) /\
  read_failed (encode_failed f ++ rest) = Ok (f, rest).
Proof.
  intros ? ? ? ? ? ? ? ? ? ? [Hm Hv]. split_and!.
  - by apply read_heartbeat_encode.
  - by apply read_delivered_encode.
  - rewrite read_failed_header by auto using slen_range. unfold bind, ret.
    rewrite read_utf8_field_string by done. by destruct f.
Qed.

Lemma producer_frames_roundtrip_witness :
  let hb := {| hb_pending_messages := 10; hb_pending_bytes := 1024; hb_ring_messages := 5;
               hb_ring_bytes := 512; hb_drops_total := 3 |} in
  let d := {| dr_msg_count := 2; dr_batch_bytes := 70000 |} in
  let f := {| fr_msg_count := 2; fr_batch_bytes := 70000; fr_code := 0;
              fr_message := "delivery timeout" |} in
  read_heartbeat (encode_heartbeat hb ++ []) = Ok (hb, []) /\
  read_delivered (encode_delivered d ++ []) = Ok (d, []) /\
  read_failed (encode_failed f ++ []) = Ok (f, []).
Proof. intros hb d f. apply producer_frames_roundtrip; vm_compute; repeat split; discriminate. Defined.

(** A FAIL frame is encoded with up to 65535 bytes of message, but its reader
    refuses a message of more than 256 bytes: such a report is lost and the read
    error ends the producer's control connection. *)
Theorem long_failure_report_refused r rest :
  in_u 16 (fr_msg_count r) -> in_u 32 (fr_batch_bytes r) -> in_u 16 (fr_code r) ->
  256 < slen (fr_message r) <= umax 16 ->
  read_failed (encode_failed r ++ rest) = Err (Bail "CRDY fail_message too long" []).
Proof.
  intros ? ? ? Hl. rewrite read_failed_header by (unfold in_u in *; lia || done).
  unfold bind. by rewrite read_utf8_field_long by lia.
Qed.

Lemma long_failure_report_refused_witness :
  let r := {| fr_msg_count := 1; fr_batch_bytes := 7; fr_code := 0;
              fr_message := string_of_list_byte (repeat Byte.x61 257) |} in
  read_failed (encode_failed r ++ []) = Err (Bail "CRDY fail_message too long" []).
Proof. intros r. apply long_failure_report_refused; vm_compute; repeat split; discriminate. Defined.

(** [write_batch_vectored] makes one [write_vectored] call and does not look
    at how much it took: when the writer takes [n] bytes the stream holds the
    first [n] bytes of the frame, and the function reports the whole frame
    written, whatever [n] is. *)
Theorem write_batch_vectored_ignores_short_writes wv items n :
  inner_batch_payload_len items <= umax 32 ->
  wv (batch_slices MAGIC_BATCH items) = Ok n ->
  write_batch_vectored wv items
    = (take n (encode_batch items), Ok (batch_wire_bytes items)).
Proof.
  intros Hmax Hw. unfold write_batch_vectored, write_framed_batch_vectored. rewrite Hw.
  rewrite batch_slices_concat. unfold batch_wire_bytes.
  rewrite wrap_small; [done|]. unfold in_u. rewrite inner_batch_payload_len_spec in *.
  pose proof (blen_nonneg (encode_batch_payload items)). lia.
Qed.

Lemma write_batch_vectored_ignores_short_writes_witness :
  write_batch_vectored (fun _ => Ok 7%nat) [[Byte.x01; Byte.x02]]
    = (take 7 (encode_batch [[Byte.x01; Byte.x02]]), Ok 18).
Proof.
  apply (write_batch_vectored_ignores_short_writes (fun _ => Ok 7%nat) [[Byte.x01; Byte.x02]]);
    [vm_compute; discriminate|reflexivity].
Defined.

(** A frame whose inner batch is over 64 MiB is written and counted as
    delivered by the producer but refused by every consumer. *)
Theorem oversize_batch_refused items rest :
  MAX_INGRESS_BATCH_FRAME_BYTES < inner_batch_payload_len items <= umax 32 ->
  read_batch_frame (encode_batch items ++ rest)
    = Err (Bail "batch payload too large" [inner_batch_payload_len items]).
Proof.
  intros Hmax. destruct (encode_batch_shape items rest) as (cnt & Hc & ->); [lia|].
  by apply read_batch_frame_too_large.
Qed.

Lemma oversize_batch_refused_witness :
  let items := [repeat Byte.x00 (Z.to_nat (64 * 1024 * 1024))] in
  read_batch_frame (encode_batch items ++ [])
    = Err (Bail "batch payload too large" [inner_batch_payload_len items]).
Proof.
  intros items. apply oversize_batch_refused.
  rewrite inner_batch_payload_len_total. unfold items. cbn [length total_len foldr].
  unfold blen. rewrite repeat_length, Z2Nat.id by lia.
  unfold MAX_INGRESS_BATCH_FRAME_BYTES, umax. lia.
Defined.
