(* ===== verification/ByteRing.v ===== *)
(** * The byte-capped queue ([master/src/ring.rs], [master/src/ring/byte_ring.rs])

    [ByteRing] backs both queues of a producer.  It holds at most [max_bytes]
    bytes of payload: [push] drops the oldest entries to make room, [push_front]
    (requeue) drops the newest.  The [VecDeque] is a list, head first. *)

From S2P Require Import Prelude.

(** ** State and operations *)

Record QueuedMessage := { qm_payload : list byte; qm_enqueued_ms : Z }.

Record RingEntry := { re_payload : list byte; re_enqueued_ms : Z }.

Record PushResult := { dropped : Z; accepted : bool }.

Record ByteRing :=
  { rb_queue : list RingEntry; rb_bytes : Z; rb_max_bytes : Z; rb_drops_total : Z }.

Definition new (max_bytes : Z) : ByteRing :=
  {| rb_queue := []; rb_bytes := 0; rb_max_bytes := Z.max max_bytes 1; rb_drops_total := 0 |}.

Definition len (r : ByteRing) : Z := Z.of_nat (length (rb_queue r)).

Definition is_empty (r : ByteRing) : bool :=
  match rb_queue r with [] => true | _ :: _ => false end.

Definition byte_len (r : ByteRing) : Z := rb_bytes r.

Definition head_age_ms (r : ByteRing) (now_ms : Z) : Z :=
  match rb_queue r with
  | e :: _ => sat_sub now_ms (re_enqueued_ms e)
  | [] => 0
  end.

Definition pop_front_inner (r : ByteRing) : option (RingEntry * ByteRing) :=
  match rb_queue r with
  | [] => None
  | entry :: q =>
    Some (entry, {| r with rb_queue := q;
                           rb_bytes := sat_sub (rb_bytes r) (blen (re_payload entry)) |})
  end.

(** The [while] loop of [push]: its state is the queue, [bytes], the local
    [dropped] and [drops_total]; each turn removes the head of the queue. *)
Fixpoint drop_oldest (max_bytes plen : Z) (q : list RingEntry) (bytes dropped drops_total : Z) :
    list RingEntry * Z * Z * Z :=
  match q with
  | entry :: q' =>
    if max_bytes <? sat_add usize_w bytes plen
    then drop_oldest max_bytes plen q' (sat_sub bytes (blen (re_payload entry)))
           (wrap 32 (dropped + 1)) (wrap 64 (drops_total + 1))
    else (q, bytes, dropped, drops_total)
  | [] => ([], bytes, dropped, drops_total)
  end.

Definition push (payload : list byte) (enqueued_ms : Z) (r : ByteRing) : ByteRing * PushResult :=
  match payload with
  | [] => (r, {| dropped := 0; accepted := true |})
  | _ :: _ =>
    if rb_max_bytes r <? blen payload
    then ({| r with rb_drops_total := wrap 64 (rb_drops_total r + 1) |},
          {| dropped := 1; accepted := false |})
    else
      let '(q, bytes, d, drops_total) :=
        drop_oldest (rb_max_bytes r) (blen payload) (rb_queue r) (rb_bytes r) 0 (rb_drops_total r) in
      ({| rb_queue := q ++ [{| re_payload := payload; re_enqueued_ms := enqueued_ms |}];
          rb_bytes := sat_add usize_w bytes (blen payload);
          rb_max_bytes := rb_max_bytes r; rb_drops_total := drops_total |},
       {| dropped := d; accepted := true |})
  end.

Definition message_of (e : RingEntry) : QueuedMessage :=
  {| qm_payload := re_payload e; qm_enqueued_ms := re_enqueued_ms e |}.

Definition entry_of (m : QueuedMessage) : RingEntry :=
  {| re_payload := qm_payload m; re_enqueued_ms := qm_enqueued_ms m |}.

Definition pop_front (r : ByteRing) : option (QueuedMessage * ByteRing) :=
  match pop_front_inner r with
  | Some (e, r') => Some (message_of e, r')
  | None => None
  end.

(** The [for _ in 0..take] loop of [pop_up_to]. *)
Fixpoint pop_n (take : nat) (r : ByteRing) : list QueuedMessage * ByteRing :=
  match take with
  | O => ([], r)
  | S n =>
    match pop_front_inner r with
    | Some (entry, r') => let '(out, r'') := pop_n n r' in (message_of entry :: out, r'')
    | None => pop_n n r
    end
  end.

Definition pop_up_to (max_items : Z) (r : ByteRing) : list QueuedMessage * ByteRing :=
  pop_n (Z.to_nat (Z.min max_items (len r))) r.

(** The [while] loop of [push_front] pops the back: it walks the queue reversed. *)
Fixpoint drop_newest (max_bytes : Z) (back : list RingEntry) (bytes dropped drops_total : Z) :
    list RingEntry * Z * Z * Z :=
  match back with
  | old :: back' =>
    if max_bytes <? bytes
    then drop_newest max_bytes back' (sat_sub bytes (blen (re_payload old)))
           (wrap 32 (dropped + 1)) (wrap 64 (drops_total + 1))
    else (back, bytes, dropped, drops_total)
  | [] => ([], bytes, dropped, drops_total)
  end.

Definition push_front (msg : QueuedMessage) (r : ByteRing) : ByteRing * Z :=
  let bytes := sat_add usize_w (rb_bytes r) (blen (qm_payload msg)) in
  let q := entry_of msg :: rb_queue r in
  let '(back, bytes, d, drops_total) :=
    drop_newest (rb_max_bytes r) (rev q) bytes 0 (rb_drops_total r) in
  ({| rb_queue := rev back; rb_bytes := bytes; rb_max_bytes := rb_max_bytes r;
      rb_drops_total := drops_total |}, d).

(** ** The invariant *)

Definition payloads (q : list RingEntry) : list (list byte) := map re_payload q.

Definition qbytes (q : list RingEntry) : Z := total_len (payloads q).

(** A cap as a process can have it: an allocation is at most [isize::MAX]. *)
Definition cap_ok (max_bytes : Z) : Prop := 1 <= max_bytes <= umax 63.

(** The cached byte count is the sum of the payloads, it is within the cap, and
    no entry is empty. *)
Record ring_ok (r : ByteRing) : Prop :=
  { ok_bytes : rb_bytes r = qbytes (rb_queue r);
    ok_cap : qbytes (rb_queue r) <= rb_max_bytes r;
    ok_max : cap_ok (rb_max_bytes r);
    ok_nonempty : Forall (fun e => 1 <= blen (re_payload e)) (rb_queue r);
    ok_drops : in_u 64 (rb_drops_total r) }.

(** ** Lemmas *)

Lemma qbytes_cons e q : qbytes (e :: q) = blen (re_payload e) + qbytes q.
Proof. reflexivity. Qed.

Lemma qbytes_app p q : qbytes (p ++ q) = qbytes p + qbytes q.
Proof. unfold qbytes, payloads. by rewrite map_app, total_len_app. Qed.

Lemma qbytes_nonneg q : 0 <= qbytes q.
Proof. apply total_len_nonneg. Qed.

Lemma qbytes_rev q : qbytes (rev q) = qbytes q.
Proof. induction q as [|e q IH]; [done|]. cbn [rev]. rewrite qbytes_app, IH, !qbytes_cons. change (qbytes []) with 0. lia. Qed.

Lemma qbytes_drop_le k q : qbytes (drop k q) <= qbytes q.
Proof. rewrite <- (take_drop k q) at 2. rewrite qbytes_app. pose proof (qbytes_nonneg (take k q)). lia. Qed.

#[export] Hint Rewrite qbytes_cons qbytes_app qbytes_rev : cupid.
#[export] Hint Resolve qbytes_nonneg : cupid.

Lemma wrap_succ w z k : wrap w (wrap w z + k) = wrap w (z + k).
Proof. unfold wrap. apply Zplus_mod_idemp_l. Qed.

(** The two loops remove the shortest prefix of the list they walk that makes it
    fit: [k] entries, counted in both counters. *)
Lemma drop_newest_spec m q d dt :
  0 <= m -> in_u 32 d -> in_u 64 dt ->
  exists k, (k <= length q)%nat /\
    drop_newest m q (qbytes q) d dt =
      (drop k q, qbytes (drop k q), wrap 32 (d + Z.of_nat k), wrap 64 (dt + Z.of_nat k)) /\
    qbytes (drop k q) <= m /\ (forall j, (j < k)%nat -> m < qbytes (drop j q)).
Proof.
  intros Hm. revert d dt. induction q as [|e q IH]; intros d dt Hd Hdt; cbn [drop_newest].
  { exists 0%nat. rewrite !Z.add_0_r, !wrap_small by done. split_and!; [lia|done|done|lia]. }
  pose proof (qbytes_nonneg q). pose proof (blen_nonneg (re_payload e)).
  destruct (Z.ltb_spec m (qbytes (e :: q))) as [Hgt|Hle].
  - rewrite qbytes_cons in *. rewrite sat_sub_le by lia.
    replace (blen (re_payload e) + qbytes q - blen (re_payload e)) with (qbytes q) by lia.
    destruct (IH (wrap 32 (d + 1)) (wrap 64 (dt + 1))) as (k & Hk & Heq & Hfit & Hmin);
      [by apply wrap_range..|].
    exists (S k). rewrite Heq, !wrap_succ. cbn [drop length].
    split_and!; [lia| |done|].
    + by replace (d + 1 + Z.of_nat k) with (d + Z.of_nat (S k)) by lia;
        replace (dt + 1 + Z.of_nat k) with (dt + Z.of_nat (S k)) by lia.
    + intros [|j] Hj; cbn [drop]; [rewrite qbytes_cons; lia|]. apply Hmin. lia.
  - exists 0%nat. rewrite !Z.add_0_r, !wrap_small by done. split_and!; [lia|done|done|lia].
Qed.

(** Away from [usize::MAX] the loop of [push] is that of [push_front] with the
    new payload's length set aside. *)
Lemma drop_oldest_newest m p q d dt :
  0 <= p -> qbytes q + p <= umax 64 ->
  drop_oldest m p q (qbytes q) d dt = drop_newest (m - p) q (qbytes q) d dt.
Proof.
  intros Hp. revert d dt. induction q as [|e q IH]; intros d dt Hq; [done|].
  cbn [drop_oldest drop_newest]. rewrite sat_add_small by (unfold usize_w; lia).
  rewrite qbytes_cons in *. pose proof (qbytes_nonneg q). pose proof (blen_nonneg (re_payload e)).
  rewrite sat_sub_le by lia.
  replace (blen (re_payload e) + qbytes q - blen (re_payload e)) with (qbytes q) by lia.
  rewrite IH by lia.
  destruct (Z.ltb_spec m (blen (re_payload e) + qbytes q + p)),
    (Z.ltb_spec (m - p) (blen (re_payload e) + qbytes q)); (done || lia).
Qed.

Lemma drops_range z : in_u 64 (wrap 64 z).
Proof. by apply wrap_range. Qed.

(** What [push] does with a payload that can fit: [k] oldest entries go, as few
    as make room, and the payload is last. *)
Lemma push_fits r payload t :
  ring_ok r -> 1 <= blen payload <= rb_max_bytes r ->
  exists k, (k <= length (rb_queue r))%nat /\
    push payload t r =
      ({| rb_queue := drop k (rb_queue r) ++ [{| re_payload := payload; re_enqueued_ms := t |}];
          rb_bytes := qbytes (drop k (rb_queue r)) + blen payload;
          rb_max_bytes := rb_max_bytes r;
          rb_drops_total := wrap 64 (rb_drops_total r + Z.of_nat k) |},
       {| dropped := wrap 32 (Z.of_nat k); accepted := true |}) /\
    qbytes (drop k (rb_queue r)) + blen payload <= rb_max_bytes r /\
    (forall j, (j < k)%nat -> rb_max_bytes r < qbytes (drop j (rb_queue r)) + blen payload).
Proof.
  intros [Hb Hc Hm Hn Hd] Hp. unfold cap_ok, umax in Hm.
  unfold push. destruct payload as [|c p'] eqn:Hpe; [rewrite blen_nil in Hp; lia|].
  rewrite <- Hpe in *. destruct (Z.ltb_spec (rb_max_bytes r) (blen payload)); [lia|].
  rewrite Hb, drop_oldest_newest by (unfold umax; lia).
  destruct (drop_newest_spec (rb_max_bytes r - blen payload) (rb_queue r) 0 (rb_drops_total r))
    as (k & Hk & -> & Hfit & Hmin); [lia|by cbv|done|].
  exists k. rewrite Z.add_0_l. split_and!; [done| |lia|].
  - rewrite sat_add_small; [done|]. unfold umax, usize_w. lia.
  - intros j Hj. specialize (Hmin j Hj). lia.
Qed.

(** What [push_front] does: the requeued message is first, [k] newest entries
    go, as few as make room. *)
Lemma push_front_spec r msg :
  ring_ok r -> blen (qm_payload msg) <= umax 63 ->
  exists k, (k <= S (length (rb_queue r)))%nat /\
    push_front msg r =
      ({| rb_queue := take (S (length (rb_queue r)) - k) (entry_of msg :: rb_queue r);
          rb_bytes := qbytes (take (S (length (rb_queue r)) - k) (entry_of msg :: rb_queue r));
          rb_max_bytes := rb_max_bytes r;
          rb_drops_total := wrap 64 (rb_drops_total r + Z.of_nat k) |}, wrap 32 (Z.of_nat k)) /\
    qbytes (take (S (length (rb_queue r)) - k) (entry_of msg :: rb_queue r)) <= rb_max_bytes r /\
    (forall j, (j < k)%nat ->
       rb_max_bytes r < qbytes (take (S (length (rb_queue r)) - j) (entry_of msg :: rb_queue r))).
Proof.
  intros [Hb Hc Hm Hn Hd] Hp. unfold cap_ok, umax in *.
  set (q := entry_of msg :: rb_queue r). pose proof (blen_nonneg (qm_payload msg)).
  assert (Hrev : forall j, drop j (rev q) = rev (take (S (length (rb_queue r)) - j) q)).
  { intros j. change (S (length (rb_queue r))) with (length q).
    rewrite <- skipn_rev. f_equal. }
  unfold push_front. fold q. rewrite sat_add_small by (unfold umax, usize_w; lia).
  replace (rb_bytes r + blen (qm_payload msg)) with (qbytes (rev q))
    by (rewrite qbytes_rev; unfold q; rewrite qbytes_cons, Hb; cbn [re_payload entry_of]; lia).
  destruct (drop_newest_spec (rb_max_bytes r) (rev q) 0 (rb_drops_total r))
    as (k & Hk & -> & Hfit & Hmin); [lia|by cbv|done|].
  rewrite length_rev in Hk. exists k. rewrite Hrev, rev_involutive, qbytes_rev, Z.add_0_l in *.
  split_and!; [done|done|done|]. intros j Hj. specialize (Hmin j Hj).
  by rewrite Hrev, qbytes_rev in Hmin.
Qed.

(** The ring whose queue is [q], all else as in [r]. *)
Definition with_queue (r : ByteRing) (q : list RingEntry) : ByteRing :=
  {| r with rb_queue := q; rb_bytes := qbytes q |}.

Lemma pop_front_inner_cons r e q :
  ring_ok r -> rb_queue r = e :: q -> pop_front_inner r = Some (e, with_queue r q).
Proof.
  intros Hok Hq. unfold pop_front_inner, with_queue. rewrite Hq. destruct Hok as [-> _ _ _ _].
  rewrite Hq, qbytes_cons. pose proof (qbytes_nonneg q). rewrite sat_sub_le by lia.
  do 3 f_equal. lia.
Qed.

Lemma with_queue_ok r q :
  ring_ok r -> qbytes q <= rb_max_bytes r -> Forall (fun e => 1 <= blen (re_payload e)) q ->
  ring_ok (with_queue r q).
Proof. intros [] ? ?. by constructor. Qed.

Lemma with_queue_drop_ok r k : ring_ok r -> ring_ok (with_queue r (drop k (rb_queue r))).
Proof.
  intros Hok. pose proof (ok_cap _ Hok). pose proof (qbytes_drop_le k (rb_queue r)).
  apply with_queue_ok; [done|lia|]. apply Forall_drop, Hok.
Qed.

Lemma with_queue_self r : ring_ok r -> with_queue r (rb_queue r) = r.
Proof. intros [Hb _ _ _ _]. unfold with_queue. rewrite <- Hb. by destruct r. Qed.

(** [pop_up_to] takes the oldest entries and leaves the rest. *)
Lemma pop_n_spec n r :
  ring_ok r ->
  pop_n n r = (map message_of (take n (rb_queue r)), with_queue r (drop n (rb_queue r))).
Proof.
  revert r. induction n as [|n IH]; intros r Hok; cbn [pop_n].
  - by rewrite take_0, drop_0, with_queue_self.
  - destruct (rb_queue r) as [|e q] eqn:Hq.
    + unfold pop_front_inner. rewrite Hq, (IH r Hok), Hq, !take_nil, !drop_nil. done.
    + rewrite (pop_front_inner_cons _ _ _ Hok Hq).
      pose proof (with_queue_drop_ok r 1 Hok) as Hok'. rewrite Hq in Hok'.
      change (drop 1 (e :: q)) with q in Hok'. rewrite (IH _ Hok'). cbn [take drop map]. done.
Qed.

Lemma pop_up_to_spec m r :
  ring_ok r -> 0 <= m ->
  pop_up_to m r = (map message_of (take (Z.to_nat m) (rb_queue r)),
                   with_queue r (drop (Z.to_nat m) (rb_queue r))).
Proof.
  intros Hok Hm. unfold pop_up_to, len. rewrite pop_n_spec by done.
  destruct (Z.min_spec m (Z.of_nat (length (rb_queue r)))) as [[? ->]|[? ->]]; [done|].
  rewrite Nat2Z.id, !take_ge, !drop_ge by lia. done.
Qed.

Lemma entry_message e : entry_of (message_of e) = e.
Proof. by destruct e. Qed.

(** A message that fits is requeued with nothing dropped. *)
Lemma push_front_room r msg :
  ring_ok r -> blen (qm_payload msg) + qbytes (rb_queue r) <= rb_max_bytes r ->
  push_front msg r = (with_queue r (entry_of msg :: rb_queue r), 0).
Proof.
  intros Hok Hroom. pose proof Hok as [Hb Hc Hm Hn Hd]. unfold cap_ok in Hm.
  pose proof (qbytes_nonneg (rb_queue r)).
  destruct (push_front_spec r msg Hok) as (k & Hk & Heq & Hfit & Hmin); [lia|].
  assert (k = 0%nat) as ->.
  { destruct k; [done|]. specialize (Hmin 0%nat ltac:(lia)).
    rewrite Nat.sub_0_r, take_ge in Hmin by (simpl; lia).
    rewrite qbytes_cons in Hmin. cbn [re_payload entry_of] in Hmin. lia. }
  rewrite Heq, Nat.sub_0_r, take_ge by (simpl; lia). rewrite Z.add_0_r, (wrap_small 64) by done.
  reflexivity.
Qed.

Lemma push_ok r payload t : ring_ok r -> ring_ok (push payload t r).1.
Proof.
  intros Hok. pose proof Hok as [Hb Hc Hm Hn Hd].
  destruct (decide (blen payload = 0)) as [->%blen_0|]; [done|].
  pose proof (blen_nonneg payload).
  destruct (decide (blen payload <= rb_max_bytes r)).
  - destruct (push_fits r payload t Hok) as (k & Hk & -> & Hfit & _); [lia|].
    constructor; cbn [fst rb_queue rb_bytes rb_max_bytes rb_drops_total];
      rewrite ?qbytes_app, ?qbytes_cons; change (qbytes []) with 0; cbn [re_payload];
      [lia|lia|done| |apply drops_range].
    apply Forall_app; split; [by apply Forall_drop|].
    constructor; [cbn [re_payload]; lia|constructor].
  - unfold push. destruct payload as [|c p'] eqn:Hpe; [done|]. rewrite <- Hpe in *.
    destruct (Z.ltb_spec (rb_max_bytes r) (blen payload)); [|lia].
    constructor; try done. apply drops_range.
Qed.

Lemma push_front_ok r msg :
  ring_ok r -> 1 <= blen (qm_payload msg) <= umax 63 -> ring_ok (push_front msg r).1.
Proof.
  intros Hok Hmsg. pose proof Hok as [Hb Hc Hm Hn Hd].
  destruct (push_front_spec r msg Hok) as (k & Hk & -> & Hfit & _); [lia|].
  constructor; cbn [fst rb_queue rb_bytes rb_max_bytes rb_drops_total]; try done.
  - apply Forall_take. constructor; [cbn [re_payload entry_of]; lia|done].
  - apply drops_range.
Qed.

Lemma new_ring_ok m : m <= umax 63 -> ring_ok (new m).
Proof.
  intros. constructor; cbn [rb_queue rb_bytes rb_max_bytes rb_drops_total new];
    change (qbytes []) with 0; [done|lia| |constructor|]; unfold cap_ok, in_u, umax in *; lia.
Qed.

#[export] Hint Resolve push_ok push_front_ok with_queue_drop_ok new_ring_ok : cupid.

(** ** Properties *)

(** The calls the crate makes on a ring it created: [push_front] is only given
    messages that were in a ring. *)
Inductive ring_step : ByteRing -> ByteRing -> Prop :=
| step_push r payload t : ring_step r (push payload t r).1
| step_pop_front r msg r' : pop_front r = Some (msg, r') -> ring_step r r'
| step_pop_up_to r m : 0 <= m -> ring_step r (pop_up_to m r).2
| step_push_front r msg :
    1 <= blen (qm_payload msg) <= umax 63 -> ring_step r (push_front msg r).1.

(** C17: in every state a ring can reach, the cached byte count is exactly the sum
    of the queued payloads and never exceeds the cap, and no empty payload is
    queued. *)
Theorem ring_reachable_ok max_bytes r :
  max_bytes <= umax 63 -> star ring_step (new max_bytes) r -> ring_ok r.
Proof.
  intros Hm Hstar. eapply star_invariant; [|exact Hstar|mauto].
  intros a b Ha Hs. revert Ha.
  destruct Hs as [r0 payload t|r0 msg r' Hpop|r0 m Hpos|r0 msg Hmsg]; intros Ha; [mauto| | |mauto].
  - unfold pop_front in Hpop. destruct (rb_queue r0) as [|e q] eqn:Hq.
    { unfold pop_front_inner in Hpop. by rewrite Hq in Hpop. }
    rewrite (pop_front_inner_cons _ _ _ Ha Hq) in Hpop. simplify_eq.
    pose proof (with_queue_drop_ok r0 1 Ha) as H1. by rewrite Hq in H1.
  - rewrite pop_up_to_spec by done. by apply with_queue_drop_ok.
Qed.

Lemma ring_reachable_ok_witness :
  ring_ok (push [Byte.x03] 300 (push [Byte.x02] 200 (push [Byte.x01] 100 (new 2)).1).1).1.
Proof.
  apply (ring_reachable_ok 2); [unfold umax; lia|].
  do 3 (eapply star_snoc; [|apply step_push]). apply star_refl.
Defined.

(** [push] on every branch.  An empty payload is accepted and not stored; one
    over the cap is refused and counted as one drop; any other is stored last,
    and exactly the shortest prefix of oldest entries that makes room for it is
    dropped and counted. *)
Theorem push_spec r payload t :
  ring_ok r ->
  (payload = [] /\ push payload t r = (r, {| dropped := 0; accepted := true |})) \/
  (rb_max_bytes r < blen payload /\
   push payload t r = ({| r with rb_drops_total := wrap 64 (rb_drops_total r + 1) |},
                       {| dropped := 1; accepted := false |})) \/
  (1 <= blen payload <= rb_max_bytes r /\
   exists k, (k <= length (rb_queue r))%nat /\
     rb_queue (push payload t r).1
       = drop k (rb_queue r) ++ [{| re_payload := payload; re_enqueued_ms := t |}] /\
     rb_drops_total (push payload t r).1 = wrap 64 (rb_drops_total r + Z.of_nat k) /\
     (push payload t r).2 = {| dropped := wrap 32 (Z.of_nat k); accepted := true |} /\
     qbytes (drop k (rb_queue r)) + blen payload <= rb_max_bytes r /\
     forall j, (j < k)%nat -> rb_max_bytes r < qbytes (drop j (rb_queue r)) + blen payload).
Proof.
  intros Hok. destruct payload as [|c p'] eqn:Hpe; [by left|]. rewrite <- Hpe in *.
  right. assert (1 <= blen payload)
    by (rewrite Hpe, blen_cons; pose proof (blen_nonneg p'); lia).
  destruct (decide (blen payload <= rb_max_bytes r)).
  - right. split; [done|]. destruct (push_fits r payload t Hok) as (k & Hk & Heq & Hfit & Hmin); [done|].
    exists k. rewrite Heq. done.
  - left. split; [lia|]. unfold push. rewrite Hpe at 1.
    destruct (Z.ltb_spec (rb_max_bytes r) (blen payload)); [done|lia].
Qed.

Lemma push_spec_witness :
  let r := (push [Byte.x02] 200 (push [Byte.x01] 100 (new 2)).1).1 in
  ring_ok r /\
  ([Byte.x03] = [] /\ push [Byte.x03] 300 r = (r, {| dropped := 0; accepted := true |}) \/
   rb_max_bytes r < blen [Byte.x03] /\
   push [Byte.x03] 300 r = ({| r with rb_drops_total := wrap 64 (rb_drops_total r + 1) |},
                       {| dropped := 1; accepted := false |}) \/
   1 <= blen [Byte.x03] <= rb_max_bytes r /\
   exists k, (k <= length (rb_queue r))%nat /\
     rb_queue (push [Byte.x03] 300 r).1
       = drop k (rb_queue r) ++ [{| re_payload := [Byte.x03]; re_enqueued_ms := 300 |}] /\
     rb_drops_total (push [Byte.x03] 300 r).1 = wrap 64 (rb_drops_total r + Z.of_nat k) /\
     (push [Byte.x03] 300 r).2 = {| dropped := wrap 32 (Z.of_nat k); accepted := true |} /\
     qbytes (drop k (rb_queue r)) + blen [Byte.x03] <= rb_max_bytes r /\
     forall j, (j < k)%nat -> rb_max_bytes r < qbytes (drop j (rb_queue r)) + blen [Byte.x03]).
Proof.
  intros r. assert (Hok : ring_ok r).
  { unfold r. apply push_ok, push_ok, new_ring_ok. unfold umax. lia. }
  split; [exact Hok|exact (push_spec r [Byte.x03] 300 Hok)].
Defined.

(** [push_front] keeps the requeued message at the head whenever it can fit
    at all, and drops the shortest suffix of newest entries that makes room. *)
Theorem push_front_keeps_requeued r msg :
  ring_ok r -> 1 <= blen (qm_payload msg) <= rb_max_bytes r ->
  exists k, (k <= length (rb_queue r))%nat /\
    rb_queue (push_front msg r).1
      = entry_of msg :: take (length (rb_queue r) - k) (rb_queue r) /\
    rb_drops_total (push_front msg r).1 = wrap 64 (rb_drops_total r + Z.of_nat k) /\
    forall j, (j < k)%nat ->
      rb_max_bytes r
        < blen (qm_payload msg) + qbytes (take (length (rb_queue r) - j) (rb_queue r)).
Proof.
  intros Hok Hmsg. pose proof (ok_max _ Hok) as Hm. unfold cap_ok in Hm.
  destruct (push_front_spec r msg Hok) as (k & Hk & -> & Hfit & Hmin); [lia|].
  assert (Hk' : (k <= length (rb_queue r))%nat).
  { destruct (decide (k = S (length (rb_queue r)))) as [->|]; [|lia].
    specialize (Hmin (length (rb_queue r)) ltac:(lia)).
    replace (S _ - _)%nat with 1%nat in Hmin by lia.
    rewrite firstn_cons, firstn_O, qbytes_cons in Hmin.
    change (qbytes []) with 0 in Hmin. cbn [re_payload entry_of] in Hmin. lia. }
  exists k. cbn [fst rb_queue rb_drops_total].
  rewrite Nat.sub_succ_l by done. split_and!; [done|done|done|].
  intros j Hj. specialize (Hmin j Hj). rewrite Nat.sub_succ_l in Hmin by lia.
  by rewrite firstn_cons, qbytes_cons in Hmin.
Qed.

Lemma push_front_keeps_requeued_witness :
  let r := (push [Byte.x02] 200 (push [Byte.x01] 100 (new 2)).1).1 in
  let msg := {| qm_payload := [Byte.x09]; qm_enqueued_ms := 50 |} in
  ring_ok r /\
  exists k, (k <= length (rb_queue r))%nat /\
    rb_queue (push_front msg r).1
      = entry_of msg :: take (length (rb_queue r) - k) (rb_queue r) /\
    rb_drops_total (push_front msg r).1 = wrap 64 (rb_drops_total r + Z.of_nat k) /\
    forall j, (j < k)%nat ->
      rb_max_bytes r
        < blen (qm_payload msg) + qbytes (take (length (rb_queue r) - j) (rb_queue r)).
Proof.
  intros r msg. assert (Hok : ring_ok r).
  { unfold r. apply push_ok, push_ok, new_ring_ok. unfold umax. lia. }
  split; [exact Hok|]. apply (push_front_keeps_requeued r msg Hok).
  unfold r. vm_compute. split; discriminate.
Defined.
