(* ===== verification/Accumulator.v ===== *)
(** * The batch accumulator ([master/src/producer/accumulator.rs])

    Payloads taken from the [pending] ring are grouped until [max_bytes] or the
    flush timeout.  An [Instant] is a number of nanoseconds; [elapsed] saturates
    at zero, as the standard library documents. *)

From S2P Require Import Prelude.

(** ** State and operations *)

Record BatchAccumulator :=
  { acc_items : list (list byte); acc_bytes : Z; acc_max_bytes : Z;
    acc_flush_timeout : Z; acc_opened_at : option Z }.

Definition new (max_bytes flush_timeout : Z) : BatchAccumulator :=
  {| acc_items := []; acc_bytes := 0; acc_max_bytes := Z.max max_bytes 1;
     acc_flush_timeout := flush_timeout; acc_opened_at := None |}.

Definition is_empty (a : BatchAccumulator) : bool :=
  match acc_items a with [] => true | _ :: _ => false end.

Definition pending_bytes (a : BatchAccumulator) : Z := acc_bytes a.

Definition pending_items (a : BatchAccumulator) : Z := Z.of_nat (length (acc_items a)).

Definition take_batch (a : BatchAccumulator) : option (list (list byte)) * BatchAccumulator :=
  match acc_items a with
  | [] => (None, a)
  | items => (Some items, {| a with acc_items := []; acc_bytes := 0; acc_opened_at := None |})
  end.

(** [if let Some(batch) = self.take_batch() { out.push(batch) }] *)
Definition take_into (out : list (list (list byte))) (a : BatchAccumulator) :
    list (list (list byte)) * BatchAccumulator :=
  match take_batch a with
  | (Some batch, a') => (out ++ [batch], a')
  | (None, a') => (out, a')
  end.

(** [push]: the batches ready to send. [now] is the clock at the call. *)
Definition push (item : list byte) (now : Z) (a : BatchAccumulator) :
    list (list (list byte)) * BatchAccumulator :=
  let item_len := blen item in
  if acc_max_bytes a <? item_len then
    let '(out, a) := take_into [] a in
    (out ++ [[item]], a)
  else
    let '(out, a) :=
      if acc_max_bytes a <? sat_add usize_w (acc_bytes a) item_len then take_into [] a
      else ([], a) in
    (out, {| a with acc_items := acc_items a ++ [item];
                    acc_bytes := sat_add usize_w (acc_bytes a) item_len;
                    acc_opened_at := match acc_opened_at a with
                                     | None => Some now | Some t => Some t end |}).

Definition flush_if_timeout (now : Z) (a : BatchAccumulator) :
    option (list (list byte)) * BatchAccumulator :=
  match acc_items a, acc_opened_at a with
  | [], _ => (None, a)
  | _ :: _, None => (None, a)
  | _ :: _, Some opened =>
    if sat_sub now opened <? acc_flush_timeout a then (None, a) else take_batch a
  end.

(** ** The invariant *)

(** The cached count is exact and within the limit, and the group is open
    exactly while it holds items. *)
Record acc_ok (a : BatchAccumulator) : Prop :=
  { acc_ok_bytes : acc_bytes a = total_len (acc_items a);
    acc_ok_cap : acc_bytes a <= acc_max_bytes a;
    acc_ok_max : 1 <= acc_max_bytes a <= umax 63;
    acc_ok_opened : acc_opened_at a = None <-> acc_items a = [] }.

(** A batch as [push] and the flushes emit them. *)
Definition batch_ok (max_bytes : Z) (batch : list (list byte)) : Prop :=
  batch <> [] /\ (total_len batch <= max_bytes \/ exists item, batch = [item]).

(** ** Lemmas *)

Lemma new_acc_ok m t : m <= umax 63 -> acc_ok (new m t).
Proof. intros. constructor; cbn; unfold umax in *; (done || lia). Qed.

Lemma acc_empty_ok a :
  acc_ok a -> acc_ok {| a with acc_items := []; acc_bytes := 0; acc_opened_at := None |}.
Proof. intros [? ? ? ?]. constructor; cbn; (done || lia). Qed.

Lemma take_batch_spec a :
  acc_ok a ->
  (acc_items a = [] /\ take_batch a = (None, a)) \/
  (acc_items a <> [] /\ batch_ok (acc_max_bytes a) (acc_items a) /\
   take_batch a = (Some (acc_items a),
     {| a with acc_items := []; acc_bytes := 0; acc_opened_at := None |})).
Proof.
  intros [Hb Hc Hm Ho]. unfold take_batch. destruct (acc_items a) as [|i l] eqn:Hi; [by left|].
  right. split_and!; [done| |done]. split; [done|]. left. lia.
Qed.

Lemma take_into_spec a :
  acc_ok a ->
  exists out, take_into [] a = (out, {| a with acc_items := []; acc_bytes := 0; acc_opened_at := None |})
    /\ concat out = acc_items a /\ Forall (batch_ok (acc_max_bytes a)) out /\ (length out <= 1)%nat.
Proof.
  intros Hok. unfold take_into. destruct (take_batch_spec a Hok) as [[Hi ->]|(Hi & Hb & ->)].
  - exists []. destruct Hok as [Hb Hc Hm Ho]. pose proof (proj2 Ho Hi) as Hn.
    destruct a; cbn in *. subst. split_and!; [done|done|constructor|lia].
  - exists [acc_items a]. cbn. rewrite app_nil_r.
    split_and!; [done|done|by constructor|lia].
Qed.

(** [push] loses nothing and keeps the order; what it emits is well-formed. *)
Lemma push_acc_spec item now a out a' :
  acc_ok a -> blen item <= umax 63 -> push item now a = (out, a') ->
  concat out ++ acc_items a' = acc_items a ++ [item] /\
  Forall (batch_ok (acc_max_bytes a)) out /\ (length out <= 2)%nat /\
  acc_ok a' /\ acc_max_bytes a' = acc_max_bytes a /\ acc_flush_timeout a' = acc_flush_timeout a.
Proof.
  intros Hok Hitem. pose proof Hok as [Hb Hc Hm Ho]. pose proof (blen_nonneg item).
  unfold push. destruct (Z.ltb_spec (acc_max_bytes a) (blen item)) as [Hbig|Hsmall].
  - destruct (take_into_spec a Hok) as (o & -> & Hcat & Hf & Hl). intros [= <- <-].
    cbn [acc_items acc_max_bytes acc_flush_timeout]. rewrite app_nil_r, concat_app, Hcat, length_app.
    split_and!; [done| |simpl; lia|by apply acc_empty_ok|done|done].
    apply Forall_app; split; [done|]. constructor; [|done]. split; [done|]. right. by exists item.
  - rewrite sat_add_small by (unfold umax, usize_w in *; lia).
    destruct (Z.ltb_spec (acc_max_bytes a) (acc_bytes a + blen item)).
    + destruct (take_into_spec a Hok) as (o & -> & Hcat & Hf & Hl). intros [= <- <-].
      cbn [acc_items acc_max_bytes acc_flush_timeout acc_bytes acc_opened_at].
      rewrite Hcat. split_and!; [done|done|lia| |done|done].
      rewrite sat_add_small by (unfold umax, usize_w in *; lia).
      constructor; cbn; unfold umax in *; (done || lia).
    + intros [= <- <-]. cbn [acc_items acc_max_bytes acc_flush_timeout acc_bytes acc_opened_at].
      split_and!; [done|constructor|simpl; lia| |done|done].
      rewrite sat_add_small by (unfold umax, usize_w in *; lia).
      constructor; cbn [acc_items acc_max_bytes acc_bytes acc_opened_at];
        [rewrite total_len_app; simpl; lia|lia|done|].
      destruct (acc_opened_at a), (acc_items a); done.
Qed.

(** ** Properties *)

(** [push] keeps every payload, in order, split between the batches it
    returns (at most two) and what stays open; each batch is within [max_bytes]
    or is a single oversized payload; and the accumulator stays consistent. *)
Theorem accumulator_push_correct item now a out a' :
  acc_ok a -> blen item <= umax 63 -> push item now a = (out, a') ->
  concat out ++ acc_items a' = acc_items a ++ [item] /\
  Forall (batch_ok (acc_max_bytes a)) out /\ (length out <= 2)%nat /\ acc_ok a'.
Proof. intros H1 H2 H3. by destruct (push_acc_spec _ _ _ _ _ H1 H2 H3) as (? & ? & ? & ? & _). Qed.

Lemma accumulator_push_correct_witness :
  let a := {| acc_items := [[Byte.x01; Byte.x02]]; acc_bytes := 2; acc_max_bytes := 3;
              acc_flush_timeout := 100; acc_opened_at := Some 5 |} in
  let '(out, a') := push [Byte.x09; Byte.x09; Byte.x09; Byte.x09] 7 a in
  concat out ++ acc_items a' = acc_items a ++ [[Byte.x09; Byte.x09; Byte.x09; Byte.x09]] /\
  Forall (batch_ok (acc_max_bytes a)) out /\ (length out <= 2)%nat /\ acc_ok a'.
Proof.
  intros a. destruct (push [Byte.x09; Byte.x09; Byte.x09; Byte.x09] 7 a) as [out a'] eqn:E.
  apply (accumulator_push_correct [Byte.x09; Byte.x09; Byte.x09; Byte.x09] 7 a out a');
    [|vm_compute; discriminate|exact E].
  constructor; vm_compute; [reflexivity|discriminate|split; discriminate|split; discriminate].
Defined.

(** The timed flush emits the whole open group exactly when it is nonempty
    and its first item has waited for the timeout, and otherwise leaves the
    accumulator alone. *)
Theorem flush_if_timeout_correct now a :
  acc_ok a ->
  (exists opened, acc_opened_at a = Some opened /\ acc_flush_timeout a <= sat_sub now opened /\
     acc_items a <> [] /\ (flush_if_timeout now a).1 = Some (acc_items a) /\
     acc_items (flush_if_timeout now a).2 = [] /\ acc_ok (flush_if_timeout now a).2) \/
  ((forall opened, acc_opened_at a = Some opened -> sat_sub now opened < acc_flush_timeout a) /\
     flush_if_timeout now a = (None, a)).
Proof.
  intros Hok. pose proof Hok as [_ _ _ Ho]. pose proof (take_batch_spec a Hok) as Ht.
  unfold flush_if_timeout. destruct (acc_opened_at a) as [opened|] eqn:Hopen.
  - destruct (acc_items a) as [|i l] eqn:Hi; [by discriminate (proj2 Ho eq_refl)|].
    destruct (Z.ltb_spec (sat_sub now opened) (acc_flush_timeout a)).
    + right. split; [intros ? [= <-]; done|done].
    + left. exists opened. destruct Ht as [[? _]|(_ & _ & ->)]; [done|].
      split_and!; try done. by apply acc_empty_ok.
  - right. split; [done|]. by rewrite (proj1 Ho) by done.
Qed.

Lemma flush_if_timeout_correct_witness :
  let a := {| acc_items := [[Byte.x01; Byte.x02]]; acc_bytes := 2; acc_max_bytes := 3;
              acc_flush_timeout := 100; acc_opened_at := Some 5 |} in
  acc_ok a /\
  ((exists opened, acc_opened_at a = Some opened /\ acc_flush_timeout a <= sat_sub 120 opened /\
     acc_items a <> [] /\ (flush_if_timeout 120 a).1 = Some (acc_items a) /\
     acc_items (flush_if_timeout 120 a).2 = [] /\ acc_ok (flush_if_timeout 120 a).2) \/
  ((forall opened, acc_opened_at a = Some opened -> sat_sub 120 opened < acc_flush_timeout a) /\
     flush_if_timeout 120 a = (None, a))).
Proof.
  intros a. assert (Hok : acc_ok a).
  { constructor; vm_compute; [reflexivity|discriminate|split; discriminate|split; discriminate]. }
  split; [exact Hok|exact (flush_if_timeout_correct 120 a Hok)].
Defined.
