(* ===== verification/DeliveryPool.v ===== *)
(** * The delivery pool and the data-plane send
      ([master/src/producer/delivery_pool.rs], [tcp_deliver_batch] of
      [master/src/producer/client.rs])

    One keep-alive connection per [host:port].  A [TcpStream] is a handle of a
    type the network chooses; what [TcpStream::connect], [write_vectored] and
    [flush] answer are arguments.  An [Instant] is a number of nanoseconds. *)

From S2P Require Import Prelude Utf8 Protocol.

(** ** Errors *)

(** One cause of an [anyhow] error chain; the outermost is first. *)
Inductive cause : Type :=
| Context (msg : string)
| IoError (msg : string).

Definition chain : Type := list cause.

Definition is_io (c : cause) : bool :=
  match c with IoError _ => true | Context _ => false end.

(** [e.to_string()]: the outermost message. *)
Definition to_string (e : chain) : string :=
  match e with Context m :: _ | IoError m :: _ => m | [] => ""%string end.

(** ** State and operations *)

Section Pool.
Context {stream : Type}.

Record PooledConn := { pc_stream : stream; pc_idle_since : Z }.

Record DeliveryPool := { dp_conns : gmap string PooledConn; dp_idle_timeout : Z }.

Definition new (idle_timeout : Z) : DeliveryPool :=
  {| dp_conns := ∅; dp_idle_timeout := idle_timeout |}.

Definition elapsed (now since : Z) : Z := sat_sub now since.

Definition evict_stale (now : Z) (p : DeliveryPool) : DeliveryPool :=
  {| p with dp_conns :=
       filter (fun kc => elapsed now (pc_idle_since kc.2) < dp_idle_timeout p) (dp_conns p) |}.

Definition invalidate (addr : string) (p : DeliveryPool) : DeliveryPool :=
  {| p with dp_conns := delete addr (dp_conns p) |}.

(** Every [elapsed()] and [Instant::now()] reads the clock: [now] the eviction's
    reading, [later] the one after it. *)
Definition take (now later : Z) (addr : string) (p : DeliveryPool) : option stream * DeliveryPool :=
  let p := evict_stale now p in
  match dp_conns p !! addr with
  | None => (None, p)
  | Some entry =>
    let p := {| p with dp_conns := delete addr (dp_conns p) |} in
    if dp_idle_timeout p <=? elapsed later (pc_idle_since entry) then (None, p)
    else (Some (pc_stream entry), p)
  end.

Definition put (now later : Z) (addr : string) (s : stream) (p : DeliveryPool) : DeliveryPool :=
  let p := evict_stale now p in
  {| p with dp_conns := <[addr := {| pc_stream := s; pc_idle_since := later |}]> (dp_conns p) |}.

Definition CONNECT_ATTEMPTS : nat := 4.
Definition CONNECT_BACKOFF_MS : Z := 5.

(** The loop of [connect_fresh], [left] attempts before the bound: the result and
    the sleeps made, in milliseconds. *)
Fixpoint connect_loop (connect : nat -> result string stream) (addr : string)
    (left attempt : nat) (last : option chain) : result chain stream * list Z :=
  match left with
  | O => (Err (default [] last), [])
  | S left' =>
    match connect attempt with
    | Ok s => (Ok s, [])
    | Err e =>
      let wrapped := [Context ("connect consumer data " +:+ addr); IoError e] in
      let retryable := existsb is_io wrapped in
      if negb retryable || (CONNECT_ATTEMPTS <=? attempt + 1)%nat then (Err wrapped, [])
      else
        let '(r, sleeps) := connect_loop connect addr left' (S attempt) (Some wrapped) in
        (r, CONNECT_BACKOFF_MS * Z.shiftl 1 (Z.min (Z.of_nat attempt) 3) :: sleeps)
    end
  end.

Definition connect_fresh (connect : nat -> result string stream) (addr : string) :
    result chain stream * list Z :=
  connect_loop connect addr CONNECT_ATTEMPTS 0 None.

Definition get_or_connect (connect : nat -> result string stream) (now later : Z) (addr : string)
    (p : DeliveryPool) : result chain stream * DeliveryPool :=
  match take now later addr p with
  | (Some s, p') => (Ok s, p')
  | (None, p') => ((connect_fresh connect addr).1, p')
  end.

(** The readings of the clock in one attempt: by the eviction and by the check of
    [take], by the eviction of [put], and the start of the idle time. *)
Inductive reading : Type := TakeEvict | TakeCheck | PutEvict | PutSince.

(** What the network and the clock answer during one delivery, for each of its
    attempts. *)
Record net :=
  { net_connect : nat -> nat -> result string stream;
    net_write : nat -> stream -> list (list byte) -> result error nat;
    net_flush : nat -> stream -> result string unit;
    net_now : nat -> reading -> Z }.

(** The bytes put on the connection, and the result. *)
Definition tcp_deliver_batch_once (n : net) (attempt : nat) (s : stream) (items : list (list byte)) :
    list byte * result chain unit :=
  match write_batch_vectored (net_write n attempt s) items with
  | (bytes, Err e) => (bytes, Err [Context "write BATC"; Context "write_vectored framed batch"])
  | (bytes, Ok _) =>
    match net_flush n attempt s with
    | Err e => (bytes, Err [Context "flush BATC"; IoError e])
    | Ok _ => (bytes, Ok tt)
    end
  end.

(** The [for attempt in 0..2] loop: the pool, what each attempt put on its
    connection, and the result. *)
Fixpoint deliver_loop (n : net) (addr : string) (items : list (list byte))
    (left attempt : nat) (last_err : chain) (p : DeliveryPool) :
    DeliveryPool * list (stream * list byte) * result chain unit :=
  match left with
  | O => (p, [], Err last_err)
  | S left' =>
    match get_or_connect (net_connect n attempt) (net_now n attempt TakeEvict) (net_now n attempt TakeCheck) addr p with
    | (Err e, p) => (p, [], Err e)
    | (Ok s, p) =>
      match tcp_deliver_batch_once n attempt s items with
      | (bytes, Ok _) => (put (net_now n attempt PutEvict) (net_now n attempt PutSince) addr s p, [(s, bytes)], Ok tt)
      | (bytes, Err e) =>
        let '(p, log, r) := deliver_loop n addr items left' (S attempt) e (invalidate addr p) in
        (p, (s, bytes) :: log, r)
      end
    end
  end.

Definition tcp_deliver_batch (n : net) (addr : string) (items : list (list byte)) (p : DeliveryPool) :
    DeliveryPool * list (stream * list byte) * result chain unit :=
  deliver_loop n addr items 2 0 [Context "delivery failed"] p.
End Pool.
Arguments DeliveryPool : clear implicits.
Arguments PooledConn : clear implicits.
Arguments net : clear implicits.

(** ** Lemmas *)

Section PoolLemmas.
Context {stream : Type}.
Implicit Types (p : DeliveryPool stream) (s : stream).

Lemma evict_lookup now p addr :
  dp_conns (evict_stale now p) !! addr =
    match dp_conns p !! addr with
    | Some c => if elapsed now (pc_idle_since c) <? dp_idle_timeout p then Some c else None
    | None => None
    end.
Proof.
  unfold evict_stale; cbn [dp_conns]. rewrite map_lookup_filter.
  destruct (dp_conns p !! addr) as [c|]; [|done]. cbn.
  destruct (Z.ltb_spec (elapsed now (pc_idle_since c)) (dp_idle_timeout p)).
  - by rewrite option_guard_True.
  - rewrite option_guard_False; [done|]. cbn. lia.
Qed.

Lemma take_spec now later addr p :
  take now later addr p =
    (match dp_conns p !! addr with
     | Some c => if (elapsed now (pc_idle_since c) <? dp_idle_timeout p)
                    && (elapsed later (pc_idle_since c) <? dp_idle_timeout p)
                 then Some (pc_stream c) else None
     | None => None
     end, invalidate addr (evict_stale now p)).
Proof.
  unfold take, invalidate. rewrite evict_lookup.
  destruct (dp_conns p !! addr) as [c|] eqn:Hc.
  - destruct (Z.ltb_spec (elapsed now (pc_idle_since c)) (dp_idle_timeout p)).
    + cbn [dp_idle_timeout evict_stale andb].
      destruct (Z.leb_spec (dp_idle_timeout p) (elapsed later (pc_idle_since c))),
        (Z.ltb_spec (elapsed later (pc_idle_since c)) (dp_idle_timeout p)); done || lia.
    + rewrite delete_id; [by destruct p|]. rewrite evict_lookup, Hc.
      destruct (Z.ltb_spec (elapsed now (pc_idle_since c)) (dp_idle_timeout p)); [lia|done].
  - rewrite delete_id; [by destruct p|]. by rewrite evict_lookup, Hc.
Qed.

Lemma get_or_connect_removes connect now later addr p r p' :
  get_or_connect connect now later addr p = (r, p') -> dp_conns p' !! addr = None.
Proof.
  unfold get_or_connect. rewrite take_spec. unfold invalidate.
  repeat case_match; intros; simplify_eq; cbn [dp_conns]; apply lookup_delete_eq.
Qed.
End PoolLemmas.

(** ** Properties *)

(** [take] gives a pooled connection exactly when there is one for the
    address that has been idle for less than the timeout, and never leaves one
    behind: no two deliveries can hold the same connection. *)
Theorem pool_take_correct {stream} now later addr (p : DeliveryPool stream) :
  (forall s, (take now later addr p).1 = Some s <->
     exists since, dp_conns p !! addr = Some {| pc_stream := s; pc_idle_since := since |} /\
                   sat_sub now since < dp_idle_timeout p /\ sat_sub later since < dp_idle_timeout p) /\
  dp_conns (take now later addr p).2 !! addr = None.
Proof.
  rewrite take_spec. cbn [fst snd]. split; [|apply lookup_delete_eq].
  intros s. destruct (dp_conns p !! addr) as [[s' since]|]; cbn [pc_idle_since pc_stream].
  - unfold elapsed. destruct (Z.ltb_spec (sat_sub now since) (dp_idle_timeout p)),
      (Z.ltb_spec (sat_sub later since) (dp_idle_timeout p)); cbn [andb];
      (split; [intros Hs; try done; injection Hs as ->; by exists since|]);
      intros (? & [= -> ->] & ? & ?); done || lia.
  - split; [done|]. by intros (? & ? & _).
Qed.

(** A delivery makes at most two attempts; it succeeds exactly when its last
    attempt was written and flushed, and then the pool holds that connection; when
    it fails the pool holds no connection for the address. *)
Theorem tcp_deliver_batch_correct {stream} (n : net stream) addr items p p' log r :
  tcp_deliver_batch n addr items p = (p', log, r) ->
  (length log <= 2)%nat /\
  match r with
  | Ok _ => exists i s bytes written,
      last log = Some (s, bytes) /\ (i < 2)%nat /\
      net_write n i s (batch_slices MAGIC_BATCH items) = Ok written /\
      bytes = list.take written (encode_batch items) /\ net_flush n i s = Ok tt /\
      dp_conns p' !! addr = Some {| pc_stream := s; pc_idle_since := net_now n i PutSince |}
  | Err _ => dp_conns p' !! addr = None
  end.
Proof.
  assert (Hones : forall i s bytes, tcp_deliver_batch_once n i s items = (bytes, Ok tt) ->
            exists written, net_write n i s (batch_slices MAGIC_BATCH items) = Ok written /\
              bytes = list.take written (encode_batch items) /\ net_flush n i s = Ok tt).
  { intros i s bytes. unfold tcp_deliver_batch_once, write_batch_vectored, write_framed_batch_vectored.
    rewrite batch_slices_concat. destruct (net_write n i s _) as [w|e] eqn:Hw; [|done].
    destruct (net_flush n i s) as [[]|e] eqn:Hf; [|done]. intros [= <-]. by exists w. }
  unfold tcp_deliver_batch, deliver_loop.
  destruct (get_or_connect _ _ _ _ p) as [[s0|e0] p0] eqn:Hc0.
  2: { intros [= <- <- <-]. split; [simpl; lia|]. by eapply get_or_connect_removes. }
  destruct (tcp_deliver_batch_once n 0 s0 items) as [b0 [[]|e0]] eqn:H0.
  { intros [= <- <- <-]. split; [simpl; lia|].
    destruct (Hones _ _ _ H0) as (w & ? & ? & ?). exists 0%nat, s0, b0, w.
    split_and!; try done; [lia|]. apply lookup_insert_eq. }
  destruct (get_or_connect _ _ _ _ (invalidate addr p0)) as [[s1|e1] p1] eqn:Hc1.
  2: { intros [= <- <- <-]. split; [simpl; lia|]. by eapply get_or_connect_removes. }
  destruct (tcp_deliver_batch_once n 1 s1 items) as [b1 [[]|e1]] eqn:H1.
  { intros [= <- <- <-]. split; [simpl; lia|].
    destruct (Hones _ _ _ H1) as (w & ? & ? & ?). exists 1%nat, s1, b1, w.
    split_and!; try done; [lia|]. apply lookup_insert_eq. }
  intros [= <- <- <-]. split; [simpl; lia|]. apply lookup_delete_eq.
Qed.

(** A network that answers: connections are numbers, writes are complete. *)
Definition good_net : net nat :=
  {| net_connect := fun _ _ => Ok 7%nat; net_write := fun _ _ sl => Ok (length (concat sl));
     net_flush := fun _ _ => Ok tt; net_now := fun i _ => Z.of_nat i |}.

Lemma tcp_deliver_batch_correct_witness :
  let '(p', log, r) := tcp_deliver_batch good_net "h:1" [[Byte.x01]] (new 60) in
  (length log <= 2)%nat /\
  match r with
  | Ok _ => exists i s bytes written,
      last log = Some (s, bytes) /\ (i < 2)%nat /\
      net_write good_net i s (batch_slices MAGIC_BATCH [[Byte.x01]]) = Ok written /\
      bytes = list.take written (encode_batch [[Byte.x01]]) /\ net_flush good_net i s = Ok tt /\
      dp_conns p' !! "h:1"%string = Some {| pc_stream := s; pc_idle_since := net_now good_net i PutSince |}
  | Err _ => dp_conns p' !! "h:1"%string = None
  end.
Proof.
  destruct (tcp_deliver_batch good_net "h:1" [[Byte.x01]] (new 60)) as [[p' log] r] eqn:E.
  exact (tcp_deliver_batch_correct good_net "h:1" [[Byte.x01]] (new 60) p' log r E).
Defined.

(** A fresh connection is tried at most four times with the sleeps 5, 10 and
    20 ms in between: the first attempt that succeeds is returned at once, and
    when all four fail the error is the last attempt's. *)
Theorem connect_fresh_correct {stream} (connect : nat -> result string stream) addr :
  (exists k s, (k < 4)%nat /\ (forall i, (i < k)%nat -> is_ok (connect i) = false) /\
     connect k = Ok s /\ connect_fresh connect addr = (Ok s, list.take k [5; 10; 20])) \/
  (exists e, (forall i, (i < 4)%nat -> is_ok (connect i) = false) /\ connect 3%nat = Err e /\
     connect_fresh connect addr
       = (Err [Context ("connect consumer data " +:+ addr); IoError e], [5; 10; 20])).
Proof.
  assert (Hlt : forall k (P : nat -> Prop), (forall i, (i < S k)%nat -> P i) <-> (forall i, (i < k)%nat -> P i) /\ P k).
  { intros k P. split; [intros H; split; [intros; apply H; lia|apply H; lia]|].
    intros [H ?] i Hi. destruct (decide (i = k)) as [->|]; [done|apply H; lia]. }
  unfold connect_fresh, CONNECT_ATTEMPTS. cbn [connect_loop existsb is_io orb negb CONNECT_ATTEMPTS].
  destruct (connect 0%nat) as [s|e0] eqn:E0.
  { left. exists 0%nat, s. split_and!; [lia|lia|done|done]. }
  destruct (connect 1%nat) as [s|e1] eqn:E1.
  { left. exists 1%nat, s. rewrite !Hlt, E0. split_and!; [lia|lia|done|done|done]. }
  destruct (connect 2%nat) as [s|e2] eqn:E2.
  { left. exists 2%nat, s. rewrite !Hlt, E0, E1. split_and!; [lia|lia|done|done|done|done]. }
  destruct (connect 3%nat) as [s|e3] eqn:E3.
  { left. exists 3%nat, s. rewrite !Hlt, E0, E1, E2. split_and!; [lia|lia|done|done|done|done|done]. }
  right. exists e3. rewrite !Hlt, E0, E1, E2, E3. split_and!; [lia|done|done|done|done|done|done].
Qed.
