(* ===== verification/ProducerClient.v ===== *)
(** * The producer client ([master/src/producer/client.rs])

    [Inner] is the state behind the client's mutex: the [pending] ring fed by
    [publish], the accumulator, the [ring] an ASGN drains, and the state of the
    control link.  Each definition is one function of the source, or one critical
    section of it; [now] is the two clocks a call reads.  The control task is the
    function [control_step] on the events its [select!] reacts to. *)

From S2P Require Import Prelude Utf8 Protocol ByteRing Accumulator DeliveryPool.

(** ** Configuration *)

Definition DEFAULT_MAX_BATCH_BYTES : Z := 64 * 1024 * 1024.
Definition DEFAULT_FLUSH_TIMEOUT_MS : Z := 100.
Definition DEFAULT_OUTBOUND_MAX_BYTES : Z := 4 * 1024 * 1024 * 1024.
Definition DEFAULT_RECONNECT_DELAY_SECS : Z := 2.
Definition DEFAULT_HEARTBEAT_INTERVAL_MS : Z := 2000.
Definition DEFAULT_DELIVERY_TIMEOUT_SECS : Z := 8.
Definition DEFAULT_DELIVERY_IDLE_SECS : Z := 60.

Inductive LinkState : Type := Disconnected | LinkIdle | LinkReady | LinkBusy.

#[export] Instance link_state_eq_dec : EqDecision LinkState.
Proof. solve_decision. Defined.

Record ProducerConfig :=
  { cfg_master : string; cfg_max_batch_bytes : Z; cfg_flush_timeout_ms : Z;
    cfg_outbound_max_bytes : Z; cfg_reconnect_delay_secs : Z; cfg_delivery_timeout_secs : Z;
    cfg_delivery_idle_secs : Z; cfg_heartbeat_interval_ms : Z }.

Definition default_config (master : string) : ProducerConfig :=
  {| cfg_master := master; cfg_max_batch_bytes := DEFAULT_MAX_BATCH_BYTES;
     cfg_flush_timeout_ms := DEFAULT_FLUSH_TIMEOUT_MS;
     cfg_outbound_max_bytes := DEFAULT_OUTBOUND_MAX_BYTES;
     cfg_reconnect_delay_secs := DEFAULT_RECONNECT_DELAY_SECS;
     cfg_delivery_timeout_secs := DEFAULT_DELIVERY_TIMEOUT_SECS;
     cfg_delivery_idle_secs := DEFAULT_DELIVERY_IDLE_SECS;
     cfg_heartbeat_interval_ms := DEFAULT_HEARTBEAT_INTERVAL_MS |}.

Definition max_batch_bytes (c : ProducerConfig) (bytes : Z) : ProducerConfig :=
  {| c with cfg_max_batch_bytes := Z.max bytes 1 |}.
Definition flush_timeout_ms (c : ProducerConfig) (ms : Z) : ProducerConfig :=
  {| c with cfg_flush_timeout_ms := Z.max ms 1 |}.
Definition outbound_max_bytes (c : ProducerConfig) (bytes : Z) : ProducerConfig :=
  {| c with cfg_outbound_max_bytes := Z.max bytes 1 |}.
Definition reconnect_delay_secs (c : ProducerConfig) (secs : Z) : ProducerConfig :=
  {| c with cfg_reconnect_delay_secs := Z.max secs 1 |}.
Definition delivery_timeout_secs (c : ProducerConfig) (secs : Z) : ProducerConfig :=
  {| c with cfg_delivery_timeout_secs := Z.max secs 1 |}.
Definition delivery_idle_secs (c : ProducerConfig) (secs : Z) : ProducerConfig :=
  {| c with cfg_delivery_idle_secs := Z.max secs 1 |}.
Definition heartbeat_interval_ms (c : ProducerConfig) (ms : Z) : ProducerConfig :=
  {| c with cfg_heartbeat_interval_ms := Z.max ms 1 |}.

(** ** State *)

(** The clocks: [unix_ms()] in milliseconds, [Instant::now()] in nanoseconds. *)
Record clock := { now_ms : Z; now_ns : Z }.

Definition from_secs (s : Z) : Z := s * 1000000000.
Definition from_millis (ms : Z) : Z := ms * 1000000.

Record ProducerStats :=
  { published_items : Z; published_batches : Z; published_bytes : Z; reconnects : Z;
    queue_dropped_items : Z; delivery_errors : Z }.

Record Inner :=
  { in_config : ProducerConfig; in_pending : ByteRing; in_ring : ByteRing;
    in_accumulator : BatchAccumulator; in_link_state : LinkState; in_connected : bool;
    in_last_connect_fail : option Z }.

(** The client: its state, its counters, and the frames it wrote in full on the
    control connection, oldest first. *)
Record Client := { cl_inner : Inner; cl_stats : ProducerStats; cl_sent : list (list byte) }.

Definition zero_stats : ProducerStats := Build_ProducerStats 0 0 0 0 0 0.

(** The state [Producer::connect] builds. *)
Definition connect_inner (config : ProducerConfig) : Inner :=
  {| in_config := config;
     in_pending := ByteRing.new (cfg_outbound_max_bytes config);
     in_ring := ByteRing.new (cfg_outbound_max_bytes config);
     in_accumulator := Accumulator.new (cfg_max_batch_bytes config)
                         (from_millis (cfg_flush_timeout_ms config));
     in_link_state := Disconnected; in_connected := false; in_last_connect_fail := None |}.

Definition connect (config : ProducerConfig) : Client :=
  {| cl_inner := connect_inner config; cl_stats := zero_stats; cl_sent := [] |}.

(** ** Queues *)

Definition drops_total (st : Inner) : Z :=
  wrap 64 (rb_drops_total (in_pending st) + rb_drops_total (in_ring st)).

Definition sync_drop_stats (st : Inner) (stats : ProducerStats) : ProducerStats :=
  {| stats with queue_dropped_items := drops_total st |}.

Definition publish_batch (item : list byte) (now : clock) (c : Client) : Client :=
  let st := cl_inner c in
  let st := {| st with in_pending := (ByteRing.push item (now_ms now) (in_pending st)).1 |} in
  {| c with cl_inner := st; cl_stats := sync_drop_stats st (cl_stats c) |}.

Definition push_batch_to_ring (now : clock) (batch : list (list byte)) (ring : ByteRing) : ByteRing :=
  foldl (fun r item => (ByteRing.push item (now_ms now) r).1) ring batch.

Definition push_batches (now : clock) (batches : list (list (list byte))) (ring : ByteRing) : ByteRing :=
  foldl (fun r batch => push_batch_to_ring now batch r) ring batches.

(** [while let Some(msg) = st.pending.pop_front()]: every turn takes one entry,
    so the length of [pending] is the number of turns. The flag is [ring_gained]. *)
Fixpoint drain_pending (fuel : nat) (now : clock) (st : Inner) (gained : bool) : Inner * bool :=
  match fuel with
  | O => (st, gained)
  | S n =>
    match ByteRing.pop_front (in_pending st) with
    | None => (st, gained)
    | Some (msg, pending') =>
      let '(batches, acc') := Accumulator.push (qm_payload msg) (now_ns now) (in_accumulator st) in
      drain_pending n now
        {| st with in_pending := pending'; in_accumulator := acc';
                   in_ring := push_batches now batches (in_ring st) |}
        (gained || negb (bool_decide (batches = [])))
    end
  end.

Definition drain_all (now : clock) (st : Inner) : Inner * bool :=
  drain_pending (length (rb_queue (in_pending st))) now st false.

Definition flush_ingress_to_ring (now : clock) (st : Inner) : Inner :=
  let '(st, _) := drain_all now st in
  match Accumulator.take_batch (in_accumulator st) with
  | (Some batch, acc') =>
    {| st with in_accumulator := acc'; in_ring := push_batch_to_ring now batch (in_ring st) |}
  | (None, _) => st
  end.

(** One turn of the accumulator task: the client and [ring_gained]. *)
Definition accumulator_turn (now : clock) (c : Client) : Client * bool :=
  let '(st, gained) := drain_all now (cl_inner c) in
  let '(st, gained) :=
    match Accumulator.flush_if_timeout (now_ns now) (in_accumulator st) with
    | (Some batch, acc') =>
      ({| st with in_accumulator := acc'; in_ring := push_batch_to_ring now batch (in_ring st) |}, true)
    | (None, _) => (st, gained)
    end in
  ({| c with cl_inner := st; cl_stats := sync_drop_stats st (cl_stats c) |}, gained).

(** ** Assignments *)

(** The loop that finds [keep] in [drain_for_assign]. *)
Fixpoint keep_count (max_batch_bytes : Z) (out : list QueuedMessage) (i : nat) (total_bytes : Z) : nat :=
  match out with
  | [] => i
  | msg :: rest =>
    let next := total_bytes + blen (qm_payload msg) in
    if (max_batch_bytes <? next) && (0 <? i)%nat then i
    else keep_count max_batch_bytes rest (S i) next
  end.

(** [for msg in items.into_iter().rev() { ring.push_front(msg) }] *)
Definition requeue_rev (items : list QueuedMessage) (ring : ByteRing) : ByteRing :=
  foldr (fun msg r => (ByteRing.push_front msg r).1) ring items.

Definition drain_for_assign (max_items max_batch_bytes : Z) (ring : ByteRing) :
    list QueuedMessage * ByteRing :=
  let '(out, ring) := ByteRing.pop_up_to max_items ring in
  match out with
  | [] => ([], ring)
  | _ :: _ =>
    let keep := keep_count max_batch_bytes out 0 0 in
    if (keep <? length out)%nat
    then (list.take keep out, requeue_rev (drop keep out) ring)
    else (out, ring)
  end.

Definition requeue_items (items : list QueuedMessage) (st : Inner) : Inner :=
  match items with
  | [] => st
  | _ :: _ => {| st with in_ring := requeue_rev items (in_ring st) |}
  end.

(** First critical sections of [deliver_assign]: the items to send. *)
Definition assign_take (now : clock) (assign : AssignRequest) (st : Inner) : list QueuedMessage * Inner :=
  let max_items := Z.max (ar_max_items assign) 1 in
  let st := flush_ingress_to_ring now st in
  let '(items, ring) := drain_for_assign max_items (cfg_max_batch_bytes (in_config st)) (in_ring st) in
  (items, {| st with in_ring := ring |}).

(** How the timed delivery ended. *)
Inductive delivery : Type :=
| Delivered
| DeliveryFailed (e : chain)
| DeliveryTimeout.

Definition failure (msg_count batch_bytes : Z) (message : string) : FailureReport :=
  {| fr_msg_count := msg_count; fr_batch_bytes := batch_bytes; fr_code := 0; fr_message := message |}.

(** The rest of [deliver_assign], on the state it finds after the delivery. *)
Definition assign_finish (items : list QueuedMessage) (d : delivery) (st : Inner) :
    Inner * result FailureReport DeliveryReport :=
  let msg_count := wrap 16 (Z.of_nat (length items)) in
  if msg_count =? 0 then (st, Ok {| dr_msg_count := 0; dr_batch_bytes := 0 |})
  else
    let batch_bytes := wrap 32 (blen (encode_batch_payload (map qm_payload items))) in
    match d with
    | Delivered => (st, Ok {| dr_msg_count := msg_count; dr_batch_bytes := batch_bytes |})
    | DeliveryFailed e => (requeue_items items st, Err (failure msg_count batch_bytes (to_string e)))
    | DeliveryTimeout => (requeue_items items st, Err (failure msg_count batch_bytes "delivery timeout"))
    end.

(** What the other tasks do to the client while a batch is on the wire. *)
Inductive task_op : Type :=
| TaskPublish (item : list byte) (now : clock)
| TaskAccumulate (now : clock).

Definition run_task (c : Client) (op : task_op) : Client :=
  match op with
  | TaskPublish item now => publish_batch item now c
  | TaskAccumulate now => (accumulator_turn now c).1
  end.

Definition deliver_assign (now : clock) (assign : AssignRequest) (d : delivery)
    (during : list task_op) (c : Client) : Client * result FailureReport DeliveryReport :=
  let '(items, st) := assign_take now assign (cl_inner c) in
  let c := foldl run_task {| c with cl_inner := st |} during in
  let '(st, report) := assign_finish items d (cl_inner c) in
  ({| c with cl_inner := st |}, report).

(** ** The control link *)

Definition mark_disconnected (now : clock) (st : Inner) : Inner :=
  {| st with in_connected := false; in_link_state := Disconnected; in_last_connect_fail := Some (now_ns now) |}.

Definition collect_heartbeat (st : Inner) : ProducerHeartbeat :=
  {| hb_pending_messages := wrap 32 (ByteRing.len (in_pending st));
     hb_pending_bytes := wrap 32 (byte_len (in_pending st));
     hb_ring_messages := wrap 32 (ByteRing.len (in_ring st));
     hb_ring_bytes := wrap 32 (byte_len (in_ring st));
     hb_drops_total := drops_total st |}.

(** Write a frame; [ok] is what [write_all] answers. *)
Definition write_frame (ok : bool) (now : clock) (frame : list byte) (c : Client) : Client :=
  if ok then {| c with cl_sent := cl_sent c ++ [frame] |}
  else {| c with cl_inner := mark_disconnected now (cl_inner c) |}.

Definition maybe_send_heartbeat (ok : bool) (now : clock) (c : Client) : Client :=
  if negb (in_connected (cl_inner c)) then c
  else write_frame ok now (encode_heartbeat (collect_heartbeat (cl_inner c))) c.

Definition maybe_send_ready (ok : bool) (now : clock) (c : Client) : Client :=
  let st := cl_inner c in
  let should := negb (ByteRing.is_empty (in_ring st)) && bool_decide (in_link_state st = LinkIdle)
                && in_connected st in
  if negb should then c
  else
    let c := {| c with cl_inner := {| st with in_link_state := LinkReady |} |} in
    if ok then write_frame true now encode_producer_ready c
    else
      let stats := cl_stats c in
      write_frame false now encode_producer_ready
        {| c with cl_stats := {| stats with reconnects := wrap 64 (reconnects stats + 1) |} |}.

Definition handle_delivery_result (ok : bool) (now : clock) (report : result FailureReport DeliveryReport)
    (c : Client) : Client :=
  let stats := cl_stats c in
  match report with
  | Ok report =>
    let stats :=
      if 0 <? dr_msg_count report then
        {| stats with
           published_items := wrap 64 (published_items stats + dr_msg_count report);
           published_bytes := wrap 64 (published_bytes stats + dr_batch_bytes report);
           published_batches := wrap 64 (published_batches stats + 1) |}
      else stats in
    write_frame ok now (encode_delivered report) {| c with cl_stats := stats |}
  | Err report =>
    let stats := {| stats with delivery_errors := wrap 64 (delivery_errors stats + 1) |} in
    write_frame ok now (encode_failed report)
      {| c with cl_stats := sync_drop_stats (cl_inner c) stats |}
  end.

Definition set_link (l : LinkState) (c : Client) : Client :=
  let st := cl_inner c in {| c with cl_inner := {| st with in_link_state := l |} |}.

Definition may_try_connect (now : clock) (st : Inner) : bool :=
  if in_connected st then true
  else
    match in_last_connect_fail st with
    | Some t => negb (sat_sub (now_ns now) t <? from_secs (cfg_reconnect_delay_secs (in_config st)))
    | None => true
    end.

(** [connect_if_needed]; [answer] is what [TcpStream::connect] answers, [true]
    for a connection. The flag tells whether it returned a stream. *)
Definition connect_if_needed (answer : bool) (now : clock) (c : Client) : Client * bool :=
  let st := cl_inner c in
  if negb (may_try_connect now st) then (c, false)
  else if answer then
    ({| c with cl_inner := {| st with in_connected := true; in_link_state := LinkIdle;
                                      in_last_connect_fail := None |} |}, true)
  else
    let stats := cl_stats c in
    ({| c with cl_inner := {| st with in_last_connect_fail := Some (now_ns now) |};
               cl_stats := {| stats with reconnects := wrap 64 (reconnects stats + 1) |} |}, false).

(** What the control task's inner loop reacts to; the booleans are the answers of
    the writes the branch makes, in order. *)
Inductive control_event : Type :=
| ReadAssign (assign : AssignRequest) (d : delivery) (during : list task_op)
    (w_report w_ready w_hb : bool)
| ReadFailed
| Notified (w_ready : bool)
| HeartbeatTick (w_hb : bool).

(** One branch of the [select!]; the flag is whether the inner loop goes on. *)
Definition control_step (now : clock) (e : control_event) (c : Client) : Client * bool :=
  match e with
  | ReadAssign assign d during w_report w_ready w_hb =>
    let c := set_link LinkBusy c in
    let '(c, report) := deliver_assign now assign d during c in
    let c := handle_delivery_result w_report now report c in
    let c := set_link LinkIdle c in
    let c := maybe_send_ready w_ready now c in
    (maybe_send_heartbeat w_hb now c, true)
  | ReadFailed => ({| c with cl_inner := mark_disconnected now (cl_inner c) |}, false)
  | Notified w_ready => (maybe_send_ready w_ready now c, true)
  | HeartbeatTick w_hb => (maybe_send_heartbeat w_hb now c, true)
  end.

(** The top of the outer loop, once connected. *)
Definition session_start (w_ready w_hb : bool) (now : clock) (c : Client) : Client :=
  maybe_send_heartbeat w_hb now (maybe_send_ready w_ready now c).

(** ** Lemmas *)

Lemma map_message_entry l : map entry_of (map message_of l) = l.
Proof. induction l as [|e l IH]; [done|]. cbn [map]. by rewrite entry_message, IH. Qed.

Lemma qm_payload_messages l : map qm_payload (map message_of l) = payloads l.
Proof. unfold payloads. rewrite map_map. by apply map_ext. Qed.

(** The ring after some payloads went in at the back: the newest of what it held
    and what went in; nothing is dropped when everything fits. *)
Definition absorbs (r : ByteRing) (l : list (list byte)) (r' : ByteRing) : Prop :=
  ring_ok r' /\ rb_max_bytes r' = rb_max_bytes r /\
  exists k, (k <= length (payloads (rb_queue r) ++ l))%nat /\
    payloads (rb_queue r') = drop k (payloads (rb_queue r) ++ l) /\
    rb_drops_total r' = wrap 64 (rb_drops_total r + Z.of_nat k) /\
    ((0 < k)%nat -> rb_max_bytes r < total_len (payloads (rb_queue r) ++ l)).

Lemma absorbs_nil r : ring_ok r -> absorbs r [] r.
Proof.
  intros Hok. split_and!; [done|done|]. exists 0%nat. rewrite app_nil_r, Z.add_0_r.
  rewrite wrap_small by apply Hok. split_and!; [lia|done|done|lia].
Qed.

Lemma total_len_drop_le k l : total_len (drop k l) <= total_len l.
Proof.
  rewrite <- (take_drop k l) at 2. rewrite total_len_app.
  pose proof (total_len_nonneg (list.take k l)). lia.
Qed.

Lemma absorbs_trans r l1 r1 l2 r2 : absorbs r l1 r1 -> absorbs r1 l2 r2 -> absorbs r (l1 ++ l2) r2.
Proof.
  intros (_ & Hm1 & k1 & Hk1 & Hp1 & Hd1 & Hx1) (Hok & Hm2 & k2 & Hk2 & Hp2 & Hd2 & Hx2).
  split_and!; [done|by rewrite Hm2|]. exists (k1 + k2)%nat.
  rewrite Hp1 in Hk2, Hp2, Hx2. rewrite app_assoc.
  set (P := payloads (rb_queue r) ++ l1) in *.
  assert (Hcat : drop k1 P ++ l2 = drop k1 (P ++ l2)).
  { rewrite drop_app. by replace (k1 - length P)%nat with 0%nat by lia. }
  rewrite Hcat in Hk2, Hp2, Hx2. rewrite length_drop in Hk2.
  pose proof (total_len_drop_le k1 (P ++ l2)). rewrite (total_len_app P) in *.
  pose proof (total_len_nonneg l2).
  split_and!.
  - rewrite length_app in *. lia.
  - by rewrite Hp2, drop_drop.
  - rewrite Hd2, Hd1, wrap_succ. f_equal. lia.
  - intros. destruct k2 as [|k2]; [specialize (Hx1 ltac:(lia)); lia|].
    specialize (Hx2 ltac:(lia)). lia.
Qed.

Definition fits (cap : Z) (p : list byte) : Prop := 1 <= blen p <= cap.

Lemma absorbs_push r p t :
  ring_ok r -> fits (rb_max_bytes r) p -> absorbs r [p] (ByteRing.push p t r).1.
Proof.
  intros Hok Hp. split_and!; [by apply push_ok| |].
  - destruct (push_fits r p t Hok Hp) as (k & _ & -> & _). done.
  - destruct (push_fits r p t Hok Hp) as (k & Hk & -> & Hfit & Hmin). exists k.
    cbn [fst rb_queue rb_drops_total]. unfold payloads. rewrite map_app, <- skipn_map. cbn [map re_payload].
    assert (Hkl : (k <= length (map re_payload (rb_queue r)))%nat) by (by rewrite length_map).
    split_and!; [rewrite length_app; lia| |done|].
    + rewrite (drop_app _ _ k). by replace (k - _)%nat with 0%nat by lia.
    + intros. specialize (Hmin 0%nat ltac:(lia)). rewrite drop_0 in Hmin.
      rewrite total_len_app, total_len_cons. simpl. unfold qbytes, payloads in Hmin. lia.
Qed.

Lemma absorbs_batch now batch r :
  ring_ok r -> Forall (fits (rb_max_bytes r)) batch ->
  absorbs r batch (push_batch_to_ring now batch r).
Proof.
  revert r. induction batch as [|p batch IH]; intros r Hok Hf; [by apply absorbs_nil|].
  apply Forall_cons in Hf as [Hp Hf]. pose proof (absorbs_push r p (now_ms now) Hok Hp) as H1.
  pose proof H1 as (Hok1 & Hm1 & _).
  change (p :: batch) with ([p] ++ batch). eapply absorbs_trans; [exact H1|].
  apply IH; [done|by rewrite Hm1].
Qed.

Lemma absorbs_batches now batches r :
  ring_ok r -> Forall (fits (rb_max_bytes r)) (concat batches) ->
  absorbs r (concat batches) (push_batches now batches r).
Proof.
  revert r. induction batches as [|b batches IH]; intros r Hok Hf; [by apply absorbs_nil|].
  cbn [concat] in *. apply Forall_app in Hf as [Hb Hf].
  pose proof (absorbs_batch now b r Hok Hb) as H1. pose proof H1 as (Hok1 & Hm1 & _).
  eapply absorbs_trans; [exact H1|]. apply IH; [done|by rewrite Hm1].
Qed.

(** The queues of a running client: consistent, with one cap, and every payload
    on its way to the ring can fit in it. *)
Record inner_ok (st : Inner) : Prop :=
  { io_pending : ring_ok (in_pending st);
    io_ring : ring_ok (in_ring st);
    io_acc : acc_ok (in_accumulator st);
    io_caps : rb_max_bytes (in_pending st) = rb_max_bytes (in_ring st);
    io_items : Forall (fits (rb_max_bytes (in_ring st))) (acc_items (in_accumulator st)) }.

Lemma ring_entries_fit r : ring_ok r -> Forall (fits (rb_max_bytes r)) (payloads (rb_queue r)).
Proof.
  intros [_ Hc _ Hn _]. apply Forall_forall. intros p Hp.
  pose proof (total_len_in _ _ Hp) as Hle. unfold qbytes in Hc.
  unfold payloads in Hp. apply list_elem_of_fmap in Hp as (e & -> & He).
  rewrite Forall_forall in Hn. specialize (Hn e He). cbn in Hn. unfold fits. lia.
Qed.

Lemma ring_entry_fits r e q : ring_ok r -> rb_queue r = e :: q -> fits (rb_max_bytes r) (re_payload e).
Proof.
  intros Hok Hq. pose proof (ring_entries_fit r Hok) as Hf. rewrite Hq in Hf.
  by apply Forall_cons in Hf as [? _].
Qed.

(** What the flushes leave alone. *)
Definition same_link (st st' : Inner) : Prop :=
  in_config st' = in_config st /\ in_link_state st' = in_link_state st /\
  in_connected st' = in_connected st /\ in_last_connect_fail st' = in_last_connect_fail st.

(** [drain_all]: the pending ring is emptied through the accumulator, in order. *)
Lemma drain_pending_spec now n st g :
  inner_ok st -> length (rb_queue (in_pending st)) = n ->
  exists st' out,
    (drain_pending n now st g).1 = st' /\ inner_ok st' /\ same_link st st' /\
    rb_queue (in_pending st') = [] /\
    rb_drops_total (in_pending st') = rb_drops_total (in_pending st) /\
    absorbs (in_ring st) out (in_ring st') /\
    out ++ acc_items (in_accumulator st')
      = acc_items (in_accumulator st) ++ payloads (rb_queue (in_pending st)).
Proof.
  revert st g. induction n as [|n IH]; intros st g Hok Hlen.
  { apply length_zero_iff_nil in Hlen. exists st, []. cbn [drain_pending fst].
    rewrite Hlen, app_nil_r. split_and!; try done; [apply absorbs_nil, Hok]. }
  destruct (rb_queue (in_pending st)) as [|e q] eqn:Hq; [done|].
  pose proof Hok as [Hp Hr Ha Hcap Hit].
  pose proof (ring_entry_fits _ _ _ Hp Hq) as Hfit. rewrite Hcap in Hfit.
  pose proof (with_queue_drop_ok _ 1 Hp) as Hp'. rewrite Hq in Hp'. change (drop 1 (e :: q)) with q in Hp'.
  cbn [drain_pending]. unfold ByteRing.pop_front. rewrite (pop_front_inner_cons _ _ _ Hp Hq).
  destruct (Accumulator.push _ _ _) as [batches acc'] eqn:Hpush.
  assert (Hsmall : blen (re_payload e) <= umax 63).
  { pose proof (ok_max _ Hr) as Hm. unfold cap_ok, fits in *. lia. }
  destruct (push_acc_spec _ _ _ _ _ Ha Hsmall Hpush) as (Hcat & _ & _ & Ha' & _).
  assert (Hall : Forall (fits (rb_max_bytes (in_ring st))) (concat batches ++ acc_items acc')).
  { cbn [qm_payload message_of] in Hcat. rewrite Hcat. apply Forall_app. split; [done|by constructor]. }
  apply Forall_app in Hall as [Hb Hi].
  pose proof (absorbs_batches now batches (in_ring st) Hr Hb) as Habs.
  pose proof Habs as (Hr' & Hm' & _).
  edestruct (IH {| st with in_pending := with_queue (in_pending st) q; in_accumulator := acc';
                           in_ring := push_batches now batches (in_ring st) |})
    as (st' & out & Hst & Hok' & Hsame & Hempty & Hdr & Habs' & Hout).
  { constructor; cbn [in_pending in_ring in_accumulator]; rewrite ?Hm'; done. }
  { cbn [in_pending with_queue rb_queue]. simpl in Hlen. lia. }
  exists st', (concat batches ++ out). split_and!; try done.
  - eapply absorbs_trans; [exact Habs|exact Habs'].
  - rewrite <- app_assoc, Hout. cbn [in_accumulator in_pending with_queue rb_queue].
    rewrite app_assoc, Hcat, <- app_assoc. done.
Qed.

(** [flush_ingress_to_ring]: everything published so far is in the ring, in the
    order of publication, less the oldest payloads if the ring is full. *)
Lemma flush_ingress_spec now st :
  inner_ok st ->
  let st' := flush_ingress_to_ring now st in
  inner_ok st' /\ same_link st st' /\
  rb_queue (in_pending st') = [] /\ acc_items (in_accumulator st') = [] /\
  rb_drops_total (in_pending st') = rb_drops_total (in_pending st) /\
  absorbs (in_ring st)
    (acc_items (in_accumulator st) ++ payloads (rb_queue (in_pending st))) (in_ring st').
Proof.
  intros Hok. cbv zeta. unfold flush_ingress_to_ring, drain_all.
  destruct (drain_pending_spec now _ st false Hok eq_refl)
    as (st1 & out & Hst & Hok1 & Hsame & Hempty & Hdr & Habs & Hout).
  destruct (drain_pending _ now st false) as [st1' g]. cbn [fst] in Hst. subst st1'.
  pose proof Hok1 as [Hp1 Hr1 Ha1 Hcap1 Hit1].
  destruct (take_batch_spec _ Ha1) as [[Hnil ->]|(Hne & _ & ->)].
  - rewrite Hnil, app_nil_r in Hout. by rewrite Hout in Habs.
  - pose proof (absorbs_batch now _ _ Hr1 Hit1) as Habs2. pose proof Habs2 as (Hr2 & Hm2 & _).
    split_and!; try done.
    + constructor; cbn [in_pending in_ring in_accumulator]; rewrite ?Hm2; try done.
      by apply acc_empty_ok.
    + cbn [in_ring]. rewrite <- Hout. by eapply absorbs_trans.
Qed.

(** *** Draining the ring for an ASGN *)

Definition qm_bytes (l : list QueuedMessage) : Z := total_len (map qm_payload l).

Lemma qm_bytes_cons m l : qm_bytes (m :: l) = blen (qm_payload m) + qm_bytes l.
Proof. reflexivity. Qed.

Lemma qm_bytes_app l1 l2 : qm_bytes (l1 ++ l2) = qm_bytes l1 + qm_bytes l2.
Proof. unfold qm_bytes. by rewrite map_app, total_len_app. Qed.

Lemma qm_bytes_nonneg l : 0 <= qm_bytes l.
Proof. apply total_len_nonneg. Qed.

Lemma qm_bytes_messages q : qm_bytes (map message_of q) = qbytes q.
Proof. unfold qm_bytes. by rewrite qm_payload_messages. Qed.

Lemma keep_count_pos mb out i total :
  (1 <= i)%nat ->
  exists k, (k <= length out)%nat /\ keep_count mb out i total = (i + k)%nat /\
    (k = 0%nat \/ total + qm_bytes (list.take k out) <= mb) /\
    ((k < length out)%nat -> mb < total + qm_bytes (list.take (S k) out)).
Proof.
  revert i total. induction out as [|m out IH]; intros i total Hi; cbn [keep_count].
  { exists 0%nat. split_and!; [done|lia|by left|simpl; lia]. }
  destruct (Z.ltb_spec mb (total + blen (qm_payload m))) as [Hgt|Hle].
  - destruct (Nat.ltb_spec 0 i); [|lia]. exists 0%nat. cbn [andb list.take firstn].
    rewrite take_0, qm_bytes_cons. change (qm_bytes []) with 0. split_and!; [lia|lia|by left|lia].
  - cbn [andb]. destruct (IH (S i) (total + blen (qm_payload m)) ltac:(lia)) as (k & Hk & -> & Hfit & Hstop).
    exists (S k). rewrite !firstn_cons, !qm_bytes_cons. cbn [length]. split_and!; [lia|lia| |].
    + right. destruct Hfit as [->|]; [rewrite take_0; change (qm_bytes []) with 0; lia|lia].
    + intros. specialize (Hstop ltac:(lia)). lia.
Qed.

(** [keep_count]: at least one item, and the longest prefix within the limit. *)
Lemma keep_count_spec mb out :
  out <> [] ->
  let n := keep_count mb out 0 0 in
  (1 <= n <= length out)%nat /\ (n = 1%nat \/ qm_bytes (list.take n out) <= mb) /\
  ((n < length out)%nat -> mb < qm_bytes (list.take (S n) out)).
Proof.
  intros Hne. destruct out as [|m out]; [done|]. cbv zeta. cbn [keep_count].
  rewrite andb_false_r, Z.add_0_l.
  destruct (keep_count_pos mb out 1 (blen (qm_payload m)) ltac:(lia)) as (k & Hk & -> & Hfit & Hstop).
  rewrite !firstn_cons, !qm_bytes_cons. cbn [length]. split_and!; [lia|lia| |].
  - destruct Hfit as [->|]; [by left|by right].
  - intros. apply Hstop. lia.
Qed.

(** Requeued messages that fit are back at the head, in their order. *)
Lemma requeue_rev_room items r :
  ring_ok r -> Forall (fun m => 1 <= blen (qm_payload m)) items ->
  qm_bytes items + qbytes (rb_queue r) <= rb_max_bytes r ->
  requeue_rev items r = with_queue r (map entry_of items ++ rb_queue r) /\
  ring_ok (requeue_rev items r).
Proof.
  intros Hok Hf. induction Hf as [|m items Hm Hf IH]; intros Hroom.
  { cbn [requeue_rev foldr map app]. by rewrite with_queue_self. }
  rewrite qm_bytes_cons in Hroom. pose proof (blen_nonneg (qm_payload m)).
  destruct IH as [Heq Hok1]; [lia|]. unfold requeue_rev in *. cbn [foldr map app].
  pose proof (ok_max _ Hok) as Hmax. unfold cap_ok in Hmax. pose proof (qbytes_nonneg (rb_queue r)).
  pose proof (qm_bytes_nonneg items).
  split; [|apply push_front_ok; [done|lia]].
  rewrite push_front_room; [|done|].
  - cbn [fst]. rewrite Heq. done.
  - rewrite Heq. cbn [rb_queue rb_max_bytes with_queue]. rewrite qbytes_app.
    assert (qbytes (map entry_of items) = qm_bytes items) as ->; [|lia].
    unfold qbytes, payloads, qm_bytes. by rewrite map_map.
Qed.

(** [drain_for_assign] takes a prefix of the ring and leaves the rest as it was. *)
Lemma drain_for_assign_spec mi mb r :
  ring_ok r -> 1 <= mi ->
  exists n,
    drain_for_assign mi mb r
      = (map message_of (list.take n (rb_queue r)), with_queue r (drop n (rb_queue r))) /\
    (Z.of_nat n <= mi) /\ (n <= length (rb_queue r))%nat /\
    (rb_queue r <> [] -> (1 <= n)%nat) /\
    (n = 1%nat \/ qbytes (list.take n (rb_queue r)) <= mb \/ n = 0%nat) /\
    ((n < length (rb_queue r))%nat -> Z.of_nat n < mi ->
       mb < qbytes (list.take (S n) (rb_queue r))).
Proof.
  intros Hok Hmi. unfold drain_for_assign. rewrite pop_up_to_spec by (done || lia).
  set (q := rb_queue r). set (k := Z.to_nat mi).
  destruct (map message_of (list.take k q)) as [|m l] eqn:Hout.
  { apply map_eq_nil in Hout. exists 0%nat. rewrite take_0, drop_0.
    assert (q = []) as Hq by (destruct q; [done|destruct k eqn:?; [unfold k in *; lia|done]]).
    rewrite Hq, drop_nil. split_and!; [done|lia|simpl; lia|done|by (right; right)|simpl; lia]. }
  rewrite <- Hout. pose proof (keep_count_spec mb (map message_of (list.take k q))) as Hkeep.
  rewrite Hout in Hkeep at 1. specialize (Hkeep ltac:(done)). cbv zeta in Hkeep.
  set (n := keep_count mb (map message_of (list.take k q)) 0 0) in *.
  rewrite !firstn_map, !qm_bytes_messages, length_map, length_take, !take_take in Hkeep.
  destruct Hkeep as (Hn & Hfit & Hstop). rewrite Nat.min_l in Hfit by lia.
  rewrite length_map, length_take.
  assert (Hq : (1 <= length q)%nat) by lia.
  exists n. destruct (Nat.ltb_spec n (k `min` length q)) as [Hlt|Hge].
  - rewrite (Nat.min_l (S n)) in Hstop by lia. split_and!; [|lia|lia|lia|naive_solver lia|intros; apply Hstop; lia].
    rewrite firstn_map, take_take, Nat.min_l by lia. f_equal.
    rewrite skipn_map, skipn_firstn_comm.
    pose proof (with_queue_drop_ok r k Hok) as Hok'. fold q in Hok'.
    set (mid := list.take (k - n) (drop n q)).
    assert (Hsplit : drop n q = mid ++ drop k q).
    { unfold mid. replace k with (n + (k - n))%nat at 2 by lia. by rewrite <- drop_drop, take_drop. }
    destruct (requeue_rev_room (map message_of mid) (with_queue r (drop k q))) as [Heq _].
    + done.
    + apply Forall_map. unfold mid. apply Forall_take, Forall_drop.
      eapply Forall_impl; [apply Hok|done].
    + rewrite qm_bytes_messages. cbn [with_queue rb_queue rb_max_bytes].
      rewrite <- qbytes_app, <- Hsplit. pose proof (qbytes_drop_le n q). pose proof (ok_cap _ Hok).
      unfold q in *. lia.
    + rewrite Heq, map_message_entry. cbn [with_queue rb_queue]. by rewrite <- Hsplit.
  - assert (n = k `min` length q)%nat as -> by lia.
    split_and!; [|lia|lia|lia|naive_solver lia|lia].
    destruct (decide (k <= length q)%nat); [by rewrite Nat.min_l by lia|].
    by rewrite Nat.min_r, !drop_ge, !take_ge by lia.
Qed.

(** Requeued messages stay at the head, in their order; a suffix of the rest
    goes if there is no room. *)
Lemma requeue_rev_keeps items r :
  ring_ok r -> Forall (fun m => 1 <= blen (qm_payload m)) items ->
  qm_bytes items <= rb_max_bytes r ->
  exists j, (length items <= j)%nat /\
    rb_queue (requeue_rev items r) = list.take j (map entry_of items ++ rb_queue r) /\
    ring_ok (requeue_rev items r) /\ rb_max_bytes (requeue_rev items r) = rb_max_bytes r.
Proof.
  intros Hok Hf. induction Hf as [|m items Hm Hf IH]; intros Hroom.
  { exists (length (rb_queue r)). cbn [requeue_rev foldr map app length]. rewrite take_ge by done.
    split_and!; [lia|done..]. }
  rewrite qm_bytes_cons in Hroom. pose proof (ok_max _ Hok) as Hmax. unfold cap_ok in Hmax.
  pose proof (qm_bytes_nonneg items).
  destruct IH as (j & Hj & Hq & Hok1 & Hmb); [lia|].
  unfold requeue_rev in *. cbn [foldr map app length].
  set (r1 := foldr _ r items) in *.
  destruct (push_front_spec r1 m Hok1) as (k & Hk & Heq & Hfit & Hmin); [lia|].
  rewrite Heq. cbn [fst rb_queue rb_max_bytes].
  assert (Hlen : (length items <= length (rb_queue r1))%nat).
  { rewrite Hq, length_take, length_app, length_map. lia. }
  assert (Hkl : (S (length items) <= S (length (rb_queue r1)) - k)%nat).
  { destruct (decide (S (length items) <= S (length (rb_queue r1)) - k)%nat); [done|exfalso].
    specialize (Hmin (length (rb_queue r1) - length items)%nat ltac:(lia)).
    replace (S (length (rb_queue r1)) - (length (rb_queue r1) - length items))%nat
      with (S (length items)) in Hmin by lia.
    rewrite firstn_cons, qbytes_cons, Hq, take_take, Nat.min_l, take_app_le, take_ge in Hmin
      by (rewrite ?length_map; lia).
    assert (qbytes (map entry_of items) = qm_bytes items) as Heqb.
    { unfold qbytes, payloads, qm_bytes. by rewrite map_map. }
    cbn [re_payload entry_of] in Hmin. lia. }
  exists (S (Nat.min (length (rb_queue r1) - k) j)). split_and!; [lia| | |done].
  - replace (S (length (rb_queue r1)) - k)%nat with (S (length (rb_queue r1) - k)) by lia.
    by rewrite !firstn_cons, Hq, take_take.
  - pose proof (push_front_ok r1 m Hok1 ltac:(lia)) as Hpf. by rewrite Heq in Hpf.
Qed.

(** What requeuing [items] makes of the ring: they are first, in their order, the
    rest follows, and of its end as many entries are missing, and counted, as the
    cap asks for and no more. *)
Definition requeued (items : list QueuedMessage) (r r' : ByteRing) : Prop :=
  let l := map entry_of items ++ rb_queue r in
  exists j, rb_queue r' = list.take j l /\ (length items <= j <= length l)%nat /\
    ((j < length l)%nat -> rb_max_bytes r < qbytes (list.take (S j) l)) /\
    rb_drops_total r' = wrap 64 (rb_drops_total r + Z.of_nat (length l - j)).

(** [take] of a longer list, seen through its own [take]. *)
Lemma take_of_take {A} n j (l : list A) : (n <= j)%nat -> list.take n (list.take j l) = list.take n l.
Proof. intros H. rewrite take_take. by rewrite Nat.min_l. Qed.

Lemma requeue_rev_requeued items r :
  ring_ok r -> Forall (fun m => 1 <= blen (qm_payload m)) items ->
  qm_bytes items <= rb_max_bytes r -> requeued items r (requeue_rev items r).
Proof.
  intros Hok Hf. induction Hf as [|m items Hm Hf IH]; intros Hroom.
  { exists (length (rb_queue r)). cbn [requeue_rev foldr map app length]. rewrite take_ge by done.
    split_and!; [done|lia|lia|lia|]. rewrite Nat.sub_diag, Z.add_0_r. symmetry. apply wrap_small, Hok. }
  rewrite qm_bytes_cons in Hroom. pose proof (ok_max _ Hok) as Hmax. unfold cap_ok in Hmax.
  pose proof (qm_bytes_nonneg items).
  pose proof (requeue_rev_keeps (m :: items) r Hok ltac:(by constructor) ltac:(rewrite qm_bytes_cons; lia)) as Hkeep.
  destruct (requeue_rev_keeps items r Hok Hf ltac:(lia)) as (_ & _ & _ & Hok1 & Hmb).
  destruct IH as (j & Hq & Hj & Hover & Hdrop); [lia|].
  unfold requeued. unfold requeue_rev in *. cbn [foldr map app length] in *. set (r1 := foldr _ r items) in *.
  set (l := map entry_of items ++ rb_queue r) in *.
  destruct (push_front_spec r1 m Hok1) as (k & Hk & Heq & Hfit & Hmin); [lia|].
  destruct Hkeep as (j' & Hj' & Hqj & _). rewrite Heq in *. cbn [fst rb_queue rb_drops_total] in *.
  assert (Hlen : length (rb_queue r1) = j) by (rewrite Hq, length_take; lia). rewrite Hlen in *.
  pose proof (f_equal length Hqj) as Hl. rewrite !length_take in Hl. cbn [length] in Hl. rewrite Hlen in Hl.
  assert (length l = length items + length (rb_queue r))%nat as Hll by (unfold l; by rewrite length_app, length_map).
  exists (S j - k)%nat. split_and!; [|lia|lia| |].
  - rewrite <- (take_of_take (S j - k) (S j) (entry_of m :: l)) by lia. cbn [list.take]. by rewrite <- Hq.
  - intros Hlt. destruct (decide (k = 0)%nat) as [->|Hk0].
    + rewrite Nat.sub_0_r, firstn_cons, qbytes_cons. pose proof (blen_nonneg (re_payload (entry_of m))).
      specialize (Hover ltac:(lia)). lia.
    + specialize (Hmin (k - 1)%nat ltac:(lia)). replace (S j - (k - 1))%nat with (S (S j - k)) in Hmin by lia.
      rewrite <- (take_of_take (S (S j - k)) (S j) (entry_of m :: l)) by lia.
      rewrite firstn_cons, <- Hq. by rewrite Hmb in Hmin.
  - rewrite Hdrop. unfold wrap. rewrite Zplus_mod_idemp_l. f_equal. lia.
Qed.

(** *** One ASGN *)

(** Everything the client holds for delivery, in the order of publication. *)
Definition everything (st : Inner) : list (list byte) :=
  payloads (rb_queue (in_ring st)) ++ acc_items (in_accumulator st)
    ++ payloads (rb_queue (in_pending st)).

Lemma with_ring_ok st r :
  inner_ok st -> ring_ok r -> rb_max_bytes r = rb_max_bytes (in_ring st) ->
  inner_ok {| st with in_ring := r |}.
Proof. intros [] ? Hm. constructor; cbn [in_pending in_ring in_accumulator]; rewrite ?Hm; done. Qed.

(** [assign_take] flushes the ingress and takes a prefix of the ring. *)
Lemma assign_take_spec now assign st :
  inner_ok st ->
  let st1 := flush_ingress_to_ring now st in
  let q := rb_queue (in_ring st1) in
  let mi := Z.max (ar_max_items assign) 1 in
  let mb := cfg_max_batch_bytes (in_config st) in
  exists n,
    assign_take now assign st
      = (map message_of (list.take n q), {| st1 with in_ring := with_queue (in_ring st1) (drop n q) |}) /\
    Z.of_nat n <= mi /\ (n <= length q)%nat /\ (q <> [] -> (1 <= n)%nat) /\
    ((n <= 1)%nat \/ qbytes (list.take n q) <= mb) /\
    ((n < length q)%nat -> Z.of_nat n < mi -> mb < qbytes (list.take (S n) q)).
Proof.
  intros Hok. cbv zeta. unfold assign_take.
  destruct (flush_ingress_spec now st Hok) as (Hok1 & (Hcfg & _) & _).
  set (st1 := flush_ingress_to_ring now st) in *. rewrite Hcfg.
  destruct (drain_for_assign_spec (Z.max (ar_max_items assign) 1) (cfg_max_batch_bytes (in_config st))
              (in_ring st1)) as (n & -> & Hmi & Hn & Hpos & Hfit & Hstop); [apply Hok1|lia|].
  exists n. split_and!; [done|done|done|done| |done].
  destruct Hfit as [->|[?| ->]]; [left; lia|by right|left; lia].
Qed.

Lemma assign_take_ok now assign st :
  inner_ok st -> inner_ok (assign_take now assign st).2.
Proof.
  intros Hok. destruct (assign_take_spec now assign st Hok) as (n & -> & _).
  destruct (flush_ingress_spec now st Hok) as (Hok1 & _).
  apply with_ring_ok; [done| |done]. apply with_queue_drop_ok, Hok1.
Qed.

Lemma assign_take_cap now assign st :
  inner_ok st -> rb_max_bytes (in_ring (assign_take now assign st).2) = rb_max_bytes (in_ring st).
Proof.
  intros Hok. destruct (assign_take_spec now assign st Hok) as (n & -> & _).
  destruct (flush_ingress_spec now st Hok) as (_ & _ & _ & _ & _ & (_ & Hm & _)). done.
Qed.

Lemma assign_take_items now assign st :
  inner_ok st -> in_u 16 (ar_max_items assign) ->
  let items := (assign_take now assign st).1 in
  in_u 16 (Z.of_nat (length items)) /\
  Forall (fun m => 1 <= blen (qm_payload m)) items /\
  qm_bytes items <= rb_max_bytes (in_ring st).
Proof.
  intros Hok Hmi. cbv zeta. destruct (assign_take_spec now assign st Hok) as (n & -> & Hn & Hlen & _).
  destruct (flush_ingress_spec now st Hok) as (Hok1 & _ & _ & _ & _ & (_ & Hm & _)).
  set (st1 := flush_ingress_to_ring now st) in *. set (q := rb_queue (in_ring st1)) in *.
  cbn [fst]. unfold in_u, umax in *. split_and!.
  - lia.
  - rewrite length_map, length_take. lia.
  - apply Forall_map, Forall_take. eapply Forall_impl; [apply Hok1|done].
  - rewrite qm_bytes_messages. pose proof (ok_cap _ (io_ring _ Hok1)) as Hc. fold q in Hc.
    rewrite <- (take_drop n q), qbytes_app in Hc. pose proof (qbytes_nonneg (drop n q)). lia.
Qed.

(** The other tasks keep the client consistent and leave the link alone. *)
Lemma drain_pending_link n now st g : same_link st (drain_pending n now st g).1.
Proof.
  revert st g. induction n as [|n IH]; intros st g; [done|]. cbn [drain_pending].
  destruct (ByteRing.pop_front (in_pending st)) as [[msg p']|]; [|done].
  destruct (Accumulator.push _ _ _) as [batches acc'].
  match goal with |- same_link _ (drain_pending _ _ ?s ?g').1 => exact (IH s g') end.
Qed.

Lemma accumulator_turn_inner now c :
  inner_ok (cl_inner c) ->
  inner_ok (cl_inner (accumulator_turn now c).1) /\
  rb_max_bytes (in_ring (cl_inner (accumulator_turn now c).1)) = rb_max_bytes (in_ring (cl_inner c)).
Proof.
  intros Hok. unfold accumulator_turn, drain_all.
  destruct (drain_pending_spec now _ (cl_inner c) false Hok eq_refl)
    as (st1 & out & Hst & Hok1 & _ & _ & _ & (_ & Hm & _) & _).
  destruct (drain_pending _ now (cl_inner c) false) as [st1' g]. cbn [fst] in Hst. subst st1'.
  pose proof Hok1 as [Hp1 Hr1 Ha1 Hcap1 Hit1].
  unfold Accumulator.flush_if_timeout.
  destruct (acc_items (in_accumulator st1)) as [|i l] eqn:Hi; [done|].
  destruct (acc_opened_at (in_accumulator st1)) as [o|]; [|done].
  destruct (_ <? _); [done|]. unfold take_batch. rewrite Hi.
  destruct (absorbs_batch now (i :: l) _ Hr1 Hit1) as (Hr2 & Hm2 & _).
  cbn [fst cl_inner in_ring]. split; [|by rewrite Hm2].
  constructor; cbn [in_pending in_ring in_accumulator]; rewrite ?Hm2; try done.
  apply acc_empty_ok, Ha1.
Qed.

Lemma run_task_ok c op :
  inner_ok (cl_inner c) ->
  inner_ok (cl_inner (run_task c op)) /\
  rb_max_bytes (in_ring (cl_inner (run_task c op))) = rb_max_bytes (in_ring (cl_inner c)).
Proof.
  intros Hok. destruct op as [item now|now]; [|by apply accumulator_turn_inner].
  destruct Hok as [Hp Hr Ha Hc Hi]. split; [|done]. constructor; try done.
  - by apply push_ok.
  - cbn [run_task publish_batch cl_inner in_pending in_ring]. rewrite <- Hc.
    unfold ByteRing.push. destruct item; [done|]. case_match; [done|].
    by destruct (drop_oldest _ _ _ _ _ _) as [[[? ?] ?] ?].
Qed.

Lemma run_tasks_ok ops c :
  inner_ok (cl_inner c) ->
  inner_ok (cl_inner (foldl run_task c ops)) /\
  rb_max_bytes (in_ring (cl_inner (foldl run_task c ops))) = rb_max_bytes (in_ring (cl_inner c)).
Proof.
  revert c. induction ops as [|op ops IH]; intros c Hok; [done|]. cbn [foldl].
  destruct (run_task_ok c op Hok) as [Hok1 <-]. by apply IH.
Qed.

Lemma accumulator_turn_link now c :
  same_link (cl_inner c) (cl_inner (accumulator_turn now c).1) /\
  cl_sent (accumulator_turn now c).1 = cl_sent c.
Proof.
  unfold accumulator_turn, drain_all.
  pose proof (drain_pending_link (length (rb_queue (in_pending (cl_inner c)))) now (cl_inner c) false) as Hl.
  destruct (drain_pending _ now (cl_inner c) false) as [st1 g].
  destruct (flush_if_timeout _ _) as [[b|] a]; done.
Qed.

Lemma run_tasks_link ops c :
  same_link (cl_inner c) (cl_inner (foldl run_task c ops)) /\
  cl_sent (foldl run_task c ops) = cl_sent c.
Proof.
  revert c. induction ops as [|op ops IH]; intros c; [done|]. cbn [foldl].
  destruct (IH (run_task c op)) as [(A & B & C & D) ->].
  assert (same_link (cl_inner c) (cl_inner (run_task c op)) /\ cl_sent (run_task c op) = cl_sent c)
    as [(A' & B' & C' & D') E'] by (destruct op; [done|apply accumulator_turn_link]).
  unfold same_link. split; [split_and!|]; congruence.
Qed.

Lemma assign_finish_spec items d st :
  inner_ok st -> in_u 16 (Z.of_nat (length items)) ->
  Forall (fun m => 1 <= blen (qm_payload m)) items -> qm_bytes items <= rb_max_bytes (in_ring st) ->
  match assign_finish items d st with
  | (st', Ok rep) => (items = [] \/ d = Delivered) /\ st' = st /\ dr_msg_count rep = Z.of_nat (length items)
  | (st', Err rep) =>
    items <> [] /\ d <> Delivered /\ fr_msg_count rep = Z.of_nat (length items) /\
    st' = {| st with in_ring := requeue_rev items (in_ring st) |} /\ inner_ok st' /\
    exists j, (length items <= j)%nat /\
      rb_queue (in_ring st') = list.take j (map entry_of items ++ rb_queue (in_ring st))
  end.
Proof.
  intros Hok Hlen Hne Hb. unfold assign_finish. rewrite wrap_small by done.
  destruct (Z.eqb_spec (Z.of_nat (length items)) 0) as [Hz|Hz].
  { destruct items; [|simpl in Hz; lia]. split_and!; [by left|done|done]. }
  destruct d as [|e|]; [split_and!; [by right|done|done]| |];
    (destruct items as [|m l]; [done|]; cbn [requeue_items];
     destruct (requeue_rev_keeps (m :: l) (in_ring st) (io_ring _ Hok) Hne Hb) as (j & Hj & Hq & Hr & Hm);
     split_and!; [done|done|done|done|by apply with_ring_ok|by exists j]).
Qed.

(** The numbers and the text of the report. *)
Definition batch_report (items : list QueuedMessage) (d : delivery)
    (report : result FailureReport DeliveryReport) : Prop :=
  let batch_bytes := wrap 32 (2 + 4 * Z.of_nat (length items) + qm_bytes items) in
  match report with
  | Ok rep => dr_msg_count rep = Z.of_nat (length items) /\
      dr_batch_bytes rep = (if decide (items = []) then 0 else batch_bytes)
  | Err rep =>
      rep = {| fr_msg_count := Z.of_nat (length items); fr_batch_bytes := batch_bytes; fr_code := 0;
               fr_message := if d is DeliveryFailed e then to_string e else "delivery timeout" |}
  end.

Lemma assign_finish_report items d st :
  in_u 16 (Z.of_nat (length items)) -> batch_report items d (assign_finish items d st).2.
Proof.
  intros Hlen. unfold assign_finish. rewrite wrap_small by done.
  assert (Hb : blen (encode_batch_payload (map qm_payload items)) = 2 + 4 * Z.of_nat (length items) + qm_bytes items).
  { rewrite <- inner_batch_payload_len_spec. unfold inner_batch_payload_len. clear Hlen.
    induction items as [|m items IH]; [done|]. rewrite qm_bytes_cons. cbn [map foldr length]. lia. }
  rewrite Hb. destruct (Z.eqb_spec (Z.of_nat (length items)) 0) as [Hz|Hz].
  { destruct items; [|simpl in Hz; lia]. done. }
  destruct d as [|e|]; cbn; [|done|done]. split; [done|]. by destruct items.
Qed.

(** ** Properties *)

(** C13: an ASGN takes everything published so far into account: pending,
    accumulator and ring hold, after it, exactly what they held before less the
    items taken, in the order of publication; the oldest payloads are dropped only
    if the whole does not fit under the cap; the items taken are a prefix of at
    most [max_items], never empty when there is anything, within
    [max_batch_bytes] unless a single one, and no shorter than these limits ask. *)
Theorem assign_take_correct now assign st :
  inner_ok st ->
  let '(items, st') := assign_take now assign st in
  let mi := Z.max (ar_max_items assign) 1 in
  let mb := cfg_max_batch_bytes (in_config st) in
  inner_ok st' /\
  exists k n,
    let kept := drop k (everything st) in
    map qm_payload items = list.take n kept /\ everything st' = drop n kept /\
    ((0 < k)%nat -> rb_max_bytes (in_ring st) < total_len (everything st)) /\
    Z.of_nat n <= mi /\ (n <= length kept)%nat /\ (kept <> [] -> (1 <= n)%nat) /\
    ((n <= 1)%nat \/ total_len (list.take n kept) <= mb) /\
    ((n < length kept)%nat -> Z.of_nat n < mi -> mb < total_len (list.take (S n) kept)).
Proof.
  intros Hok. pose proof (assign_take_ok now assign st Hok) as Hok'.
  destruct (assign_take_spec now assign st Hok) as (n & Heq & Hmi & Hn & Hpos & Hfit & Hstop).
  destruct (flush_ingress_spec now st Hok) as (_ & _ & Hp & Ha & _ & (_ & _ & k & _ & Hq & _ & Hover)).
  rewrite Heq in *. split; [done|]. exists k, n. cbv zeta. unfold everything.
  cbn [in_ring in_accumulator in_pending with_queue rb_queue]. rewrite Hp, Ha, <- Hq.
  rewrite qm_payload_messages, !app_nil_r. unfold qbytes, payloads in *.
  rewrite !firstn_map, skipn_map, length_map.
  split_and!; try done. intros Hne. apply Hpos. intros Hq0. apply Hne. by rewrite Hq0.
Qed.

Definition demo_client (items : list (list byte)) : Client :=
  foldl (fun c i => publish_batch i {| now_ms := 1000; now_ns := 1 |} c)
    (connect (default_config "m:7000")) items.

Lemma demo_client_ok items : inner_ok (cl_inner (demo_client items)).
Proof.
  unfold demo_client. set (f := fun c i => _).
  assert (inner_ok (cl_inner (connect (default_config "m:7000")))) as H0.
  { constructor; cbn; [apply ByteRing.new_ring_ok..|apply Accumulator.new_acc_ok|done|constructor];
      unfold umax, DEFAULT_OUTBOUND_MAX_BYTES, DEFAULT_MAX_BATCH_BYTES; lia. }
  revert H0. generalize (connect (default_config "m:7000")).
  induction items as [|i items IH]; intros c Hc; [done|]. cbn [foldl]. apply IH.
  apply (run_task_ok c (TaskPublish i {| now_ms := 1000; now_ns := 1 |}) Hc).
Qed.

Definition demo_assign : AssignRequest := {| ar_max_items := 2; ar_data_addr := "c:9"; ar_consumer_tag := "t" |}.
Definition demo_now : clock := {| now_ms := 1005; now_ns := 5 |}.
Definition demo_items : list (list byte) := [[Byte.x01]; [Byte.x02; Byte.x03]; [Byte.x04]].

Lemma assign_take_correct_witness :
  let st := cl_inner (demo_client demo_items) in
  map qm_payload (assign_take demo_now demo_assign st).1 = [[Byte.x01]; [Byte.x02; Byte.x03]] /\
  let '(items, st') := assign_take demo_now demo_assign st in
  let mi := Z.max (ar_max_items demo_assign) 1 in
  let mb := cfg_max_batch_bytes (in_config st) in
  inner_ok st' /\
  exists k n,
    let kept := drop k (everything st) in
    map qm_payload items = list.take n kept /\ everything st' = drop n kept /\
    ((0 < k)%nat -> rb_max_bytes (in_ring st) < total_len (everything st)) /\
    Z.of_nat n <= mi /\ (n <= length kept)%nat /\ (kept <> [] -> (1 <= n)%nat) /\
    ((n <= 1)%nat \/ total_len (list.take n kept) <= mb) /\
    ((n < length kept)%nat -> Z.of_nat n < mi -> mb < total_len (list.take (S n) kept)).
Proof.
  intros st. split; [vm_compute; reflexivity|].
  exact (assign_take_correct demo_now demo_assign st (demo_client_ok demo_items)).
Defined.

(** C11: the outcome of an ASGN, whatever is published while the batch is on the
    wire.  It reports success exactly if the batch was delivered or there was
    nothing to send, with the number of items and the bytes of their batch, and
    leaves the client alone.  Otherwise it reports the same numbers with code 0 and
    the error's text, and of the client only the ring changes: the items are at its
    head again, in their order, all of them; what was behind them is still there
    unless the cap is exceeded, in which case as few of the newest entries as make
    room are gone and counted ([requeued]). *)
Theorem deliver_assign_correct now assign d during c :
  inner_ok (cl_inner c) -> in_u 16 (ar_max_items assign) ->
  let '(items, st) := assign_take now assign (cl_inner c) in
  let c1 := foldl run_task {| c with cl_inner := st |} during in
  let st1 := cl_inner c1 in
  let batch_bytes := wrap 32 (2 + 4 * Z.of_nat (length items) + qm_bytes items) in
  let '(c', report) := deliver_assign now assign d during c in
  inner_ok (cl_inner c') /\
  match report with
  | Ok rep => (items = [] \/ d = Delivered) /\ c' = c1 /\
    dr_msg_count rep = Z.of_nat (length items) /\
    dr_batch_bytes rep = (if decide (items = []) then 0 else batch_bytes)
  | Err rep => items <> [] /\ d <> Delivered /\
    rep = {| fr_msg_count := Z.of_nat (length items); fr_batch_bytes := batch_bytes; fr_code := 0;
             fr_message := if d is DeliveryFailed e then to_string e else "delivery timeout" |} /\
    exists ring, cl_inner c' = {| st1 with in_ring := ring |} /\ cl_stats c' = cl_stats c1 /\
      cl_sent c' = cl_sent c1 /\ requeued items (in_ring st1) ring
  end.
Proof.
  intros Hok Hmi. destruct (assign_take_items now assign _ Hok Hmi) as (Hlen & Hne & Hb).
  pose proof (assign_take_ok now assign _ Hok) as Hok1.
  pose proof (assign_take_cap now assign _ Hok) as Hcap.
  unfold deliver_assign. destruct (assign_take now assign (cl_inner c)) as [items st]. cbn [fst snd] in *.
  destruct (run_tasks_ok during {| c with cl_inner := st |} Hok1) as [Hok2 Hcap2].
  set (c1 := foldl run_task _ during) in *. cbn [cl_inner] in Hcap2. cbv zeta.
  pose proof (assign_finish_spec items d (cl_inner c1) Hok2 Hlen Hne ltac:(lia)) as Hfin.
  pose proof (requeue_rev_requeued items (in_ring (cl_inner c1)) (io_ring _ Hok2) Hne ltac:(lia)) as Hre.
  pose proof (assign_finish_report items d (cl_inner c1) Hlen) as Hrep. unfold batch_report in Hrep. cbv zeta in Hrep.
  destruct (assign_finish items d (cl_inner c1)) as [st' [rep|rep]]; cbn [cl_inner cl_stats cl_sent snd] in *.
  - destruct Hfin as (Hd & -> & _), Hrep as [Hn Hby]. split_and!; [exact Hok2|exact Hd|by destruct c1|exact Hn|exact Hby].
  - destruct Hfin as (Hi & Hd & Hn & -> & Hok' & _). split; [done|]. split_and!; [done|done|done|]. by eexists.
Qed.

Lemma deliver_assign_correct_witness :
  let c := demo_client demo_items in
  let during := [TaskPublish [Byte.x09] {| now_ms := 1006; now_ns := 6 |}] in
  let d := DeliveryTimeout in
  (deliver_assign demo_now demo_assign d during c).2
    = Err {| fr_msg_count := 2; fr_batch_bytes := 13; fr_code := 0; fr_message := "delivery timeout" |} /\
  let '(items, st) := assign_take demo_now demo_assign (cl_inner c) in
  let c1 := foldl run_task {| c with cl_inner := st |} during in
  let st1 := cl_inner c1 in
  let batch_bytes := wrap 32 (2 + 4 * Z.of_nat (length items) + qm_bytes items) in
  let '(c', report) := deliver_assign demo_now demo_assign d during c in
  inner_ok (cl_inner c') /\
  match report with
  | Ok rep => (items = [] \/ d = Delivered) /\ c' = c1 /\
    dr_msg_count rep = Z.of_nat (length items) /\
    dr_batch_bytes rep = (if decide (items = []) then 0 else batch_bytes)
  | Err rep => items <> [] /\ d <> Delivered /\
    rep = {| fr_msg_count := Z.of_nat (length items); fr_batch_bytes := batch_bytes; fr_code := 0;
             fr_message := if d is DeliveryFailed e then to_string e else "delivery timeout" |} /\
    exists ring, cl_inner c' = {| st1 with in_ring := ring |} /\ cl_stats c' = cl_stats c1 /\
      cl_sent c' = cl_sent c1 /\ requeued items (in_ring st1) ring
  end.
Proof.
  intros c during d. split; [vm_compute; reflexivity|].
  apply (deliver_assign_correct demo_now demo_assign d during c (demo_client_ok demo_items)).
  vm_compute. split; discriminate.
Defined.

(** An ASGN that fails with nothing published meanwhile changes nothing: the
    ring is exactly the ring the flush of the ingress made. *)
Theorem failed_delivery_restores_ring now assign d c :
  inner_ok (cl_inner c) -> in_u 16 (ar_max_items assign) -> d <> Delivered ->
  cl_inner (deliver_assign now assign d [] c).1 = flush_ingress_to_ring now (cl_inner c).
Proof.
  intros Hok Hmi Hd. destruct (assign_take_items now assign _ Hok Hmi) as (Hlen & _).
  unfold deliver_assign.
  destruct (assign_take_spec now assign _ Hok) as (n & Heq & _ & Hn & _).
  destruct (flush_ingress_spec now (cl_inner c) Hok) as (Hok1 & _).
  set (st1 := flush_ingress_to_ring now (cl_inner c)) in *. rewrite Heq.
  pose proof (io_ring _ Hok1) as Hr. cbn [foldl fst cl_inner].
  assert (Hback : forall items, items = map message_of (list.take n (rb_queue (in_ring st1))) ->
    requeue_items items {| st1 with in_ring := with_queue (in_ring st1) (drop n (rb_queue (in_ring st1))) |}
      = st1).
  { intros items Hi. assert (Hself : {| st1 with in_ring := in_ring st1 |} = st1) by by destruct st1.
    unfold requeue_items. destruct items as [|m l].
    - symmetry in Hi. apply map_eq_nil in Hi.
      replace (drop n _) with (rb_queue (in_ring st1)); [by rewrite with_queue_self|].
      rewrite <- (take_drop n (rb_queue (in_ring st1))) at 1. by rewrite Hi.
    - rewrite Hi. destruct (requeue_rev_room (map message_of (list.take n (rb_queue (in_ring st1))))
        (with_queue (in_ring st1) (drop n (rb_queue (in_ring st1))))) as [Hq _].
      + by apply with_queue_drop_ok.
      + apply Forall_map, Forall_take. eapply Forall_impl; [apply Hr|done].
      + rewrite qm_bytes_messages. cbn [with_queue rb_queue rb_max_bytes].
        rewrite <- qbytes_app, take_drop. apply Hr.
      + cbn [in_ring]. rewrite Hq, map_message_entry. cbn [with_queue rb_queue].
        rewrite take_drop. change (with_queue (with_queue ?r _) ?q) with (with_queue r q).
        by rewrite with_queue_self. }
  rewrite Heq in Hlen. cbn [fst] in Hlen. unfold assign_finish. rewrite wrap_small by done.
  destruct (Z.eqb_spec (Z.of_nat (length (map message_of (list.take n (rb_queue (in_ring st1)))))) 0)
    as [Hz|Hz]; [|destruct d as [|e|]; [done| |]; cbn [cl_inner fst]; by apply Hback].
  cbn [cl_inner fst]. specialize (Hback [] ltac:(symmetry; apply length_zero_iff_nil; lia)).
  exact Hback.
Qed.

Lemma failed_delivery_restores_ring_witness :
  let c := demo_client demo_items in
  cl_inner (deliver_assign demo_now demo_assign (DeliveryFailed [IoError "refused"]) [] c).1
    = flush_ingress_to_ring demo_now (cl_inner c).
Proof.
  intros c. apply (failed_delivery_restores_ring demo_now demo_assign _ c (demo_client_ok demo_items));
    [vm_compute; split; discriminate|discriminate].
Defined.

(** *** The control session *)

(** The frames that open and close a turn of the producer, as the master tells
    them apart. *)
Definition is_prdy (f : list byte) : bool := bytes_eqb (list.take 4 f) MAGIC_PRODUCER_READY.
Definition is_report (f : list byte) : bool :=
  bytes_eqb (list.take 4 f) MAGIC_DELIVERED || bytes_eqb (list.take 4 f) MAGIC_FAILED.

(** Reading a connection's frames: [Some b] as long as no PRDY follows a PRDY
    without a report in between, [b] when one is outstanding. *)
Definition prdy_scan (st : option bool) (f : list byte) : option bool :=
  match st with
  | None => None
  | Some open =>
    if is_prdy f then (if open then None else Some true)
    else if is_report f then Some false else Some open
  end.

Definition prdy_state (sent : list (list byte)) : option bool := foldl prdy_scan (Some false) sent.

Lemma prdy_state_snoc sent f : prdy_state (sent ++ [f]) = prdy_scan (prdy_state sent) f.
Proof. unfold prdy_state. by rewrite foldl_app. Qed.

(** A step of one connection's life: a turn of the control loop, or of another
    task. *)
Inductive session_step : Client -> Client -> Prop :=
| sess_control now e c : session_step c (control_step now e c).1
| sess_task op c : session_step c (run_task c op).

(** No PRDY is outstanding when the link is idle and up. *)
Definition prdy_inv (c : Client) : Prop :=
  exists b, prdy_state (cl_sent c) = Some b /\
    (b = true -> in_connected (cl_inner c) = true -> in_link_state (cl_inner c) <> LinkIdle).

Lemma heartbeat_inv ok now c : prdy_inv c -> prdy_inv (maybe_send_heartbeat ok now c).
Proof.
  intros Hinv. unfold maybe_send_heartbeat. destruct (negb _); [done|].
  destruct Hinv as (b & Hb & Hl). exists b. destruct ok; [|done].
  cbn [write_frame cl_sent cl_inner]. rewrite prdy_state_snoc, Hb. done.
Qed.

Lemma ready_inv ok now c : prdy_inv c -> prdy_inv (maybe_send_ready ok now c).
Proof.
  intros Hinv. unfold maybe_send_ready.
  destruct (negb (ByteRing.is_empty _)); cbn [andb negb]; [|exact Hinv].
  destruct (decide (in_link_state (cl_inner c) = LinkIdle)) as [Hi|Hi];
    [rewrite bool_decide_eq_true_2 by done|rewrite bool_decide_eq_false_2 by done]; cbn [andb negb];
    [|exact Hinv].
  destruct (in_connected (cl_inner c)) eqn:Hc; cbn [andb negb]; [|exact Hinv].
  destruct Hinv as (b & Hb & Hl). destruct ok.
  - exists true. cbn [write_frame cl_sent cl_inner in_link_state in_connected].
    rewrite prdy_state_snoc, Hb. destruct b; [by destruct Hl|done].
  - exists b. cbn [write_frame cl_sent cl_inner in_link_state in_connected mark_disconnected]. done.
Qed.

Lemma report_inv ok now report c b :
  prdy_state (cl_sent c) = Some b ->
  let c' := handle_delivery_result ok now report c in
  exists b', prdy_state (cl_sent c') = Some b' /\ (b' = true -> in_connected (cl_inner c') = false).
Proof.
  intros Hb. cbv zeta. unfold handle_delivery_result.
  destruct ok, report as [r|r]; cbn [write_frame cl_sent cl_inner mark_disconnected in_connected].
  - exists false. rewrite prdy_state_snoc, Hb. done.
  - exists false. rewrite prdy_state_snoc, Hb. done.
  - by exists b.
  - by exists b.
Qed.

Lemma deliver_assign_sent now assign d during c :
  cl_sent (deliver_assign now assign d during c).1 = cl_sent c.
Proof.
  unfold deliver_assign. destruct (assign_take now assign (cl_inner c)) as [items st].
  destruct (run_tasks_link during {| c with cl_inner := st |}) as [_ Hs].
  destruct (assign_finish _ _ _) as [st' r]. exact Hs.
Qed.

Lemma session_step_inv c c' : prdy_inv c -> session_step c c' -> prdy_inv c'.
Proof.
  intros Hinv Hs. revert Hinv. destruct Hs as [now e c|op c]; intros Hinv.
  - destruct e as [assign d during w1 w2 w3| |w|w]; cbn [control_step fst].
    + destruct (deliver_assign _ _ _ _ _) as [c1 report] eqn:Hd. cbn [fst].
      apply heartbeat_inv, ready_inv. destruct Hinv as (b & Hb & _).
      pose proof (deliver_assign_sent now assign d during (set_link LinkBusy c)) as Hs.
      rewrite Hd in Hs. cbn [fst set_link cl_sent] in Hs. rewrite <- Hs in Hb.
      destruct (report_inv w1 now report c1 b Hb) as (b' & Hb' & Hc').
      exists b'. cbn [set_link cl_sent cl_inner in_connected]. split; [done|].
      intros Ht. by rewrite (Hc' Ht).
    + destruct Hinv as (b & Hb & _). exists b. split; [exact Hb|done].
    + by apply ready_inv.
    + by apply heartbeat_inv.
  - destruct (run_tasks_link [op] c) as [(_ & Hl & Hc & _) Hs]. cbn [foldl] in *.
    destruct Hinv as (b & Hb & Hi). exists b. rewrite Hs, Hl, Hc. by split.
Qed.

(** C27: over a whole control connection, whatever is published and whatever the
    master asks, the producer never announces itself ready twice without a
    delivery report in between: at most one PRDY is outstanding. *)
Theorem at_most_one_ready_outstanding c0 c :
  cl_sent c0 = [] -> star session_step c0 c -> prdy_state (cl_sent c) <> None.
Proof.
  intros Hs Hstar. cut (prdy_inv c); [by intros (b & -> & _)|].
  eapply star_invariant; [|exact Hstar|exists false; by rewrite Hs].
  intros a b Ha Hab. by eapply session_step_inv.
Qed.

Definition demo_session : Client :=
  let c := (connect_if_needed true demo_now (demo_client demo_items)).1 in
  let c := run_task c (TaskAccumulate demo_now) in
  let c := run_task c (TaskAccumulate {| now_ms := 2000; now_ns := from_millis 200 |}) in
  let c := (control_step demo_now (Notified true) c).1 in
  let c := (control_step demo_now (Notified true) c).1 in
  (control_step demo_now (ReadAssign demo_assign Delivered [] true true true) c).1.

Lemma at_most_one_ready_outstanding_witness :
  map (fun f => string_of_list_byte (list.take 4 f)) (cl_sent demo_session)
    = ["PRDY"; "DELV"; "PRDY"; "HBRP"]%string /\
  prdy_state (cl_sent demo_session) <> None.
Proof.
  split; [vm_compute; reflexivity|].
  apply (at_most_one_ready_outstanding (connect_if_needed true demo_now (demo_client demo_items)).1);
    [reflexivity|].
  unfold demo_session. do 3 (eapply star_snoc; [|apply sess_control]).
  do 2 (eapply star_snoc; [|apply sess_task]). apply star_refl.
Defined.

(** *** Limits *)

(** C40: the heartbeat casts byte counts to 32 bits.  The default cap of the rings
    is exactly 2^32 bytes: a full ring reports 0 bytes. *)
Theorem full_ring_heartbeat_is_zero master st :
  in_config st = default_config master -> ring_ok (in_ring st) ->
  qbytes (rb_queue (in_ring st)) = cfg_outbound_max_bytes (in_config st) ->
  hb_ring_bytes (collect_heartbeat st) = 0 /\ 1 <= ByteRing.len (in_ring st).
Proof.
  intros Hcfg Hok Hfull. rewrite Hcfg in Hfull. cbn [collect_heartbeat hb_ring_bytes].
  unfold byte_len. rewrite (ok_bytes _ Hok), Hfull. split; [reflexivity|].
  unfold ByteRing.len. destruct (rb_queue (in_ring st)); [done|]. simpl length. lia.
Qed.

Lemma blen_repeat b n : 0 <= n -> blen (repeat b (Z.to_nat n)) = n.
Proof. intros. unfold blen. rewrite repeat_length. lia. Qed.

Definition full_client (payload : list byte) : Inner :=
  let st := connect_inner (default_config "m:7000") in
  {| st with in_ring := with_queue (ByteRing.new DEFAULT_OUTBOUND_MAX_BYTES)
                          [{| re_payload := payload; re_enqueued_ms := 0 |}] |}.

Lemma full_client_ok payload :
  blen payload = DEFAULT_OUTBOUND_MAX_BYTES ->
  ring_ok (in_ring (full_client payload)) /\
  qbytes (rb_queue (in_ring (full_client payload))) = DEFAULT_OUTBOUND_MAX_BYTES.
Proof.
  intros Hp. cbn [full_client in_ring with_queue rb_queue].
  rewrite qbytes_cons. change (qbytes []) with 0. cbn [re_payload]. unfold DEFAULT_OUTBOUND_MAX_BYTES in *.
  split; [|lia]. apply with_queue_ok; [apply ByteRing.new_ring_ok; unfold umax; lia| |].
  - rewrite qbytes_cons. change (qbytes []) with 0. cbn [re_payload]. cbn [ByteRing.new rb_max_bytes]. lia.
  - constructor; [cbn [re_payload]; lia|constructor].
Qed.

Lemma full_ring_heartbeat_is_zero_witness :
  let st := full_client (repeat Byte.x00 (Z.to_nat DEFAULT_OUTBOUND_MAX_BYTES)) in
  hb_ring_bytes (collect_heartbeat st) = 0 /\ 1 <= ByteRing.len (in_ring st).
Proof.
  cut (forall p, blen p = DEFAULT_OUTBOUND_MAX_BYTES ->
         hb_ring_bytes (collect_heartbeat (full_client p)) = 0 /\ 1 <= ByteRing.len (in_ring (full_client p))).
  { intros H. apply H. by apply blen_repeat. }
  intros p Hp. destruct (full_client_ok p Hp) as [Hok Hq].
  exact (full_ring_heartbeat_is_zero "m:7000" (full_client p) eq_refl Hok Hq).
Defined.

(** The batch parser refuses an item over the limit. *)
Lemma oversize_item_refused item :
  MAX_INGRESS_ITEM_BYTES < blen item <= umax 32 ->
  parse_batch_payload_items (encode_batch_payload [item]) = Err (Bail "invalid batch item len" [blen item]).
Proof.
  unfold MAX_INGRESS_ITEM_BYTES. intros Hlen.
  assert (Hw : wrap 32 (wrap 32 (blen item)) = blen item).
  { assert (in_u 32 (blen item)) by (unfold in_u; lia). by rewrite !wrap_small by (rewrite ?wrap_small; done). }
  unfold parse_batch_payload_items, batch_item_count.
  pose proof (encode_batch_payload_ge [item]). destruct (Z.ltb_spec (blen (encode_batch_payload [item])) 2); [lia|].
  cbn [res_bind]. unfold encode_batch_payload. rewrite u_at_head. cbn [length].
  change (Z.to_nat (wrap _ (wrap 16 (Z.of_nat 1)))) with 1%nat. cbn [parse_items map concat].
  rewrite app_nil_r. unfold encode_item. rewrite !length_app, !length_to_le.
  replace (2 + (4 + length item) <? 2 + 4)%nat with false by (symmetry; apply Nat.ltb_ge; lia).
  rewrite (u_at_mid 4 2) by apply length_to_le. change (Z.of_nat 4 * 8) with 32. rewrite Hw.
  unfold MAX_INGRESS_ITEM_BYTES. destruct (Z.eqb_spec (blen item) 0); [lia|].
  destruct (Z.ltb_spec (32 * 1024 * 1024) (blen item)); [done|lia].
Qed.

(** With the default configuration a published item of more than 32 MiB is
    queued, sent and reported delivered, but its batch is one the consumer's
    parser refuses. *)
Theorem oversize_item_reported_delivered master item now assign :
  MAX_INGRESS_ITEM_BYTES < blen item <= DEFAULT_MAX_BATCH_BYTES - 6 ->
  let c := publish_batch item now (connect (default_config master)) in
  let '(c', report) := deliver_assign now assign Delivered [] c in
  report = Ok {| dr_msg_count := 1; dr_batch_bytes := blen item + 6 |} /\
  everything (cl_inner c') = [] /\
  parse_batch_payload_items (encode_batch_payload [item])
    = Err (Bail "invalid batch item len" [blen item]).
Proof.
  unfold DEFAULT_MAX_BATCH_BYTES. intros Hbig. pose proof Hbig as Hlen. unfold MAX_INGRESS_ITEM_BYTES in Hlen.
  pose proof (demo_client_ok []) as Hok0.
  assert (Hok : inner_ok (cl_inner (publish_batch item now (connect (default_config master))))).
  { apply (run_task_ok _ (TaskPublish item now)). constructor; try apply Hok0. }
  assert (Hev : everything (cl_inner (publish_batch item now (connect (default_config master)))) = [item]).
  { unfold everything, publish_batch, ByteRing.push. cbn [connect connect_inner cl_inner in_pending in_ring
      in_accumulator rb_queue ByteRing.new acc_items Accumulator.new payloads map app rb_max_bytes].
    destruct item as [|b item']; [rewrite blen_nil in Hlen; lia|].
    destruct (Z.ltb_spec (Z.max (cfg_outbound_max_bytes (default_config master)) 1) (blen (b :: item'))) as [H|H];
      [|reflexivity]. change (Z.max _ 1) with 4294967296 in H. lia. }
  set (c := publish_batch item now (connect (default_config master))) in *.
  destruct (assign_take_spec now assign _ Hok) as (n & Heq & _ & Hn & Hpos & _ & _).
  destruct (flush_ingress_spec now (cl_inner c) Hok) as (_ & _ & Hp & Ha & _ & (_ & _ & k & Hk & Hq & _ & Hover)).
  change (payloads (rb_queue (in_ring (cl_inner c))) ++ acc_items (in_accumulator (cl_inner c))
          ++ payloads (rb_queue (in_pending (cl_inner c)))) with (everything (cl_inner c)) in *.
  rewrite Hev in Hq, Hover, Hk. 
  assert (k = 0%nat) as ->.
  { destruct k; [done|]. specialize (Hover ltac:(lia)). cbn [total_len foldr] in Hover.
    change (rb_max_bytes (in_ring (cl_inner c))) with (4 * 1024 * 1024 * 1024) in Hover. lia. }
  rewrite drop_0 in Hq. unfold deliver_assign. rewrite Heq. cbn [foldl cl_inner].
  set (q := rb_queue (in_ring (flush_ingress_to_ring now (cl_inner c)))) in *.
  assert (Hql : length q = 1%nat) by (rewrite <- (length_map re_payload); unfold payloads in Hq; by rewrite Hq).
  assert (n = 1%nat) as -> by (destruct q; [done|]; specialize (Hpos ltac:(done)); lia).
  rewrite (take_ge q), (drop_ge q) by lia.
  unfold assign_finish. rewrite length_map, Hql, qm_payload_messages, Hq. cbn [Z.of_nat].
  rewrite <- inner_batch_payload_len_spec, inner_batch_payload_len_total. cbn [length total_len foldr].
  split_and!.
  - change (wrap 16 _ =? 0) with false. cbn iota. do 2 f_equal. rewrite wrap_small; [lia|]. unfold in_u, umax. lia.
  - change (wrap 16 _ =? 0) with false. cbn iota. unfold everything.
    cbn [cl_inner in_ring in_accumulator in_pending with_queue rb_queue]. by rewrite Hp, Ha.
  - apply oversize_item_refused. unfold umax. lia.
Qed.

Lemma oversize_item_reported_delivered_witness :
  let item := repeat Byte.x00 (Z.to_nat (40 * 1024 * 1024)) in
  let c := publish_batch item demo_now (connect (default_config "m:7000")) in
  let '(c', report) := deliver_assign demo_now demo_assign Delivered [] c in
  report = Ok {| dr_msg_count := 1; dr_batch_bytes := blen item + 6 |} /\
  everything (cl_inner c') = [] /\
  parse_batch_payload_items (encode_batch_payload [item])
    = Err (Bail "invalid batch item len" [blen item]).
Proof.
  intros item. apply oversize_item_reported_delivered. unfold item, blen. rewrite repeat_length, Z2Nat.id by lia.
  unfold MAX_INGRESS_ITEM_BYTES, DEFAULT_MAX_BATCH_BYTES. lia.
Defined.
