(* ===== verification/Pipeline.v ===== *)
(** * What a producer promises: a lossy queue ([master/src/producer/client.rs])

    [ProducerClient.v] proves what each operation does.  This file says what they
    amount to.  The specification is a first-in first-out queue that may lose
    elements, but only when it holds more bytes than the cap; the refinement theorem
    is that a producer is one, through its three internal queues, its accumulator,
    its timers, and deliveries that succeed, fail or time out while other tasks
    publish. *)

From S2P Require Import Prelude Utf8 Protocol.
From S2P Require Import ByteRing Accumulator DeliveryPool ProducerClient.

(** ** The specification *)

Definition payload : Type := list byte.

(** [sp_cap]: the cap in bytes; [sp_published], [sp_delivered]: the history. *)
Record LossyQueue :=
  { sp_cap : Z; sp_queue : list payload; sp_published : list payload; sp_delivered : list payload }.

(** [q'] is what is left of [q] after losses, which only happen over the cap. *)
Definition dwindles (cap : Z) (q q' : list payload) : Prop :=
  sublist q' q /\ (total_len q <= cap -> q' = q).

Inductive lossy_step : LossyQueue -> LossyQueue -> Prop :=
| lq_publish x s :
    x <> [] ->
    lossy_step s {| s with sp_queue := sp_queue s ++ [x]; sp_published := sp_published s ++ [x] |}
| lq_lose q' s : dwindles (sp_cap s) (sp_queue s) q' -> lossy_step s {| s with sp_queue := q' |}
| lq_deliver b q s :
    sp_queue s = b ++ q ->
    lossy_step s {| s with sp_queue := q; sp_delivered := sp_delivered s ++ b |}.

Definition empty_queue (cap : Z) : LossyQueue :=
  {| sp_cap := cap; sp_queue := []; sp_published := []; sp_delivered := [] |}.

(** What the specification guarantees: delivery in the order of publication, at most
    once, and nothing lost below the cap. *)
Definition in_order (s : LossyQueue) : Prop := dwindles (sp_cap s) (sp_published s) (sp_delivered s ++ sp_queue s).

(** ** The producer *)

(** The client, the batch on the wire, and what was published and delivered. *)
Record Producer :=
  { pd_client : Client; pd_wire : option (list QueuedMessage); pd_published : list payload;
    pd_delivered : list payload }.

Definition start (cfg : ProducerConfig) : Producer :=
  {| pd_client := ProducerClient.connect cfg; pd_wire := None; pd_published := []; pd_delivered := [] |}.

Definition with_inner (st : Inner) (c : Client) : Client := {| c with cl_inner := st |}.

(** [pd_publish]: the application; [pd_accumulate]: a turn of the accumulator task;
    [pd_assign], [pd_settle]: the two halves of [deliver_assign], with the delivery,
    and anything else, between them; [pd_link]: what the control task does to the
    rest of the client. *)
Inductive producer_step : Producer -> Producer -> Prop :=
| pd_publish item now p :
    producer_step p
      {| p with pd_client := publish_batch item now (pd_client p);
                pd_published := if decide (item = []) then pd_published p else pd_published p ++ [item] |}
| pd_accumulate now p :
    producer_step p {| p with pd_client := (accumulator_turn now (pd_client p)).1 |}
| pd_assign now assign items st p :
    pd_wire p = None -> in_u 16 (ar_max_items assign) ->
    assign_take now assign (cl_inner (pd_client p)) = (items, st) ->
    producer_step p {| p with pd_client := with_inner st (pd_client p); pd_wire := Some items |}
| pd_settle d items st report p :
    pd_wire p = Some items -> assign_finish items d (cl_inner (pd_client p)) = (st, report) ->
    producer_step p
      {| p with pd_client := with_inner st (pd_client p); pd_wire := None;
                pd_delivered := match report with
                                | Ok _ => pd_delivered p ++ map qm_payload items
                                | Err _ => pd_delivered p
                                end |}
| pd_link c p :
    in_pending (cl_inner c) = in_pending (cl_inner (pd_client p)) ->
    in_ring (cl_inner c) = in_ring (cl_inner (pd_client p)) ->
    in_accumulator (cl_inner c) = in_accumulator (cl_inner (pd_client p)) ->
    in_config (cl_inner c) = in_config (cl_inner (pd_client p)) ->
    producer_step p {| p with pd_client := c |}.

(** The cap of the rings [connect] makes. *)
Definition cap_of (cfg : ProducerConfig) : Z := Z.max (cfg_outbound_max_bytes cfg) 1.

(** The queue of a producer: the batch on the wire, then all it holds. *)
Definition wire_payloads (w : option (list QueuedMessage)) : list payload := map qm_payload (default [] w).

Definition abstraction (cap : Z) (p : Producer) : LossyQueue :=
  {| sp_cap := cap; sp_queue := wire_payloads (pd_wire p) ++ everything (cl_inner (pd_client p));
     sp_published := pd_published p; sp_delivered := pd_delivered p |}.

(** What the steps keep. *)
Record producer_ok (cap : Z) (p : Producer) : Prop :=
  { po_inner : inner_ok (cl_inner (pd_client p));
    po_cap : rb_max_bytes (in_ring (cl_inner (pd_client p))) = cap;
    po_wire : forall items, pd_wire p = Some items ->
      in_u 16 (Z.of_nat (length items)) /\ Forall (fun m => 1 <= blen (qm_payload m)) items /\ qm_bytes items <= cap }.

(** ** Lemmas *)

Lemma dwindles_refl cap q : dwindles cap q q.
Proof. split; [done|]. by intros. Qed.

Lemma sublist_total q q' : sublist q' q -> total_len q' <= total_len q.
Proof.
  induction 1 as [|x l1 l2 _ IH|x l1 l2 _ IH]; rewrite ?total_len_cons; [done|lia|].
  pose proof (blen_nonneg x). lia.
Qed.

Lemma dwindles_app cap a q q' : dwindles cap q q' -> dwindles cap (a ++ q) (a ++ q').
Proof.
  intros [Hs He]. split; [by apply sublist_app|].
  intros Ht. rewrite total_len_app in Ht. pose proof (total_len_nonneg a). by rewrite He by lia.
Qed.

Lemma dwindles_drop cap k q :
  ((0 < k)%nat -> cap < total_len q) -> dwindles cap q (drop k q).
Proof.
  intros Hk. split; [apply sublist_drop|]. intros Ht. destruct k; [done|]. specialize (Hk ltac:(lia)). lia.
Qed.

Lemma absorbs_dwindles r l r' : absorbs r l r' ->
  dwindles (rb_max_bytes r) (payloads (rb_queue r) ++ l) (payloads (rb_queue r')).
Proof. intros (_ & _ & k & _ & -> & _ & Hk). by apply dwindles_drop. Qed.

Lemma dwindles_app_r cap q q' b : dwindles cap q q' -> dwindles cap (q ++ b) (q' ++ b).
Proof.
  intros [Hs He]. split; [by apply sublist_app|].
  intros Ht. rewrite total_len_app in Ht. pose proof (total_len_nonneg b). by rewrite He by lia.
Qed.

(** *** The operations *)

Lemma publish_dwindles item now c :
  inner_ok (cl_inner c) ->
  dwindles (rb_max_bytes (in_ring (cl_inner c)))
    (everything (cl_inner c) ++ (if decide (item = []) then [] else [item]))
    (everything (cl_inner (publish_batch item now c))).
Proof.
  intros Hok. pose proof (io_pending _ Hok) as Hp. pose proof (io_caps _ Hok) as Hcap.
  unfold everything, publish_batch. cbn [cl_inner in_ring in_accumulator in_pending].
  rewrite <- !app_assoc. do 2 apply dwindles_app. rewrite <- Hcap.
  destruct (decide (item = [])) as [->|Hne]; [rewrite app_nil_r; apply dwindles_refl|].
  assert (Hlen : 1 <= blen item) by (destruct item as [|b l]; [done|]; rewrite blen_cons; pose proof (blen_nonneg l); lia).
  destruct (decide (blen item <= rb_max_bytes (in_pending (cl_inner c)))) as [Hfit|Hbig].
  - apply absorbs_dwindles, absorbs_push; [done|]. unfold fits. lia.
  - assert (Hq : rb_queue (ByteRing.push item (now_ms now) (in_pending (cl_inner c))).1
                 = rb_queue (in_pending (cl_inner c))).
    { unfold ByteRing.push. destruct item as [|b l]; [done|].
      by destruct (Z.ltb_spec (rb_max_bytes (in_pending (cl_inner c))) (blen (b :: l))); [|lia]. }
    rewrite Hq. split; [by apply sublist_inserts_r|].
    rewrite total_len_app. pose proof (total_len_nonneg (payloads (rb_queue (in_pending (cl_inner c))))).
    intros Ht. rewrite total_len_cons in Ht. cbn in Ht. lia.
Qed.

(** Draining [pending] through the accumulator into the ring. *)
Lemma drain_dwindles st st1 out :
  absorbs (in_ring st) out (in_ring st1) -> rb_queue (in_pending st1) = [] ->
  out ++ acc_items (in_accumulator st1) = acc_items (in_accumulator st) ++ payloads (rb_queue (in_pending st)) ->
  dwindles (rb_max_bytes (in_ring st)) (everything st) (everything st1).
Proof.
  intros Habs Hp Hout. unfold everything. rewrite Hp. cbn [payloads map]. rewrite app_nil_r, <- Hout, app_assoc.
  apply dwindles_app_r. by apply absorbs_dwindles.
Qed.

Lemma dwindles_trans cap q1 q2 q3 : dwindles cap q1 q2 -> dwindles cap q2 q3 -> dwindles cap q1 q3.
Proof.
  intros [Hs1 He1] [Hs2 He2]. split; [by transitivity q2|]. intros Ht.
  rewrite <- (He1 Ht) in Ht |- *. by apply He2.
Qed.

Lemma accumulate_dwindles now c :
  inner_ok (cl_inner c) ->
  dwindles (rb_max_bytes (in_ring (cl_inner c))) (everything (cl_inner c))
    (everything (cl_inner (accumulator_turn now c).1)).
Proof.
  intros Hok. unfold accumulator_turn, drain_all.
  destruct (drain_pending_spec now _ (cl_inner c) false Hok eq_refl)
    as (st1 & out & Hst & Hok1 & _ & Hp & _ & Habs & Hout).
  destruct (drain_pending _ now (cl_inner c) false) as [st1' g]. cbn [fst] in Hst. subst st1'.
  pose proof (drain_dwindles _ _ _ Habs Hp Hout) as Hd. pose proof Habs as (_ & Hm & _).
  eapply dwindles_trans; [exact Hd|]. rewrite <- Hm.
  unfold Accumulator.flush_if_timeout.
  destruct (acc_items (in_accumulator st1)) as [|i l] eqn:Hi; [apply dwindles_refl|].
  destruct (acc_opened_at (in_accumulator st1)) as [o|]; [|apply dwindles_refl].
  destruct (_ <? _); [apply dwindles_refl|]. unfold take_batch. rewrite Hi. cbn [fst cl_inner].
  unfold everything. cbn [in_ring in_accumulator in_pending acc_items]. rewrite Hi, Hp. cbn [payloads map].
  rewrite !app_nil_r. apply absorbs_dwindles, absorbs_batch; [apply Hok1|]. rewrite <- Hi. apply Hok1.
Qed.

Lemma take_dwindles now assign st items st' :
  inner_ok st -> assign_take now assign st = (items, st') ->
  dwindles (rb_max_bytes (in_ring st)) (everything st) (map qm_payload items ++ everything st').
Proof.
  intros Hok Heq. destruct (assign_take_spec now assign st Hok) as (n & Heq' & _). rewrite Heq in Heq'.
  destruct (flush_ingress_spec now st Hok) as (_ & _ & Hp & Ha & _ & Habs). simplify_eq.
  rewrite qm_payload_messages. unfold everything.
  cbn [in_ring in_accumulator in_pending with_queue rb_queue]. rewrite Hp, Ha. cbn [payloads map].
  rewrite !app_nil_r. unfold payloads at 3 4. rewrite <- map_app, take_drop.
  apply absorbs_dwindles. exact Habs.
Qed.

Lemma settle_dwindles items d st st' report :
  inner_ok st -> in_u 16 (Z.of_nat (length items)) -> Forall (fun m => 1 <= blen (qm_payload m)) items ->
  qm_bytes items <= rb_max_bytes (in_ring st) -> assign_finish items d st = (st', report) ->
  match report with
  | Ok _ => st' = st
  | Err _ => inner_ok st' /\ rb_max_bytes (in_ring st') = rb_max_bytes (in_ring st) /\
      dwindles (rb_max_bytes (in_ring st)) (map qm_payload items ++ everything st) (everything st')
  end.
Proof.
  intros Hok Hlen Hne Hb Heq. pose proof (assign_finish_spec items d st Hok Hlen Hne Hb) as Hspec.
  rewrite Heq in Hspec. destruct report as [rep|rep]; [by destruct Hspec as (_ & -> & _)|].
  destruct Hspec as (_ & _ & _ & -> & Hok' & j & _ & Hq). split; [done|].
  destruct (requeue_rev_keeps items (in_ring st) (io_ring _ Hok) Hne Hb) as (_ & _ & _ & _ & Hm).
  split; [done|]. unfold everything. cbn [in_ring in_accumulator in_pending] in *.
  rewrite !(app_assoc (map qm_payload items)). apply dwindles_app_r.
  assert (Hall : map qm_payload items ++ payloads (rb_queue (in_ring st))
                 = payloads (map entry_of items ++ rb_queue (in_ring st))).
  { unfold payloads. rewrite map_app, map_map. done. }
  rewrite Hall, Hq. split; [unfold payloads; rewrite <- firstn_map; apply sublist_take|].
  rewrite <- Hq, <- Hall, total_len_app. intros Ht.
  destruct (requeue_rev_room items (in_ring st) (io_ring _ Hok) Hne Ht) as [-> _].
  cbn [with_queue rb_queue]. by rewrite Hall.
Qed.

Lemma lossy_star_lose s q' : dwindles (sp_cap s) (sp_queue s) q' -> star lossy_step s {| s with sp_queue := q' |}.
Proof. intros H. eapply star_step; [by apply lq_lose|apply star_refl]. Qed.

(** A step of the producer is at most two of the specification. *)
Lemma producer_step_refines cap p p' :
  producer_ok cap p -> producer_step p p' ->
  producer_ok cap p' /\ star lossy_step (abstraction cap p) (abstraction cap p').
Proof.
  intros [Hok Hcap Hwire] Hstep.
  destruct Hstep as [item now p|now p|now assign items st p Hw Hmi Heq|d items st report p Hw Heq|c p Hp Hr Ha Hc].
  - destruct (run_task_ok (pd_client p) (TaskPublish item now) Hok) as [Hok' Hcap'].
    split; [constructor; [exact Hok'|by rewrite <- Hcap|done]|].
    pose proof (publish_dwindles item now (pd_client p) Hok) as Hd. rewrite Hcap in Hd.
    destruct (decide (item = [])) as [->|Hne]; unfold abstraction; cbn [pd_client pd_wire pd_published pd_delivered].
    + rewrite app_nil_r in Hd. apply (lossy_star_lose (abstraction cap p)). by apply dwindles_app.
    + eapply star_step; [by apply (lq_publish item)|].
      eapply (lossy_star_lose (Build_LossyQueue cap _ _ _)). cbn.
      rewrite <- app_assoc. by apply dwindles_app.
  - destruct (run_task_ok (pd_client p) (TaskAccumulate now) Hok) as [Hok' Hcap'].
    split; [constructor; [exact Hok'|by rewrite <- Hcap|done]|].
    apply (lossy_star_lose (abstraction cap p)). apply dwindles_app. cbn. rewrite <- Hcap.
    by apply accumulate_dwindles.
  - pose proof (assign_take_ok now assign _ Hok) as Hok'. pose proof (assign_take_cap now assign _ Hok) as Hcap'.
    pose proof (assign_take_items now assign _ Hok Hmi) as Hitems. rewrite Heq in *. cbn [fst snd] in *.
    split; [constructor; [exact Hok'|by rewrite <- Hcap|]|].
    + cbn. intros its [= <-]. by rewrite <- Hcap.
    + apply (lossy_star_lose (abstraction cap p)). cbn. rewrite Hw. cbn. rewrite <- Hcap.
      by eapply take_dwindles.
  - destruct (Hwire items Hw) as (Hlen & Hne & Hb). rewrite <- Hcap in Hb.
    pose proof (settle_dwindles items d _ st report Hok Hlen Hne Hb Heq) as Hs.
    destruct report as [rep|rep].
    + subst st. split; [by constructor|].
      eapply star_step; [|apply star_refl].
      apply (lq_deliver (map qm_payload items) (everything (cl_inner (pd_client p))) (abstraction cap p)).
      cbn. by rewrite Hw.
    + destruct Hs as (Hok' & Hcap' & Hd). split; [constructor; [exact Hok'|by rewrite <- Hcap|done]|].
      apply (lossy_star_lose (abstraction cap p)). cbn. rewrite Hw. cbn. by rewrite <- Hcap.
  - split.
    + constructor; cbn; [|by rewrite Hr|done]. destruct Hok. constructor; rewrite ?Hp, ?Hr, ?Ha; done.
    + unfold abstraction, everything. cbn. rewrite Hp, Hr, Ha. apply star_refl.
Qed.

Lemma lossy_in_order s s' : in_order s -> lossy_step s s' -> in_order s'.
Proof.
  unfold in_order. intros Hin Hstep. destruct Hstep as [x s _|q' s Hd|b q s Hq];
    cbn [sp_cap sp_queue sp_published sp_delivered].
  - rewrite app_assoc. by apply dwindles_app_r.
  - eapply dwindles_trans; [exact Hin|]. by apply dwindles_app.
  - rewrite Hq in Hin. by rewrite <- app_assoc.
Qed.

Section Start.
Context (cfg : ProducerConfig).
Hypothesis Hring : cfg_outbound_max_bytes cfg <= umax 63.
Hypothesis Hbatch : cfg_max_batch_bytes cfg <= umax 63.

Lemma start_ok : producer_ok (cap_of cfg) (start cfg).
Proof.
  constructor; [|reflexivity|by intros].
  constructor; [apply ByteRing.new_ring_ok; lia..|by apply Accumulator.new_acc_ok|reflexivity|constructor].
Qed.

Lemma start_refines p :
  star producer_step (start cfg) p ->
  producer_ok (cap_of cfg) p /\
  star lossy_step (empty_queue (cap_of cfg)) (abstraction (cap_of cfg) p).
Proof.
  intros Hr. refine (star_invariant producer_step
    (fun p => producer_ok (cap_of cfg) p /\
       star lossy_step (empty_queue (cap_of cfg)) (abstraction (cap_of cfg) p)) _ _ _ Hr _).
  - intros a b [Hok Hs] Hstep. destruct (producer_step_refines _ a b Hok Hstep) as [Hok' Hs'].
    split; [done|]. by eapply star_trans.
  - split; [apply start_ok|apply star_refl].
Qed.

(** C4: a producer is a lossy queue.  Whatever is published and whenever, whatever the
    accumulator's timer, the ASGNs and their outcomes (delivered, failed, timed out)
    do, in any order, every run of the producer is a run of the specification, on
    the queue made of the batch on the wire and the three internal queues. *)
Theorem producer_refines_lossy_queue p :
  star producer_step (start cfg) p ->
  star lossy_step (empty_queue (cap_of cfg)) (abstraction (cap_of cfg) p).
Proof. intros Hr. apply (start_refines p Hr). Qed.

(** C12: order, and no loss without pressure.  The payloads reported delivered, then
    the one batch on the wire, then what the producer holds, are payloads published,
    each at most once and in the order of publication; and they are all of them as
    long as no more bytes were published than the cap. *)
Theorem delivered_in_order p :
  star producer_step (start cfg) p ->
  let rest := wire_payloads (pd_wire p) ++ everything (cl_inner (pd_client p)) in
  sublist (pd_delivered p ++ rest) (pd_published p) /\
  (total_len (pd_published p) <= cap_of cfg -> pd_delivered p ++ rest = pd_published p).
Proof.
  intros Hr. destruct (start_refines p Hr) as [_ Hs].
  change (in_order (abstraction (cap_of cfg) p)).
  eapply star_invariant; [apply lossy_in_order|exact Hs|]. apply dwindles_refl.
Qed.
End Start.

(** Two payloads published, the first delivered, the second sent to a consumer that
    does not answer, and a third published meanwhile. *)
Lemma demo_run :
  exists p, star producer_step (start (default_config "m:7000")) p /\
    pd_published p = [[Byte.x01]; [Byte.x02]; [Byte.x03]] /\ pd_delivered p = [[Byte.x01]] /\
    everything (cl_inner (pd_client p)) = [[Byte.x02]; [Byte.x03]].
Proof.
  set (one := {| ar_max_items := 1; ar_data_addr := "c:9"; ar_consumer_tag := "t" |}).
  eexists. split.
  - eapply star_step; [apply (pd_publish [Byte.x01] demo_now)|].
    eapply star_step; [apply (pd_publish [Byte.x02] demo_now)|].
    eapply star_step; [eapply (pd_assign demo_now one); [reflexivity|vm_compute; split; discriminate|vm_compute; reflexivity]|].
    eapply star_step; [eapply (pd_settle Delivered); [reflexivity|vm_compute; reflexivity]|].
    eapply star_step; [eapply (pd_assign demo_now one); [reflexivity|vm_compute; split; discriminate|vm_compute; reflexivity]|].
    eapply star_step; [apply (pd_publish [Byte.x03] demo_now)|].
    eapply star_step; [eapply (pd_settle DeliveryTimeout); [reflexivity|vm_compute; reflexivity]|].
    apply star_refl.
  - split_and!; vm_compute; reflexivity.
Defined.

Lemma producer_refines_lossy_queue_witness :
  exists p, star producer_step (start (default_config "m:7000")) p /\ pd_delivered p = [[Byte.x01]] /\
    star lossy_step (empty_queue (cap_of (default_config "m:7000"))) (abstraction (cap_of (default_config "m:7000")) p).
Proof.
  destruct demo_run as (p & Hr & _ & Hd & _). exists p. split; [exact Hr|]. split; [exact Hd|].
  apply (producer_refines_lossy_queue (default_config "m:7000")); [vm_compute; discriminate..|exact Hr].
Defined.

Lemma delivered_in_order_witness :
  exists p, star producer_step (start (default_config "m:7000")) p /\ pd_delivered p = [[Byte.x01]] /\
    let rest := wire_payloads (pd_wire p) ++ everything (cl_inner (pd_client p)) in
    sublist (pd_delivered p ++ rest) (pd_published p) /\
    (total_len (pd_published p) <= cap_of (default_config "m:7000") -> pd_delivered p ++ rest = pd_published p).
Proof.
  destruct demo_run as (p & Hr & _ & Hd & _). exists p. split; [exact Hr|]. split; [exact Hd|].
  apply (delivered_in_order (default_config "m:7000")); [vm_compute; discriminate..|exact Hr].
Defined.
