(* ===== verification/ControlSelect.v ===== *)
(** * Reading frames inside a [select!] ([run_control], [read_assign_frame])

    The producer's control loop polls [read_assign_frame] next to a notification
    and a heartbeat timer.  [read_exact] keeps the bytes it has already taken in
    the future that polls it; when another branch completes first, [select!] drops
    that future, and the bytes with it.  [held] is what the live future took from
    the socket, [unread] what it has not taken yet. *)

From S2P Require Import Prelude Utf8 Protocol.

(** ** Definitions *)

Definition read_assign_frame : reader AssignRequest :=
  expect_magic MAGIC_ASSIGN "expected ASGN, got" read_assign_payload.

Record Socket := { held : list byte; unread : list byte }.

(** What happens to the loop: bytes reach the socket, or the [select!] is polled;
    [other] tells whether the notification or the timer is ready then. *)
Inductive sel_event : Type :=
| Arrive (bs : list byte)
| Poll (other : bool).

(** [biased]: the read is polled first.  It ends with a frame or an error, or it
    takes what there is and stays pending. *)
Definition poll_read (s : Socket) : option (result error AssignRequest) * Socket :=
  match read_assign_frame (held s ++ unread s) with
  | Ok (a, rest) => (Some (Ok a), {| held := []; unread := rest |})
  | Err ReadExact => (None, {| held := held s ++ unread s; unread := [] |})
  | Err e => (Some (Err e), {| held := []; unread := [] |})
  end.

Definition sel_step (e : sel_event) (s : Socket) : option (result error AssignRequest) * Socket :=
  match e with
  | Arrive bs => (None, {| held := held s; unread := unread s ++ bs |})
  | Poll other =>
    match poll_read s with
    | (Some r, s') => (Some r, s')
    | (None, s') => (None, if other then {| held := []; unread := unread s' |} else s')
    end
  end.

(** The outcomes the loop sees, in order. *)
Fixpoint sel_run (es : list sel_event) (s : Socket) : list (result error AssignRequest) :=
  match es with
  | [] => []
  | e :: es => let '(r, s') := sel_step e s in
               match r with Some r => r :: sel_run es s' | None => sel_run es s' end
  end.

(** ** Lemmas *)

(** A reader that asks for more bytes than there are stays pending; one that
    succeeds on a prefix succeeds on more. *)
Definition incremental {A} (m : reader A) : Prop :=
  forall s t, match m s with
              | Ok (a, rest) => m (s ++ t) = Ok (a, rest ++ t)
              | Err ReadExact => True
              | Err e => m (s ++ t) = Err e
              end.

Lemma incremental_read_exact n : incremental (read_exact n).
Proof.
  intros s t. unfold read_exact. destruct (Nat.leb_spec n (length s)); [|done].
  rewrite length_app. destruct (Nat.leb_spec n (length s + length t)); [|lia].
  by rewrite take_app_le, drop_app_le by lia.
Qed.

Lemma incremental_bind {A B} (m : reader A) (k : A -> reader B) :
  incremental m -> (forall a, incremental (k a)) -> incremental (bind m k).
Proof.
  intros Hm Hk s t. unfold bind. specialize (Hm s t). destruct (m s) as [[a rest]|[]]; try done.
  - rewrite Hm. apply Hk.
  - by rewrite Hm.
  - by rewrite Hm.
Qed.

Lemma incremental_const {A} (r : result error A) : incremental (lift r).
Proof. intros s t. unfold lift. destruct r as [a|[]]; done. Qed.

Lemma incremental_ret {A} (a : A) : incremental (ret a).
Proof. intros s t. done. Qed.

Lemma incremental_fail {A} e : incremental (fail (A := A) e).
Proof. intros s t. unfold fail. by destruct e. Qed.

#[local] Hint Resolve incremental_read_exact incremental_bind incremental_ret incremental_fail
  incremental_const : cupid.

Lemma incremental_utf8_field len field : incremental (read_utf8_field len field).
Proof.
  unfold read_utf8_field. repeat (case_match || apply incremental_bind || intros); auto with cupid.
Qed.

Lemma incremental_assign : incremental read_assign_frame.
Proof.
  unfold read_assign_frame, expect_magic, read_assign_payload.
  repeat (case_match || apply incremental_bind || apply incremental_utf8_field || intros); auto with cupid.
Qed.

(** A proper prefix of a frame that reads back whole leaves the read pending. *)
Lemma prefix_pending p q a :
  read_assign_frame (p ++ q) = Ok (a, []) -> q <> [] -> read_assign_frame p = Err ReadExact.
Proof.
  intros Hok Hq. pose proof (incremental_assign p q) as H.
  destruct (read_assign_frame p) as [[b rest]|e].
  - rewrite H in Hok. injection Hok as _ Hr. by destruct rest, q.
  - destruct e; [done| |]; by rewrite H in Hok.
Qed.

Lemma read_assign_frame_encode req rest frame :
  in_u 16 (ar_max_items req) -> wire_string (ar_consumer_tag req) -> wire_string (ar_data_addr req) ->
  1 <= slen (ar_data_addr req) -> encode_assign req = Ok frame ->
  read_assign_frame (frame ++ rest) = Ok (req, rest).
Proof.
  intros Hm Ht Ha Hne Henc. destruct req as [m tag addr].
  destruct (read_assign_encode m tag addr rest Hm Ht Ha Hne) as (f & Hf & Hr).
  cbn in Henc, Hf. rewrite Henc in Hf. injection Hf as <-.
  revert Hr. unfold read_assign_frame, read_assign, expect_magic, bind at 1 2.
  destruct (read_exact 4 (frame ++ rest)) as [[mg s']|e]; [|done].
  by destruct (negb (bytes_eqb mg MAGIC_ASSIGN)).
Qed.

(** *** What a frame that was read is made of

    It has as many ASCII bytes as the fields it was read as, whatever its invalid
    UTF-8 was turned into; and the high byte of a length, which is at most 256, is
    one too. *)

Definition weight (a : AssignRequest) : nat :=
  (ascii_count (to_le 2 (ar_max_items a)) + ascii_count (as_bytes (ar_consumer_tag a))
     + ascii_count (as_bytes (ar_data_addr a)))%nat.

Lemma high_byte b0 b1 : from_le [b0; b1] / 256 = byte.unsigned b1.
Proof.
  pose proof (byte.unsigned_range b0). pose proof (byte.unsigned_range b1).
  change 256 with (2 ^ 8). rewrite <- Z.shiftr_div_pow2 by lia. unfold from_le.
  change (le_combine [b0; b1]) with (Z.lor (byte.unsigned b0) (Z.shiftl (Z.lor (byte.unsigned b1) 0) 8)).
  rewrite Z.lor_0_r, Z.shiftr_lor, Z.shiftr_shiftl_l by lia.
  rewrite Z.shiftr_div_pow2, Z.div_small by lia. by rewrite Z.lor_0_l, Z.shiftl_0_r.
Qed.

Lemma short_length l : length l = 2%nat -> from_le l <= 256 ->
  exists b0 b1, l = [b0; b1] /\ byte.unsigned b1 <= 1.
Proof.
  destruct l as [|b0 [|b1 [|]]]; try done. intros _ Hle. exists b0, b1. split; [done|].
  rewrite <- high_byte with (b0 := b0). pose proof (Z.div_le_mono _ _ 256 ltac:(lia) Hle). exact H.
Qed.

Lemma short_length_ascii l : length l = 2%nat -> from_le l <= 256 -> (1 <= ascii_count l)%nat.
Proof.
  intros Hl Hle. destruct (short_length l Hl Hle) as (b0 & b1 & -> & Hb). rewrite !ascii_count_cons.
  assert (ascii b1 = true) as ->; [|lia]. pose proof (byte.unsigned_range b1).
  unfold ascii, in_bytes. apply andb_true_iff. split; apply Z.leb_le; lia.
Qed.

Lemma read_exact_split n s x s' : read_exact n s = Ok (x, s') -> s = x ++ s' /\ length x = n.
Proof.
  unfold read_exact. destruct (Nat.leb_spec n (length s)); [|done]. intros [= <- <-].
  split; [by rewrite take_drop|]. rewrite length_take. lia.
Qed.

Lemma utf8_field_split len field s x s' :
  read_utf8_field len field s = Ok (x, s') ->
  len <= 256 /\ exists bs, s = bs ++ s' /\ ascii_count bs = ascii_count (as_bytes x).
Proof.
  unfold read_utf8_field. destruct (Z.eqb_spec len 0) as [->|Hl].
  { intros [= <- <-]. split; [lia|]. by exists []. }
  destruct (Z.ltb_spec 256 len); [done|]. intros (bs & s1 & (-> & _)%read_exact_split & [= <- <-])%bind_ok.
  split; [done|]. exists bs. split; [done|]. by rewrite as_bytes_of_bytes, lossy_ascii.
Qed.

Lemma assign_frame_split s a rest :
  read_assign_frame s = Ok (a, rest) ->
  exists fr, s = fr ++ rest /\ (6 + weight a <= ascii_count fr)%nat /\ take 4 fr = MAGIC_ASSIGN.
Proof.
  unfold read_assign_frame, expect_magic, read_assign_payload.
  intros (mg & s1 & (-> & Hmg)%read_exact_split & H)%bind_ok.
  destruct (bytes_eqb mg MAGIC_ASSIGN) eqn:Heq; [|done]. apply bytes_eqb_true in Heq as ->. cbn [negb] in H.
  apply bind_ok in H as (hdr & s2 & (-> & Hh)%read_exact_split & H).
  apply bind_ok in H as (tag & s3 & (Ht & tb & -> & Htb)%utf8_field_split & H).
  apply bind_ok in H as (db & s4 & (-> & Hdb)%read_exact_split & H).
  apply bind_ok in H as (addr & s5 & (Hd & ab & -> & Hab)%utf8_field_split & H).
  destruct (String.eqb addr ""); [done|]. injection H as <- <-.
  exists (MAGIC_ASSIGN ++ hdr ++ tb ++ db ++ ab). split; [by rewrite <- !app_assoc|]. split; [|done].
  unfold u_at, slice in *. cbn [ar_max_items ar_consumer_tag ar_data_addr weight]. unfold weight. cbn [ar_max_items ar_consumer_tag ar_data_addr].
  rewrite to_from_le by (rewrite length_take, length_drop; lia).
  pose proof (short_length_ascii db Hdb Hd).
  pose proof (short_length_ascii (take 2 (drop 2 hdr)) ltac:(rewrite length_take, length_drop; lia) Ht).
  rewrite (take_ge (drop 2 hdr)) in H0 by (rewrite length_drop; lia).
  change (drop 0 hdr) with hdr. rewrite <- (take_drop 2 hdr) at 2.
  rewrite !ascii_count_app, Htb, Hab. change (ascii_count MAGIC_ASSIGN) with 4%nat. lia.
Qed.

(** *** What a frame is made of *)

Lemma assign_frame_shape req frame :
  wire_string (ar_consumer_tag req) -> wire_string (ar_data_addr req) -> encode_assign req = Ok frame ->
  exists m0 m1 l0 l1 tail, frame = MAGIC_ASSIGN ++ [m0; m1; l0; l1] ++ tail /\ (3 <= length tail)%nat /\
    byte.unsigned l1 <= 1 /\ (ascii_count frame <= 8 + weight req)%nat.
Proof.
  intros [Ht _] [Ha _]. unfold encode_assign. destruct (_ || _) eqn:Hbad; [done|].
  assert (Hinj : forall a b : list byte, @Ok error _ a = Ok b -> a = b) by congruence. intros <-%Hinj.
  change (blen (as_bytes ?x)) with (slen x) in *.
  pose proof (slen_range _ Ht). pose proof (slen_range _ Ha). rewrite !(wrap_small 16 (slen _)) by done.
  pose proof (length_to_le 2 (ar_max_items req)) as Hm. pose proof (length_to_le 2 (slen (ar_consumer_tag req))) as Hl.
  pose proof (length_to_le 2 (slen (ar_data_addr req))) as Hd.
  destruct (short_length _ Hl) as (l0 & l1 & Heq & Hl1); [by rewrite from_to_le, wrap_small|].
  destruct (to_le 2 (ar_max_items req)) as [|m0 [|m1 [|]]] eqn:Hmeq; try done.
  exists m0, m1, l0, l1, (as_bytes (ar_consumer_tag req) ++ to_le 2 (slen (ar_data_addr req)) ++ as_bytes (ar_data_addr req)).
  split; [by rewrite Heq|]. split_and!; [|done|].
  - assert (1 <= length (as_bytes (ar_data_addr req)))%nat; [|rewrite !length_app; lia].
    apply orb_false_iff in Hbad as [Hbad _]. apply orb_false_iff in Hbad as [_ Hne%Z.eqb_neq].
    unfold slen, blen in Hne. lia.
  - unfold weight. rewrite Hmeq, !ascii_count_app. change (ascii_count MAGIC_ASSIGN) with 4%nat.
    pose proof (ascii_count_le (to_le 2 (slen (ar_consumer_tag req)))).
    pose proof (ascii_count_le (to_le 2 (slen (ar_data_addr req)))). lia.
Qed.

(** A buffer that starts with other four bytes is refused. *)
Lemma not_magic b0 b1 b2 b3 s :
  [b0; b1; b2; b3] <> MAGIC_ASSIGN ->
  read_assign_frame (b0 :: b1 :: b2 :: b3 :: s) = Err (Bail "expected ASGN, got" []).
Proof.
  intros Hne. unfold read_assign_frame, expect_magic.
  change (b0 :: b1 :: b2 :: b3 :: s) with ([b0; b1; b2; b3] ++ s). rewrite bind_read_exact by done.
  replace (bytes_eqb [b0; b1; b2; b3] MAGIC_ASSIGN) with false; [done|].
  symmetry. apply not_true_iff_false. by rewrite bytes_eqb_true.
Qed.

(** What follows up to seven bytes of a frame starts with no magic. *)
Lemma cut_refused req frame k :
  wire_string (ar_consumer_tag req) -> wire_string (ar_data_addr req) -> encode_assign req = Ok frame ->
  (1 <= k < 8)%nat -> read_assign_frame (drop k frame) = Err (Bail "expected ASGN, got" []).
Proof.
  intros Ht Ha Henc Hk. destruct (assign_frame_shape req frame Ht Ha Henc) as (m0 & m1 & l0 & l1 & tail & -> & Hlen & Hl1 & _).
  destruct tail as [|t0 [|t1 [|t2 tail]]]; cbn in Hlen; try lia.
  assert (Hl : forall b, 1 < byte.unsigned b -> l1 <> b) by (intros b Hb ->; lia).
  destruct k as [|[|[|[|[|[|[|[|k]]]]]]]]; [lia|..|lia]; cbn [drop app MAGIC_ASSIGN]; apply not_magic;
    unfold MAGIC_ASSIGN; intros [= ]; by eapply Hl; [|eassumption].
Qed.

(** Nothing after the cut is read as the request that was cut. *)
Lemma cut_not_request req frame k n rest :
  wire_string (ar_consumer_tag req) -> wire_string (ar_data_addr req) -> encode_assign req = Ok frame ->
  (1 <= k)%nat -> read_assign_frame (take n (drop k frame)) <> Ok (req, rest).
Proof.
  intros Ht Ha Henc Hk Hr. destruct (decide (k < 8)%nat) as [Hk8|Hk8].
  { pose proof (incremental_assign (take n (drop k frame)) (drop n (drop k frame))) as Hi. rewrite Hr, take_drop in Hi.
    by rewrite (cut_refused req frame k) in Hi. }
  destruct (assign_frame_shape req frame Ht Ha Henc) as (m0 & m1 & l0 & l1 & tail & Heq & _ & _ & Hw).
  destruct (assign_frame_split _ _ _ Hr) as (fr & Hs & Hfr & _).
  assert (Hle : (ascii_count fr <= ascii_count (drop k frame))%nat).
  { rewrite <- (take_drop n (drop k frame)), Hs, !ascii_count_app. lia. }
  assert (Hp : (4 + ascii_count (drop k frame) <= ascii_count frame)%nat).
  { rewrite <- (take_drop k frame) at 2. rewrite ascii_count_app. rewrite <- (take_drop 4 (take k frame)), ascii_count_app.
    rewrite take_take, Nat.min_l by lia. rewrite Heq at 2. change (take 4 (MAGIC_ASSIGN ++ _)) with MAGIC_ASSIGN.
    change (ascii_count MAGIC_ASSIGN) with 4%nat. lia. }
  lia.
Qed.

(** The bytes that arrive in a schedule. *)
Definition arrivals (es : list sel_event) : list byte :=
  concat (map (fun e => match e with Arrive bs => bs | Poll _ => [] end) es).

(** Once some of a frame is gone, no schedule that brings the rest yields it. *)
Lemma remains_lost req frame es s k :
  wire_string (ar_consumer_tag req) -> wire_string (ar_data_addr req) -> encode_assign req = Ok frame ->
  (1 <= k)%nat -> (held s ++ unread s) ++ arrivals es = drop k frame -> Ok req ∉ sel_run es s.
Proof.
  intros Ht Ha Henc. revert s k. induction es as [|e es IH]; intros s k Hk Heq; [apply not_elem_of_nil|].
  assert (Hskip : forall x r s', held s' ++ unread s' = r -> x ++ r ++ arrivals es = drop k frame -> Ok req ∉ sel_run es s').
  { intros x r s' Hs' Hx. apply (IH s' (k + length x)%nat); [lia|]. rewrite Hs', <- drop_drop, <- Hx. by rewrite drop_app_length. }
  cbn [sel_run sel_step]. destruct e as [bs|other].
  { apply (Hskip [] (held s ++ unread s ++ bs)); [done|]. cbn [app]. rewrite <- Heq. unfold arrivals. cbn. by rewrite <- !app_assoc. }
  assert (Hbuf : held s ++ unread s = take (length (held s ++ unread s)) (drop k frame)).
  { rewrite <- Heq. by rewrite take_app_length. }
  change (arrivals (Poll other :: es)) with (arrivals es) in Heq.
  set (buf := held s ++ unread s) in *. pose proof (eq_refl (poll_read s)) as Hpoll. unfold poll_read in Hpoll at 2.
  fold buf in Hpoll. destruct (read_assign_frame buf) as [[a rest]|err] eqn:Hr; cbn [sel_step].
  - rewrite Hpoll. destruct (assign_frame_split _ _ _ Hr) as (fr & Hfr & _).
    apply not_elem_of_cons. split.
    + intros [= <-]. rewrite Hbuf in Hr. by eapply cut_not_request in Hr.
    + apply (Hskip fr rest); [done|]. by rewrite app_assoc, <- Hfr.
  - assert (Hgone : Ok req ∉ sel_run es {| held := []; unread := [] |}).
    { apply (Hskip buf []); [done|exact Heq]. }
    destruct err; rewrite Hpoll; [|by apply not_elem_of_cons|by apply not_elem_of_cons].
    destruct other; [exact Hgone|]. apply (Hskip [] buf); [cbn; by rewrite app_nil_r|exact Heq].
Qed.

(** ** Properties *)

(** A frame that arrives in pieces is read as long as nothing else is ready in
    between. *)
Theorem assign_read_in_pieces req frame p q :
  in_u 16 (ar_max_items req) -> wire_string (ar_consumer_tag req) -> wire_string (ar_data_addr req) ->
  1 <= slen (ar_data_addr req) -> encode_assign req = Ok frame ->
  frame = p ++ q -> q <> [] ->
  sel_run [Arrive p; Poll false; Arrive q; Poll true] {| held := []; unread := [] |} = [Ok req].
Proof.
  intros Hm Ht Ha Hne Henc -> Hq.
  pose proof (read_assign_frame_encode req [] (p ++ q) Hm Ht Ha Hne Henc) as Hr. rewrite app_nil_r in Hr.
  cbn [sel_run sel_step held unread app]. unfold poll_read at 1. cbn [held unread app].
  rewrite (prefix_pending p q req Hr Hq). cbn [held unread app]. unfold poll_read. cbn [held unread app].
  by rewrite Hr.
Qed.

Definition piece_req : AssignRequest := {| ar_max_items := 3; ar_data_addr := "h:1"; ar_consumer_tag := "t" |}.
Definition piece_frame : list byte :=
  match encode_assign piece_req with Ok f => f | Err _ => [] end.

Lemma assign_read_in_pieces_witness :
  sel_run [Arrive (take 6 piece_frame); Poll false; Arrive (drop 6 piece_frame); Poll true]
    {| held := []; unread := [] |} = [Ok piece_req].
Proof.
  apply (assign_read_in_pieces piece_req piece_frame); try (vm_compute; repeat split; discriminate);
    vm_compute; reflexivity.
Defined.

(** C39: when the notification or the timer is ready while any part of an ASGN, and
    not the whole, has arrived, the bytes read so far are dropped with the future,
    and the assignment is lost: however the rest of the frame arrives and is
    polled, the request never comes out of it.  A cut within the first seven bytes,
    that is in the magic or in the fields of fixed length behind it, makes the rest
    an error, which ends the connection. *)
Theorem interrupted_assign_is_lost req frame p q s :
  in_u 16 (ar_max_items req) -> wire_string (ar_consumer_tag req) -> wire_string (ar_data_addr req) ->
  1 <= slen (ar_data_addr req) -> encode_assign req = Ok frame ->
  frame = p ++ q -> p <> [] -> q <> [] -> held s ++ unread s = p ->
  (forall es, arrivals es = q -> Ok req ∉ sel_run (Poll true :: es) s) /\
  ((length p < 8)%nat -> forall other,
     sel_run [Poll true; Arrive q; Poll other] s = [Err (Bail "expected ASGN, got" [])]).
Proof.
  intros Hm Ht Ha Hne Henc -> Hp Hq Hs. pose proof (read_assign_frame_encode req [] _ Hm Ht Ha Hne Henc) as Hr.
  rewrite app_nil_r in Hr.
  assert (Hpoll : forall es, sel_run (Poll true :: es) s = sel_run es {| held := []; unread := [] |}).
  { intros es. cbn [sel_run sel_step]. unfold poll_read. by rewrite Hs, (prefix_pending p q req Hr Hq). }
  assert (Hlen : (1 <= length p)%nat) by (destruct p; cbn; [done|lia]).
  split.
  - intros es Hes. rewrite Hpoll. apply (remains_lost req (p ++ q) es _ (length p)); try done.
    cbn [held unread app]. by rewrite drop_app_length.
  - intros Hp8 other. rewrite Hpoll. cbn [sel_run sel_step held unread app]. unfold poll_read. cbn [held unread app].
    pose proof (cut_refused req (p ++ q) (length p) Ht Ha Henc ltac:(lia)) as Hc. rewrite drop_app_length in Hc.
    by rewrite Hc.
Qed.

(** Cut within the magic, and within the tag. *)
Lemma interrupted_assign_is_lost_witness :
  sel_run [Poll true; Arrive (drop 2 piece_frame); Poll false] {| held := take 1 piece_frame; unread := slice 1 1 piece_frame |}
    = [Err (Bail "expected ASGN, got" [])] /\
  Ok piece_req ∉ sel_run [Poll true; Arrive (drop 9 piece_frame); Poll false; Poll true]
    {| held := take 9 piece_frame; unread := [] |}.
Proof.
  split.
  - apply (interrupted_assign_is_lost piece_req piece_frame (take 2 piece_frame) (drop 2 piece_frame));
      try (vm_compute; repeat split; discriminate); try (vm_compute; reflexivity). vm_compute. lia.
  - apply (interrupted_assign_is_lost piece_req piece_frame (take 9 piece_frame) (drop 9 piece_frame));
      try (vm_compute; repeat split; discriminate); vm_compute; reflexivity.
Defined.
