(* ===== verification/Float64.v ===== *)
(** * IEEE double precision ([f64])

    The rates, averages and capacities of the broker are [f64].  They are the
    specification floats of the Standard Library at precision 53 and exponent
    bound 1024; a decimal literal of the source is the correctly rounded quotient
    of two integers. *)

From Stdlib Require Import SpecFloat.
From S2P Require Import Prelude.

Definition f64 : Type := spec_float.

Definition prec : Z := 53.
Definition emax : Z := 1024.

(** [z as f64] for an integer. *)
Definition of_int (z : Z) : f64 := binary_normalize prec emax z 0 false.

Definition fadd : f64 -> f64 -> f64 := SFadd prec emax.
Definition fsub : f64 -> f64 -> f64 := SFsub prec emax.
Definition fmul : f64 -> f64 -> f64 := SFmul prec emax.
Definition fdiv : f64 -> f64 -> f64 := SFdiv prec emax.

Definition fltb : f64 -> f64 -> bool := SFltb.
Definition fleb : f64 -> f64 -> bool := SFleb.

Definition is_nan (x : f64) : bool := match x with S754_nan => true | _ => false end.

(** [f64::max]: the other operand when one is a NaN. *)
Definition fmax (x y : f64) : f64 :=
  if is_nan x then y else if is_nan y then x else if fltb x y then y else x.

Definition fmin (x y : f64) : f64 :=
  if is_nan x then y else if is_nan y then x else if fltb y x then y else x.

(** The literal [num/den], e.g. [0.01] is [lit 1 100]. *)
Definition lit (num den : Z) : f64 := fdiv (of_int num) (of_int den).

Definition f0 : f64 := S754_zero false.
Definition f64_MAX : f64 := S754_finite false (2 ^ 53 - 1) 971.

Arguments of_int : simpl never.
Arguments fadd : simpl never.
Arguments fsub : simpl never.
Arguments fmul : simpl never.
Arguments fdiv : simpl never.
Arguments lit : simpl never.

(** ** Rounding of a non-negative mantissa

    The lemmas bound mantissa and exponent of a rounded result, coarsely: what a
    conversion or a division of machine integers needs not to overflow. *)

Lemma digits2_pos_le p : 2 ^ (Zpos (digits2_pos p) - 1) <= Zpos p.
Proof.
  induction p as [p IH|p IH|]; cbn [digits2_pos]; rewrite ?Pos2Z.inj_succ; [| |done].
  all: replace (Z.succ (Zpos (digits2_pos p)) - 1) with ((Zpos (digits2_pos p) - 1) + 1) by lia.
  all: rewrite Z.pow_add_r by lia; lia.
Qed.

Lemma digits2_bound m k : 0 <= m < 2 ^ k -> 0 <= k -> 0 <= Zdigits2 m <= k.
Proof.
  intros Hm Hk. destruct m as [|p|p]; cbn [Zdigits2]; [lia| |lia]. split; [lia|].
  pose proof (digits2_pos_le p) as Hp. destruct (Z.le_gt_cases (Zpos (digits2_pos p)) k); [done|].
  pose proof (Z.pow_le_mono_r 2 k (Zpos (digits2_pos p) - 1)). lia.
Qed.

Lemma shr_1_range r : 0 <= shr_m r -> 0 <= shr_m (shr_1 r) <= shr_m r.
Proof. destruct r as [[|[p|p|]|p] x y]; cbn; lia. Qed.

Lemma iter_shr_range n r : 0 <= shr_m r -> 0 <= shr_m (SpecFloat.iter_pos shr_1 n r) <= shr_m r.
Proof.
  revert r. induction n as [n IH|n IH|]; intros r Hr; cbn [SpecFloat.iter_pos]; [| |by apply shr_1_range].
  - pose proof (shr_1_range r Hr). pose proof (IH (shr_1 r)). pose proof (IH (SpecFloat.iter_pos shr_1 n (shr_1 r))). lia.
  - pose proof (IH r). pose proof (IH (SpecFloat.iter_pos shr_1 n r)). lia.
Qed.

Lemma shr_fexp_range m e l k :
  0 <= m < 2 ^ k -> 0 <= k ->
  let '(r, e') := shr_fexp prec emax m e l in
  0 <= shr_m r <= m /\ e <= e' <= Z.max (e + k) (-1074).
Proof.
  intros Hm Hk. pose proof (digits2_bound m k Hm Hk) as Hd. unfold shr_fexp, shr, SpecFloat.fexp, SpecFloat.emin, prec, emax.
  assert (Hr : shr_m (shr_record_of_loc m l) = m) by (destruct l as [|[]]; done).
  destruct (Z.max _ _ - e) as [|p|p] eqn:Hn; rewrite ?Hr; [lia| |lia].
  pose proof (iter_shr_range p (shr_record_of_loc m l)). lia.
Qed.

Definition finite_within (mmax elo ehi : Z) (x : f64) : Prop :=
  match x with
  | S754_zero false => True
  | S754_finite false m e => Zpos m <= mmax /\ elo <= e <= ehi
  | _ => False
  end.

Lemma round_aux_within m e l k :
  0 <= m < 2 ^ k -> 0 <= k <= 2000 -> e + 2 * k + 1 <= 971 ->
  finite_within (2 ^ k) e (Z.max (e + 2 * k + 1) (k - 1073)) (binary_round_aux prec emax false m e l).
Proof.
  intros Hm Hk He. unfold binary_round_aux. pose proof (shr_fexp_range m e l k Hm ltac:(lia)) as H1.
  destruct (shr_fexp prec emax m e l) as [r e']. destruct H1 as [Hr He'].
  set (m2 := round_nearest_even (shr_m r) (loc_of_shr_record r)).
  assert (Hm2 : 0 <= m2 <= 2 ^ k).
  { unfold m2, round_nearest_even. destruct (loc_of_shr_record r) as [|[]]; try destruct (Z.even (shr_m r)); lia. }
  assert (Hm3 : 0 <= m2 < 2 ^ (k + 1)) by (rewrite Z.pow_add_r by lia; lia).
  pose proof (shr_fexp_range m2 e' loc_Exact (k + 1) Hm3 ltac:(lia)) as H2.
  destruct (shr_fexp prec emax m2 e' loc_Exact) as [r2 e2]. destruct H2 as [Hr2 He2].
  destruct (shr_m r2) as [|p|p] eqn:Hp; [done| |lia].
  destruct (Z.leb_spec e2 (emax - prec)); unfold emax, prec in *; [|lia]. cbn. lia.
Qed.


Lemma pos_iter_xO p d : Zpos (Pos.iter xO p d) = Zpos p * 2 ^ Zpos d.
Proof.
  revert p. induction d as [|d IH] using Pos.peano_ind; intros p; [cbn; lia|].
  rewrite Pos.iter_succ, Pos2Z.inj_succ, Z.pow_succ_r by lia. rewrite Pos2Z.inj_xO, IH. lia.
Qed.

Lemma shr_1_half r : 0 <= shr_m r -> shr_m (shr_1 r) = shr_m r / 2.
Proof.
  destruct r as [[|[p|p|]|p] x y]; cbn [shr_m]; intros Hm; [done|..|done|lia]; unfold shr_1; cbn [shr_m].
  - apply (Z.div_unique_pos _ _ _ 1); lia.
  - apply (Z.div_unique_pos _ _ _ 0); lia.
Qed.

Lemma iter_shr_pow n r : 0 <= shr_m r -> shr_m (SpecFloat.iter_pos shr_1 n r) = shr_m r / 2 ^ Zpos n.
Proof.
  assert (Hpow : forall x a b, 0 <= a -> 0 <= b -> x / 2 ^ a / 2 ^ b = x / 2 ^ (a + b))
    by (intros x a b ? ?; rewrite Z.pow_add_r by lia; apply Z.div_div; lia).
  revert r. induction n as [n IH|n IH|]; intros r Hr; cbn [SpecFloat.iter_pos]; [| |by apply shr_1_half].
  - pose proof (shr_1_range r Hr). pose proof (iter_shr_range n (shr_1 r)).
    rewrite !IH, shr_1_half by lia. replace (shr_m r / 2) with (shr_m r / 2 ^ 1) by done.
    rewrite !Hpow by lia. f_equal. f_equal. lia.
  - pose proof (iter_shr_range n r). rewrite !IH, Hpow by lia. f_equal. f_equal. lia.
Qed.

(** A mantissa above the subnormal range keeps its leading digit. *)
Lemma shr_fexp_pos m e l :
  0 < m -> -1074 <= e -> 0 < shr_m (shr_fexp prec emax m e l).1.
Proof.
  intros Hm He. unfold shr_fexp, shr, SpecFloat.fexp, SpecFloat.emin, prec, emax.
  assert (Hr : shr_m (shr_record_of_loc m l) = m) by (destruct l as [|[]]; done).
  destruct (Z.max _ _ - e) as [|p|p] eqn:Hn; cbn [fst]; rewrite ?Hr; [done| |done].
  rewrite iter_shr_pow by lia. rewrite Hr. destruct m as [|q|q]; [lia| |lia]. cbn [Zdigits2] in Hn.
  pose proof (digits2_pos_le q) as Hq. apply Z.div_str_pos. split; [apply Z.pow_pos_nonneg; lia|].
  transitivity (2 ^ (Zpos (digits2_pos q) - 1)); [apply Z.pow_le_mono_r; lia|done].
Qed.

Lemma round_aux_pos m e l :
  0 < m -> -1074 <= e -> binary_round_aux prec emax false m e l <> S754_zero false.
Proof.
  intros Hm He. unfold binary_round_aux. pose proof (shr_fexp_pos m e l Hm He) as H1.
  pose proof (shr_fexp_range m e l (Z.log2_up (m + 1))) as Hrg.
  assert (Hlog : m < 2 ^ Z.log2_up (m + 1)) by (pose proof (Z.log2_up_spec (m + 1)); lia).
  specialize (Hrg ltac:(lia) (Z.log2_up_nonneg _)).
  destruct (shr_fexp prec emax m e l) as [r e']. cbn [fst] in H1. destruct Hrg as [_ He'].
  set (m2 := round_nearest_even (shr_m r) (loc_of_shr_record r)).
  assert (Hm2 : 0 < m2).
  { unfold m2, round_nearest_even. destruct (loc_of_shr_record r) as [|[]]; try destruct (Z.even (shr_m r)); lia. }
  pose proof (shr_fexp_pos m2 e' loc_Exact Hm2 ltac:(lia)) as H2.
  destruct (shr_fexp prec emax m2 e' loc_Exact) as [r2 e2]. cbn [fst] in H2.
  destruct (shr_m r2); [lia| |done]. by destruct (_ <=? _).
Qed.

(** A positive [u64] as [f64]. *)
Lemma of_int_within z : 1 <= z < 2 ^ 64 -> exists m e, of_int z = S754_finite false m e /\ Zpos m <= 2 ^ 117 /\ -52 <= e <= 235.
Proof.
  intros Hz. destruct z as [|p|p]; [lia| |lia]. unfold of_int, binary_normalize, binary_round.
  pose proof (digits2_bound (Zpos p) 64 ltac:(lia) ltac:(lia)) as Hd. cbn [Zdigits2] in Hd.
  assert (Hs : let '(mz, ez) := shl_align p 0 (SpecFloat.fexp prec emax (Zpos (digits2_pos p) + 0)) in
    0 <= Zpos mz < 2 ^ 117 /\ -52 <= ez <= 0).
  { unfold shl_align, SpecFloat.fexp, SpecFloat.emin, prec, emax.
    destruct (Z.max _ _ - 0) as [|q|q] eqn:Hq; [split; [|lia]..|].
    1, 2: assert (2 ^ 64 < 2 ^ 117) by (vm_compute; reflexivity); lia.
    rewrite pos_iter_xO. split; [|lia].
    assert (2 ^ Zpos q <= 2 ^ 53) by (apply Z.pow_le_mono_r; lia).
    assert (2 ^ 117 = 2 ^ 64 * 2 ^ 53) as -> by (rewrite <- Z.pow_add_r; [done|lia..]). nia. }
  destruct (shl_align _ _ _) as [mz ez]. destruct Hs as [Hm He].
  pose proof (round_aux_within (Zpos mz) ez loc_Exact 117 Hm ltac:(lia) ltac:(lia)) as H.
  pose proof (round_aux_pos (Zpos mz) ez loc_Exact ltac:(lia) ltac:(lia)) as Hnz.
  destruct (binary_round_aux _ _ _ _ _ _) as [[]| | |[] m e]; cbn in H; try done. exists m, e. split; [done|lia].
Qed.

(** The inverse of a positive [u64] is a number, neither infinite nor negative. *)
Lemma inverse_within z :
  1 <= z < 2 ^ 64 -> finite_within (2 ^ 458) (-405) 917 (fdiv (of_int 1) (of_int z)).
Proof.
  intros Hz. destruct (of_int_within z Hz) as (m & e & -> & Hm & He).
  assert (of_int 1 = S754_finite false (2 ^ 52) (-52)) as -> by reflexivity.
  unfold fdiv, SFdiv. cbn [xorb]. unfold SFdiv_core_binary.
  set (e' := Z.min _ _). assert (Hd1 : Zdigits2 (Zpos (2 ^ 52)) = 53) by reflexivity.
  pose proof (digits2_bound (Zpos m) 118 ltac:(assert (2 ^ 117 < 2 ^ 118) by reflexivity; lia) ltac:(lia)) as Hd2.
  assert (He' : -405 <= e' <= 0).
  { unfold e', SpecFloat.fexp, SpecFloat.emin, prec, emax. rewrite Hd1. lia. }
  set (m' := match _ with Z0 => _ | Zpos _ => _ | Zneg _ => _ end).
  assert (Hm' : 0 <= m' < 2 ^ 458).
  { unfold m'. destruct (-52 - e - e') as [|s|s] eqn:Hs; [vm_compute; split; congruence| |lia].
    rewrite Z.shiftl_mul_pow2 by lia. assert (2 ^ Zpos s <= 2 ^ 405) by (apply Z.pow_le_mono_r; lia).
    assert (2 ^ 458 = 2 * Zpos (2 ^ 52) * 2 ^ 405) as -> by reflexivity. nia. }
  destruct (Z.div_eucl m' (Zpos m)) as [q r] eqn:Hqr.
  assert (Hq : q = m' / Zpos m) by (unfold Z.div; by rewrite Hqr).
  pose proof (Z.div_pos m' (Zpos m) ltac:(lia) ltac:(lia)).
  pose proof (Z.div_le_upper_bound m' (Zpos m) m' ltac:(lia) ltac:(nia)).
  pose proof (round_aux_within q e' (new_location (Zpos m) r) 458 ltac:(lia) ltac:(lia) ltac:(lia)) as H1.
  destruct (binary_round_aux _ _ _ _ _ _) as [[]| | |[] mq eq]; cbn in *; try done. lia.
Qed.


