(* ===== verification/Capacity.v ===== *)
(** * The capacity model ([master/src/capacity.rs]) *)

From S2P Require Import Prelude Float64.

Record ConsumerCapacityInput := { ci_batch_items : f64; ci_cycle_ms : f64 }.

Definition DEFAULT_CYCLE_MS : f64 := of_int 256.
Definition DEFAULT_BATCH_ITEMS : f64 := of_int 32.

Definition observed_throughput (batch_items cycle_ms : f64) : f64 :=
  let items := fmax batch_items (lit 1 10) in
  let tau := fmax (fdiv cycle_ms (of_int 1000)) (lit 1 1000) in
  fdiv items tau.

Definition demand_per_sec (transfer_per_sec backlog_growth_per_sec : f64) : f64 :=
  if fleb transfer_per_sec (lit 1 100) && fleb backlog_growth_per_sec (lit 1 100) then f0
  else fadd transfer_per_sec (fmax backlog_growth_per_sec f0).

Definition per_consumer_capacity_model (batch_items cycle_ms demand_per_sec : f64)
    (consumer_count : Z) : f64 :=
  if consumer_count =? 0 then f0
  else if fleb demand_per_sec (lit 1 100) then of_int 100
  else
    let lambda := fdiv demand_per_sec (of_int consumer_count) in
    let mu := observed_throughput batch_items cycle_ms in
    fmax (fmul (fdiv mu lambda) (of_int 100)) f0.

(** [Iterator::sum]; the terms are positive, so the zero it starts from has no effect. *)
Definition fsum (l : list f64) : f64 := foldl fadd (SpecFloat.S754_zero true) l.

Definition global_capacity_model (inputs : list ConsumerCapacityInput) (demand_per_sec : f64) : f64 :=
  match inputs with
  | [] => f0
  | _ :: _ =>
    if fleb demand_per_sec (lit 1 100) then of_int 100
    else
      let total_mu := fsum (map (fun c => observed_throughput (ci_batch_items c) (ci_cycle_ms c)) inputs) in
      fmax (fmul (fdiv total_mu demand_per_sec) (of_int 100)) f0
  end.

Definition effective_cycle_ms (ema_ms : f64) : f64 :=
  if fltb f0 ema_ms then ema_ms else DEFAULT_CYCLE_MS.

Definition effective_batch_items (ema_items : f64) (last_batch_items max_batch : Z) : f64 :=
  if fltb f0 ema_items then ema_items
  else if 0 <? last_batch_items then of_int last_batch_items
  else if 0 <? max_batch then of_int max_batch
  else DEFAULT_BATCH_ITEMS.
