(* ===== verification/Producers.v ===== *)
(** * The producer registry ([ProducerRegistry], [master/src/producers.rs])

    The master's table of producer connections: the state of each producer (idle,
    ready, busy), the backlog it last reported, the consumer its current ASGN is
    for, and the atomic counters of the ready and busy ones.  Every operation is
    one critical section of the table's lock. *)

From S2P Require Import Prelude Float64 Protocol.

(** ** State *)

Inductive ProducerState : Type := Idle | Ready | Busy.

#[export] Instance producer_state_eq_dec : EqDecision ProducerState.
Proof. solve_decision. Defined.

Record ProducerRateSample :=
  { ps_ts_ms : Z; ps_batches : Z; ps_msgs : Z; ps_errors : Z; ps_drops : Z }.

(** [pe_written] is the write half: the frames written to it in full. *)
Record ProducerEntry :=
  { pe_addr : string; pe_connected_at : Z; pe_state : ProducerState;
    pe_pending_messages : Z; pe_pending_bytes : Z; pe_ring_messages : Z; pe_ring_bytes : Z;
    pe_hb_drops : Z; pe_rate_batches : Z; pe_rate_msgs : Z; pe_rate_errors : Z; pe_rate_drops : Z;
    pe_rate_sample : ProducerRateSample;
    pe_batches_per_sec : f64; pe_msgs_per_sec : f64; pe_errors_per_sec : f64; pe_drops_per_sec : f64;
    pe_pending_consumer_id : option Z; pe_busy_since_ms : Z; pe_prdy_pending : bool;
    pe_written : list (list byte) }.

Definition STALE_BUSY_MS : Z := 15000.

Record ProducerRegistry :=
  { pr_next_id : Z; pr_ready_count : Z; pr_busy_count : Z; pr_inner : gmap Z ProducerEntry }.

Record ProducerBacklogTotals :=
  { bt_pending_messages : Z; bt_pending_bytes : Z; bt_ring_messages : Z; bt_ring_bytes : Z;
    bt_drops_total : Z }.

Definition backlog_messages (t : ProducerBacklogTotals) : Z :=
  wrap 64 (bt_pending_messages t + bt_ring_messages t).
Definition backlog_bytes (t : ProducerBacklogTotals) : Z :=
  wrap 64 (bt_pending_bytes t + bt_ring_bytes t).

Definition new : ProducerRegistry :=
  {| pr_next_id := 1; pr_ready_count := 0; pr_busy_count := 0; pr_inner := ∅ |}.

(** ** Operations *)

Definition ready_count (r : ProducerRegistry) : Z := pr_ready_count r.
Definition busy_count (r : ProducerRegistry) : Z := pr_busy_count r.

(** The [fetch_sub]s and [fetch_add]s on the two counters. *)
Definition uncount (s : ProducerState) (r : ProducerRegistry) : ProducerRegistry :=
  match s with
  | Ready => {| r with pr_ready_count := wrap 64 (pr_ready_count r - 1) |}
  | Busy => {| r with pr_busy_count := wrap 64 (pr_busy_count r - 1) |}
  | Idle => r
  end.

Definition recount (s : ProducerState) (r : ProducerRegistry) : ProducerRegistry :=
  match s with
  | Ready => {| r with pr_ready_count := wrap 64 (pr_ready_count r + 1) |}
  | Busy => {| r with pr_busy_count := wrap 64 (pr_busy_count r + 1) |}
  | Idle => r
  end.

Definition transition_entry (new : ProducerState) (e : ProducerEntry) (r : ProducerRegistry) :
    ProducerEntry * ProducerRegistry :=
  if decide (pe_state e = new) then (e, r)
  else ({| e with pe_state := new |}, recount new (uncount (pe_state e) r)).

Definition release_busy_entry (e : ProducerEntry) (r : ProducerRegistry) :
    ProducerEntry * ProducerRegistry :=
  let '(e, r) := transition_entry Idle e r in
  ({| e with pe_pending_consumer_id := None; pe_busy_since_ms := 0 |}, r).

(** [if let Some(e) = inner.get_mut(&id) { ... }] *)
Definition with_entry (id : Z) (f : ProducerEntry -> ProducerRegistry -> ProducerEntry * ProducerRegistry)
    (r : ProducerRegistry) : ProducerRegistry :=
  match pr_inner r !! id with
  | Some e => let '(e', r') := f e r in {| r' with pr_inner := <[id := e']> (pr_inner r') |}
  | None => r
  end.

Definition new_entry (addr : string) (now_secs : Z) : ProducerEntry :=
  {| pe_addr := addr; pe_connected_at := now_secs; pe_state := Idle;
     pe_pending_messages := 0; pe_pending_bytes := 0; pe_ring_messages := 0; pe_ring_bytes := 0;
     pe_hb_drops := 0; pe_rate_batches := 0; pe_rate_msgs := 0; pe_rate_errors := 0; pe_rate_drops := 0;
     pe_rate_sample := {| ps_ts_ms := 0; ps_batches := 0; ps_msgs := 0; ps_errors := 0; ps_drops := 0 |};
     pe_batches_per_sec := f0; pe_msgs_per_sec := f0; pe_errors_per_sec := f0; pe_drops_per_sec := f0;
     pe_pending_consumer_id := None; pe_busy_since_ms := 0; pe_prdy_pending := false; pe_written := [] |}.

Definition register (addr : string) (now_secs : Z) (r : ProducerRegistry) : Z * ProducerRegistry :=
  let id := pr_next_id r in
  (id, {| r with pr_next_id := wrap 64 (id + 1); pr_inner := <[id := new_entry addr now_secs]> (pr_inner r) |}).

Definition remove (id : Z) (r : ProducerRegistry) : ProducerRegistry :=
  match pr_inner r !! id with
  | Some e => uncount (pe_state e) {| r with pr_inner := delete id (pr_inner r) |}
  | None => r
  end.

Definition set_state (id : Z) (s : ProducerState) (r : ProducerRegistry) : ProducerRegistry :=
  with_entry id (transition_entry s) r.

Definition state_of (id : Z) (r : ProducerRegistry) : option ProducerState :=
  pe_state <$> pr_inner r !! id.

Definition entry_has_backlog (e : ProducerEntry) : bool :=
  pe_prdy_pending e || (0 <? pe_ring_messages e).

(** The sums are of 32-bit numbers in 64 bits: they do not overflow. *)
Definition entry_backlog_weight (e : ProducerEntry) : Z * Z :=
  let msgs := pe_pending_messages e + pe_ring_messages e in
  let bytes := pe_pending_bytes e + pe_ring_bytes e in
  let msgs := if (msgs =? 0) && pe_prdy_pending e then 1 else msgs in
  (msgs, bytes).

Definition has_backlog (id : Z) (r : ProducerRegistry) : bool :=
  match pr_inner r !! id with Some e => entry_has_backlog e | None => false end.

Definition backlog_weight (id : Z) (r : ProducerRegistry) : Z * Z :=
  match pr_inner r !! id with Some e => entry_backlog_weight e | None => (0, 0) end.

(** What ranking and reconciliation do with a producer that has no backlog. *)
Definition drop_ready (e : ProducerEntry) (r : ProducerRegistry) : ProducerEntry * ProducerRegistry :=
  let e := {| e with pe_prdy_pending := false |} in
  if decide (pe_state e = Ready) then transition_entry Idle e r else (e, r).

(** The locals of the ranking loop. *)
Record Ranking :=
  { rk_reg : ProducerRegistry; rk_best_msgs : Z; rk_best_bytes : Z; rk_tier : list Z; rk_stale : list Z }.

Definition rank_step (k : Ranking) (id : Z) : Ranking :=
  match pr_inner (rk_reg k) !! id with
  | None => {| k with rk_stale := rk_stale k ++ [id] |}
  | Some e =>
    if negb (entry_has_backlog e)
    then {| k with rk_stale := rk_stale k ++ [id]; rk_reg := with_entry id drop_ready (rk_reg k) |}
    else
      let '(msgs, bytes) := entry_backlog_weight e in
      if (rk_best_msgs k <? msgs) || ((msgs =? rk_best_msgs k) && (rk_best_bytes k <? bytes))
      then {| k with rk_best_msgs := msgs; rk_best_bytes := bytes; rk_tier := [id] |}
      else if (msgs =? rk_best_msgs k) && (bytes =? rk_best_bytes k)
      then {| k with rk_tier := rk_tier k ++ [id] |}
      else k
  end.

Definition rank_loop (candidates : list Z) (r : ProducerRegistry) : Ranking :=
  foldl rank_step {| rk_reg := r; rk_best_msgs := 0; rk_best_bytes := 0; rk_tier := []; rk_stale := [] |}
    candidates.

Definition sort_unstable (l : list Z) : list Z := merge_sort Z.le l.

(** The pick among the ties, and the round-robin counter after it. *)
Definition pick_tier (tier : list Z) (producer_rr : nat) : option Z * nat :=
  match tier with
  | [] => (None, producer_rr)
  | [id] => (Some id, producer_rr)
  | _ :: _ :: _ =>
    let tier := sort_unstable tier in
    (tier !! (producer_rr `mod` length tier)%nat,
     ((producer_rr + 1) `mod` Nat.max (length tier) 1)%nat)
  end.

(** The best candidate, the stale ones, the counter and the table after it. *)
Definition rank_ready_candidates (candidates : list Z) (producer_rr : nat) (r : ProducerRegistry) :
    option Z * list Z * nat * ProducerRegistry :=
  let k := rank_loop candidates r in
  let '(best, producer_rr) := pick_tier (rk_tier k) producer_rr in
  (best, rk_stale k, producer_rr, rk_reg k).

(** First loop of [sync_matcher_ready_state]: over the pool. *)
Definition sync_pool_step (s : ProducerRegistry * gset Z) (id : Z) : ProducerRegistry * gset Z :=
  let '(r, rem) := s in
  match pr_inner r !! id with
  | None => (r, {[id]} ∪ rem)
  | Some e =>
    if negb (entry_has_backlog e) then (with_entry id drop_ready r, {[id]} ∪ rem) else (r, rem)
  end.

(** Second loop: over the table. *)
Definition sync_entry_step (s : ProducerRegistry * gset Z) (id : Z) : ProducerRegistry * gset Z :=
  let '(r, add) := s in
  match pr_inner r !! id with
  | None => (r, add)
  | Some e =>
    if negb (entry_has_backlog e) then (r, add)
    else if decide (pe_state e = Idle)
    then (with_entry id (fun e r => transition_entry Ready {| e with pe_prdy_pending := true |} r) r,
          {[id]} ∪ add)
    else if decide (pe_state e = Ready) then (r, {[id]} ∪ add) else (r, add)
  end.

Definition ids (r : ProducerRegistry) : list Z := (map_to_list (pr_inner r)).*1.

(** The ids to add to the pool, those to remove, and the table. *)
Definition sync_matcher_ready_state (current : gset Z) (r : ProducerRegistry) :
    gset Z * gset Z * ProducerRegistry :=
  let '(r, rem) := foldl sync_pool_step (r, ∅) (elements current) in
  let '(r, add) := foldl sync_entry_step (r, ∅) (ids r) in
  (add, rem, r).

Definition mark_prdy (id : Z) (r : ProducerRegistry) : ProducerRegistry :=
  with_entry id (fun e r => ({| e with pe_prdy_pending := true |}, r)) r.

Definition clear_stale_ready (id : Z) (r : ProducerRegistry) : ProducerRegistry :=
  with_entry id (fun e r => transition_entry Idle {| e with pe_prdy_pending := false |} r) r.

(** [io] is what [write_all] and [flush] answer. *)
Definition send_assign (io : result string unit) (id : Z) (frame : list byte) (r : ProducerRegistry) :
    result string unit * ProducerRegistry :=
  match pr_inner r !! id with
  | None => (Err "producer gone"%string, r)
  | Some e =>
    match io with
    | Ok _ => (Ok tt, with_entry id (fun e r => ({| e with pe_written := pe_written e ++ [frame] |}, r)) r)
    | Err msg => (Err msg, r)
    end
  end.

Definition mark_assigned (id consumer_id now_ms : Z) (r : ProducerRegistry) : ProducerRegistry :=
  with_entry id (fun e r =>
    let '(e, r) := transition_entry Busy e r in
    ({| e with pe_pending_consumer_id := Some consumer_id; pe_busy_since_ms := now_ms |}, r)) r.

Definition clear_stale_busy (id : Z) (r : ProducerRegistry) : bool * ProducerRegistry :=
  match pr_inner r !! id with
  | None => (false, r)
  | Some e =>
    if decide (pe_state e = Busy) then (true, with_entry id release_busy_entry r) else (false, r)
  end.

Definition clear_assign_step (consumer_id : Z) (s : nat * ProducerRegistry) (id : Z) :
    nat * ProducerRegistry :=
  let '(cleared, r) := s in
  match pr_inner r !! id with
  | Some e =>
    if decide (pe_pending_consumer_id e = Some consumer_id)
    then (S cleared, with_entry id release_busy_entry r) else (cleared, r)
  | None => (cleared, r)
  end.

Definition clear_assignments_to_consumer (consumer_id : Z) (r : ProducerRegistry) : nat * ProducerRegistry :=
  foldl (clear_assign_step consumer_id) (0%nat, r) (ids r).

Definition take_pending_consumer (id : Z) (r : ProducerRegistry) : option Z * ProducerRegistry :=
  match pr_inner r !! id with
  | Some e => (pe_pending_consumer_id e,
               with_entry id (fun e r => ({| e with pe_pending_consumer_id := None |}, r)) r)
  | None => (None, r)
  end.

(** The fields [record_heartbeat] stores whatever the state. *)
Definition store_heartbeat (hb : ProducerHeartbeat) (e : ProducerEntry) : ProducerEntry :=
  {| e with
     pe_pending_messages := hb_pending_messages hb; pe_pending_bytes := hb_pending_bytes hb;
     pe_ring_messages := hb_ring_messages hb; pe_ring_bytes := hb_ring_bytes hb;
     pe_rate_drops := if pe_hb_drops e <=? hb_drops_total hb
                      then wrap 64 (pe_rate_drops e + (hb_drops_total hb - pe_hb_drops e))
                      else pe_rate_drops e;
     pe_hb_drops := hb_drops_total hb |}.

Definition promote_ready (e : ProducerEntry) (r : ProducerRegistry) : ProducerEntry * ProducerRegistry :=
  transition_entry Ready {| e with pe_prdy_pending := true |} r.

(** The body of [record_heartbeat] on the entry; the flag is [rematch]. *)
Definition heartbeat_entry (now : Z) (hb : ProducerHeartbeat) (e : ProducerEntry) (r : ProducerRegistry) :
    bool * (ProducerEntry * ProducerRegistry) :=
  let hb_ring_backlog := 0 <? hb_ring_messages hb in
  let hb_any_backlog := hb_ring_backlog || (0 <? hb_pending_messages hb) in
  let e := store_heartbeat hb e in
  if decide (pe_state e = Busy) then
    let timed_out := (0 <? pe_busy_since_ms e) && (STALE_BUSY_MS <=? sat_sub now (pe_busy_since_ms e)) in
    if hb_ring_backlog || timed_out then
      let '(e, r) := release_busy_entry e r in
      if hb_ring_backlog then (true, promote_ready e r) else (false, (e, r))
    else (false, (e, r))
  else if bool_decide (pe_state e = Idle) && hb_ring_backlog then (true, promote_ready e r)
  else if negb hb_any_backlog then (false, ({| e with pe_prdy_pending := false |}, r))
  else (false, (e, r)).

Definition record_heartbeat (now id : Z) (hb : ProducerHeartbeat) (r : ProducerRegistry) :
    bool * ProducerRegistry :=
  match pr_inner r !! id with
  | Some e => ((heartbeat_entry now hb e r).1, with_entry id (fun e r => (heartbeat_entry now hb e r).2) r)
  | None => (false, r)
  end.

Definition add_backlog (out : ProducerBacklogTotals) (e : ProducerEntry) : ProducerBacklogTotals :=
  {| bt_pending_messages := wrap 64 (bt_pending_messages out + pe_pending_messages e);
     bt_pending_bytes := wrap 64 (bt_pending_bytes out + pe_pending_bytes e);
     bt_ring_messages := wrap 64 (bt_ring_messages out + pe_ring_messages e);
     bt_ring_bytes := wrap 64 (bt_ring_bytes out + pe_ring_bytes e);
     bt_drops_total := sat_add 64 (bt_drops_total out) (pe_hb_drops e) |}.

Definition backlog_totals (r : ProducerRegistry) : ProducerBacklogTotals :=
  foldl add_backlog (Build_ProducerBacklogTotals 0 0 0 0 0) (map_to_list (pr_inner r)).*2.

(** What a report does to the entry: both release the producer. *)
Definition delivered (msg_count : Z) (e : ProducerEntry) (r : ProducerRegistry) : ProducerEntry * ProducerRegistry :=
  let e := {| e with pe_rate_batches := wrap 64 (pe_rate_batches e + 1);
                     pe_rate_msgs := wrap 64 (pe_rate_msgs e + msg_count) |} in
  let '(e, r) := release_busy_entry e r in
  ({| e with pe_prdy_pending := false |}, r).

Definition record_delivery (id msg_count : Z) (r : ProducerRegistry) : ProducerRegistry :=
  with_entry id (delivered msg_count) r.

Definition failed (e : ProducerEntry) (r : ProducerRegistry) : ProducerEntry * ProducerRegistry :=
  let e := {| e with pe_rate_errors := wrap 64 (pe_rate_errors e + 1) |} in
  let '(e, r) := release_busy_entry e r in
  ({| e with pe_prdy_pending := false |}, r).

Definition record_failure (id : Z) (r : ProducerRegistry) : ProducerRegistry := with_entry id failed r.

(** *** The dashboard rows *)

Record ProducerRow :=
  { row_id : Z; row_addr : string; row_state : string; row_pending_messages : Z; row_pending_bytes : Z;
    row_ring_messages : Z; row_ring_bytes : Z; row_batches_per_sec : f64; row_msgs_per_sec : f64;
    row_errors_per_sec : f64; row_drops_per_sec : f64; row_connected_secs : Z;
    row_assigned_consumer_id : option Z }.

Definition per_sec (now before : Z) (dt : f64) : f64 := fdiv (of_int (sat_sub now before)) dt.

Definition refresh_producer_rates (now_ms : Z) (e : ProducerEntry) : ProducerEntry :=
  let prev := pe_rate_sample e in
  let dt := fdiv (of_int (now_ms - ps_ts_ms prev)) (of_int 1000) in
  let e :=
    if (0 <? ps_ts_ms prev) && (ps_ts_ms prev <? now_ms) && fltb f0 dt then
      {| e with
         pe_batches_per_sec := per_sec (pe_rate_batches e) (ps_batches prev) dt;
         pe_msgs_per_sec := per_sec (pe_rate_msgs e) (ps_msgs prev) dt;
         pe_errors_per_sec := per_sec (pe_rate_errors e) (ps_errors prev) dt;
         pe_drops_per_sec := per_sec (pe_rate_drops e) (ps_drops prev) dt |}
    else e in
  {| e with pe_rate_sample :=
       {| ps_ts_ms := now_ms; ps_batches := pe_rate_batches e; ps_msgs := pe_rate_msgs e;
          ps_errors := pe_rate_errors e; ps_drops := pe_rate_drops e |} |}.

Definition producer_state_str (s : ProducerState) : string :=
  match s with Idle => "idle" | Ready => "ready" | Busy => "busy" end.

Definition producer_row (now_secs : Z) (id : Z) (e : ProducerEntry) : ProducerRow :=
  {| row_id := id; row_addr := pe_addr e; row_state := producer_state_str (pe_state e);
     row_pending_messages := pe_pending_messages e; row_pending_bytes := pe_pending_bytes e;
     row_ring_messages := pe_ring_messages e; row_ring_bytes := pe_ring_bytes e;
     row_batches_per_sec := pe_batches_per_sec e; row_msgs_per_sec := pe_msgs_per_sec e;
     row_errors_per_sec := pe_errors_per_sec e; row_drops_per_sec := pe_drops_per_sec e;
     row_connected_secs := sat_sub now_secs (pe_connected_at e);
     row_assigned_consumer_id := if decide (pe_state e = Busy) then pe_pending_consumer_id e else None |}.

Definition row_le (a b : ProducerRow) : Prop := row_id a <= row_id b.

#[export] Instance row_le_dec : RelDecision row_le.
Proof. intros a b. unfold row_le. apply _. Defined.

Definition list_rows (now_secs now_ms : Z) (r : ProducerRegistry) : list ProducerRow * ProducerRegistry :=
  let r := {| r with pr_inner := refresh_producer_rates now_ms <$> pr_inner r |} in
  (merge_sort row_le ((fun kv => producer_row now_secs kv.1 kv.2) <$> map_to_list (pr_inner r)), r).

(** ** The counter invariant *)

Definition in_state (s : ProducerState) (e : ProducerEntry) : Z :=
  if decide (pe_state e = s) then 1 else 0.

(** How many entries of the table are in state [s]. *)
Definition count (s : ProducerState) (m : gmap Z ProducerEntry) : Z :=
  Z.of_nat (size (filter (fun kv => pe_state kv.2 = s) m)).

(** Each counter is the number of entries in its state, modulo 2^64. *)
Definition counts_ok (r : ProducerRegistry) : Prop :=
  pr_ready_count r = wrap 64 (count Ready (pr_inner r)) /\
  pr_busy_count r = wrap 64 (count Busy (pr_inner r)).

Lemma count_insert_new s m id e :
  m !! id = None -> count s (<[id := e]> m) = count s m + in_state s e.
Proof.
  intros Hnone. unfold count, in_state. destruct (decide (pe_state e = s)) as [He|He].
  - rewrite map_filter_insert_True by done.
    rewrite map_size_insert_None; [lia|]. apply map_lookup_filter_None. by left.
  - rewrite map_filter_insert_not'; [lia|done|]. intros y Hy. congruence.
Qed.

Lemma count_delete s m id e :
  m !! id = Some e -> count s (delete id m) = count s m - in_state s e.
Proof.
  intros He. rewrite <- (insert_delete_id m id e He) at 2.
  rewrite count_insert_new by apply lookup_delete_eq. lia.
Qed.

Lemma count_insert s m id e e' :
  m !! id = Some e -> count s (<[id := e']> m) = count s m - in_state s e + in_state s e'.
Proof.
  intros He. rewrite <- insert_delete_eq, count_insert_new by apply lookup_delete_eq.
  by rewrite (count_delete _ _ _ _ He).
Qed.

Lemma wrap_add w a b : wrap w (wrap w a + b) = wrap w (a + b).
Proof. unfold wrap. apply Zplus_mod_idemp_l. Qed.

Lemma wrap_sub w a b : wrap w (wrap w a - b) = wrap w (a - b).
Proof. unfold wrap. apply Zminus_mod_idemp_l. Qed.

(** An update of one entry that moves the counters with the entry's state. *)
Definition moves_counts (f : ProducerEntry -> ProducerRegistry -> ProducerEntry * ProducerRegistry) : Prop :=
  forall e r, let '(e', r') := f e r in
    pr_inner r' = pr_inner r /\ pr_next_id r' = pr_next_id r /\
    forall x y, pr_ready_count r = wrap 64 x -> pr_busy_count r = wrap 64 y ->
      pr_ready_count r' = wrap 64 (x - in_state Ready e + in_state Ready e') /\
      pr_busy_count r' = wrap 64 (y - in_state Busy e + in_state Busy e').

Lemma transition_moves s f :
  (forall e, pe_state (f e) = pe_state e) -> moves_counts (fun e r => transition_entry s (f e) r).
Proof.
  intros Hf e r. unfold transition_entry. rewrite Hf.
  destruct (decide (pe_state e = s)) as [He|He].
  - split_and!; [done|done|]. intros x y -> ->. unfold in_state. rewrite Hf.
    split; f_equal; lia.
  - unfold in_state, uncount, recount. cbn [pe_state].
    destruct (pe_state e), s; try done; cbn [pr_inner pr_next_id pr_ready_count pr_busy_count];
      (split_and!; [done|done|]); intros x y -> ->; repeat case_decide; try done;
      rewrite ?wrap_sub, ?wrap_add; split; f_equal; lia.
Qed.

Lemma moves_then f g :
  moves_counts f -> (forall e, pe_state (g e) = pe_state e) ->
  moves_counts (fun e r => let '(e, r) := f e r in (g e, r)).
Proof.
  intros Hf Hg e r. specialize (Hf e r). destruct (f e r) as [e1 r1].
  unfold in_state in *. by rewrite Hg.
Qed.

Lemma moves_keep g : (forall e, pe_state (g e) = pe_state e) -> moves_counts (fun e r => (g e, r)).
Proof.
  intros Hg e r. split_and!; [done|done|]. unfold in_state. rewrite Hg. intros x y -> ->.
  split; f_equal; lia.
Qed.

Lemma release_moves f :
  (forall e, pe_state (f e) = pe_state e) -> moves_counts (fun e r => release_busy_entry (f e) r).
Proof. intros Hf. unfold release_busy_entry. apply moves_then; [by apply transition_moves|done]. Qed.

Lemma drop_ready_moves : moves_counts drop_ready.
Proof.
  intros e r. unfold drop_ready. cbn [pe_state]. destruct (decide (pe_state e = Ready)).
  - apply (transition_moves Idle (fun e => {| e with pe_prdy_pending := false |})). done.
  - apply (moves_keep (fun e => {| e with pe_prdy_pending := false |})). done.
Qed.

Lemma promote_moves : moves_counts promote_ready.
Proof. apply (transition_moves Ready (fun e => {| e with pe_prdy_pending := true |})). done. Qed.

Lemma moves_comp f g : moves_counts f -> moves_counts g ->
  moves_counts (fun e r => let '(e, r) := f e r in g e r).
Proof.
  intros Hf Hg e r. specialize (Hf e r). destruct (f e r) as [e1 r1]. destruct Hf as (H1 & H2 & H3).
  specialize (Hg e1 r1). destruct (g e1 r1) as [e2 r2]. destruct Hg as (H4 & H5 & H6).
  split_and!; [congruence|congruence|]. intros x y Hx Hy. destruct (H3 x y Hx Hy) as [Hx1 Hy1].
  destruct (H6 _ _ Hx1 Hy1) as [-> ->]. split; f_equal; lia.
Qed.

Lemma heartbeat_moves now hb : moves_counts (fun e r => (heartbeat_entry now hb e r).2).
Proof.
  intros e r. unfold heartbeat_entry.
  destruct (decide (pe_state (store_heartbeat hb e) = Busy)).
  - destruct (_ || _).
    2: { apply (moves_keep (store_heartbeat hb)). done. }
    destruct (0 <? hb_ring_messages hb).
    + pose proof (moves_comp _ _ (release_moves (store_heartbeat hb) ltac:(done)) promote_moves e r) as H.
      cbn beta in H. by destruct (release_busy_entry (store_heartbeat hb e) r).
    + pose proof (release_moves (store_heartbeat hb) ltac:(done) e r) as H.
      by destruct (release_busy_entry (store_heartbeat hb e) r).
  - destruct (bool_decide _ && _).
    + apply (transition_moves Ready (fun e => let e := store_heartbeat hb e in {| e with pe_prdy_pending := true |})). done.
    + destruct (negb _).
      * apply (moves_keep (fun e => let e := store_heartbeat hb e in {| e with pe_prdy_pending := false |})). done.
      * apply (moves_keep (store_heartbeat hb)). done.
Qed.

Lemma with_entry_counts id f r : moves_counts f -> counts_ok r -> counts_ok (with_entry id f r).
Proof.
  intros Hf [Hr Hb]. unfold with_entry. destruct (pr_inner r !! id) as [e|] eqn:He; [|done].
  specialize (Hf e r). destruct (f e r) as [e' r']. destruct Hf as (Hi & _ & Hc).
  destruct (Hc _ _ Hr Hb) as [Hr' Hb']. unfold counts_ok. cbn [pr_ready_count pr_busy_count pr_inner].
  by rewrite Hi, !(count_insert _ _ _ _ _ He).
Qed.

(** The table: counters that agree with the entries, and ids below the next one. *)
Record registry_ok (r : ProducerRegistry) : Prop :=
  { ro_counts : counts_ok r;
    ro_ids : forall id, is_Some (pr_inner r !! id) -> 1 <= id < pr_next_id r;
    ro_next : 1 <= pr_next_id r <= umax 64 }.

Lemma with_entry_inner id f r :
  moves_counts f ->
  pr_next_id (with_entry id f r) = pr_next_id r /\
  pr_inner (with_entry id f r) =
    match pr_inner r !! id with
    | Some e => <[id := (f e r).1]> (pr_inner r)
    | None => pr_inner r
    end.
Proof.
  intros Hf. unfold with_entry. destruct (pr_inner r !! id) as [e|]; [|done].
  specialize (Hf e r). destruct (f e r) as [e' r']. destruct Hf as (Hi & Hn & _).
  cbn [pr_next_id pr_inner fst]. by rewrite Hi.
Qed.

Lemma with_entry_dom id f r : moves_counts f -> dom (pr_inner (with_entry id f r)) = dom (pr_inner r).
Proof.
  intros Hf. destruct (with_entry_inner id f r Hf) as [_ ->].
  destruct (pr_inner r !! id) as [e|] eqn:He; [|done].
  rewrite dom_insert_L. apply elem_of_dom_2 in He. set_solver.
Qed.

Lemma with_entry_ok id f r : moves_counts f -> registry_ok r -> registry_ok (with_entry id f r).
Proof.
  intros Hf [Hc Hi Hn]. destruct (with_entry_inner id f r Hf) as [Hnext _].
  constructor; [by apply with_entry_counts| |by rewrite Hnext].
  intros j Hj. rewrite Hnext. apply Hi. apply elem_of_dom in Hj.
  rewrite with_entry_dom in Hj by done. by apply elem_of_dom in Hj.
Qed.

Lemma foldl_ok {A} (step : ProducerRegistry * A -> Z -> ProducerRegistry * A) l s :
  (forall s id, registry_ok s.1 -> registry_ok (step s id).1) ->
  registry_ok s.1 -> registry_ok (foldl step s l).1.
Proof. intros Hstep. revert s. induction l as [|id l IH]; intros s Hs; [done|]. cbn. auto. Qed.

Lemma rank_step_ok k id : registry_ok (rk_reg k) -> registry_ok (rk_reg (rank_step k id)).
Proof.
  intros Hok. unfold rank_step. destruct (pr_inner (rk_reg k) !! id) as [e|]; [|done].
  destruct (negb _); [by apply with_entry_ok; [apply drop_ready_moves|]|].
  destruct (entry_backlog_weight e) as [m b]. destruct (_ || _); [done|]. by destruct (_ && _).
Qed.

Lemma rank_loop_ok candidates k :
  registry_ok (rk_reg k) -> registry_ok (rk_reg (foldl rank_step k candidates)).
Proof.
  revert k. induction candidates as [|id l IH]; intros k Hk; [done|]. cbn. by apply IH, rank_step_ok.
Qed.

Lemma set_state_ok id s r : registry_ok r -> registry_ok (set_state id s r).
Proof. apply with_entry_ok. by apply (transition_moves s (fun e => e)). Qed.

Lemma remove_ok id r : registry_ok r -> registry_ok (remove id r).
Proof.
  intros [[Hr Hb] Hi Hn]. unfold remove. destruct (pr_inner r !! id) as [e|] eqn:He; [|by constructor].
  assert (Hids : forall j, is_Some (delete id (pr_inner r) !! j) -> 1 <= j < pr_next_id r).
  { intros j [x Hx]. apply Hi. exists x. by apply lookup_delete_Some in Hx as [_ ?]. }
  assert (Hcount : forall s, count s (delete id (pr_inner r)) = count s (pr_inner r) - in_state s e)
    by (intros s; by apply count_delete).
  unfold uncount, in_state in *. destruct (pe_state e) eqn:Hst;
    constructor; cbn [pr_inner pr_next_id]; try done; unfold counts_ok;
    cbn [pr_inner pr_ready_count pr_busy_count]; rewrite !Hcount, ?Hst; repeat case_decide; try done;
    rewrite ?Hr, ?Hb, ?wrap_sub, ?Z.sub_0_r; done.
Qed.

Lemma register_ok addr now r :
  registry_ok r -> pr_next_id r < umax 64 -> registry_ok (register addr now r).2.
Proof.
  intros [[Hr Hb] Hi Hn] Hlt. unfold register. cbn [snd].
  assert (pr_inner r !! pr_next_id r = None) as Hnone.
  { destruct (pr_inner r !! pr_next_id r) eqn:He; [|done].
    specialize (Hi (pr_next_id r) ltac:(eauto)). lia. }
  assert (Hnext : wrap 64 (pr_next_id r + 1) = pr_next_id r + 1).
  { apply wrap_small. unfold in_u. lia. }
  constructor; cbn [pr_next_id pr_inner].
  - unfold counts_ok. cbn [pr_ready_count pr_busy_count pr_inner].
    rewrite !count_insert_new by done. change (in_state _ (new_entry addr now)) with 0.
    by rewrite !Z.add_0_r.
  - intros j Hj. rewrite Hnext. destruct (decide (j = pr_next_id r)) as [->|Hne]; [lia|].
    rewrite lookup_insert_ne in Hj by done. specialize (Hi j Hj). lia.
  - rewrite Hnext. lia.
Qed.

Lemma new_ok : registry_ok new.
Proof.
  constructor; [done| |unfold umax; cbn; lia]. intros id [x Hx]. cbn in Hx. by rewrite lookup_empty in Hx.
Qed.

Lemma sync_pool_step_ok s id : registry_ok s.1 -> registry_ok (sync_pool_step s id).1.
Proof.
  destruct s as [r rem]. intros Hok. cbn [fst] in Hok. unfold sync_pool_step.
  destruct (pr_inner r !! id) as [e|]; [|done]. destruct (negb _); [|done].
  cbn [fst]. apply with_entry_ok; [apply drop_ready_moves|done].
Qed.

Lemma sync_entry_step_ok s id : registry_ok s.1 -> registry_ok (sync_entry_step s id).1.
Proof.
  destruct s as [r add]. intros Hok. cbn [fst] in Hok. unfold sync_entry_step.
  destruct (pr_inner r !! id) as [e|]; [|done]. destruct (negb _); [done|].
  repeat case_decide; try done. cbn [fst]. apply with_entry_ok; [apply promote_moves|done].
Qed.

Lemma sync_ok current r :
  registry_ok r -> registry_ok (sync_matcher_ready_state current r).2.
Proof.
  intros Hok. unfold sync_matcher_ready_state.
  pose proof (foldl_ok sync_pool_step (elements current) (r, ∅) sync_pool_step_ok Hok) as H1.
  destruct (foldl sync_pool_step _ _) as [r1 rem]. cbn [fst] in H1.
  pose proof (foldl_ok sync_entry_step (ids r1) (r1, ∅) sync_entry_step_ok H1) as H2.
  by destruct (foldl sync_entry_step _ _) as [r2 add].
Qed.

Lemma mark_assigned_ok id cid now r : registry_ok r -> registry_ok (mark_assigned id cid now r).
Proof.
  apply with_entry_ok.
  apply (moves_then (fun e r => transition_entry Busy e r)
           (fun e => {| e with pe_pending_consumer_id := Some cid; pe_busy_since_ms := now |})); [|done].
  apply (transition_moves Busy (fun e => e)). done.
Qed.

Lemma clear_stale_busy_ok id r : registry_ok r -> registry_ok (clear_stale_busy id r).2.
Proof.
  intros Hok. unfold clear_stale_busy. destruct (pr_inner r !! id); [|done]. case_decide; [|done].
  apply with_entry_ok; [by apply (release_moves (fun e => e))|done].
Qed.

Lemma clear_assignments_ok cid r :
  registry_ok r -> registry_ok (clear_assignments_to_consumer cid r).2.
Proof.
  intros Hok. unfold clear_assignments_to_consumer.
  assert (H : forall l n r, registry_ok r -> registry_ok (foldl (clear_assign_step cid) (n, r) l).2); [|by apply H].
  clear r Hok. induction l as [|id l IH]; intros n r Hok; [done|]. cbn [foldl clear_assign_step].
  destruct (pr_inner r !! id); [|by apply IH]. case_decide; [|by apply IH]. apply IH.
  apply with_entry_ok; [by apply (release_moves (fun e => e))|done].
Qed.

Lemma take_pending_ok id r : registry_ok r -> registry_ok (take_pending_consumer id r).2.
Proof.
  intros Hok. unfold take_pending_consumer. destruct (pr_inner r !! id); [|done].
  apply with_entry_ok; [by apply (moves_keep (fun e => {| e with pe_pending_consumer_id := None |}))|done].
Qed.

Lemma record_heartbeat_ok now id hb r : registry_ok r -> registry_ok (record_heartbeat now id hb r).2.
Proof.
  intros Hok. unfold record_heartbeat. destruct (pr_inner r !! id); [|done].
  apply with_entry_ok; [apply heartbeat_moves|done].
Qed.

Lemma delivered_moves n : moves_counts (delivered n).
Proof.
  apply (moves_then (fun e r => release_busy_entry
           {| e with pe_rate_batches := wrap 64 (pe_rate_batches e + 1);
                     pe_rate_msgs := wrap 64 (pe_rate_msgs e + n) |} r)
           (fun e => {| e with pe_prdy_pending := false |})); [|done].
  apply (release_moves (fun e => {| e with pe_rate_batches := wrap 64 (pe_rate_batches e + 1);
                     pe_rate_msgs := wrap 64 (pe_rate_msgs e + n) |})). done.
Qed.

Lemma failed_moves : moves_counts failed.
Proof.
  apply (moves_then (fun e r => release_busy_entry
           {| e with pe_rate_errors := wrap 64 (pe_rate_errors e + 1) |} r)
           (fun e => {| e with pe_prdy_pending := false |})); [|done].
  apply (release_moves (fun e => {| e with pe_rate_errors := wrap 64 (pe_rate_errors e + 1) |})). done.
Qed.

Lemma record_delivery_ok id n r : registry_ok r -> registry_ok (record_delivery id n r).
Proof. apply with_entry_ok, delivered_moves. Qed.

Lemma record_failure_ok id r : registry_ok r -> registry_ok (record_failure id r).
Proof. apply with_entry_ok, failed_moves. Qed.

Lemma mark_prdy_ok id r : registry_ok r -> registry_ok (mark_prdy id r).
Proof. apply with_entry_ok. by apply (moves_keep (fun e => {| e with pe_prdy_pending := true |})). Qed.

Lemma send_assign_ok io id frame r : registry_ok r -> registry_ok (send_assign io id frame r).2.
Proof.
  intros Hok. unfold send_assign. destruct (pr_inner r !! id); [|done]. destruct io; [|done].
  apply with_entry_ok; [by apply (moves_keep (fun e => {| e with pe_written := pe_written e ++ [frame] |}))|done].
Qed.

Lemma rank_ready_ok candidates rr r :
  registry_ok r -> registry_ok (rank_ready_candidates candidates rr r).2.
Proof.
  intros Hok. unfold rank_ready_candidates. destruct (pick_tier _ _). cbn [snd].
  by apply rank_loop_ok.
Qed.

Lemma clear_stale_ready_ok id r : registry_ok r -> registry_ok (clear_stale_ready id r).
Proof. apply with_entry_ok. by apply (transition_moves Idle (fun e => {| e with pe_prdy_pending := false |})). Qed.

Lemma list_rows_ok now_secs now_ms r : registry_ok r -> registry_ok (list_rows now_secs now_ms r).2.
Proof.
  intros [[Hr Hb] Hi Hn]. unfold list_rows. cbn [snd].
  assert (Hst : forall e, pe_state (refresh_producer_rates now_ms e) = pe_state e)
    by (intros e; unfold refresh_producer_rates; by destruct (_ && _)).
  assert (Hcount : forall s, count s (refresh_producer_rates now_ms <$> pr_inner r) = count s (pr_inner r)).
  { intros s. unfold count. f_equal. rewrite map_filter_fmap, map_size_fmap. f_equal.
    apply map_filter_ext. intros j e _.
    change (pe_state (refresh_producer_rates now_ms e) = s <-> pe_state e = s). by rewrite Hst. }
  constructor; cbn [pr_inner pr_next_id]; [|intros j; rewrite lookup_fmap, fmap_is_Some; apply Hi|done].
  unfold counts_ok. cbn [pr_ready_count pr_busy_count pr_inner]. by rewrite !Hcount.
Qed.

#[export] Hint Resolve set_state_ok remove_ok register_ok new_ok sync_ok mark_assigned_ok clear_stale_busy_ok
  clear_assignments_ok take_pending_ok record_heartbeat_ok record_delivery_ok record_failure_ok
  mark_prdy_ok send_assign_ok rank_ready_ok clear_stale_ready_ok list_rows_ok : cupid.

(** ** Ranking *)

(** The sizes of the last heartbeat are [u32]s. *)
Definition entry_in_range (e : ProducerEntry) : Prop :=
  in_u 32 (pe_pending_messages e) /\ in_u 32 (pe_pending_bytes e) /\
  in_u 32 (pe_ring_messages e) /\ in_u 32 (pe_ring_bytes e).

#[export] Instance entry_in_range_dec e : Decision (entry_in_range e).
Proof. unfold entry_in_range, in_u. apply _. Defined.

Definition in_range (r : ProducerRegistry) : Prop := map_Forall (fun _ e => entry_in_range e) (pr_inner r).

(** Messages first, bytes to break ties. *)
Definition weight_le (w1 w2 : Z * Z) : Prop := w1.1 < w2.1 \/ (w1.1 = w2.1 /\ w1.2 <= w2.2).

#[export] Instance weight_le_dec : RelDecision weight_le.
Proof. intros w1 w2. unfold weight_le. apply _. Defined.

Definition live (r : ProducerRegistry) (id : Z) : Prop := has_backlog id r = true.

(** The live candidates no live candidate outweighs. *)
Definition is_best (r : ProducerRegistry) (candidates : list Z) (id : Z) : Prop :=
  live r id /\
  Forall (fun i => live r i -> weight_le (backlog_weight i r) (backlog_weight id r)) candidates.

#[export] Instance live_dec r id : Decision (live r id).
Proof. unfold live. apply _. Defined.

#[export] Instance is_best_dec r candidates id : Decision (is_best r candidates id).
Proof. unfold is_best. apply _. Defined.

Lemma live_lookup r id :
  live r id -> exists e, pr_inner r !! id = Some e /\ entry_has_backlog e = true.
Proof. unfold live, has_backlog. destruct (pr_inner r !! id) as [e|]; [by exists e|done]. Qed.

Lemma live_weight r id : in_range r -> live r id -> 1 <= (backlog_weight id r).1.
Proof.
  intros Hr Hl. destruct (live_lookup r id Hl) as (e & He & Hb).
  destruct (Hr id e He) as (Hp & _ & Hm & _). unfold backlog_weight. rewrite He.
  unfold entry_backlog_weight, entry_has_backlog, in_u in *. cbn [fst].
  destruct (pe_prdy_pending e); cbn [orb] in Hb.
  - rewrite andb_true_r. destruct (Z.eqb_spec (pe_pending_messages e + pe_ring_messages e) 0); lia.
  - rewrite andb_false_r. apply Z.ltb_lt in Hb. lia.
Qed.

(** Two tables that rank alike: dropping a stale entry keeps this. *)
Definition ranks_alike (r r' : ProducerRegistry) : Prop :=
  (forall j, has_backlog j r' = has_backlog j r) /\
  (forall j, live r j -> pr_inner r' !! j = pr_inner r !! j).

Lemma drop_ready_state e r :
  (drop_ready e r).1 = {| e with pe_prdy_pending := false;
                                 pe_state := if decide (pe_state e = Ready) then Idle else pe_state e |}.
Proof.
  unfold drop_ready, transition_entry. cbn [pe_state].
  destruct (decide (pe_state e = Ready)) as [Hr|Hr].
  - destruct (decide (pe_state e = Idle)); [congruence|done].
  - cbn [fst]. by destruct e.
Qed.

Lemma drop_ready_ranks id e r :
  pr_inner r !! id = Some e -> entry_has_backlog e = false ->
  ranks_alike r (with_entry id drop_ready r).
Proof.
  intros He Hb. destruct (with_entry_inner id drop_ready r drop_ready_moves) as [_ Hi]. rewrite He in Hi.
  unfold ranks_alike, live, has_backlog. rewrite Hi. split; intros j.
  - destruct (decide (j = id)) as [->|Hne]; [|by rewrite lookup_insert_ne].
    rewrite lookup_insert_eq, He, Hb. rewrite drop_ready_state.
    unfold entry_has_backlog in *. cbn [pe_prdy_pending pe_ring_messages].
    by apply orb_false_iff in Hb as [_ ->].
  - destruct (decide (j = id)) as [->|Hne]; [by rewrite He, Hb|by rewrite lookup_insert_ne].
Qed.

Lemma ranks_alike_trans r1 r2 r3 : ranks_alike r1 r2 -> ranks_alike r2 r3 -> ranks_alike r1 r3.
Proof.
  intros [Ha Hb] [Hc Hd]. unfold live in *. split; intros j; [by rewrite Hc|].
  intros Hl. rewrite Hd; [by apply Hb|by rewrite Ha].
Qed.

(** What the loop knows after the candidates [pre]. *)
Record rank_inv (r : ProducerRegistry) (pre : list Z) (k : Ranking) : Prop :=
  { ri_reg : ranks_alike r (rk_reg k);
    ri_stale : rk_stale k = filter (fun j => ~ live r j) pre;
    ri_tier : rk_tier k =
      filter (fun j => live r j /\ backlog_weight j r = (rk_best_msgs k, rk_best_bytes k)) pre;
    ri_bound : forall j, j ∈ pre -> live r j ->
      weight_le (backlog_weight j r) (rk_best_msgs k, rk_best_bytes k);
    ri_none : rk_tier k = [] -> rk_best_msgs k = 0 /\ rk_best_bytes k = 0 }.

Lemma rank_step_stale r pre k id r' :
  rank_inv r pre k -> ~ live r id -> ranks_alike r r' ->
  rank_inv r (pre ++ [id]) {| k with rk_stale := rk_stale k ++ [id]; rk_reg := r' |}.
Proof.
  intros [H1 H2 H3 H4 H5] Hid Hr. constructor; cbn [rk_reg rk_stale rk_tier rk_best_msgs rk_best_bytes]; try done.
  - rewrite H2, filter_app. f_equal. rewrite filter_cons_True by done. done.
  - rewrite H3, filter_app. rewrite (filter_cons_False _ id) by tauto. by rewrite filter_nil, app_nil_r.
  - intros j [Hj| ->%list_elem_of_singleton]%elem_of_app Hl; [by apply H4|done].
Qed.

Lemma rank_step_inv r pre k id :
  in_range r -> rank_inv r pre k -> rank_inv r (pre ++ [id]) (rank_step k id).
Proof.
  intros Hrange Hinv. pose proof Hinv as [[Hb Hl] H2 H3 H4 H5]. unfold rank_step.
  specialize (Hb id). unfold has_backlog in Hb at 1.
  destruct (pr_inner (rk_reg k) !! id) as [e|] eqn:He.
  2: { apply (rank_step_stale r pre k id (rk_reg k)); [done| |apply Hinv]. unfold live. by rewrite <- Hb. }
  destruct (entry_has_backlog e) eqn:Hbe; cbn [negb].
  2: { apply (rank_step_stale r pre k id); [done|unfold live; by rewrite <- Hb|].
       eapply ranks_alike_trans; [apply Hinv|by eapply drop_ready_ranks]. }
  assert (Hlive : live r id) by (unfold live; by rewrite <- Hb).
  assert (Hw : backlog_weight id r = entry_backlog_weight e).
  { unfold backlog_weight. by rewrite <- (Hl id Hlive), He. }
  pose proof (live_weight r id Hrange Hlive) as Hpos. rewrite Hw in Hpos.
  destruct (entry_backlog_weight e) as [m b]. cbn [fst] in Hpos.
  assert (Hstale : rk_stale k = filter (fun j => ~ live r j) (pre ++ [id])).
  { rewrite filter_app, (filter_cons_False _ id), filter_nil, app_nil_r; [done|tauto]. }
  destruct ((rk_best_msgs k <? m) || ((m =? rk_best_msgs k) && (rk_best_bytes k <? b))) eqn:Hgt.
  { assert (Hlt : rk_best_msgs k < m \/ (m = rk_best_msgs k /\ rk_best_bytes k < b)).
    { apply orb_true_iff in Hgt as [?%Z.ltb_lt|[?%Z.eqb_eq ?%Z.ltb_lt]%andb_true_iff]; [by left|by right]. }
    constructor; cbn [rk_reg rk_stale rk_tier rk_best_msgs rk_best_bytes]; [apply Hinv|done| | |done].
    - rewrite filter_app, (filter_cons_True _ id), filter_nil by done.
      rewrite filter_none; [done|]. intros j Hj [Hlj Hwj]. specialize (H4 j Hj Hlj). rewrite Hwj in H4.
      unfold weight_le in H4. cbn [fst snd] in H4. lia.
    - intros j [Hj| ->%list_elem_of_singleton]%elem_of_app Hlj.
      + specialize (H4 j Hj Hlj). unfold weight_le in *. cbn [fst snd] in *. lia.
      + rewrite Hw. right. cbn. lia. }
  apply orb_false_iff in Hgt as [Hle%Z.ltb_ge Hle2].
  destruct ((m =? rk_best_msgs k) && (b =? rk_best_bytes k)) eqn:Heq.
  { apply andb_true_iff in Heq as [->%Z.eqb_eq ->%Z.eqb_eq].
    constructor; cbn [rk_reg rk_stale rk_tier rk_best_msgs rk_best_bytes]; [apply Hinv|done| | |].
    - rewrite filter_app, (filter_cons_True _ id), filter_nil by done. by rewrite H3.
    - intros j [Hj| ->%list_elem_of_singleton]%elem_of_app Hlj; [by apply H4|]. rewrite Hw. right. cbn. lia.
    - by destruct (rk_tier k). }
  assert (Hlt : m < rk_best_msgs k \/ (m = rk_best_msgs k /\ b < rk_best_bytes k)).
  { destruct (Z.eqb_spec m (rk_best_msgs k)); [|lia]. cbn [andb] in *.
    apply Z.ltb_ge in Hle2. apply Z.eqb_neq in Heq. lia. }
  constructor; [apply Hinv|done| | |done].
  - rewrite filter_app, (filter_cons_False _ id), filter_nil, app_nil_r; [done|].
    rewrite Hw. intros [_ [= ? ?]]. lia.
  - intros j [Hj| ->%list_elem_of_singleton]%elem_of_app Hlj; [by apply H4|]. rewrite Hw.
    unfold weight_le. cbn [fst snd]. lia.
Qed.

Lemma rank_loop_inv candidates r : in_range r -> rank_inv r candidates (rank_loop candidates r).
Proof.
  intros Hr. unfold rank_loop. induction candidates as [|id l IH] using rev_ind.
  - constructor; cbn; try done. intros j Hj. by apply not_elem_of_nil in Hj.
  - rewrite foldl_app. cbn [foldl]. by apply rank_step_inv.
Qed.

Lemma rank_loop_spec candidates r :
  in_range r ->
  rk_tier (rank_loop candidates r) = filter (is_best r candidates) candidates /\
  rk_stale (rank_loop candidates r) = filter (fun j => ~ live r j) candidates.
Proof.
  intros Hr. destruct (rank_loop_inv candidates r Hr) as [_ Hs Ht Hb Hn]. split; [|done].
  set (k := rank_loop candidates r) in *. rewrite Ht. apply filter_ext_in. intros j Hj.
  split.
  - intros [Hl Hw]. split; [done|]. apply Forall_forall. intros i Hi Hli. rewrite Hw. by apply Hb.
  - intros [Hl Hall]. split; [done|]. destruct (rk_tier k) as [|i t] eqn:Htk.
    + destruct (Hn eq_refl) as [Hm Hby]. specialize (Hb j Hj Hl). pose proof (live_weight r j Hr Hl).
      rewrite Hm, Hby in Hb. unfold weight_le in Hb. cbn [fst snd] in Hb. lia.
    + assert (Hi : i ∈ rk_tier k) by (rewrite Htk; by left).
      rewrite Htk, Ht in Hi. apply list_elem_of_filter in Hi as [[Hli Hwi] Hic].
      rewrite Forall_forall in Hall. specialize (Hall i Hic Hli). specialize (Hb j Hj Hl).
      rewrite Hwi in Hall. unfold weight_le in *. cbn [fst snd] in *.
      rewrite (surjective_pairing (backlog_weight j r)). f_equal; lia.
Qed.

Lemma pick_tier_permutation t1 t2 rr : t1 ≡ₚ t2 -> pick_tier t1 rr = pick_tier t2 rr.
Proof.
  intros Hp. unfold pick_tier. pose proof (Permutation_length Hp) as Hl.
  destruct t1 as [|a [|b t1]], t2 as [|a' [|b' t2]]; try done.
  - by apply Permutation_singleton_inj in Hp as ->.
  - assert (sort_unstable (a :: b :: t1) = sort_unstable (a' :: b' :: t2)) as ->; [|done].
    unfold sort_unstable. apply (StronglySorted_unique Z.le).
    + apply (StronglySorted_merge_sort Z.le).
    + apply (StronglySorted_merge_sort Z.le).
    + by rewrite !merge_sort_Permutation.
Qed.

Lemma pick_tier_elem t rr id n : pick_tier t rr = (Some id, n) -> id ∈ t.
Proof.
  unfold pick_tier. destruct t as [|a [|b t]]; [done| |].
  - intros [= <- <-]. by left.
  - intros [= Hl <-]. apply list_elem_of_lookup_2 in Hl. unfold sort_unstable in Hl.
    by rewrite merge_sort_Permutation in Hl.
Qed.

Lemma pick_tier_none t rr n : pick_tier t rr = (None, n) -> t = [].
Proof.
  unfold pick_tier. destruct t as [|a [|b t]]; [done|done|].
  intros [= Hl <-]. apply lookup_ge_None in Hl.
  pose proof (Nat.mod_upper_bound rr (length (sort_unstable (a :: b :: t)))) as Hub.
  assert (length (sort_unstable (a :: b :: t)) = S (S (length t))) as Hlen.
  { unfold sort_unstable. by rewrite merge_sort_Permutation. }
  lia.
Qed.

Lemma is_best_permutation r c1 c2 id : c1 ≡ₚ c2 -> is_best r c1 id <-> is_best r c2 id.
Proof. intros Hp. unfold is_best. by rewrite Hp. Qed.

Lemma best_exists r c j : j ∈ c -> live r j -> exists id, id ∈ c /\ is_best r c id.
Proof.
  intros Hj Hl. induction c as [|i c IH] in j, Hj, Hl |- *; [by apply not_elem_of_nil in Hj|].
  assert (Hrest : (exists id, id ∈ c /\ is_best r c id) \/ (forall x, x ∈ c -> ~ live r x)).
  { destruct (decide (Exists (live r) c)) as [He|He].
    - left. apply Exists_exists in He as (x & Hx & Hlx). by eapply IH.
    - right. intros x Hx Hlx. apply He, Exists_exists. eauto. }
  destruct Hrest as [(id & Hid & Hb & Hall)|Hno].
  - destruct (decide (live r i)) as [Hi|Hi].
    + destruct (decide (weight_le (backlog_weight i r) (backlog_weight id r))) as [Hle|Hgt].
      * exists id. split; [by right|]. split; [done|]. by constructor.
      * exists i. split; [by left|]. split; [done|]. constructor; [intros _; right; lia|].
        eapply Forall_impl; [exact Hall|]. intros x Hx Hlx. specialize (Hx Hlx).
        unfold weight_le in *. lia.
    + exists id. split; [by right|]. split; [done|]. by constructor.
  - apply elem_of_cons in Hj as [->|Hj]; [|by destruct (Hno j Hj)].
    exists i. split; [by left|]. split; [done|]. constructor; [intros _; right; lia|].
    apply Forall_forall. intros x Hx Hlx. by destruct (Hno x Hx).
Qed.

(** ** Reconciliation *)

(** What the second loop of [sync_matcher_ready_state] makes of an entry. *)
Definition promoted (e : ProducerEntry) : ProducerEntry :=
  if entry_has_backlog e && bool_decide (pe_state e = Idle)
  then {| e with pe_prdy_pending := true; pe_state := Ready |} else e.

Lemma promote_entry e r :
  pe_state e = Idle -> (promote_ready e r).1 = {| e with pe_prdy_pending := true; pe_state := Ready |}.
Proof.
  intros He. unfold promote_ready, transition_entry. cbn [pe_state].
  destruct (decide (pe_state e = Ready)); [congruence|done].
Qed.

Lemma sync_entry_step_spec r add id :
  let '(r', add') := sync_entry_step (r, add) id in
  pr_inner r' = alter promoted id (pr_inner r) /\
  (forall j, j ∈ add' <-> j ∈ add \/
     (j = id /\ exists e, pr_inner r !! id = Some e /\ entry_has_backlog e = true /\ pe_state e <> Busy)).
Proof.
  unfold sync_entry_step. destruct (pr_inner r !! id) as [e|] eqn:He.
  2: { split; [|set_solver]. apply map_eq. intros j. rewrite lookup_alter.
       case_decide as Hj; [|done]. by rewrite <- Hj, He. }
  assert (Hsame : forall e', promoted e' = e' -> pr_inner r !! id = Some e' -> pr_inner r = alter promoted id (pr_inner r)).
  { intros e' Hp Hl. apply map_eq. intros j. rewrite lookup_alter. case_decide as Hj; [|done].
    rewrite <- Hj, Hl. cbn. by rewrite Hp. }
  destruct (entry_has_backlog e) eqn:Hb; cbn [negb].
  2: { split; [apply (Hsame e); [unfold promoted; by rewrite Hb|done]|].
       intros j. split; [by left|]. intros [?|(-> & e' & He' & Hb' & _)]; [done|congruence]. }
  destruct (decide (pe_state e = Idle)) as [Hi|Hi].
  - destruct (with_entry_inner id _ r promote_moves) as [_ Hin]. rewrite He in Hin.
    unfold promote_ready in Hin at 1. rewrite Hin. split.
    + rewrite promote_entry by done. apply map_eq. intros j. rewrite lookup_alter, lookup_insert.
      case_decide as Hj; [|done]. subst j. rewrite He. cbn. f_equal.
      unfold promoted. rewrite Hb, bool_decide_eq_true_2 by done. done.
    + intros j. split; [|set_solver].
      intros [->%elem_of_singleton|?]%elem_of_union; [|by left].
      right. split; [done|]. exists e. split_and!; [done|done|congruence].
  - assert (Hk : promoted e = e) by (unfold promoted; rewrite Hb, bool_decide_eq_false_2 by done; done).
    destruct (decide (pe_state e = Ready)) as [Hr|Hr]; (split; [by apply (Hsame e)|]); intros j.
    + split; [|set_solver]. intros [->%elem_of_singleton|?]%elem_of_union; [|by left].
      right. split; [done|]. exists e. split_and!; [done|done|congruence].
    + split; [by left|]. intros [?|(-> & e' & He' & _ & Hn)]; [done|].
      assert (e' = e) as -> by congruence. by destruct (pe_state e).
Qed.

Lemma sync_entries_spec l r add :
  NoDup l ->
  let '(r', add') := foldl sync_entry_step (r, add) l in
  (forall j, pr_inner r' !! j =
     if decide (j ∈ l) then promoted <$> pr_inner r !! j else pr_inner r !! j) /\
  (forall j, j ∈ add' <-> j ∈ add \/
     (j ∈ l /\ exists e, pr_inner r !! j = Some e /\ entry_has_backlog e = true /\ pe_state e <> Busy)).
Proof.
  revert r add. induction l as [|id l IH]; intros r add Hnd; cbn [foldl].
  { split; intros j; [by rewrite decide_False by apply not_elem_of_nil|].
    split; [by left|]. intros [?|(Hj & _)]; [done|by apply not_elem_of_nil in Hj]. }
  apply NoDup_cons in Hnd as [Hid Hnd].
  pose proof (sync_entry_step_spec r add id) as Hstep.
  destruct (sync_entry_step (r, add) id) as [r1 add1]. destruct Hstep as [Hi Ha].
  specialize (IH r1 add1 Hnd). destruct (foldl sync_entry_step (r1, add1) l) as [r' add'].
  destruct IH as [IHi IHa]. split; intros j.
  - rewrite IHi, Hi, lookup_alter. repeat case_decide; subst; try done; exfalso; set_solver.
  - rewrite IHa, Ha, Hi. split.
    + intros [[?|(-> & e & He)]|(Hj & e & He)]; [by left| |].
      * right. split; [by left|]. by exists e.
      * right. split; [by right|]. rewrite lookup_alter_ne in He by (intros ->; done). by exists e.
    + intros [?|(Hj & e & He)]; [by left; left|].
      apply elem_of_cons in Hj as [->|Hj]; [left; right; split; [done|]; by exists e|].
      right. split; [done|]. exists e. rewrite lookup_alter_ne by (intros ->; done). done.
Qed.

Lemma NoDup_ids r : NoDup (ids r).
Proof. apply NoDup_fst_map_to_list. Qed.

Lemma elem_of_ids r j : j ∈ ids r <-> is_Some (pr_inner r !! j).
Proof.
  unfold ids. rewrite list_elem_of_fmap. split.
  - intros ([i e] & -> & He). apply elem_of_map_to_list in He. by exists e.
  - intros [e He]. exists (j, e). split; [done|]. by apply elem_of_map_to_list.
Qed.

(** The first loop: nothing changes for the producers with backlog. *)
Lemma sync_pool_spec l r rem :
  let '(r', rem') := foldl sync_pool_step (r, rem) l in
  ranks_alike r r' /\ (forall j, j ∈ rem' <-> j ∈ rem \/ (j ∈ l /\ ~ live r j)).
Proof.
  revert r rem. induction l as [|id l IH]; intros r rem; cbn [foldl].
  { split; [split; done|]. intros j. split; [by left|].
    intros [?|(Hj & _)]; [done|by apply not_elem_of_nil in Hj]. }
  assert (Hstep : let '(r1, rem1) := sync_pool_step (r, rem) id in ranks_alike r r1 /\
            forall j, j ∈ rem1 <-> j ∈ rem \/ (j = id /\ ~ live r j)).
  { unfold sync_pool_step. destruct (pr_inner r !! id) as [e|] eqn:He.
    - destruct (entry_has_backlog e) eqn:Hb; cbn [negb].
      + split; [split; done|]. intros j. split; [by left|]. intros [?|(-> & Hnl)]; [done|].
        destruct Hnl. unfold live, has_backlog. by rewrite He.
      + split; [by eapply drop_ready_ranks|]. intros j. split; [|set_solver].
        intros [->%elem_of_singleton|?]%elem_of_union; [|by left]. right. split; [done|].
        unfold live, has_backlog. by rewrite He, Hb.
    - split; [split; done|]. intros j. split; [|set_solver].
      intros [->%elem_of_singleton|?]%elem_of_union; [|by left]. right. split; [done|].
      unfold live, has_backlog. by rewrite He. }
  destruct (sync_pool_step (r, rem) id) as [r1 rem1]. destruct Hstep as [Hr Hrem].
  specialize (IH r1 rem1). destruct (foldl sync_pool_step (r1, rem1) l) as [r' rem'].
  destruct IH as [IHr IHrem]. split; [by eapply ranks_alike_trans|].
  intros j. rewrite IHrem, Hrem. destruct Hr as [Hl _]. unfold live. rewrite Hl.
  split; [intros [[?|[-> ?]]|[? ?]]|intros [?|[[->|?]%elem_of_cons ?]]]; auto using list_elem_of_here, list_elem_of_further.
Qed.

(** ** What the operations do to single entries *)

Lemma transition_fst s e r : (transition_entry s e r).1 = {| e with pe_state := s |}.
Proof.
  unfold transition_entry. destruct (decide (pe_state e = s)) as [<-|]; [|done]. by destruct e.
Qed.

(** A stale candidate after the ranking. *)
Definition dropped (e : ProducerEntry) : ProducerEntry :=
  {| e with pe_prdy_pending := false; pe_state := if decide (pe_state e = Ready) then Idle else pe_state e |}.

Lemma dropped_idem e : dropped (dropped e) = dropped e.
Proof. unfold dropped. cbn. by destruct (pe_state e). Qed.

Lemma rank_step_entries r pre k id :
  (forall q, pr_inner (rk_reg k) !! q = pr_inner r !! q \/
     (q ∈ pre /\ exists e, pr_inner r !! q = Some e /\ pr_inner (rk_reg k) !! q = Some (dropped e))) ->
  forall q, pr_inner (rk_reg (rank_step k id)) !! q = pr_inner r !! q \/
     (q ∈ pre ++ [id] /\ exists e, pr_inner r !! q = Some e /\
        pr_inner (rk_reg (rank_step k id)) !! q = Some (dropped e)).
Proof.
  intros Hk q. assert (Hsame : forall k', rk_reg k' = rk_reg k ->
    pr_inner (rk_reg k') !! q = pr_inner r !! q \/
    (q ∈ pre ++ [id] /\ exists e, pr_inner r !! q = Some e /\ pr_inner (rk_reg k') !! q = Some (dropped e))).
  { intros k' ->. destruct (Hk q) as [?|[Hq ?]]; [by left|right]. split; [set_solver|done]. }
  unfold rank_step. destruct (pr_inner (rk_reg k) !! id) as [e|] eqn:He; [|by apply Hsame].
  destruct (entry_has_backlog e); cbn [negb].
  { destruct (entry_backlog_weight e) as [m b]. destruct (_ || _); [by apply Hsame|].
    destruct (_ && _); by apply Hsame. }
  cbn [rk_reg]. destruct (with_entry_inner id drop_ready (rk_reg k) drop_ready_moves) as [_ ->].
  rewrite He, drop_ready_state. destruct (decide (q = id)) as [->|Hq].
  - right. split; [set_solver|]. rewrite lookup_insert_eq.
    destruct (Hk id) as [Hs|[_ (e0 & He0 & Hs)]].
    + exists e. by rewrite <- Hs.
    + exists e0. split; [done|]. rewrite Hs in He. injection He as <-. f_equal. apply (dropped_idem e0).
  - rewrite lookup_insert_ne by done. by apply (Hsame k).
Qed.

Lemma rank_entries candidates rr r q :
  let r' := (rank_ready_candidates candidates rr r).2 in
  pr_inner r' !! q = pr_inner r !! q \/
  (q ∈ candidates /\ exists e, pr_inner r !! q = Some e /\ pr_inner r' !! q = Some (dropped e)).
Proof.
  cbv zeta. unfold rank_ready_candidates. destruct (pick_tier _ _) as [best rr']. cbn [snd].
  revert q. unfold rank_loop. induction candidates as [|id l IH] using rev_ind; [by left|].
  rewrite foldl_app. cbn [foldl]. by apply rank_step_entries.
Qed.

Lemma set_state_entry id s r q :
  pr_inner (set_state id s r) !! q =
    if decide (q = id) then (fun e => {| e with pe_state := s |}) <$> pr_inner r !! id else pr_inner r !! q.
Proof.
  unfold set_state. destruct (with_entry_inner id (transition_entry s) r) as [_ ->];
    [by apply (transition_moves s (fun e => e))|].
  destruct (decide (q = id)) as [->|Hq].
  - destruct (pr_inner r !! id) as [e|] eqn:He; [|done].
    rewrite lookup_insert_eq. cbn. by rewrite transition_fst.
  - destruct (pr_inner r !! id); [by rewrite lookup_insert_ne|done].
Qed.

Lemma send_assign_entry p frame e r q :
  pr_inner r !! p = Some e ->
  pr_inner (send_assign (Ok tt) p frame r).2 !! q =
    if decide (q = p) then Some {| e with pe_written := pe_written e ++ [frame] |} else pr_inner r !! q.
Proof.
  intros He. unfold send_assign. rewrite He. cbn [snd]. set (f := fun e r => _).
  destruct (with_entry_inner p f r) as [_ ->];
    [by apply (moves_keep (fun e => {| e with pe_written := pe_written e ++ [frame] |}))|].
  rewrite He, lookup_insert. repeat case_decide; done || congruence.
Qed.

Lemma mark_assigned_entry p cid now e r q :
  pr_inner r !! p = Some e ->
  pr_inner (mark_assigned p cid now r) !! q =
    if decide (q = p)
    then Some {| e with pe_state := Busy; pe_pending_consumer_id := Some cid; pe_busy_since_ms := now |}
    else pr_inner r !! q.
Proof.
  intros He. unfold mark_assigned. set (f := fun e r => _).
  destruct (with_entry_inner p f r) as [_ ->].
  { apply (moves_then (fun e r => transition_entry Busy e r)
      (fun e => {| e with pe_pending_consumer_id := Some cid; pe_busy_since_ms := now |})); [|done].
    by apply (transition_moves Busy (fun e => e)). }
  assert (Hf : (f e r).1 = {| e with pe_state := Busy; pe_pending_consumer_id := Some cid; pe_busy_since_ms := now |}).
  { unfold f. pose proof (transition_fst Busy e r) as Ht. destruct (transition_entry Busy e r) as [e1 r1].
    cbn [fst] in *. by rewrite Ht. }
  rewrite He, Hf, lookup_insert. repeat case_decide; done || congruence.
Qed.

(** The pick and the stale candidates of a ranking. *)
Lemma rank_ready_pick candidates rr r :
  in_range r ->
  let '(best, stale, _, r') := rank_ready_candidates candidates rr r in
  stale = filter (fun j => ~ live r j) candidates /\
  match best with
  | Some p => p ∈ candidates /\ is_best r candidates p /\ pr_inner r' !! p = pr_inner r !! p
  | None => forall j, j ∈ candidates -> ~ live r j
  end.
Proof.
  intros Hr. unfold rank_ready_candidates.
  destruct (rank_loop_spec candidates r Hr) as [Ht Hs].
  destruct (rank_loop_inv candidates r Hr) as [[_ Hsame] _ _ _ _].
  destruct (pick_tier (rk_tier (rank_loop candidates r)) rr) as [best rr'] eqn:Hpick.
  rewrite Ht in Hpick. split; [done|]. destruct best as [p|].
  - apply pick_tier_elem, list_elem_of_filter in Hpick as [Hb Hp].
    split_and!; [done|done|]. apply Hsame, Hb.
  - apply pick_tier_none in Hpick. intros j Hj Hl.
    destruct (best_exists r candidates j Hj Hl) as (p & Hp & Hb).
    apply (not_elem_of_nil p). rewrite <- Hpick. by apply list_elem_of_filter.
Qed.

(** ** Ties

    The choice among the best candidates, as the comment on [producer_rr] has
    it: in ascending order of their ids, one after the other.  The counter moves
    on only where there is more than one. *)

Definition rotates (r : ProducerRegistry) (candidates : list Z) (rr : nat) (best : option Z) (rr' : nat) : Prop :=
  exists ties, ties ≡ₚ filter (is_best r candidates) candidates /\ StronglySorted Z.le ties /\
  match ties with
  | [] => best = None /\ rr' = rr
  | [id] => best = Some id /\ rr' = rr
  | _ :: _ :: _ =>
    best = ties !! (rr `mod` length ties)%nat /\ is_Some best /\ rr' = (S rr `mod` length ties)%nat
  end.

Lemma pick_tier_sorted tier rr :
  pick_tier tier rr =
    match sort_unstable tier with
    | [] => (None, rr)
    | [id] => (Some id, rr)
    | _ :: _ :: _ =>
      (sort_unstable tier !! (rr `mod` length tier)%nat, (S rr `mod` length tier)%nat)
    end.
Proof.
  unfold sort_unstable. pose proof (Permutation_length (merge_sort_Permutation Z.le tier)) as Hlen.
  destruct tier as [|a [|b t]]; [done|done|]. unfold pick_tier, sort_unstable.
  destruct (merge_sort Z.le (a :: b :: t)) as [|x [|y l]]; [done|done|].
  rewrite Hlen. f_equal. cbn [length]. rewrite Nat.add_1_r. by rewrite Nat.max_l by lia.
Qed.

Lemma rank_rotates candidates rr r :
  in_range r ->
  let '(best, _, rr', _) := rank_ready_candidates candidates rr r in rotates r candidates rr best rr'.
Proof.
  intros Hr. unfold rank_ready_candidates. destruct (rank_loop_spec candidates r Hr) as [-> _].
  set (tier := filter (is_best r candidates) candidates). pose proof (pick_tier_sorted tier rr) as Hp.
  pose proof (merge_sort_Permutation Z.le tier) as Hperm.
  destruct (pick_tier tier rr) as [best rr']. exists (sort_unstable tier).
  split_and!; [exact Hperm|apply (StronglySorted_merge_sort Z.le)|].
  rewrite <- (Permutation_length Hperm) in Hp. unfold sort_unstable in *.
  destruct (merge_sort Z.le tier) as [|x [|y l]]; [by simplify_eq|by simplify_eq|].
  pose proof (f_equal fst Hp) as H1. pose proof (f_equal snd Hp) as H2. cbn [fst snd] in H1, H2.
  split_and!; [exact H1| |exact H2]. rewrite H1.
  apply lookup_lt_is_Some_2. by apply Nat.mod_upper_bound.
Qed.

(** The counter after [k] rankings of the same candidates. *)
Definition rr_after (candidates : list Z) (r : ProducerRegistry) (rr k : nat) : nat :=
  Nat.iter k (fun n => (rank_ready_candidates candidates n r).1.2) rr.

Lemma pick_tier_counter tier rr :
  (2 <= length tier)%nat -> (pick_tier tier rr).2 = (S rr `mod` length tier)%nat.
Proof.
  intros Hn. rewrite pick_tier_sorted.
  pose proof (Permutation_length (merge_sort_Permutation Z.le tier)) as Hp. fold (sort_unstable tier) in Hp.
  destruct (sort_unstable tier) as [|a [|b t]]; [cbn in Hp; lia..|done].
Qed.

Lemma rr_after_ties candidates r rr k :
  in_range r -> let n := length (filter (is_best r candidates) candidates) in (2 <= n)%nat ->
  (rr_after candidates r rr k `mod` n = (rr + k) `mod` n)%nat.
Proof.
  intros Hr n Hn. induction k as [|k IH]; [by rewrite Nat.add_0_r|].
  set (m := rr_after candidates r rr k) in *.
  change (rr_after candidates r rr (S k)) with ((rank_ready_candidates candidates m r).1.2).
  unfold rank_ready_candidates. destruct (rank_loop_spec candidates r Hr) as [-> _].
  pose proof (pick_tier_counter _ m Hn) as Hm. fold n in Hm.
  destruct (pick_tier _ m) as [b m']. cbn [fst snd] in *. subst m'.
  rewrite Nat.Div0.mod_mod, <- Nat.add_1_r, Nat.Div0.add_mod, IH, <- Nat.Div0.add_mod. f_equal. lia.
Qed.

(** In as many rankings as there are ties, each of them has its turn. *)
Lemma ties_take_turns candidates r rr id :
  in_range r -> id ∈ candidates -> is_best r candidates id ->
  exists k, (k < length (filter (is_best r candidates) candidates))%nat /\
    (rank_ready_candidates candidates (rr_after candidates r rr k) r).1.1.1 = Some id.
Proof.
  intros Hr Hc Hb. pose proof (rank_loop_spec candidates r Hr) as [Ht _].
  pose proof (rr_after_ties candidates r rr) as Hrr.
  set (tier := filter (is_best r candidates) candidates) in *.
  assert (Hid : id ∈ tier) by (by apply list_elem_of_filter).
  assert (Hids : id ∈ sort_unstable tier) by (unfold sort_unstable; by rewrite merge_sort_Permutation).
  apply list_elem_of_lookup_1 in Hids as [i Hi].
  pose proof (Permutation_length (merge_sort_Permutation Z.le tier)) as Hlen. fold (sort_unstable tier) in Hlen.
  pose proof (lookup_lt_Some _ _ _ Hi) as Hlt. rewrite Hlen in Hlt.
  destruct (decide (length tier = 1)%nat) as [H1|H1].
  { exists 0%nat. split; [lia|]. unfold rank_ready_candidates. rewrite Ht. fold tier.
    destruct tier as [|a [|b t]]; [done| |done]. apply list_elem_of_singleton in Hid as ->. done. }
  set (n := length tier) in *. exists ((i + (n - rr `mod` n)) `mod` n)%nat.
  split; [apply Nat.mod_upper_bound; lia|].
  set (k := ((i + (n - rr `mod` n)) `mod` n)%nat). specialize (Hrr k Hr ltac:(cbv zeta; fold tier; lia)).
  cbv zeta in Hrr. fold tier n in Hrr. unfold rank_ready_candidates. rewrite Ht. fold tier.
  rewrite pick_tier_sorted. fold n. rewrite Hrr.
  assert (((rr + k) `mod` n)%nat = i) as ->.
  { pose proof (Nat.mod_upper_bound rr n ltac:(lia)). unfold k. rewrite Nat.Div0.add_mod_idemp_r.
    pose proof (Nat.div_mod_eq rr n).
    replace (rr + (i + (n - rr `mod` n)))%nat with (i + (rr `div` n + 1) * n)%nat by nia.
    by rewrite Nat.Div0.mod_add, Nat.mod_small. }
  destruct (sort_unstable tier) as [|a [|b t]]; [cbn in Hlen; lia..|done].
Qed.

(** ** Entries fit for the matcher

    The sizes are [u32]s, only a busy producer owes a batch to a consumer, and no
    busy producer is in the pool. *)

Definition good (pool : gset Z) (id : Z) (e : ProducerEntry) : Prop :=
  entry_in_range e /\ (pe_pending_consumer_id e <> None -> pe_state e = Busy) /\
  (id ∈ pool -> pe_state e <> Busy).

Definition all_good (pool : gset Z) (r : ProducerRegistry) : Prop := map_Forall (good pool) (pr_inner r).

Lemma with_entry_good pool id f r :
  moves_counts f ->
  (forall e r, pr_inner r !! id = Some e -> good pool id e -> good pool id (f e r).1) ->
  all_good pool r -> all_good pool (with_entry id f r).
Proof.
  intros Hm Hf Hr j e. destruct (with_entry_inner id f r Hm) as [_ ->].
  destruct (pr_inner r !! id) as [e0|] eqn:He; [|apply Hr].
  intros [[<- <-]|[_ ?]]%lookup_insert_Some; [|by apply Hr]. apply Hf; [done|]. by apply Hr.
Qed.

(** An update is good for a pool when it keeps the sizes and, of a busy producer,
    at most drops the debt, or makes it not busy altogether. *)
Lemma good_keep pool id e e' :
  entry_in_range e' -> pe_state e' = pe_state e ->
  (pe_pending_consumer_id e' = pe_pending_consumer_id e \/ pe_pending_consumer_id e' = None) ->
  good pool id e -> good pool id e'.
Proof.
  intros Hr Hs Hp (_ & Hd & Hn). split_and!; [done| |by rewrite Hs].
  rewrite Hs. destruct Hp as [->| ->]; done.
Qed.

Lemma good_release pool id e' :
  entry_in_range e' -> pe_state e' <> Busy -> pe_pending_consumer_id e' = None -> good pool id e'.
Proof. intros Hr Hs Hp. split_and!; [done|by rewrite Hp|done]. Qed.

Lemma good_not_busy pool id e e' :
  entry_in_range e' -> pe_state e <> Busy -> pe_state e' <> Busy ->
  pe_pending_consumer_id e' = pe_pending_consumer_id e -> good pool id e -> good pool id e'.
Proof. intros Hr Hs Hs' Hp (_ & Hd & _). split_and!; [done|rewrite Hp; intros ?; by destruct Hs, Hd|done]. Qed.

Lemma release_fst e r :
  (release_busy_entry e r).1 =
    {| e with pe_state := Idle; pe_pending_consumer_id := None; pe_busy_since_ms := 0 |}.
Proof.
  unfold release_busy_entry. pose proof (transition_fst Idle e r) as Ht.
  destruct (transition_entry Idle e r) as [e1 r1]. cbn [fst] in *. by rewrite Ht.
Qed.

Lemma mark_prdy_good pool id r : all_good pool r -> all_good pool (mark_prdy id r).
Proof.
  apply with_entry_good; [by apply (moves_keep (fun e => {| e with pe_prdy_pending := true |}))|].
  intros e r' _ Hg. eapply (good_keep _ _ e); [apply Hg|done|by left|exact Hg].
Qed.

Lemma take_pending_good pool id r : all_good pool r -> all_good pool (take_pending_consumer id r).2.
Proof.
  intros Hr. unfold take_pending_consumer. destruct (pr_inner r !! id); [|done]. cbn [snd].
  apply with_entry_good; [by apply (moves_keep (fun e => {| e with pe_pending_consumer_id := None |}))| |done].
  intros e r' _ Hg. eapply (good_keep _ _ e); [apply Hg|done|by right|exact Hg].
Qed.

Lemma release_good pool id r : all_good pool r -> all_good pool (with_entry id release_busy_entry r).
Proof.
  apply with_entry_good; [by apply (release_moves (fun e => e))|].
  intros e r' _ Hg. rewrite release_fst. by apply good_release; [apply Hg| |].
Qed.

Lemma clear_stale_busy_good pool id r : all_good pool r -> all_good pool (clear_stale_busy id r).2.
Proof.
  intros Hr. unfold clear_stale_busy. destruct (pr_inner r !! id); [|done]. case_decide; [|done].
  by apply release_good.
Qed.

Lemma clear_assignments_good pool cid r :
  all_good pool r -> all_good pool (clear_assignments_to_consumer cid r).2.
Proof.
  intros Hr. unfold clear_assignments_to_consumer.
  assert (H : forall l n r, all_good pool r -> all_good pool (foldl (clear_assign_step cid) (n, r) l).2); [|by apply H].
  clear r Hr. induction l as [|id l IH]; intros n r Hok; [done|]. cbn [foldl clear_assign_step].
  destruct (pr_inner r !! id); [|by apply IH]. case_decide; [|by apply IH]. by apply IH, release_good.
Qed.

Lemma set_state_good pool id s r :
  s <> Busy -> (forall e, pr_inner r !! id = Some e -> pe_state e <> Busy \/ pe_pending_consumer_id e = None) ->
  all_good pool r -> all_good pool (set_state id s r).
Proof.
  intros Hs Hid Hr q e'. rewrite set_state_entry. case_decide as Hq; [|apply Hr].
  destruct (pr_inner r !! id) as [e|] eqn:He; [|done]. cbn. intros [= <-]. specialize (Hr id e He).
  subst q. destruct (Hid e eq_refl) as [Hnb|Hnone].
  - by eapply (good_not_busy _ _ e); [apply Hr|exact Hnb|done|done|exact Hr].
  - by apply good_release; [apply Hr| |].
Qed.

Lemma remove_good pool id r : all_good pool r -> all_good pool (remove id r).
Proof.
  intros Hr. unfold remove. destruct (pr_inner r !! id) as [e|] eqn:He; [|done].
  intros q e'. assert (pr_inner (uncount (pe_state e) {| r with pr_inner := delete id (pr_inner r) |})
                = delete id (pr_inner r)) as -> by by destruct (pe_state e).
  intros [_ ?]%lookup_delete_Some. by apply Hr.
Qed.

Lemma register_good pool addr now r : all_good pool r -> all_good pool (register addr now r).2.
Proof.
  intros Hr q e. unfold register. cbn [snd pr_inner]. intros [[_ <-]|[_ ?]]%lookup_insert_Some; [|by apply Hr].
  split_and!; [|done|done]. unfold entry_in_range, in_u, umax. cbn. lia.
Qed.

Lemma delivered_fst n e r :
  (delivered n e r).1 =
    {| e with pe_rate_batches := wrap 64 (pe_rate_batches e + 1);
              pe_rate_msgs := wrap 64 (pe_rate_msgs e + n); pe_state := Idle;
              pe_pending_consumer_id := None; pe_busy_since_ms := 0; pe_prdy_pending := false |}.
Proof.
  unfold delivered. cbv zeta. match goal with |- context [release_busy_entry ?x r] => set (e1 := x) end.
  pose proof (release_fst e1 r) as Hf. destruct (release_busy_entry e1 r) as [e2 r2]. cbn [fst] in *. by subst e2.
Qed.

Lemma failed_fst e r :
  (failed e r).1 =
    {| e with pe_rate_errors := wrap 64 (pe_rate_errors e + 1); pe_state := Idle;
              pe_pending_consumer_id := None; pe_busy_since_ms := 0; pe_prdy_pending := false |}.
Proof.
  unfold failed. cbv zeta. match goal with |- context [release_busy_entry ?x r] => set (e1 := x) end.
  pose proof (release_fst e1 r) as Hf. destruct (release_busy_entry e1 r) as [e2 r2]. cbn [fst] in *. by subst e2.
Qed.

Lemma record_delivery_good pool id n r : all_good pool r -> all_good pool (record_delivery id n r).
Proof.
  apply with_entry_good; [apply delivered_moves|].
  intros e r' _ Hg. rewrite delivered_fst. by apply good_release; [apply Hg| |].
Qed.

Lemma record_failure_good pool id r : all_good pool r -> all_good pool (record_failure id r).
Proof.
  apply with_entry_good; [apply failed_moves|].
  intros e r' _ Hg. rewrite failed_fst. by apply good_release; [apply Hg| |].
Qed.

(** The table after an update of one entry. *)
Lemma with_entry_lookup id f r q :
  moves_counts f ->
  pr_inner (with_entry id f r) !! q =
    if decide (q = id) then (fun e => (f e r).1) <$> pr_inner r !! id else pr_inner r !! q.
Proof.
  intros Hf. destruct (with_entry_inner id f r Hf) as [_ ->]. destruct (decide (q = id)) as [->|Hq].
  - destruct (pr_inner r !! id) as [e|] eqn:He; [by rewrite lookup_insert_eq|by rewrite He].
  - destruct (pr_inner r !! id); [by rewrite lookup_insert_ne|done].
Qed.

Lemma take_pending_moves : moves_counts (fun e r => ({| e with pe_pending_consumer_id := None |}, r)).
Proof. by apply (moves_keep (fun e => {| e with pe_pending_consumer_id := None |})). Qed.

(** A heartbeat as the wire gives it. *)
Definition heartbeat_in_range (hb : ProducerHeartbeat) : Prop :=
  in_u 32 (hb_pending_messages hb) /\ in_u 32 (hb_pending_bytes hb) /\
  in_u 32 (hb_ring_messages hb) /\ in_u 32 (hb_ring_bytes hb).

Lemma promote_fst e r : (promote_ready e r).1 = {| e with pe_prdy_pending := true; pe_state := Ready |}.
Proof. unfold promote_ready. by rewrite transition_fst. Qed.

Lemma record_heartbeat_good pool now id hb r :
  heartbeat_in_range hb -> all_good pool r -> all_good pool (record_heartbeat now id hb r).2.
Proof.
  intros Hhb Hr. unfold record_heartbeat. destruct (pr_inner r !! id); [|done]. cbn [snd].
  apply with_entry_good; [apply heartbeat_moves| |done].
  intros e r' _ Hg. unfold heartbeat_entry.
  assert (Hs : good pool id (store_heartbeat hb e)) by (eapply (good_keep _ _ e); [exact Hhb|done|by left|exact Hg]).
  set (e1 := store_heartbeat hb e) in *.
  destruct (decide (pe_state e1 = Busy)) as [Hb|Hb].
  - destruct (_ || _); [|exact Hs].
    pose proof (release_fst e1 r') as Hf. destruct (release_busy_entry e1 r') as [e2 r2]. cbn [fst] in Hf.
    destruct (0 <? hb_ring_messages hb); cbn [fst snd]; rewrite ?promote_fst; subst e2;
      by apply good_release; [exact Hhb| |].
  - destruct (bool_decide _ && _).
    + cbn [snd]. rewrite promote_fst. by eapply (good_not_busy _ _ e1); [exact Hhb|exact Hb|done|done|exact Hs].
    + destruct (negb _); [|exact Hs]. eapply (good_keep _ _ e1); [exact Hhb|done|by left|exact Hs].
Qed.

Lemma drop_ready_good pool id r : all_good pool r -> all_good pool (with_entry id drop_ready r).
Proof.
  apply with_entry_good; [apply drop_ready_moves|]. intros e r' _ Hg. rewrite drop_ready_state.
  destruct (decide (pe_state e = Ready)) as [Hs|Hs].
  - eapply (good_not_busy _ _ e); [apply Hg| | | |exact Hg]; cbn; congruence.
  - eapply (good_keep _ _ e); [apply Hg|done|by left|exact Hg].
Qed.

(** Reconciling keeps the table good for the new pool. *)
Lemma sync_good pool r :
  all_good pool r ->
  let '(add, rem, r') := sync_matcher_ready_state pool r in all_good (add ∪ (pool ∖ rem)) r'.
Proof.
  intros Hr. unfold sync_matcher_ready_state.
  assert (H1 : forall l s, all_good pool s.1 -> all_good pool (foldl sync_pool_step s l).1).
  { induction l as [|id l IH]; intros [r0 rem0] Hs; [done|]. cbn [foldl]. apply IH. cbn [sync_pool_step fst].
    cbn [fst] in Hs. destruct (pr_inner r0 !! id); [|done]. destruct (negb _); [|done]. by apply drop_ready_good. }
  specialize (H1 (elements pool) (r, ∅) Hr). destruct (foldl sync_pool_step _ _) as [r1 rem]. cbn [fst] in H1.
  pose proof (sync_entries_spec (ids r1) r1 ∅ (NoDup_ids r1)) as He.
  destruct (foldl sync_entry_step _ _) as [r' add]. destruct He as [Hi Hadd].
  intros q e' He'. rewrite Hi in He'.
  destruct (decide (q ∈ ids r1)) as [Hq|Hq]; [|rewrite elem_of_ids, He' in Hq; by destruct Hq].
  destruct (pr_inner r1 !! q) as [e|] eqn:Hqe; [|done]. cbn in He'. injection He' as <-.
  destruct (H1 q e Hqe) as (Hrange & Hd & Hp).
  assert (Hst : q ∈ add ∪ (pool ∖ rem) -> pe_state e <> Busy).
  { rewrite elem_of_union, Hadd. intros [[?%elem_of_empty|(_ & e0 & He0 & _ & Hn)]|[? _]%elem_of_difference]; [done| |by apply Hp].
    congruence. }
  unfold promoted. destruct (entry_has_backlog e && bool_decide (pe_state e = Idle)) eqn:Hpr; [|done].
  apply andb_true_iff in Hpr as [_ Hidle%bool_decide_eq_true].
  split_and!; [done|cbn; intros Hne; specialize (Hd Hne); congruence|done].
Qed.

#[export] Hint Resolve mark_prdy_good take_pending_good clear_stale_busy_good clear_assignments_good
  remove_good register_good record_delivery_good record_failure_good record_heartbeat_good : cupid.

(** After [clear_assignments_to_consumer] no producer owes the consumer a batch. *)
Lemma clear_assignments_spec cid r :
  let r' := (clear_assignments_to_consumer cid r).2 in
  forall p e, pr_inner r' !! p = Some e -> pe_pending_consumer_id e <> Some cid.
Proof.
  cbv zeta. unfold clear_assignments_to_consumer.
  assert (Hinv : forall l n r,
    (forall p e, pr_inner r !! p = Some e -> pe_pending_consumer_id e = Some cid -> p ∈ l) ->
    forall p e, pr_inner (foldl (clear_assign_step cid) (n, r) l).2 !! p = Some e ->
      pe_pending_consumer_id e <> Some cid).
  { clear r. induction l as [|id l IH]; intros n r Hl p e; cbn [foldl].
    - intros He Hc. by eapply not_elem_of_nil, Hl.
    - cbn [clear_assign_step]. assert (Hnext : forall n' r', (forall q e', q <> id -> pr_inner r' !! q = Some e' -> pr_inner r !! q = Some e') ->
        (forall e', pr_inner r' !! id = Some e' -> pe_pending_consumer_id e' <> Some cid) ->
        pr_inner (foldl (clear_assign_step cid) (n', r') l).2 !! p = Some e -> pe_pending_consumer_id e <> Some cid).
      { intros n' r' Hq Hid. apply IH. intros q e' He' Hc. destruct (decide (q = id)) as [->|Hne].
        - by destruct (Hid e' He').
        - specialize (Hl q e' (Hq q e' Hne He') Hc). set_solver. }
      destruct (pr_inner r !! id) as [e0|] eqn:He0; [|by apply Hnext; [done|intros e'; rewrite He0]].
      destruct (decide (pe_pending_consumer_id e0 = Some cid)).
      + apply Hnext.
        * intros q e' Hne. destruct (with_entry_inner id release_busy_entry r) as [_ ->];
            [by apply (release_moves (fun e => e))|]. rewrite He0. by rewrite lookup_insert_ne.
        * intros e'. destruct (with_entry_inner id release_busy_entry r) as [_ ->];
            [by apply (release_moves (fun e => e))|]. rewrite He0, lookup_insert_eq, release_fst. by intros [= <-].
      + apply Hnext; [done|]. intros e'. rewrite He0. by intros [= <-]. }
  apply Hinv. intros p e He _. apply elem_of_ids. eauto.
Qed.

Lemma with_entry_present id f r q :
  moves_counts f ->
  is_Some (pr_inner (with_entry id f r) !! q) <-> is_Some (pr_inner r !! q).
Proof.
  intros Hf. rewrite with_entry_lookup by done. destruct (decide (q = id)) as [->|]; [|done].
  apply fmap_is_Some.
Qed.

Lemma release_busy_moves : moves_counts release_busy_entry.
Proof. by apply (release_moves (fun e => e)). Qed.

Lemma clear_stale_busy_present id r q :
  is_Some (pr_inner (clear_stale_busy id r).2 !! q) <-> is_Some (pr_inner r !! q).
Proof.
  unfold clear_stale_busy. destruct (pr_inner r !! id); [|done]. destruct (decide _); [|done].
  apply with_entry_present, release_busy_moves.
Qed.

Lemma clear_stale_busy_others id r q :
  q <> id -> pr_inner (clear_stale_busy id r).2 !! q = pr_inner r !! q.
Proof.
  intros Hq. unfold clear_stale_busy. destruct (pr_inner r !! id); [|done]. destruct (decide _); [|done].
  cbn [snd]. rewrite with_entry_lookup by apply release_busy_moves. by destruct (decide (q = id)).
Qed.

Lemma clear_stale_busy_entry id r p e :
  pr_inner (clear_stale_busy id r).2 !! p = Some e ->
  (p = id -> pe_state e <> Busy) /\ (p <> id -> pr_inner r !! p = Some e).
Proof.
  unfold clear_stale_busy. destruct (pr_inner r !! id) as [e0|] eqn:He0.
  2: { intros He. split; [intros ->; cbn in He; congruence|done]. }
  case_decide as Hb; cbn [snd].
  - destruct (with_entry_inner id release_busy_entry r) as [_ ->]; [by apply (release_moves (fun e => e))|].
    rewrite He0, release_fst. intros [[<- <-]|[Hne ?]]%lookup_insert_Some; [split; [by intros _|done]|].
    split; [by intros ->|done].
  - intros He. split; [intros ->; congruence|done].
Qed.

Lemma mark_prdy_entry id r p :
  pr_inner (mark_prdy id r) !! p =
    if decide (p = id) then (fun e => {| e with pe_prdy_pending := true |}) <$> pr_inner r !! id
    else pr_inner r !! p.
Proof.
  unfold mark_prdy. set (f := fun e r => _). destruct (with_entry_inner id f r) as [_ ->];
    [by apply (moves_keep (fun e => {| e with pe_prdy_pending := true |}))|].
  destruct (decide (p = id)) as [->|Hp].
  - destruct (pr_inner r !! id) as [e|] eqn:He; [by rewrite lookup_insert_eq|done].
  - destruct (pr_inner r !! id); [by rewrite lookup_insert_ne|done].
Qed.

(** ** Properties *)

(** The calls the master makes on the table; fewer than 2^64 connections are ever
    registered. *)
Inductive registry_step : ProducerRegistry -> ProducerRegistry -> Prop :=
| rs_register addr now r : pr_next_id r < umax 64 -> registry_step r (register addr now r).2
| rs_remove id r : registry_step r (remove id r)
| rs_set_state id s r : registry_step r (set_state id s r)
| rs_rank candidates rr r : registry_step r (rank_ready_candidates candidates rr r).2
| rs_sync current r : registry_step r (sync_matcher_ready_state current r).2
| rs_mark_prdy id r : registry_step r (mark_prdy id r)
| rs_clear_stale_ready id r : registry_step r (clear_stale_ready id r)
| rs_send_assign io id frame r : registry_step r (send_assign io id frame r).2
| rs_mark_assigned id cid now r : registry_step r (mark_assigned id cid now r)
| rs_clear_stale_busy id r : registry_step r (clear_stale_busy id r).2
| rs_clear_assignments cid r : registry_step r (clear_assignments_to_consumer cid r).2
| rs_take_pending id r : registry_step r (take_pending_consumer id r).2
| rs_heartbeat now id hb r : registry_step r (record_heartbeat now id hb r).2
| rs_delivery id n r : registry_step r (record_delivery id n r)
| rs_failure id r : registry_step r (record_failure id r)
| rs_list now_secs now_ms r : registry_step r (list_rows now_secs now_ms r).2.

Lemma registry_step_ok r r' : registry_ok r -> registry_step r r' -> registry_ok r'.
Proof. intros Hr Hs. revert Hr. destruct Hs; intros Hr; auto with cupid. Qed.

Lemma registry_reachable r : star registry_step new r -> registry_ok r.
Proof. intros Hstar. eapply star_invariant; [|exact Hstar|apply new_ok]. apply registry_step_ok. Qed.

Lemma registry_counters r :
  registry_ok r -> Z.of_nat (size (pr_inner r)) <= umax 64 ->
  ready_count r = count Ready (pr_inner r) /\ busy_count r = count Busy (pr_inner r).
Proof.
  intros Hok Hsize. unfold ready_count, busy_count. destruct Hok as [[-> ->] _ _].
  assert (Hle : forall s, in_u 64 (count s (pr_inner r))).
  { intros s. unfold in_u, count. split; [lia|].
    pose proof (map_subseteq_size _ _ (map_filter_subseteq (fun kv => pe_state kv.2 = s) (pr_inner r))). lia. }
  split; by apply wrap_small.
Qed.

(** C9: the lock-free counters never drift and never wrap below zero: whatever the
    sequence of calls, [ready_count] and [busy_count] are the numbers of ready and
    busy producers in the table. *)
Theorem counters_match_table r :
  star registry_step new r -> Z.of_nat (size (pr_inner r)) <= umax 64 ->
  ready_count r = count Ready (pr_inner r) /\ busy_count r = count Busy (pr_inner r).
Proof. intros Hstar. apply registry_counters, registry_reachable. exact Hstar. Qed.

Definition demo_hb (ring : Z) : ProducerHeartbeat :=
  {| hb_pending_messages := 0; hb_pending_bytes := 0; hb_ring_messages := ring;
     hb_ring_bytes := 10 * ring; hb_drops_total := 0 |}.

(** Three producers, two of them ready with backlog 5 and 7. *)
Definition demo_registry : ProducerRegistry :=
  let r := (register "p1" 0 new).2 in
  let r := (register "p2" 0 r).2 in
  let r := (register "p3" 0 r).2 in
  let r := (record_heartbeat 100 1 (demo_hb 5) r).2 in
  (record_heartbeat 100 2 (demo_hb 7) r).2.

Lemma counters_match_table_witness :
  let r := mark_assigned 2 9 100 demo_registry in
  ready_count r = count Ready (pr_inner r) /\ busy_count r = count Busy (pr_inner r).
Proof.
  intros r. apply counters_match_table; [|vm_compute; discriminate].
  unfold r, demo_registry. eapply star_snoc; [|apply rs_mark_assigned].
  do 2 (eapply star_snoc; [|apply rs_heartbeat]).
  do 3 (eapply star_snoc; [|apply rs_register; vm_compute; reflexivity]). apply star_refl.
Defined.

(** C28: the matcher's ranking.  The pick is a candidate with backlog that no
    candidate with backlog outweighs (messages first, then bytes), there is one
    whenever a candidate has backlog, and the stale ids are exactly the
    candidates without backlog.  Ties go by rotation: of the best candidates in
    ascending order of their ids the pick is the one the counter says, which then
    moves on by one, and stays where it is when there is no tie; so in as many
    rankings of the same candidates as there are ties each of them is picked.
    The choice does not depend on the order in which the hash set yields the
    candidates. *)
Theorem rank_ready_candidates_correct candidates rr r :
  in_range r ->
  let '(best, stale, rr', _) := rank_ready_candidates candidates rr r in
  match best with
  | Some id => id ∈ candidates /\ is_best r candidates id
  | None => forall j, j ∈ candidates -> ~ live r j
  end /\
  rotates r candidates rr best rr' /\
  (forall id, id ∈ candidates -> is_best r candidates id ->
    exists k, (k < length (filter (is_best r candidates) candidates))%nat /\
      (rank_ready_candidates candidates (rr_after candidates r rr k) r).1.1.1 = Some id) /\
  stale = filter (fun j => ~ live r j) candidates /\
  forall candidates', candidates' ≡ₚ candidates ->
    (rank_ready_candidates candidates' rr r).1.1.1 = best /\
    (rank_ready_candidates candidates' rr r).1.2 = rr'.
Proof.
  intros Hr. pose proof (rank_ready_pick candidates rr r Hr) as Hpk.
  pose proof (rank_rotates candidates rr r Hr) as Hrot.
  pose proof (fun id => ties_take_turns candidates r rr id Hr) as Hturns.
  destruct (rank_ready_candidates candidates rr r) as [[[best stale] rr'] r'] eqn:Heq.
  destruct Hpk as [Hs Hb]. split_and!; [destruct best; naive_solver|done|done|done|].
  intros c' Hp. unfold rank_ready_candidates in *.
  destruct (rank_loop_spec candidates r Hr) as [Ht _], (rank_loop_spec c' r Hr) as [Ht' _].
  rewrite Ht'. rewrite (pick_tier_permutation _ (filter (is_best r candidates) candidates)).
  - rewrite Ht in Heq. by destruct (pick_tier _ _) as [b n]; simplify_eq.
  - rewrite (filter_ext_in _ (is_best r candidates)); [by rewrite Hp|].
    intros x _. by apply is_best_permutation.
Qed.

Lemma demo_registry_in_range : in_range demo_registry.
Proof.
  unfold in_range. rewrite map_Forall_to_list.
  apply (Forall_impl (fun kv => entry_in_range kv.2)); [|by intros []].
  apply (bool_decide_unpack _). vm_compute. done.
Qed.

(** Producers 1 and 2 tied, 3 without backlog and 4 unknown. *)
Definition tied_registry : ProducerRegistry := (record_heartbeat 100 1 (demo_hb 7) demo_registry).2.

Lemma tied_registry_in_range : in_range tied_registry.
Proof.
  unfold in_range. rewrite map_Forall_to_list.
  apply (Forall_impl (fun kv => entry_in_range kv.2)); [|by intros []].
  apply (bool_decide_unpack _). vm_compute. done.
Qed.

Lemma rank_ready_candidates_correct_witness :
  let c := [3; 2; 1; 4] in
  let '(best, stale, rr', _) := rank_ready_candidates c 1 tied_registry in
  best = Some 2 /\ stale = [3; 4] /\ rr' = 0%nat /\
  (rank_ready_candidates c 0 tied_registry).1.1.1 = Some 1 /\
  (match best with
  | Some id => id ∈ c /\ is_best tied_registry c id
  | None => forall j, j ∈ c -> ~ live tied_registry j
  end /\
  rotates tied_registry c 1 best rr' /\
  (forall id, id ∈ c -> is_best tied_registry c id ->
    exists k, (k < length (filter (is_best tied_registry c) c))%nat /\
      (rank_ready_candidates c (rr_after c tied_registry 1 k) tied_registry).1.1.1 = Some id) /\
  stale = filter (fun j => ~ live tied_registry j) c /\
  forall candidates', candidates' ≡ₚ c ->
    (rank_ready_candidates candidates' 1 tied_registry).1.1.1 = best /\
    (rank_ready_candidates candidates' 1 tied_registry).1.2 = rr').
Proof.
  pose proof (rank_ready_candidates_correct [3; 2; 1; 4] 1 tied_registry tied_registry_in_range) as H.
  assert (Hv : (rank_ready_candidates [3; 2; 1; 4] 1 tied_registry).1 = (Some 2, [3; 4], 0%nat))
    by (vm_compute; reflexivity).
  assert (H0 : (rank_ready_candidates [3; 2; 1; 4] 0 tied_registry).1.1.1 = Some 1) by (vm_compute; reflexivity).
  cbv zeta. destruct (rank_ready_candidates [3; 2; 1; 4] 1 tied_registry) as [[[best stale] rr'] r'].
  cbn [fst] in Hv. injection Hv as Hb Hs Hrr. split; [exact Hb|]. split; [exact Hs|]. split; [exact Hrr|].
  split; [exact H0|exact H].
Defined.

(** Decide the tests of an entry's state, known by [Hst]. *)
Ltac decides Hst :=
  repeat (cbn; rewrite ?Hst; first [case_decide | case_bool_decide]; try congruence); cbn; rewrite ?Hst.

(** What a producer says of itself in a heartbeat. *)
Definition announced (e : ProducerEntry) : Z * Z * Z * Z * Z :=
  (pe_pending_messages e, pe_pending_bytes e, pe_ring_messages e, pe_ring_bytes e, pe_hb_drops e).

Lemma heartbeat_entry_stores now hb e r :
  let e' := (heartbeat_entry now hb e r).2.1 in
  announced e' = (hb_pending_messages hb, hb_pending_bytes hb, hb_ring_messages hb, hb_ring_bytes hb, hb_drops_total hb) /\
  pe_rate_drops e' = (if pe_hb_drops e <=? hb_drops_total hb
                      then wrap 64 (pe_rate_drops e + (hb_drops_total hb - pe_hb_drops e)) else pe_rate_drops e) /\
  pe_written e' = pe_written e.
Proof.
  cbv zeta. unfold heartbeat_entry, release_busy_entry, promote_ready, transition_entry.
  assert (Hx : announced (store_heartbeat hb e) = (hb_pending_messages hb, hb_pending_bytes hb, hb_ring_messages hb, hb_ring_bytes hb, hb_drops_total hb)) by done.
  assert (Hd : pe_rate_drops (store_heartbeat hb e) = (if pe_hb_drops e <=? hb_drops_total hb
    then wrap 64 (pe_rate_drops e + (hb_drops_total hb - pe_hb_drops e)) else pe_rate_drops e)) by done.
  rewrite <- Hx, <- Hd. change (pe_written e) with (pe_written (store_heartbeat hb e)). clear Hx Hd.
  destruct (store_heartbeat hb e) as [? ? [] ]; cbn; repeat case_match; simplify_eq; by split_and!.
Qed.

(** C24: What a heartbeat makes of a producer, and of nobody else.  Its backlog and its
    drops are those announced, and the drops since the last heartbeat are counted once.
    A producer that reports a non-empty ring is ready and eligible afterwards, without
    the debt of an ASGN it was busy with, and the call asks for a rematch exactly when it
    was not ready before.  With an empty ring a busy producer is released, without a
    rematch, once it is busy for [STALE_BUSY_MS], and until then its assignment stands;
    one that is not busy keeps its state, and its claim to be ready only with messages
    pending. *)
Theorem record_heartbeat_correct now id hb r e :
  pr_inner r !! id = Some e ->
  let '(rematch, r') := record_heartbeat now id hb r in
  exists e', pr_inner r' !! id = Some e' /\
    (forall j, j <> id -> pr_inner r' !! j = pr_inner r !! j) /\
    announced e' = (hb_pending_messages hb, hb_pending_bytes hb, hb_ring_messages hb, hb_ring_bytes hb, hb_drops_total hb) /\
    pe_rate_drops e' = (if pe_hb_drops e <=? hb_drops_total hb
                        then wrap 64 (pe_rate_drops e + (hb_drops_total hb - pe_hb_drops e)) else pe_rate_drops e) /\
    pe_written e' = pe_written e /\
    let stale := 0 < pe_busy_since_ms e /\ STALE_BUSY_MS <= now - pe_busy_since_ms e in
    (0 < hb_ring_messages hb ->
       rematch = negb (bool_decide (pe_state e = Ready)) /\ pe_state e' = Ready /\
       entry_has_backlog e' = true /\
       pe_pending_consumer_id e' = (if decide (pe_state e = Busy) then None else pe_pending_consumer_id e)) /\
    (hb_ring_messages hb <= 0 ->
       rematch = false /\
       (pe_state e = Busy -> stale -> pe_state e' = Idle /\ pe_pending_consumer_id e' = None) /\
       (pe_state e = Busy -> ~ stale ->
          pe_state e' = Busy /\ pe_pending_consumer_id e' = pe_pending_consumer_id e) /\
       (pe_state e <> Busy ->
          pe_state e' = pe_state e /\ pe_pending_consumer_id e' = pe_pending_consumer_id e /\
          pe_prdy_pending e' = (0 <? hb_pending_messages hb) && pe_prdy_pending e)).
Proof.
  intros He. unfold record_heartbeat. rewrite He.
  destruct (with_entry_inner id _ r (heartbeat_moves now hb)) as [_ Hi]. rewrite He in Hi.
  exists (heartbeat_entry now hb e r).2.1. rewrite Hi, lookup_insert_eq.
  split; [done|]. split; [intros j Hj; by rewrite lookup_insert_ne|].
  destruct (heartbeat_entry_stores now hb e r) as (-> & -> & ->). do 3 (split; [done|]).
  unfold heartbeat_entry, STALE_BUSY_MS, release_busy_entry, promote_ready, transition_entry.
  cbn [store_heartbeat pe_state pe_busy_since_ms]. unfold sat_sub.
  destruct (Z.ltb_spec 0 (hb_ring_messages hb)) as [Hring|Hring].
  - rewrite andb_true_r. cbn [orb negb].
    destruct (pe_state e) eqn:Hst; decides Hst;
      (split; [|lia]); intros _; split_and!; try done.
    unfold entry_has_backlog. cbn [store_heartbeat pe_ring_messages pe_prdy_pending].
    by rewrite (proj2 (Z.ltb_lt _ _) Hring), orb_true_r.
  - rewrite andb_false_r. cbn [orb].
    destruct (pe_state e) eqn:Hst; decides Hst.
    1,2: destruct (0 <? hb_pending_messages hb); cbn; (split; [lia|]); intros _; by rewrite ?Hst.
    destruct (Z.ltb_spec 0 (pe_busy_since_ms e)),
      (Z.leb_spec 15000 (Z.max 0 (now - pe_busy_since_ms e))); cbn [andb]; decides Hst;
      (split; [lia|]); intros _; split_and!; try done; intros; lia.
Qed.

Lemma record_heartbeat_correct_witness :
  let r := mark_assigned 2 9 100 demo_registry in
  let e := default (new_entry "" 0) (pr_inner r !! 2) in
  let hb := demo_hb 3 in
  let '(rematch, r') := record_heartbeat 200 2 hb r in
  exists e', pr_inner r' !! 2 = Some e' /\
    (forall j, j <> 2 -> pr_inner r' !! j = pr_inner r !! j) /\
    announced e' = (hb_pending_messages hb, hb_pending_bytes hb, hb_ring_messages hb, hb_ring_bytes hb, hb_drops_total hb) /\
    pe_rate_drops e' = (if pe_hb_drops e <=? hb_drops_total hb
                        then wrap 64 (pe_rate_drops e + (hb_drops_total hb - pe_hb_drops e)) else pe_rate_drops e) /\
    pe_written e' = pe_written e /\
    let stale := 0 < pe_busy_since_ms e /\ STALE_BUSY_MS <= 200 - pe_busy_since_ms e in
    (0 < hb_ring_messages hb ->
       rematch = negb (bool_decide (pe_state e = Ready)) /\ pe_state e' = Ready /\
       entry_has_backlog e' = true /\
       pe_pending_consumer_id e' = (if decide (pe_state e = Busy) then None else pe_pending_consumer_id e)) /\
    (hb_ring_messages hb <= 0 ->
       rematch = false /\
       (pe_state e = Busy -> stale -> pe_state e' = Idle /\ pe_pending_consumer_id e' = None) /\
       (pe_state e = Busy -> ~ stale ->
          pe_state e' = Busy /\ pe_pending_consumer_id e' = pe_pending_consumer_id e) /\
       (pe_state e <> Busy ->
          pe_state e' = pe_state e /\ pe_pending_consumer_id e' = pe_pending_consumer_id e /\
          pe_prdy_pending e' = (0 <? hb_pending_messages hb) && pe_prdy_pending e)).
Proof.
  intros r e hb. apply (record_heartbeat_correct 200 2 hb r e). vm_compute. reflexivity.
Defined.

(** Reconciling the table with the matcher's pool.  Afterwards the pool holds
    every producer with backlog that is not busy, and each of those is ready; a
    busy producer is in the pool only if it already was; and no producer without
    backlog is. *)
Theorem sync_matcher_ready_state_correct current r :
  let '(add, rem, r') := sync_matcher_ready_state current r in
  let pool := (current ∖ rem) ∪ add in
  forall id,
    (id ∈ pool <-> live r' id /\ (state_of id r' = Some Ready \/ (state_of id r' = Some Busy /\ id ∈ current))) /\
    (live r id <-> live r' id) /\
    (live r' id -> state_of id r' <> Some Idle).
Proof.
  unfold sync_matcher_ready_state.
  pose proof (sync_pool_spec (elements current) r ∅) as Hp.
  destruct (foldl sync_pool_step _ _) as [r1 rem]. destruct Hp as [[Hb Hl] Hrem].
  pose proof (sync_entries_spec (ids r1) r1 ∅ (NoDup_ids r1)) as He.
  destruct (foldl sync_entry_step _ _) as [r' add]. destruct He as [Hi Hadd].
  assert (Hlook : forall j, pr_inner r' !! j = promoted <$> pr_inner r1 !! j).
  { intros j. rewrite Hi. case_decide as Hj; [done|]. rewrite elem_of_ids, <- eq_None_not_Some in Hj. by rewrite Hj. }
  assert (Hlive : forall j, live r' j <-> live r1 j).
  { intros j. unfold live, has_backlog. rewrite Hlook. destruct (pr_inner r1 !! j) as [e|]; [|done]. cbn.
    unfold promoted. destruct (entry_has_backlog e) eqn:Hbe; cbn [andb]; [|by rewrite Hbe].
    case_bool_decide; [done|by rewrite Hbe]. }
  assert (Hlive1 : forall j, live r1 j <-> live r j) by (intros j; unfold live; by rewrite Hb).
  cbv zeta. intros id. split_and!.
  2: by rewrite Hlive, Hlive1.
  - rewrite elem_of_union, elem_of_difference, Hadd, Hrem, elem_of_elements, elem_of_ids, Hlive.
    unfold state_of. rewrite Hlook. split.
    + intros [[Hc Hn]|[?%elem_of_empty|(_ & e & He & Hbe & Hs)]]; [| done|].
      * assert (Hlid : live r1 id) by (rewrite Hlive1; destruct (decide (live r id)); [done|]; destruct Hn; by right).
        split; [done|]. destruct (live_lookup _ _ Hlid) as (e & He & Hbe). rewrite He. cbn. unfold promoted.
        rewrite Hbe. cbn [andb]. case_bool_decide as Hs; [by left|].
        destruct (pe_state e) eqn:Hst; [done|by left|by right].
      * split; [unfold live, has_backlog; by rewrite He|]. rewrite He. cbn. unfold promoted. rewrite Hbe. cbn [andb].
        left. case_bool_decide; [done|]. by destruct (pe_state e).
    + intros [Hlid Hst]. destruct (live_lookup _ _ Hlid) as (e & He & Hbe). rewrite He in Hst. cbn in Hst.
      destruct (decide (pe_state e = Busy)) as [Hbusy|Hnb].
      * left. unfold promoted in Hst. rewrite Hbe in Hst. cbn [andb] in Hst.
        rewrite bool_decide_eq_false_2 in Hst by congruence. rewrite Hbusy in Hst.
        destruct Hst as [?|[_ Hc]]; [done|]. split; [done|].
        intros [?%elem_of_empty|[_ Hn]]; [done|]. by apply Hn, Hlive1.
      * right. right. split; [by exists e|]. by exists e.
  - rewrite Hlive. intros Hlid. destruct (live_lookup _ _ Hlid) as (e & He & Hbe).
    unfold state_of. rewrite Hlook, He. cbn. unfold promoted. rewrite Hbe. cbn [andb].
    case_bool_decide; [done|congruence].
Qed.
