(* ===== verification/Consumers.v ===== *)
(** * The consumer registry ([ConsumerRegistry], [master/src/consumers.rs])

    The master's table of consumers with the phase of each one's cycle, and an
    index from producers to the consumers awaiting their batch.  The two have
    separate locks; an operation that uses both is the sequence of its critical
    sections. *)

From S2P Require Import Prelude Float64 Protocol Capacity.

(** ** State *)

Record RateSample := { rs_ts_ms : Z; rs_batches : Z; rs_bytes : Z }.

Record ConsumerEntry :=
  { ce_consumer_tag : string; ce_addr : string; ce_data_addr : string; ce_connected_at : Z;
    ce_rate_batches : Z; ce_rate_bytes : Z; ce_rate_sample : RateSample;
    ce_batches_per_sec : f64; ce_bytes_per_sec : f64; ce_unacked : Z;
    ce_last_batch_items : Z; ce_last_batch_bytes : Z; ce_state : string;
    ce_max_batch_requested : Z; ce_batch_items_ema : f64; ce_process_time_ema_ms : f64;
    ce_last_batch_delivered_ms : Z; ce_assigned_producer_id : option Z }.

Record ConsumerRegistry :=
  { cr_next_id : Z; cr_inner : gmap Z ConsumerEntry; cr_awaiting_by_producer : gmap Z (gset Z) }.

Definition new : ConsumerRegistry :=
  {| cr_next_id := 1; cr_inner := ∅; cr_awaiting_by_producer := ∅ |}.

(** ** Operations *)

(** [format!("consumer-{id}")] *)
Definition default_tag (id : Z) : string := "consumer-" +:+ pretty id.

Definition new_entry (id : Z) (addr data_addr : string) (now_secs : Z) : ConsumerEntry :=
  {| ce_consumer_tag := default_tag id; ce_addr := addr; ce_data_addr := data_addr;
     ce_connected_at := now_secs; ce_rate_batches := 0; ce_rate_bytes := 0;
     ce_rate_sample := {| rs_ts_ms := 0; rs_batches := 0; rs_bytes := 0 |};
     ce_batches_per_sec := f0; ce_bytes_per_sec := f0; ce_unacked := 0;
     ce_last_batch_items := 0; ce_last_batch_bytes := 0; ce_state := "idle";
     ce_max_batch_requested := 0; ce_batch_items_ema := f0; ce_process_time_ema_ms := f0;
     ce_last_batch_delivered_ms := 0; ce_assigned_producer_id := None |}.

Definition register (addr data_addr : string) (now_secs : Z) (r : ConsumerRegistry) : Z * ConsumerRegistry :=
  let id := cr_next_id r in
  (id, {| r with cr_next_id := wrap 64 (id + 1);
                 cr_inner := <[id := new_entry id addr data_addr now_secs]> (cr_inner r) |}).

(** [if let Some(e) = inner.get_mut(&id) { ... }] *)
Definition with_entry (id : Z) (f : ConsumerEntry -> ConsumerEntry) (r : ConsumerRegistry) : ConsumerRegistry :=
  {| r with cr_inner := alter f id (cr_inner r) |}.

Definition track_awaiting (producer_id consumer_id : Z) (r : ConsumerRegistry) : ConsumerRegistry :=
  let set := default ∅ (cr_awaiting_by_producer r !! producer_id) in
  {| r with cr_awaiting_by_producer :=
       <[producer_id := {[consumer_id]} ∪ set]> (cr_awaiting_by_producer r) |}.

(** [set.remove(..)] for each id, and the producer's key once the set is empty. *)
Definition untrack_set (producer_id : Z) (gone : gset Z) (r : ConsumerRegistry) : ConsumerRegistry :=
  match cr_awaiting_by_producer r !! producer_id with
  | None => r
  | Some set =>
    let set := set ∖ gone in
    {| r with cr_awaiting_by_producer :=
         if decide (set = ∅) then delete producer_id (cr_awaiting_by_producer r)
         else <[producer_id := set]> (cr_awaiting_by_producer r) |}
  end.

Definition untrack_awaiting (producer_id consumer_id : Z) (r : ConsumerRegistry) : ConsumerRegistry :=
  untrack_set producer_id {[consumer_id]} r.

Definition untrack_stale (pid : option Z) (id : Z) (r : ConsumerRegistry) : ConsumerRegistry :=
  match pid with Some pid => untrack_awaiting pid id r | None => r end.

Definition remove (id : Z) (r : ConsumerRegistry) : ConsumerRegistry :=
  match cr_inner r !! id with
  | None => r
  | Some e => untrack_stale (ce_assigned_producer_id e) id {| r with cr_inner := delete id (cr_inner r) |}
  end.

Definition set_consumer_tag (id : Z) (tag : string) (r : ConsumerRegistry) : ConsumerRegistry :=
  if String.eqb tag "" then r else with_entry id (fun e => {| e with ce_consumer_tag := tag |}) r.

Definition set_state (id : Z) (state : string) (r : ConsumerRegistry) : ConsumerRegistry :=
  with_entry id (fun e => {| e with ce_state := state |}) r.

Definition state_of (id : Z) (r : ConsumerRegistry) : option string := ce_state <$> cr_inner r !! id.

(** The exponential averages: [old * 0.8 + sample * 0.2]. *)
Definition ema (old sample : f64) : f64 :=
  if fleb old f0 then sample else fadd (fmul old (lit 8 10)) (fmul sample (lit 2 10)).

Definition cycle_sample (ts_ms : Z) (e : ConsumerEntry) : ConsumerEntry :=
  if (0 <? ce_last_batch_delivered_ms e) && (ce_last_batch_delivered_ms e <? ts_ms)
  then {| e with ce_process_time_ema_ms :=
            ema (ce_process_time_ema_ms e) (of_int (ts_ms - ce_last_batch_delivered_ms e)) |}
  else e.

Definition on_ready (id max_items ts_ms : Z) (r : ConsumerRegistry) : ConsumerRegistry :=
  with_entry id (fun e =>
    let e := cycle_sample ts_ms e in
    {| e with ce_max_batch_requested := Z.max max_items 1; ce_unacked := 0 |}) r.

Definition update_batch_items_ema (msg_count : Z) (e : ConsumerEntry) : ConsumerEntry :=
  if msg_count =? 0 then e
  else {| e with ce_batch_items_ema := ema (ce_batch_items_ema e) (of_int msg_count) |}.

Definition apply_batch_delivery (msg_count batch_bytes ts_ms : Z) (e : ConsumerEntry) : ConsumerEntry :=
  let e := update_batch_items_ema msg_count e in
  {| e with
     ce_rate_batches := wrap 64 (ce_rate_batches e + 1);
     ce_rate_bytes := wrap 64 (ce_rate_bytes e + batch_bytes);
     ce_unacked := msg_count; ce_last_batch_items := msg_count; ce_last_batch_bytes := batch_bytes;
     ce_last_batch_delivered_ms := ts_ms; ce_assigned_producer_id := None; ce_state := "processing" |}.

Definition record_batch (id msg_count batch_bytes ts_ms : Z) (r : ConsumerRegistry) : ConsumerRegistry :=
  with_entry id (apply_batch_delivery msg_count batch_bytes ts_ms) r.

Definition set_unacked (id unacked : Z) (r : ConsumerRegistry) : ConsumerRegistry :=
  with_entry id (fun e => {| e with ce_unacked := unacked |}) r.

(** [e.assigned_producer_id.take()]: what it was, and the table without it. *)
Definition take_assigned (id : Z) (f : ConsumerEntry -> ConsumerEntry) (r : ConsumerRegistry) :
    option (option Z) * ConsumerRegistry :=
  match cr_inner r !! id with
  | None => (None, r)
  | Some e =>
    (Some (ce_assigned_producer_id e),
     with_entry id (fun e => let e := f e in {| e with ce_assigned_producer_id := None |}) r)
  end.

Definition begin_cycle (id max_items : Z) (consumer_tag : string) (ts_ms : Z) (r : ConsumerRegistry) :
    ConsumerRegistry :=
  match take_assigned id (cycle_sample ts_ms) r with
  | (None, r) => r
  | (Some stale_pid, r) =>
    let r := untrack_stale stale_pid id r in
    with_entry id (fun e =>
      {| e with ce_max_batch_requested := Z.max max_items 1; ce_unacked := 0; ce_state := "matcher_queue";
                ce_consumer_tag := if String.eqb consumer_tag "" then ce_consumer_tag e else consumer_tag |}) r
  end.

Definition mark_awaiting_batch (id producer_id : Z) (r : ConsumerRegistry) : ConsumerRegistry :=
  let r := with_entry id (fun e =>
    {| e with ce_assigned_producer_id := Some producer_id; ce_state := "awaiting_batch" |}) r in
  track_awaiting producer_id id r.

(** What [release_stale_assignments] does to a stale consumer still awaiting. *)
Definition release_entry (e : ConsumerEntry) : ConsumerEntry :=
  if String.eqb (ce_state e) "awaiting_batch"
  then {| e with ce_assigned_producer_id := None; ce_state := "idle" |} else e.

Definition release_stale_assignments (producer_id keep_consumer_id : Z) (r : ConsumerRegistry) :
    ConsumerRegistry :=
  let stale := default ∅ (cr_awaiting_by_producer r !! producer_id) ∖ {[keep_consumer_id]} in
  if decide (stale = ∅) then r
  else
    let r := foldl (fun r cid => with_entry cid release_entry r) r (elements stale) in
    untrack_set producer_id stale r.

Definition set_phase (id : Z) (state : string) (r : ConsumerRegistry) : ConsumerRegistry :=
  if String.eqb state "awaiting_batch" then set_state id state r
  else
    match take_assigned id (fun e => e) r with
    | (None, r) => r
    | (Some stale_pid, r) => set_state id state (untrack_stale stale_pid id r)
    end.

Definition match_context (id : Z) (r : ConsumerRegistry) : option (ReadyRequest * string) :=
  match cr_inner r !! id with
  | None => None
  | Some e => Some ({| rr_max_items := Z.max (ce_max_batch_requested e) 1;
                       rr_consumer_tag := ce_consumer_tag e |}, ce_data_addr e)
  end.

(** The first such consumer in the order of the map. *)
Definition find_id_by_assigned_producer (producer_id : Z) (r : ConsumerRegistry) : option Z :=
  fst <$> head (filter (fun kv => ce_assigned_producer_id kv.2 = Some producer_id)
                       (map_to_list (cr_inner r))).

Definition finish_batch (id msg_count batch_bytes ts_ms : Z) (empty : bool) (r : ConsumerRegistry) :
    ConsumerRegistry :=
  match cr_inner r !! id with
  | None => r
  | Some e =>
    let pid := ce_assigned_producer_id e in
    let r :=
      if empty
      then with_entry id (fun e =>
             {| e with ce_unacked := 0; ce_assigned_producer_id := None; ce_state := "idle" |}) r
      else with_entry id (apply_batch_delivery msg_count batch_bytes ts_ms) r in
    untrack_stale pid id r
  end.

(** *** The critical sections

    [inner] and [awaiting_by_producer] are under two locks, and a method takes one of
    them at a time.  [method] is a method in progress: its next critical section gives
    the table and what is left to do. *)

Inductive method : Type :=
| Locks (f : ConsumerRegistry -> ConsumerRegistry * option method).

(** The sections one after the other. *)
Fixpoint exec (q : method) (r : ConsumerRegistry) : ConsumerRegistry :=
  match q with
  | Locks f => match f r with (r, Some q) => exec q r | (r, None) => r end
  end.

(** A method of one section; [if let Some(pid) = stale_pid { untrack_awaiting(pid, id) }]. *)
Definition once (f : ConsumerRegistry -> ConsumerRegistry) : method := Locks (fun r => (f r, None)).

Definition untrack_then (pid : option Z) (id : Z) (next : option method) : option method :=
  match pid with
  | Some pid => Some (Locks (fun r => (untrack_awaiting pid id r, next)))
  | None => next
  end.

Definition remove_m (id : Z) : method := Locks (fun r =>
  match cr_inner r !! id with
  | None => (r, None)
  | Some e => ({| r with cr_inner := delete id (cr_inner r) |}, untrack_then (ce_assigned_producer_id e) id None)
  end).

Definition begin_cycle_m (id max_items : Z) (consumer_tag : string) (ts_ms : Z) : method := Locks (fun r =>
  match take_assigned id (cycle_sample ts_ms) r with
  | (None, r) => (r, None)
  | (Some stale_pid, r) =>
    (r, untrack_then stale_pid id (Some (once (with_entry id (fun e =>
      {| e with ce_max_batch_requested := Z.max max_items 1; ce_unacked := 0; ce_state := "matcher_queue";
                ce_consumer_tag := if String.eqb consumer_tag "" then ce_consumer_tag e else consumer_tag |})))))
  end).

Definition mark_awaiting_batch_m (id producer_id : Z) : method := Locks (fun r =>
  (with_entry id (fun e =>
     {| e with ce_assigned_producer_id := Some producer_id; ce_state := "awaiting_batch" |}) r,
   Some (once (track_awaiting producer_id id)))).

Definition release_stale_assignments_m (producer_id keep_consumer_id : Z) : method := Locks (fun r =>
  let stale := default ∅ (cr_awaiting_by_producer r !! producer_id) ∖ {[keep_consumer_id]} in
  (r, if decide (stale = ∅) then None
      else Some (Locks (fun r =>
        (foldl (fun r cid => with_entry cid release_entry r) r (elements stale),
         Some (once (untrack_set producer_id stale))))))).

Definition set_phase_m (id : Z) (state : string) : method := Locks (fun r =>
  if String.eqb state "awaiting_batch" then
    (r, match cr_inner r !! id with None => None | Some _ => Some (once (set_state id state)) end)
  else
    match take_assigned id (fun e => e) r with
    | (None, r) => (r, None)
    | (Some stale_pid, r) => (r, untrack_then stale_pid id (Some (once (set_state id state))))
    end).

Definition finish_batch_m (id msg_count batch_bytes ts_ms : Z) (empty : bool) : method := Locks (fun r =>
  match cr_inner r !! id with
  | None => (r, None)
  | Some e =>
    (if empty
     then with_entry id (fun e =>
            {| e with ce_unacked := 0; ce_assigned_producer_id := None; ce_state := "idle" |}) r
     else with_entry id (apply_batch_delivery msg_count batch_bytes ts_ms) r,
     untrack_then (ce_assigned_producer_id e) id None)
  end).

Definition unacked_total (r : ConsumerRegistry) : Z :=
  wrap 64 (foldr (fun kv acc => ce_unacked kv.2 + acc) 0 (map_to_list (cr_inner r))).

(** *** The dashboard rows *)

Record ConsumerRow :=
  { crow_id : Z; crow_consumer_tag : string; crow_addr : string; crow_data_addr : string;
    crow_state : string; crow_batches_per_sec : f64; crow_bytes_per_sec : f64; crow_unacked : Z;
    crow_last_batch_items : Z; crow_last_batch_bytes : Z; crow_connected_secs : Z;
    crow_capacity_pct : f64; crow_ready_cycle_ms : f64; crow_avg_batch_items : f64;
    crow_max_batch_requested : Z; crow_assigned_producer_id : option Z }.

Definition refresh_rates (now_ms : Z) (e : ConsumerEntry) : ConsumerEntry :=
  let prev := ce_rate_sample e in
  let dt := fdiv (of_int (now_ms - rs_ts_ms prev)) (of_int 1000) in
  let e :=
    if (0 <? rs_ts_ms prev) && (rs_ts_ms prev <? now_ms) && fltb f0 dt then
      {| e with
         ce_batches_per_sec := fdiv (of_int (sat_sub (ce_rate_batches e) (rs_batches prev))) dt;
         ce_bytes_per_sec := fdiv (of_int (sat_sub (ce_rate_bytes e) (rs_bytes prev))) dt |}
    else e in
  {| e with ce_rate_sample :=
       {| rs_ts_ms := now_ms; rs_batches := ce_rate_batches e; rs_bytes := ce_rate_bytes e |} |}.

Definition entry_batch_items (e : ConsumerEntry) : f64 :=
  effective_batch_items (ce_batch_items_ema e) (ce_last_batch_items e) (ce_max_batch_requested e).

Definition capacity_input (e : ConsumerEntry) : ConsumerCapacityInput :=
  {| ci_batch_items := entry_batch_items e; ci_cycle_ms := effective_cycle_ms (ce_process_time_ema_ms e) |}.

Definition consumer_row (now_secs consumer_count : Z) (demand : f64) (id : Z) (e : ConsumerEntry) : ConsumerRow :=
  {| crow_id := id; crow_consumer_tag := ce_consumer_tag e; crow_addr := ce_addr e;
     crow_data_addr := ce_data_addr e; crow_state := ce_state e;
     crow_batches_per_sec := ce_batches_per_sec e; crow_bytes_per_sec := ce_bytes_per_sec e;
     crow_unacked := ce_unacked e; crow_last_batch_items := ce_last_batch_items e;
     crow_last_batch_bytes := ce_last_batch_bytes e;
     crow_connected_secs := sat_sub now_secs (ce_connected_at e);
     crow_capacity_pct := per_consumer_capacity_model (entry_batch_items e)
       (effective_cycle_ms (ce_process_time_ema_ms e)) demand consumer_count;
     crow_ready_cycle_ms := ce_process_time_ema_ms e; crow_avg_batch_items := entry_batch_items e;
     crow_max_batch_requested := Z.max (ce_max_batch_requested e) 1;
     crow_assigned_producer_id := ce_assigned_producer_id e |}.

Definition crow_le (a b : ConsumerRow) : Prop := crow_id a <= crow_id b.

#[export] Instance crow_le_dec : RelDecision crow_le.
Proof. intros a b. unfold crow_le. apply _. Defined.

Definition list_with_capacity (now_secs now_ms : Z) (demand : f64) (r : ConsumerRegistry) :
    f64 * list ConsumerRow * ConsumerRegistry :=
  let r := {| r with cr_inner := refresh_rates now_ms <$> cr_inner r |} in
  let kvs := map_to_list (cr_inner r) in
  let global := global_capacity_model (map (fun kv => capacity_input kv.2) kvs) demand in
  let rows := map (fun kv => consumer_row now_secs (Z.of_nat (length kvs)) demand kv.1 kv.2) kvs in
  (global, merge_sort crow_le rows, r).

(** ** The invariant *)

Definition awaiting (p : Z) (r : ConsumerRegistry) : gset Z :=
  default ∅ (cr_awaiting_by_producer r !! p).

Definition assigned (c : Z) (r : ConsumerRegistry) : option Z :=
  cr_inner r !! c ≫= ce_assigned_producer_id.

Definition AWAITING : string := "awaiting_batch".

(** The index and the table say the same: a consumer is in a producer's set
    exactly when that producer's batch is what it awaits, only a consumer in
    phase [awaiting_batch] awaits one, no set is empty, and ids are below the next. *)
Record consumers_ok (r : ConsumerRegistry) : Prop :=
  { co_index : forall p c, c ∈ awaiting p r <-> assigned c r = Some p;
    co_phase : forall c e, cr_inner r !! c = Some e ->
      ce_assigned_producer_id e <> None -> ce_state e = AWAITING;
    co_sets : forall p s, cr_awaiting_by_producer r !! p = Some s -> s <> ∅;
    co_ids : forall id, is_Some (cr_inner r !! id) -> 1 <= id < cr_next_id r;
    co_next : 1 <= cr_next_id r <= umax 64 }.

(** ** Lemmas *)

Lemma awaiting_track p c q r :
  awaiting q (track_awaiting p c r) = if decide (q = p) then {[c]} ∪ awaiting p r else awaiting q r.
Proof.
  unfold awaiting, track_awaiting. cbn [cr_awaiting_by_producer]. rewrite lookup_insert.
  repeat case_decide; subst; done.
Qed.

Lemma awaiting_untrack p g q r :
  awaiting q (untrack_set p g r) = if decide (q = p) then awaiting p r ∖ g else awaiting q r.
Proof.
  unfold awaiting, untrack_set. destruct (cr_awaiting_by_producer r !! p) as [s|] eqn:Hs.
  - cbn [cr_awaiting_by_producer]. destruct (decide (s ∖ g = ∅)) as [He|He].
    + rewrite lookup_delete. repeat case_decide; subst; try congruence. done.
    + rewrite lookup_insert. repeat case_decide; subst; try congruence. done.
  - case_decide; [|done]. subst. rewrite Hs. cbn. set_solver.
Qed.

Lemma untrack_inner p g r : cr_inner (untrack_set p g r) = cr_inner r.
Proof. unfold untrack_set. by destruct (cr_awaiting_by_producer r !! p). Qed.

Lemma untrack_next p g r : cr_next_id (untrack_set p g r) = cr_next_id r.
Proof. unfold untrack_set. by destruct (cr_awaiting_by_producer r !! p). Qed.

Definition sets_ok (r : ConsumerRegistry) : Prop :=
  forall p s, cr_awaiting_by_producer r !! p = Some s -> s <> ∅.

Lemma untrack_sets p g r : sets_ok r -> sets_ok (untrack_set p g r).
Proof.
  intros Hr q s. unfold untrack_set. destruct (cr_awaiting_by_producer r !! p) as [s0|] eqn:Hs; [|apply Hr].
  cbn [cr_awaiting_by_producer]. destruct (decide (s0 ∖ g = ∅)) as [He|He].
  - intros [_ ?]%lookup_delete_Some. by eapply Hr.
  - intros [[<- <-]|[_ ?]]%lookup_insert_Some; [done|by eapply Hr].
Qed.

Lemma track_sets p c r : sets_ok r -> sets_ok (track_awaiting p c r).
Proof.
  intros Hr q s. unfold track_awaiting. cbn [cr_awaiting_by_producer].
  intros [[<- <-]|[_ ?]]%lookup_insert_Some; [set_solver|by eapply Hr].
Qed.

Lemma assigned_with_entry c id f r :
  assigned c (with_entry id f r) =
    if decide (c = id) then cr_inner r !! id ≫= (fun e => ce_assigned_producer_id (f e)) else assigned c r.
Proof.
  unfold assigned, with_entry. cbn [cr_inner]. destruct (decide (c = id)) as [->|Hne].
  - rewrite lookup_alter_eq. by destruct (cr_inner r !! id).
  - by rewrite lookup_alter_ne.
Qed.

Lemma consumer_entry_lookup id f r c e :
  cr_inner (with_entry id f r) !! c = Some e <->
  (c = id /\ exists e0, cr_inner r !! id = Some e0 /\ e = f e0) \/ (c <> id /\ cr_inner r !! c = Some e).
Proof.
  unfold with_entry. cbn [cr_inner]. rewrite lookup_alter_Some.
  split; (intros [(-> & e0 & ? & ?)|[? ?]]; [left|right]); eauto.
Qed.

Lemma with_entry_ids id f r :
  (forall j, is_Some (cr_inner r !! j) -> 1 <= j < cr_next_id r) ->
  forall j, is_Some (cr_inner (with_entry id f r) !! j) -> 1 <= j < cr_next_id (with_entry id f r).
Proof.
  intros Hi j Hj. apply Hi. unfold with_entry in Hj. cbn [cr_inner] in Hj. by rewrite lookup_alter_is_Some in Hj.
Qed.

(** An update that leaves the assignment alone, and the phase of a consumer that
    has one. *)
Lemma with_entry_keep id f r :
  (forall e, ce_assigned_producer_id (f e) = ce_assigned_producer_id e) ->
  (forall e, cr_inner r !! id = Some e -> ce_assigned_producer_id e <> None -> ce_state (f e) = ce_state e) ->
  consumers_ok r -> consumers_ok (with_entry id f r).
Proof.
  intros Ha Hs [Hi Hp He Hd Hx]. constructor; [| |done|by apply with_entry_ids|done].
  - intros p c. rewrite assigned_with_entry. change (awaiting p (with_entry id f r)) with (awaiting p r).
    rewrite Hi. destruct (decide (c = id)) as [->|]; [|done]. unfold assigned. by destruct (cr_inner r !! id) as [e|]; cbn; rewrite ?Ha.
  - intros c e [(-> & e0 & He0 & ->)|[_ ?]]%consumer_entry_lookup; [|by eapply Hp].
    rewrite Ha. intros Hne. rewrite Hs by done. by eapply Hp.
Qed.

Lemma untrack_stale_fields pid id r :
  cr_inner (untrack_stale pid id r) = cr_inner r /\ cr_next_id (untrack_stale pid id r) = cr_next_id r /\
  (sets_ok r -> sets_ok (untrack_stale pid id r)) /\
  (forall p c, c ∈ awaiting p (untrack_stale pid id r) <-> c ∈ awaiting p r /\ ~ (pid = Some p /\ c = id)).
Proof.
  destruct pid as [q|]; cbn [untrack_stale].
  - unfold untrack_awaiting. split_and!; [apply untrack_inner|apply untrack_next|apply untrack_sets|].
    intros p c. rewrite awaiting_untrack. case_decide; subst; [|naive_solver].
    rewrite elem_of_difference, elem_of_singleton. naive_solver.
  - split_and!; [done|done|done|]. naive_solver.
Qed.

(** Once its assignment is gone from the table and from the index, whatever else
    happened to the entry, the registry is consistent. *)
Lemma unassign_ok id f r :
  (forall e, ce_assigned_producer_id (f e) = None) -> consumers_ok r ->
  consumers_ok (untrack_stale (assigned id r) id (with_entry id f r)).
Proof.
  intros Hf [Hi Hp He Hd Hx].
  destruct (untrack_stale_fields (assigned id r) id (with_entry id f r)) as (Hin & Hnx & Hst & Haw).
  constructor.
  - intros p c. rewrite Haw. unfold assigned at 2. rewrite Hin. fold (assigned c (with_entry id f r)).
    rewrite assigned_with_entry. change (awaiting p (with_entry id f r)) with (awaiting p r). rewrite Hi.
    destruct (decide (c = id)) as [->|Hc]; [|naive_solver]. split.
    + intros [Hasg Hn]. by destruct Hn.
    + destruct (cr_inner r !! id) as [e|]; cbn; [by rewrite Hf|done].
  - rewrite Hin. intros c e [(-> & e0 & He0 & ->)|[_ ?]]%consumer_entry_lookup; [by rewrite Hf|by eapply Hp].
  - apply Hst. exact He.
  - rewrite Hin, Hnx. by apply with_entry_ids.
  - by rewrite Hnx.
Qed.

Lemma take_assigned_spec id f r :
  take_assigned id f r =
    match cr_inner r !! id with
    | None => (None, r)
    | Some e => (Some (assigned id r),
                 with_entry id (fun e => let e := f e in {| e with ce_assigned_producer_id := None |}) r)
    end.
Proof. unfold take_assigned, assigned. by destruct (cr_inner r !! id). Qed.

Lemma unassigned_entry pid id f r e :
  (forall e, ce_assigned_producer_id (f e) = None) ->
  cr_inner (untrack_stale pid id (with_entry id f r)) !! id = Some e -> ce_assigned_producer_id e = None.
Proof.
  intros Hf. destruct (untrack_stale_fields pid id (with_entry id f r)) as (-> & _).
  intros [(_ & e0 & _ & ->)|[? _]]%consumer_entry_lookup; [apply Hf|done].
Qed.

Lemma begin_cycle_ok id m tag ts r : consumers_ok r -> consumers_ok (begin_cycle id m tag ts r).
Proof.
  intros Hok. unfold begin_cycle. rewrite take_assigned_spec.
  destruct (cr_inner r !! id) as [e|]; [|done]. apply with_entry_keep; [done| |by apply unassign_ok].
  intros e' He' Hne. destruct Hne. by eapply unassigned_entry; [|exact He'].
Qed.

Lemma set_phase_ok id state r : state <> AWAITING -> consumers_ok r -> consumers_ok (set_phase id state r).
Proof.
  intros Hst Hok. unfold set_phase. destruct (String.eqb_spec state "awaiting_batch"); [done|].
  rewrite take_assigned_spec. destruct (cr_inner r !! id) as [e|]; [|done].
  apply with_entry_keep; [done| |by apply unassign_ok].
  intros e' He' Hne. destruct Hne. by eapply unassigned_entry; [|exact He'].
Qed.

Lemma finish_batch_ok id n b ts empty r : consumers_ok r -> consumers_ok (finish_batch id n b ts empty r).
Proof.
  intros Hok. unfold finish_batch. destruct (cr_inner r !! id) as [e|] eqn:He; [|done].
  assert (ce_assigned_producer_id e = assigned id r) as -> by (unfold assigned; by rewrite He).
  destruct empty; by apply unassign_ok.
Qed.

Lemma remove_consumer_ok id r : consumers_ok r -> consumers_ok (remove id r).
Proof.
  intros Hok. unfold remove. destruct (cr_inner r !! id) as [e|] eqn:He; [|done].
  assert (ce_assigned_producer_id e = assigned id r) as -> by (unfold assigned; by rewrite He).
  destruct Hok as [Hi Hp Hs Hd Hx].
  destruct (untrack_stale_fields (assigned id r) id {| r with cr_inner := delete id (cr_inner r) |})
    as (Hin & Hnx & Hst & Haw). cbn [cr_inner cr_next_id] in *.
  constructor.
  - intros p c. rewrite Haw. unfold assigned at 2. rewrite Hin, lookup_delete.
    change (awaiting p _) with (awaiting p r). rewrite Hi.
    destruct (decide (id = c)) as [<-|Hc]; [cbn|unfold assigned]; naive_solver.
  - rewrite Hin. intros c e' [_ ?]%lookup_delete_Some. by eapply Hp.
  - apply Hst. exact Hs.
  - rewrite Hin, Hnx. intros j [x [_ Hj]%lookup_delete_Some]. apply Hd. by exists x.
  - by rewrite Hnx.
Qed.

Lemma registered_consumer_ok addr data now r :
  consumers_ok r -> cr_next_id r < umax 64 -> consumers_ok (register addr data now r).2.
Proof.
  intros [Hi Hp Hs Hd Hx] Hlt. unfold register. cbn [snd].
  assert (cr_inner r !! cr_next_id r = None) as Hnone.
  { destruct (cr_inner r !! cr_next_id r) eqn:He; [|done]. specialize (Hd (cr_next_id r) ltac:(eauto)). lia. }
  assert (Hnext : wrap 64 (cr_next_id r + 1) = cr_next_id r + 1) by (apply wrap_small; unfold in_u; lia).
  constructor; cbn [cr_inner cr_next_id]; [| |exact Hs| |rewrite Hnext; lia].
  - intros p c. change (awaiting p _) with (awaiting p r). rewrite Hi. unfold assigned. cbn [cr_inner].
    rewrite lookup_insert. case_decide as Hc; [|done]. subst. rewrite Hnone. done.
  - intros c e [[<- <-]|[_ ?]]%lookup_insert_Some; [done|by eapply Hp].
  - intros j. rewrite Hnext. rewrite lookup_insert_is_Some. intros [<-|[_ Hj]]; [lia|]. specialize (Hd j Hj). lia.
Qed.

Lemma mark_awaiting_ok id p r :
  is_Some (cr_inner r !! id) -> (assigned id r = None \/ assigned id r = Some p) ->
  consumers_ok r -> consumers_ok (mark_awaiting_batch id p r).
Proof.
  intros [e He] Hasg [Hi Hp Hs Hd Hx]. unfold mark_awaiting_batch. set (f := fun e => _).
  constructor.
  - intros q c. rewrite awaiting_track. change (assigned c (track_awaiting p id ?r)) with (assigned c r).
    rewrite assigned_with_entry, He. change (awaiting ?q (with_entry id f r)) with (awaiting q r). cbn.
    repeat case_decide; subst; rewrite ?elem_of_union, ?elem_of_singleton, ?Hi; naive_solver.
  - intros c e' [(-> & e0 & He0 & ->)|[_ ?]]%consumer_entry_lookup; [done|by eapply Hp].
  - apply track_sets. exact Hs.
  - by apply with_entry_ids.
  - done.
Qed.

Lemma foldl_with_entry f l r :
  NoDup l ->
  let r' := foldl (fun r cid => with_entry cid f r) r l in
  (forall c, cr_inner r' !! c = if decide (c ∈ l) then f <$> cr_inner r !! c else cr_inner r !! c) /\
  cr_awaiting_by_producer r' = cr_awaiting_by_producer r /\ cr_next_id r' = cr_next_id r.
Proof.
  cbv zeta. revert r. induction l as [|i l IH]; intros r Hnd; cbn [foldl].
  { split_and!; [|done|done]. intros c. by rewrite decide_False by apply not_elem_of_nil. }
  apply NoDup_cons in Hnd as [Hi Hnd]. destruct (IH (with_entry i f r) Hnd) as (Hl & -> & ->).
  split_and!; [|done|done]. intros c. rewrite Hl. unfold with_entry. cbn [cr_inner].
  destruct (decide (c = i)) as [->|Hc].
  - rewrite decide_False, decide_True by (done || by left). apply lookup_alter_eq.
  - rewrite lookup_alter_ne by done. assert (c ∈ i :: l <-> c ∈ l) as Hel by set_solver.
    by rewrite (decide_ext _ _ _ _ Hel).
Qed.

(** What a release leaves: the stale consumers have no assignment any more, and
    of the producer's set only the consumer to keep is left. *)
Lemma release_spec p keep r :
  consumers_ok r ->
  let r' := release_stale_assignments p keep r in
  consumers_ok r' /\ cr_next_id r' = cr_next_id r /\
  (forall c, is_Some (cr_inner r' !! c) <-> is_Some (cr_inner r !! c)) /\
  (forall c, assigned c r' = if decide (assigned c r = Some p /\ c <> keep) then None else assigned c r) /\
  cr_inner r' !! keep = cr_inner r !! keep.
Proof.
  intros Hok. pose proof Hok as [Hi Hp Hs Hd Hx]. cbv zeta. unfold release_stale_assignments.
  change (default ∅ (cr_awaiting_by_producer r !! p)) with (awaiting p r).
  set (stale := awaiting p r ∖ {[keep]}).
  assert (Hstale : forall c, c ∈ stale <-> assigned c r = Some p /\ c <> keep).
  { intros c. unfold stale. by rewrite elem_of_difference, elem_of_singleton, Hi. }
  destruct (decide (stale = ∅)) as [He|He].
  { split_and!; try done. intros c. rewrite decide_False; [done|]. rewrite <- Hstale, He. apply not_elem_of_empty. }
  destruct (foldl_with_entry release_entry (elements stale) r (NoDup_elements stale)) as (Hl & Haw & Hnx).
  set (r1 := foldl _ r (elements stale)) in *.
  assert (Hrel : forall c e, c ∈ stale -> cr_inner r !! c = Some e ->
                   ce_assigned_producer_id (release_entry e) = None).
  { intros c e [Hc _]%Hstale Hce. unfold assigned in Hc. rewrite Hce in Hc. cbn in Hc.
    unfold release_entry. by rewrite (Hp c e Hce ltac:(congruence)). }
  assert (Hl' : forall c, cr_inner (untrack_set p stale r1) !! c =
            if decide (c ∈ stale) then release_entry <$> cr_inner r !! c else cr_inner r !! c).
  { intros c. rewrite untrack_inner, Hl. by rewrite (decide_ext _ _ _ _ (elem_of_elements stale c)). }
  assert (Hasg : forall c, assigned c (untrack_set p stale r1) =
            if decide (assigned c r = Some p /\ c <> keep) then None else assigned c r).
  { intros c. rewrite <- (decide_ext _ _ _ _ (Hstale c)). unfold assigned at 1. rewrite Hl'.
    case_decide as Hc; [|done]. destruct (cr_inner r !! c) as [e|] eqn:Hce; [|done]. cbn. by eapply Hrel. }
  split_and!; [|by rewrite untrack_next| |done|].
  - constructor.
    + intros q c. rewrite Hasg, awaiting_untrack.
      assert (Heq : forall q, awaiting q r1 = awaiting q r) by (intros q'; unfold awaiting; by rewrite Haw).
      rewrite !Heq. rewrite <- (decide_ext _ _ _ _ (Hstale c)).
      destruct (decide (q = p)) as [->|Hq]; rewrite ?elem_of_difference, Hi;
        destruct (decide (c ∈ stale)) as [Hc|Hc]; split; naive_solver.
    + intros c e He'. rewrite Hl' in He'. destruct (decide (c ∈ stale)) as [Hc|Hc]; [|by eapply Hp].
      destruct (cr_inner r !! c) as [e0|] eqn:Hce; [|done]. injection He' as <-. intros Hn. by rewrite (Hrel c e0) in Hn.
    + apply untrack_sets. intros q s. rewrite Haw. apply Hs.
    + intros j. rewrite untrack_next, Hnx, Hl'. intros Hj. apply Hd.
      case_decide; [by apply fmap_is_Some in Hj|done].
    + by rewrite untrack_next, Hnx.
  - intros c. rewrite Hl'. case_decide; [|done]. apply fmap_is_Some.
  - rewrite Hl', decide_False; [done|]. rewrite Hstale. by intros [_ ?].
Qed.

(** ** What a consumer's next ASGN is made of

    The tag and the data address of an entry have the lengths of a field read from
    the wire, or of the default tag. *)

Definition context_ok (e : ConsumerEntry) : Prop :=
  slen (ce_consumer_tag e) <= umax 16 /\ 1 <= slen (ce_data_addr e) <= umax 16.

Definition contexts_ok (r : ConsumerRegistry) : Prop := map_Forall (fun _ => context_ok) (cr_inner r).

Lemma with_entry_contexts id f r :
  (forall e, context_ok e -> context_ok (f e)) -> contexts_ok r -> contexts_ok (with_entry id f r).
Proof.
  intros Hf Hr c e [(_ & e0 & He0 & ->)|[_ ?]]%consumer_entry_lookup; [|by eapply Hr].
  apply Hf. by eapply Hr.
Qed.

Lemma untrack_contexts pid id r : contexts_ok r -> contexts_ok (untrack_stale pid id r).
Proof. unfold contexts_ok. by destruct (untrack_stale_fields pid id r) as (-> & _). Qed.

Lemma mark_contexts id p r : contexts_ok r -> contexts_ok (mark_awaiting_batch id p r).
Proof.
  intros Hr. unfold mark_awaiting_batch. set (f := fun e => _).
  change (contexts_ok (with_entry id f r)). by apply with_entry_contexts.
Qed.

Lemma release_contexts p keep r : contexts_ok r -> contexts_ok (release_stale_assignments p keep r).
Proof.
  intros Hr. unfold release_stale_assignments. destruct (decide _) as [_|_]; [done|].
  unfold contexts_ok. rewrite untrack_inner.
  match goal with |- context [elements ?s] => generalize (elements s) end. intros l.
  change (contexts_ok (foldl (fun r cid => with_entry cid release_entry r) r l)).
  revert r Hr. induction l as [|i l IH]; intros r Hr; [done|]. cbn [foldl]. apply IH.
  apply with_entry_contexts; [|done]. intros e He. unfold release_entry. by destruct (String.eqb _ _).
Qed.

Lemma take_assigned_contexts id f r :
  (forall e, context_ok e -> context_ok (f e)) -> contexts_ok r -> contexts_ok (take_assigned id f r).2.
Proof.
  intros Hf Hr. unfold take_assigned. destruct (cr_inner r !! id); [|done]. cbn [snd].
  apply with_entry_contexts; [|done]. intros e He. exact (Hf e He).
Qed.

Lemma cycle_sample_context ts e : context_ok e -> context_ok (cycle_sample ts e).
Proof. unfold cycle_sample. by destruct (_ && _). Qed.

Lemma set_phase_contexts id state r : contexts_ok r -> contexts_ok (set_phase id state r).
Proof.
  intros Hr. unfold set_phase, set_state. destruct (String.eqb _ _); [by apply with_entry_contexts|].
  pose proof (take_assigned_contexts id (fun e => e) r ltac:(done) Hr) as H.
  destruct (take_assigned id (fun e => e) r) as [[pid|] r1]; [|done].
  apply with_entry_contexts; [done|]. by apply untrack_contexts.
Qed.

Lemma begin_cycle_contexts id n tag ts r :
  slen tag <= umax 16 -> contexts_ok r -> contexts_ok (begin_cycle id n tag ts r).
Proof.
  intros Ht Hr. unfold begin_cycle.
  pose proof (take_assigned_contexts id (cycle_sample ts) r (cycle_sample_context ts) Hr) as H.
  destruct (take_assigned id (cycle_sample ts) r) as [[pid|] r1]; [|done].
  apply with_entry_contexts; [|by apply untrack_contexts].
  intros e [He1 He2]. split; [|exact He2]. cbn. by destruct (String.eqb tag "").
Qed.

Lemma finish_batch_contexts id n b ts empty r : contexts_ok r -> contexts_ok (finish_batch id n b ts empty r).
Proof.
  intros Hr. unfold finish_batch. destruct (cr_inner r !! id); [|done].
  apply untrack_contexts. destruct empty; apply with_entry_contexts; try done.
  intros e He. unfold apply_batch_delivery, update_batch_items_ema. by destruct (_ =? _).
Qed.

Lemma set_unacked_contexts id n r : contexts_ok r -> contexts_ok (set_unacked id n r).
Proof. by apply with_entry_contexts. Qed.

Lemma remove_contexts id r : contexts_ok r -> contexts_ok (remove id r).
Proof.
  intros Hr. unfold remove. destruct (cr_inner r !! id); [|done]. apply untrack_contexts.
  intros j e. cbn [cr_inner]. intros [_ ?]%lookup_delete_Some. by eapply Hr.
Qed.

(** A decimal number below [10^d] has at most [d] digits. *)
Lemma pretty_N_length d n s :
  (n < 10 ^ N.of_nat d)%N -> (String.length (pretty.pretty_N_go n s) <= d + String.length s)%nat.
Proof.
  revert n s. induction d as [|d IH]; intros n s Hn.
  { assert (n = 0%N) as -> by (simpl in Hn; lia). by rewrite pretty.pretty_N_go_0. }
  destruct (decide (n = 0%N)) as [->|Hnz]; [rewrite pretty.pretty_N_go_0; lia|].
  rewrite pretty.pretty_N_go_step by lia. etransitivity; [apply IH|simpl; lia].
  apply N.Div0.div_lt_upper_bound. rewrite Nat2N.inj_succ, N.pow_succ_r' in Hn. lia.
Qed.

Lemma length_as_bytes s : length (as_bytes s) = String.length s.
Proof.
  unfold as_bytes, list_byte_of_string. rewrite length_map.
  induction s as [|a s IH]; [done|]. cbn. by rewrite IH.
Qed.

Lemma length_append s t : String.length (s +:+ t) = (String.length s + String.length t)%nat.
Proof.
  induction s as [|a s IH]; [done|].
  change (S (String.length (s +:+ t)) = S (String.length s + String.length t)%nat). by rewrite IH.
Qed.

Lemma pretty_pos p : pretty (Z.pos p) = pretty.pretty_N_go (N.pos p) "".
Proof.
  unfold pretty, pretty.pretty_Z, pretty, pretty.pretty_positive, pretty, pretty.pretty_N.
  by rewrite decide_False.
Qed.

Lemma default_tag_length id : in_u 64 id -> slen (default_tag id) <= umax 16.
Proof.
  intros Hid. unfold slen, blen, default_tag. rewrite length_as_bytes, length_append.
  assert (Hl : (String.length (pretty id) <= 20)%nat).
  { destruct id as [|p|p]; [simpl; lia| |unfold in_u in Hid; lia]. rewrite pretty_pos.
    assert (Hp : (N.pos p < 18446744073709551616)%N) by (unfold in_u, umax in Hid; lia).
    change 20%nat with (20 + String.length "")%nat. apply pretty_N_length.
    eapply N.lt_le_trans; [exact Hp|]. by vm_compute. }
  change (String.length "consumer-") with 9%nat. unfold umax. lia.
Qed.

Lemma register_contexts addr data now r :
  1 <= slen data <= umax 16 -> in_u 64 (cr_next_id r) -> contexts_ok r -> contexts_ok (register addr data now r).2.
Proof.
  intros Hd Hn Hr cid e. unfold register. cbn [snd cr_inner].
  intros [[_ <-]|[_ ?]]%lookup_insert_Some; [|by eapply Hr].
  split; [by apply default_tag_length|done].
Qed.

Lemma new_contexts : contexts_ok new.
Proof. unfold contexts_ok. by apply map_Forall_empty. Qed.

#[export] Hint Resolve mark_contexts release_contexts set_phase_contexts begin_cycle_contexts
  finish_batch_contexts set_unacked_contexts remove_contexts register_contexts new_contexts : cupid.

(** *** Sections and methods *)

Lemma method_induction (P : method -> Prop) :
  (forall f, (forall r r' q, f r = (r', Some q) -> P q) -> P (Locks f)) -> forall q, P q.
Proof.
  intros H. fix F 1. intros [f]. apply H. intros r. destruct (f r) as [r1 [q1|]]; intros r' q E; [|discriminate].
  injection E as _ <-. apply F.
Qed.

Lemma exec_untrack_then pid id next r :
  match untrack_then pid id next with Some q => exec q r | None => r end =
  match next with Some q => exec q (untrack_stale pid id r) | None => untrack_stale pid id r end.
Proof. by destruct pid, next. Qed.

(** Without another task in between, the sections are the method. *)
Lemma exec_remove id r : exec (remove_m id) r = remove id r.
Proof. cbn. unfold remove. destruct (cr_inner r !! id); [apply exec_untrack_then|done]. Qed.

Lemma exec_begin_cycle id n tag ts r : exec (begin_cycle_m id n tag ts) r = begin_cycle id n tag ts r.
Proof.
  cbn. unfold begin_cycle. destruct (take_assigned _ _ _) as [[pid|] r1]; [|done]. apply exec_untrack_then.
Qed.

Lemma exec_mark_awaiting_batch id p r : exec (mark_awaiting_batch_m id p) r = mark_awaiting_batch id p r.
Proof. done. Qed.

Lemma exec_release_stale_assignments p keep r :
  exec (release_stale_assignments_m p keep) r = release_stale_assignments p keep r.
Proof. cbn. unfold release_stale_assignments. by case_decide. Qed.

Lemma exec_set_phase id state r : exec (set_phase_m id state) r = set_phase id state r.
Proof.
  cbn. unfold set_phase. destruct (String.eqb _ _).
  - destruct (cr_inner r !! id) eqn:He; [done|]. unfold set_state, with_entry.
    destruct r as [nx inn aw]. cbn in *. f_equal. apply map_eq. intros j.
    destruct (decide (j = id)) as [->|]; [by rewrite lookup_alter_eq, He|by rewrite lookup_alter_ne].
  - destruct (take_assigned _ _ _) as [[pid|] r1]; [|done]. apply exec_untrack_then.
Qed.

Lemma exec_finish_batch id n b ts empty r :
  exec (finish_batch_m id n b ts empty) r = finish_batch id n b ts empty r.
Proof. cbn. unfold finish_batch. destruct (cr_inner r !! id); [apply exec_untrack_then|done]. Qed.

(** ** Properties *)

(** The operations that change the table, with whatever arguments; an id is a
    64-bit number, and [register] is not called once it would wrap.  [set_state] is
    not among them: nothing calls it, and it breaks what follows
    ([set_state_uncovers]). *)
Inductive plain_step : ConsumerRegistry -> ConsumerRegistry -> Prop :=
| cs_register addr data now r :
    cr_next_id r < umax 64 -> plain_step r (register addr data now r).2
| cs_remove id r : plain_step r (remove id r)
| cs_set_consumer_tag id tag r : plain_step r (set_consumer_tag id tag r)
| cs_on_ready id m ts r : plain_step r (on_ready id m ts r)
| cs_set_unacked id n r : plain_step r (set_unacked id n r)
| cs_begin_cycle id m tag ts r : plain_step r (begin_cycle id m tag ts r)
| cs_release p keep r : plain_step r (release_stale_assignments p keep r)
| cs_set_phase id state r : plain_step r (set_phase id state r)
| cs_finish id n b ts empty r : plain_step r (finish_batch id n b ts empty r)
| cs_list secs ms demand r : plain_step r (list_with_capacity secs ms demand r).2.

(** With the two operations that do not keep the index exact by themselves:
    [mark_awaiting_batch] does not test that the consumer is connected and awaits
    nobody else, and [record_batch] clears an assignment without the index. *)
Inductive consumers_step : ConsumerRegistry -> ConsumerRegistry -> Prop :=
| cs_plain r r' : plain_step r r' -> consumers_step r r'
| cs_mark id p r : consumers_step r (mark_awaiting_batch id p r)
| cs_record_batch id n b ts r : consumers_step r (record_batch id n b ts r).

(** As the matchmaker calls them, which marks only consumers from its queue
    ([Matchmaker.mo_connected]) and never uses [record_batch]. *)
Inductive matcher_step : ConsumerRegistry -> ConsumerRegistry -> Prop :=
| ms_plain r r' : plain_step r r' -> matcher_step r r'
| ms_mark id p r : is_Some (cr_inner r !! id) -> (assigned id r = None \/ assigned id r = Some p) ->
    matcher_step r (mark_awaiting_batch id p r).

(** What every operation keeps: the index has every assignment of the table. *)
Record index_covers (r : ConsumerRegistry) : Prop :=
  { ic_index : forall p c, assigned c r = Some p -> c ∈ awaiting p r;
    ic_phase : forall c e, cr_inner r !! c = Some e ->
      ce_assigned_producer_id e <> None -> ce_state e = AWAITING;
    ic_sets : sets_ok r;
    ic_ids : forall id, is_Some (cr_inner r !! id) -> 1 <= id < cr_next_id r;
    ic_next : 1 <= cr_next_id r <= umax 64 }.

Lemma covers_with_entry id f r :
  (forall e, cr_inner r !! id = Some e ->
     ce_assigned_producer_id (f e) = None \/
     (ce_assigned_producer_id (f e) = ce_assigned_producer_id e /\
      (ce_assigned_producer_id e <> None -> ce_state e = AWAITING -> ce_state (f e) = AWAITING))) ->
  index_covers r -> index_covers (with_entry id f r).
Proof.
  intros Hf [Hi Hp Hs Hd Hx]. constructor; [| |done|by apply with_entry_ids|done].
  - intros p c. rewrite assigned_with_entry. change (awaiting p (with_entry id f r)) with (awaiting p r).
    case_decide as Hc; [subst c|apply Hi]. intros Ha. apply Hi. unfold assigned.
    destruct (cr_inner r !! id) as [e|]; [|done]. cbn in *. destruct (Hf e eq_refl) as [?|[? _]]; congruence.
  - intros c e [(-> & e0 & He0 & ->)|[_ ?]]%consumer_entry_lookup; [|by eapply Hp].
    destruct (Hf e0 He0) as [->|[-> Hst]]; [done|]. intros Hn. apply Hst; [done|]. by eapply Hp.
Qed.

Lemma covers_untrack pid id r : assigned id r = None -> index_covers r -> index_covers (untrack_stale pid id r).
Proof.
  intros Hn [Hi Hp Hs Hd Hx]. destruct (untrack_stale_fields pid id r) as (Hin & Hnx & Hst & Haw).
  constructor; rewrite ?Hin, ?Hnx; try done; [|by apply Hst].
  intros p c Hc. apply Haw. unfold assigned in Hc. rewrite Hin in Hc. split; [by apply Hi|].
  intros [_ ->]. unfold assigned in Hn. congruence.
Qed.

Lemma covers_unassign pid id f r :
  (forall e, ce_assigned_producer_id (f e) = None) -> index_covers r ->
  index_covers (untrack_stale pid id (with_entry id f r)).
Proof.
  intros Hf Hr. apply covers_untrack; [|by apply covers_with_entry; [left|]].
  rewrite assigned_with_entry, decide_True by done. destruct (cr_inner r !! id); [apply Hf|done].
Qed.

(** [take_assigned], the index, and then the rest of the entry. *)
Lemma covers_cycle id f g r :
  (forall e, ce_assigned_producer_id (g e) = ce_assigned_producer_id e) -> index_covers r ->
  index_covers (match take_assigned id f r with
                | (None, r) => r
                | (Some pid, r) => with_entry id g (untrack_stale pid id r)
                end).
Proof.
  intros Hg Hr. rewrite take_assigned_spec. destruct (cr_inner r !! id) as [e|]; [|done].
  apply covers_with_entry; [|by apply covers_unassign].
  intros e' He'. left. rewrite Hg. by eapply unassigned_entry; [|exact He'].
Qed.

Lemma covers_release p keep r : index_covers r -> index_covers (release_stale_assignments p keep r).
Proof.
  intros Hr. unfold release_stale_assignments.
  change (default ∅ (cr_awaiting_by_producer r !! p)) with (awaiting p r).
  set (stale := awaiting p r ∖ {[keep]}). destruct (decide (stale = ∅)) as [|_]; [done|].
  destruct (foldl_with_entry release_entry (elements stale) r (NoDup_elements stale)) as (Hl & Haw & Hnx).
  set (r1 := foldl _ r (elements stale)) in *. destruct Hr as [Hi Hp Hs Hd Hx].
  assert (Hent : forall c e, cr_inner r1 !! c = Some e -> exists e0, cr_inner r !! c = Some e0 /\
    (ce_assigned_producer_id e <> None -> c ∉ stale /\ e = e0)).
  { intros c e. rewrite Hl. case_decide as Hc; [|intros He; rewrite elem_of_elements in Hc; by exists e].
    destruct (cr_inner r !! c) as [e0|] eqn:He0; [|done]. cbn. intros [= <-]. exists e0. split; [done|].
    unfold release_entry. destruct (String.eqb_spec (ce_state e0) "awaiting_batch") as [|Hne]; [done|].
    intros Hn. destruct Hne. by apply (Hp c). }
  constructor; rewrite ?untrack_inner, ?untrack_next, ?Hnx.
  - intros q c. unfold assigned. rewrite untrack_inner, awaiting_untrack.
    destruct (cr_inner r1 !! c) as [e|] eqn:He; [|done]. cbn. intros Ha.
    destruct (Hent c e He) as (e0 & He0 & Hk). destruct Hk as [Hc ->]; [congruence|].
    assert (c ∈ awaiting q r) as Hq by (apply Hi; unfold assigned; by rewrite He0).
    unfold awaiting in *. rewrite Haw. case_decide as Hpq; [subst q; set_solver|done].
  - intros c e He Hn. destruct (Hent c e He) as (e0 & He0 & Hk). destruct (Hk Hn) as [_ ->]. by eapply Hp.
  - apply untrack_sets. intros q x. rewrite Haw. apply Hs.
  - intros c [e He]. destruct (Hent c e He) as (e0 & He0 & _). apply Hd. by exists e0.
  - done.
Qed.

Lemma covers_register addr data now r :
  cr_next_id r < umax 64 -> index_covers r -> index_covers (register addr data now r).2.
Proof.
  intros Hlt [Hi Hp Hs Hd Hx]. unfold register. cbn [snd].
  assert (Hnext : wrap 64 (cr_next_id r + 1) = cr_next_id r + 1) by (apply wrap_small; unfold in_u; lia).
  constructor; cbn [cr_inner cr_next_id]; [| |exact Hs| |rewrite Hnext; lia].
  - intros p c. unfold assigned. cbn [cr_inner]. rewrite lookup_insert. case_decide as Hc; [done|apply Hi].
  - intros c e [[<- <-]|[_ ?]]%lookup_insert_Some; [done|by eapply Hp].
  - intros j. rewrite Hnext. rewrite lookup_insert_is_Some. intros [<-|[_ Hj]]; [lia|]. specialize (Hd j Hj). lia.
Qed.

Lemma covers_remove id r : index_covers r -> index_covers (remove id r).
Proof.
  intros Hr. unfold remove. destruct (cr_inner r !! id) as [e|] eqn:He; [|done].
  apply covers_untrack; [unfold assigned; cbn; by rewrite lookup_delete_eq|].
  destruct Hr as [Hi Hp Hs Hd Hx]. constructor; cbn [cr_inner cr_next_id]; try done.
  - intros p c. unfold assigned. cbn [cr_inner]. rewrite lookup_delete. case_decide; [done|apply Hi].
  - intros c e' [_ ?]%lookup_delete_Some. by eapply Hp.
  - intros j [x [_ Hj]%lookup_delete_Some]. apply Hd. by exists x.
Qed.

Lemma covers_mark id p r : index_covers r -> index_covers (mark_awaiting_batch id p r).
Proof.
  intros [Hi Hp Hs Hd Hx]. unfold mark_awaiting_batch. set (f := fun e => _).
  constructor; [| |by apply track_sets|by apply with_entry_ids|done].
  - intros q c. rewrite awaiting_track. change (assigned c (track_awaiting p id ?r)) with (assigned c r).
    rewrite assigned_with_entry. change (awaiting ?q (with_entry id f r)) with (awaiting q r).
    destruct (decide (c = id)) as [->|Hc].
    + destruct (cr_inner r !! id); [|done]. cbn. intros [= <-]. rewrite decide_True by done. set_solver.
    + intros Ha%Hi. case_decide; [subst; set_solver|done].
  - intros c e' [(-> & e0 & He0 & ->)|[_ ?]]%consumer_entry_lookup; [done|by eapply Hp].
Qed.

(** The dashboard's rates: no entry is assigned or moved to a phase. *)
Lemma refresh_rates_keeps ms e :
  ce_assigned_producer_id (refresh_rates ms e) = ce_assigned_producer_id e /\
  ce_state (refresh_rates ms e) = ce_state e.
Proof. unfold refresh_rates. by destruct (_ && _). Qed.

Lemma list_entries secs ms demand r :
  let r' := (list_with_capacity secs ms demand r).2 in
  cr_awaiting_by_producer r' = cr_awaiting_by_producer r /\ cr_next_id r' = cr_next_id r /\
  (forall c, assigned c r' = assigned c r) /\
  (forall c e, cr_inner r' !! c = Some e -> exists e0, cr_inner r !! c = Some e0 /\ e = refresh_rates ms e0).
Proof.
  cbn. split_and!; [done|done| |].
  - intros c. unfold assigned. cbn [cr_inner]. rewrite lookup_fmap. destruct (cr_inner r !! c) as [e|]; [|done].
    cbn. apply refresh_rates_keeps.
  - intros c e. rewrite lookup_fmap. intros (e0 & -> & ?)%fmap_Some. by exists e0.
Qed.

Lemma set_phase_AWAITING id r : set_phase id AWAITING r = with_entry id (fun e => {| e with ce_state := AWAITING |}) r.
Proof. done. Qed.

Lemma plain_step_covers r r' : plain_step r r' -> index_covers r -> index_covers r'.
Proof.
  intros Hs Hr. revert Hr. destruct Hs; intros Hr.
  - by apply covers_register.
  - by apply covers_remove.
  - unfold set_consumer_tag. destruct (String.eqb _ _); [done|]. apply covers_with_entry; [by right|done].
  - unfold on_ready, cycle_sample. apply covers_with_entry; [|done]. intros e _. right. by destruct (_ && _).
  - apply covers_with_entry; [by right|done].
  - by apply covers_cycle.
  - by apply covers_release.
  - destruct (decide (state = AWAITING)) as [->|Hst].
    { rewrite set_phase_AWAITING. apply covers_with_entry; [by right|done]. }
    unfold set_phase. destruct (String.eqb_spec state "awaiting_batch"); [done|]. by apply covers_cycle.
  - unfold finish_batch. destruct (cr_inner r !! id); [|done].
    destruct empty; (apply covers_unassign; [|done]); intros e; [done|].
    unfold apply_batch_delivery. done.
  - destruct (list_entries secs ms demand r) as (Ha & Hn & Has & He). destruct Hr as [Hi Hp Hs Hd Hx].
    constructor; rewrite ?Hn.
    + intros p j. unfold awaiting. rewrite Has, Ha. apply Hi.
    + intros j e Hj. destruct (He j e Hj) as (e0 & He0 & ->). destruct (refresh_rates_keeps ms e0) as [-> ->].
      by apply (Hp j).
    + intros p x. rewrite Ha. apply Hs.
    + intros j [e Hj]. destruct (He j e Hj) as (e0 & He0 & _). apply Hd. by exists e0.
    + done.
Qed.

Lemma consumers_step_covers r r' : index_covers r -> consumers_step r r' -> index_covers r'.
Proof.
  intros Hr Hs. destruct Hs as [r r' Hs|id p r|id n b ts r]; [by eapply plain_step_covers|by apply covers_mark|].
  apply covers_with_entry; [by left|done].
Qed.

Lemma set_unacked_ok id n r : consumers_ok r -> consumers_ok (set_unacked id n r).
Proof. by apply with_entry_keep. Qed.

Lemma new_consumers_ok : consumers_ok new.
Proof.
  constructor; cbn.
  - intros p c. unfold awaiting, assigned. cbn. rewrite !lookup_empty. cbn. split; [set_solver|done].
  - intros c e. by rewrite lookup_empty.
  - intros p s. by rewrite lookup_empty.
  - intros id [x Hx]. by rewrite lookup_empty in Hx.
  - unfold umax. lia.
Qed.

Lemma plain_step_ok r r' : plain_step r r' -> consumers_ok r -> consumers_ok r'.
Proof.
  intros Hs Hok. revert Hok. destruct Hs; intros Hok.
  - by apply registered_consumer_ok.
  - by apply remove_consumer_ok.
  - unfold set_consumer_tag. destruct (String.eqb _ _); [done|]. by apply with_entry_keep.
  - unfold on_ready, cycle_sample. apply with_entry_keep; [intros e|intros e _ _|done]; by destruct (_ && _).
  - by apply set_unacked_ok.
  - by apply begin_cycle_ok.
  - by apply release_spec.
  - destruct (decide (state = AWAITING)) as [->|Hst]; [|by apply set_phase_ok].
    rewrite set_phase_AWAITING. apply with_entry_keep; [done| |done]. intros e He Hn. symmetry. by eapply co_phase.
  - by apply finish_batch_ok.
  - destruct (list_entries secs ms demand r) as (Ha & _ & Has & _).
    pose proof (plain_step_covers _ _ (cs_list secs ms demand r)) as Hc.
    assert (index_covers r) as [_ H1 H2 H3 H4]%Hc.
    { destruct Hok as [Hi ? ? ? ?]. constructor; try done. intros p c. apply Hi. }
    constructor; try done. intros p c. unfold awaiting. rewrite Has, Ha. apply Hok.
Qed.

Lemma matcher_step_ok r r' : consumers_ok r -> matcher_step r r' -> consumers_ok r'.
Proof.
  intros Hok Hs. destruct Hs as [r r' Hs|id p r Hid Hp]; [by eapply plain_step_ok|by apply mark_awaiting_ok].
Qed.

Lemma consumers_ok_covers r : consumers_ok r -> index_covers r.
Proof. intros [Hi ? ? ? ?]. constructor; try done. intros p c. apply Hi. Qed.

(** Why [set_state] and [record_batch] are apart: the first lets an assignment be
    forgotten by the index, the second leaves one in it. *)
Example set_state_uncovers :
  let r := mark_awaiting_batch 1 7 (register "c" "h:1" 0 new).2 in
  let r' := release_stale_assignments 7 2 (set_state 1 "idle" r) in
  consumers_ok r /\ assigned 1 r' = Some 7 /\ awaiting 7 r' = ∅.
Proof.
  cbv zeta. split; [|vm_compute; done].
  apply mark_awaiting_ok; [eexists; vm_compute; reflexivity|left; vm_compute; reflexivity|].
  apply registered_consumer_ok; [apply new_consumers_ok|vm_compute; reflexivity].
Qed.

Example record_batch_strands :
  let r := mark_awaiting_batch 1 7 (register "c" "h:1" 0 new).2 in
  let r' := record_batch 1 3 10 50 r in
  consumers_ok r /\ assigned 1 r' = None /\ 1 ∈ awaiting 7 r'.
Proof.
  cbv zeta. split_and!; [|vm_compute; done|vm_compute; done].
  apply mark_awaiting_ok; [eexists; vm_compute; reflexivity|left; vm_compute; reflexivity|].
  apply registered_consumer_ok; [apply new_consumers_ok|vm_compute; reflexivity].
Qed.

(** C10: the index from producers to consumers and the assignments in the table.
    Whatever operations the table goes through, in any order and with any
    arguments -- [set_state] apart, which nothing calls and which breaks this
    ([set_state_uncovers]) -- the index has every assignment, only consumers in phase
    [awaiting_batch] are assigned, no set of the index is empty, and ids are below
    the next ([index_covers]); so a release by producer never misses a consumer.
    As the matchmaker calls them the index and the table agree in both directions
    ([consumers_ok]): no consumer that awaits nothing is in it. *)
Theorem consumers_reachable_ok r :
  (star consumers_step new r -> index_covers r) /\ (star matcher_step new r -> consumers_ok r).
Proof.
  split; intros Hstar; (eapply star_invariant; [|exact Hstar|]).
  - apply consumers_step_covers.
  - apply consumers_ok_covers, new_consumers_ok.
  - apply matcher_step_ok.
  - apply new_consumers_ok.
Qed.

Definition demo_consumers : ConsumerRegistry :=
  let r := (register "c1" "h:1" 0 new).2 in
  let r := (register "c2" "h:2" 0 r).2 in
  begin_cycle 1 8 "tag" 50 r.

Lemma demo_consumers_reachable : star matcher_step new demo_consumers.
Proof.
  unfold demo_consumers. eapply star_snoc; [|apply ms_plain, cs_begin_cycle].
  do 2 (eapply star_snoc; [|apply ms_plain, cs_register; vm_compute; reflexivity]). apply star_refl.
Qed.

(** A consumer marked for two producers in turn, and the same table as the
    matchmaker would have it. *)
Lemma consumers_reachable_ok_witness :
  index_covers (mark_awaiting_batch 1 8 (mark_awaiting_batch 1 7 demo_consumers)) /\
  consumers_ok (mark_awaiting_batch 1 7 demo_consumers).
Proof.
  split.
  - apply (consumers_reachable_ok (mark_awaiting_batch 1 8 (mark_awaiting_batch 1 7 demo_consumers))).
    do 2 (eapply star_snoc; [|apply cs_mark]).
    unfold demo_consumers. eapply star_snoc; [|apply cs_plain, cs_begin_cycle].
    do 2 (eapply star_snoc; [|apply cs_plain, cs_register; vm_compute; reflexivity]). apply star_refl.
  - apply (consumers_reachable_ok (mark_awaiting_batch 1 7 demo_consumers)).
    eapply star_snoc; [apply demo_consumers_reachable|].
    apply ms_mark; [eexists; vm_compute; reflexivity|left; vm_compute; reflexivity].
Defined.

(** An assignment.  After the matcher has released the stale ones and marked
    the consumer, it is the only consumer that awaits the producer, the lookup by
    producer finds it and nobody else, and consumers of other producers are as
    they were. *)
Theorem assignment_exclusive p c r :
  consumers_ok r -> is_Some (cr_inner r !! c) -> (assigned c r = None \/ assigned c r = Some p) ->
  let r' := mark_awaiting_batch c p (release_stale_assignments p c r) in
  consumers_ok r' /\ (forall j, assigned j r' = Some p <-> j = c) /\
  find_id_by_assigned_producer p r' = Some c /\
  forall j q, q <> p -> j <> c -> (assigned j r' = Some q <-> assigned j r = Some q).
Proof.
  intros Hok Hc Hasg. destruct (release_spec p c r Hok) as (Hok1 & _ & Hdom & Has1 & _).
  set (r1 := release_stale_assignments p c r) in *. cbv zeta.
  assert (Hac : assigned c r1 = assigned c r) by (rewrite Has1, decide_False; [done|by intros [_ ?]]).
  assert (Hok2 : consumers_ok (mark_awaiting_batch c p r1)).
  { apply mark_awaiting_ok; [by apply Hdom|by rewrite Hac|done]. }
  assert (Hall : forall j, assigned j (mark_awaiting_batch c p r1) = if decide (j = c) then Some p else assigned j r1).
  { intros j. unfold mark_awaiting_batch. change (assigned j (track_awaiting p c ?x)) with (assigned j x).
    rewrite assigned_with_entry. case_decide; [|done]. by destruct (proj2 (Hdom c) Hc) as [e ->]. }
  assert (Hiff : forall j, assigned j (mark_awaiting_batch c p r1) = Some p <-> j = c).
  { intros j. rewrite Hall, Has1. repeat case_decide; naive_solver. }
  split_and!; [done|done| |].
  - unfold find_id_by_assigned_producer.
    set (m := cr_inner (mark_awaiting_batch c p r1)) in *.
    assert (Hel : forall kv, kv ∈ filter (fun kv => ce_assigned_producer_id kv.2 = Some p) (map_to_list m) -> kv.1 = c).
    { intros [j e] [Hp Hin]%list_elem_of_filter. apply elem_of_map_to_list in Hin. apply Hiff.
      unfold assigned. fold m. change ((m !! j ≫= ce_assigned_producer_id) = Some p). by rewrite Hin. }
    destruct (filter _ (map_to_list m)) as [|[j e] l] eqn:Hf.
    + exfalso. pose proof (proj2 (Hiff c) eq_refl) as Hpc. unfold assigned in Hpc. fold m in Hpc.
      destruct (m !! c) as [e|] eqn:Hm; [|done]. apply (not_elem_of_nil (c, e)). rewrite <- Hf.
      apply list_elem_of_filter. split; [done|]. by apply elem_of_map_to_list.
    + cbn. f_equal. apply (Hel (j, e)). by left.
  - intros j q Hq Hj. rewrite Hall, Has1, decide_False by done. case_decide; [|done]. naive_solver.
Qed.

Lemma assignment_exclusive_witness :
  let r' := mark_awaiting_batch 1 7 (release_stale_assignments 7 1 demo_consumers) in
  consumers_ok r' /\ (forall j, assigned j r' = Some 7 <-> j = 1) /\
  find_id_by_assigned_producer 7 r' = Some 1 /\
  forall j q, q <> 7 -> j <> 1 -> (assigned j r' = Some q <-> assigned j demo_consumers = Some q).
Proof.
  apply assignment_exclusive; [|eexists; vm_compute; reflexivity|left; vm_compute; reflexivity].
  eapply star_invariant; [apply matcher_step_ok|apply demo_consumers_reachable|apply new_consumers_ok].
Defined.
