(* ===== verification/Metrics.v ===== *)
(** * Metrics ([metrics.rs], [tick_buffer.rs], [metrics_history.rs], [metrics_cache.rs])

    The master's counters, the bounded buffer of transfer ticks the dashboard
    drains, the bounded history of sampled rates and the snapshot.  Clocks are
    arguments; the two registries are passed to the snapshot. *)

From S2P Require Import Prelude Float64 Protocol Capacity.
From S2P Require Producers Consumers.

(** ** Capacity without a rate ([capacity.rs]) *)

(** [f64::clamp] *)
Definition fclamp (x lo hi : f64) : f64 := if fltb x lo then lo else if fltb hi x then hi else x.

Definition compute_consumer_capacity_fallback (consumers : list Consumers.ConsumerRow) (ready : Z) : f64 :=
  let n := Z.of_nat (length consumers) in
  if n =? 0 then f0
  else if ready =? 0 then of_int 100
  else
    let busy := Z.of_nat (length (filter (fun c => 0 < Consumers.crow_unacked c) consumers)) in
    fclamp (fmul (fdiv (of_int (n - busy)) (of_int n)) (of_int 100)) f0 (of_int 100).

(** ** The tick buffer *)

Definition TICK_BUFFER_CAP : Z := 65536.

Record TransferTick :=
  { tk_ts_ms : Z; tk_producer_id : Z; tk_consumer_id : Z; tk_msg_count : Z; tk_batch_bytes : Z;
    tk_phase : string; tk_ok : bool; tk_fail_message : option string;
    tk_producer_state : string; tk_consumer_state : string }.

Module TickBuffer.
Record t := { inner : list TransferTick; cap : Z }.

Definition new (cap : Z) : t := {| inner := []; cap := Z.max 1 (Z.min cap TICK_BUFFER_CAP) |}.

Definition push (tick : TransferTick) (b : t) : t :=
  let q := if cap b <=? Z.of_nat (length (inner b)) then tail (inner b) else inner b in
  {| b with inner := q ++ [tick] |}.

Definition drain (b : t) : list TransferTick * t := (inner b, {| b with inner := [] |}).

Definition len (b : t) : Z := Z.of_nat (length (inner b)).
End TickBuffer.

(** ** Counters *)

Record Metrics :=
  { me_start : Z; me_transfers_total : Z; me_transfer_bytes_total : Z; me_batches_total : Z;
    me_delivery_failures_total : Z; me_requeue_total : Z;
    me_last_backlog_messages : Z; me_last_backlog_ts_ms : Z; me_ticks : TickBuffer.t }.

Definition new (now_ms : Z) : Metrics :=
  {| me_start := now_ms; me_transfers_total := 0; me_transfer_bytes_total := 0; me_batches_total := 0;
     me_delivery_failures_total := 0; me_requeue_total := 0; me_last_backlog_messages := 0;
     me_last_backlog_ts_ms := 0; me_ticks := TickBuffer.new TICK_BUFFER_CAP |}.

Definition push_tick (now_ms producer_id consumer_id msg_count batch_bytes : Z) (phase : string) (ok : bool)
    (fail_message : option string) (producer_state consumer_state : string) (m : Metrics) : Metrics :=
  if consumer_id =? 0 then m
  else {| m with me_ticks := TickBuffer.push
            {| tk_ts_ms := now_ms; tk_producer_id := producer_id; tk_consumer_id := consumer_id;
               tk_msg_count := msg_count; tk_batch_bytes := batch_bytes; tk_phase := phase; tk_ok := ok;
               tk_fail_message := fail_message; tk_producer_state := producer_state;
               tk_consumer_state := consumer_state |} (me_ticks m) |}.

Definition record_assign_tick (now_ms producer_id consumer_id : Z) (producer_state consumer_state : string)
    (m : Metrics) : Metrics :=
  push_tick now_ms producer_id consumer_id 0 0 "assign" true None producer_state consumer_state m.

Definition record_transfer (msg_count batch_bytes : Z) (m : Metrics) : Metrics :=
  {| m with me_transfers_total := wrap 64 (me_transfers_total m + msg_count);
            me_transfer_bytes_total := wrap 64 (me_transfer_bytes_total m + batch_bytes);
            me_batches_total := wrap 64 (me_batches_total m + 1) |}.

Definition record_delivery_failure (msg_count : Z) (m : Metrics) : Metrics :=
  {| m with me_delivery_failures_total := wrap 64 (me_delivery_failures_total m + 1);
            me_requeue_total := wrap 64 (me_requeue_total m + msg_count) |}.

Definition record_transfer_tick (now_ms producer_id consumer_id msg_count batch_bytes : Z) (ok : bool)
    (fail_message : option string) (producer_state consumer_state : string) (m : Metrics) : Metrics :=
  if consumer_id =? 0 then m
  else
    let phase := if ok then "deliver"%string else "fail"%string in
    if ok && (msg_count =? 0) then m
    else
      let m := if ok then record_transfer msg_count batch_bytes m else record_delivery_failure msg_count m in
      push_tick now_ms producer_id consumer_id msg_count batch_bytes phase ok fail_message
        producer_state consumer_state m.

Definition drain_ticks (m : Metrics) : list TransferTick * Metrics :=
  let '(ticks, b) := TickBuffer.drain (me_ticks m) in (ticks, {| m with me_ticks := b |}).

Definition ticks_buffered (m : Metrics) : Z := TickBuffer.len (me_ticks m).

Definition uptime_secs (now_ms : Z) (m : Metrics) : Z := sat_sub now_ms (me_start m) / 1000.

Definition compute_backlog_growth_per_sec (backlog now_ms : Z) (m : Metrics) : f64 * Metrics :=
  let last_ts := me_last_backlog_ts_ms m in
  let last_backlog := me_last_backlog_messages m in
  let m := {| m with me_last_backlog_messages := backlog; me_last_backlog_ts_ms := now_ms |} in
  if (last_ts =? 0) || (now_ms <=? last_ts) then (f0, m)
  else
    let dt := fdiv (of_int (now_ms - last_ts)) (of_int 1000) in
    if fleb dt f0 then (f0, m)
    else (fdiv (fsub (of_int backlog) (of_int last_backlog)) dt, m).

(** ** The snapshot *)

Record MetricsSnapshot :=
  { sn_ts_ms : Z; sn_uptime_secs : Z; sn_transfers_total : Z; sn_transfer_bytes_total : Z;
    sn_batches_total : Z; sn_delivery_failures_total : Z; sn_requeue_total : Z;
    sn_producer_drops_total : Z; sn_producer_backlog_messages : Z; sn_producer_backlog_bytes : Z;
    sn_producer_pending_messages : Z; sn_producer_ring_messages : Z; sn_consumer_inflight : Z;
    sn_transfer_per_sec : f64; sn_batches_per_sec : f64; sn_bytes_per_sec : f64;
    sn_producers_connected : Z; sn_consumers_connected : Z; sn_consumers_waiting : Z;
    sn_consumers_await_batch : Z; sn_producers_ready : Z; sn_producers_busy : Z;
    sn_consumers_queued : Z; sn_consumer_capacity_pct : f64;
    sn_producers : list Producers.ProducerRow; sn_consumers : list Consumers.ConsumerRow;
    sn_ticks_buffered : Z }.

Definition count_state (states : list string) (rows : list Consumers.ConsumerRow) : Z :=
  Z.of_nat (length (filter (fun c => Consumers.crow_state c ∈ states) rows)).

(** The demand the capacity is measured against. *)
Definition ingress_per_sec (transfer_per_sec backlog_growth : f64) (backlog_messages : Z) : f64 :=
  let ingress := demand_per_sec transfer_per_sec backlog_growth in
  if fleb ingress (lit 1 100) && (0 <? backlog_messages)
  then (if fltb (lit 1 100) transfer_per_sec then transfer_per_sec else f64_MAX)
  else ingress.

Definition snapshot (now_ms now_secs : Z) (rates : f64 * f64 * f64) (pr : Producers.ProducerRegistry)
    (cr : Consumers.ConsumerRegistry) (m : Metrics) :
    MetricsSnapshot * Producers.ProducerRegistry * Consumers.ConsumerRegistry * Metrics :=
  let '(transfer_per_sec, batches_per_sec, bytes_per_sec) := rates in
  let backlog := Producers.backlog_totals pr in
  let '(growth, m) := compute_backlog_growth_per_sec (Producers.backlog_messages backlog) now_ms m in
  let ingress := ingress_per_sec transfer_per_sec growth (Producers.backlog_messages backlog) in
  let '(capacity_pct, consumer_rows, cr) := Consumers.list_with_capacity now_secs now_ms ingress cr in
  let '(producer_rows, pr) := Producers.list_rows now_secs now_ms pr in
  let waiting := count_state ["matcher_queue"; "awaiting_read"]%string consumer_rows in
  ({| sn_ts_ms := now_ms; sn_uptime_secs := uptime_secs now_ms m;
      sn_transfers_total := me_transfers_total m; sn_transfer_bytes_total := me_transfer_bytes_total m;
      sn_batches_total := me_batches_total m; sn_delivery_failures_total := me_delivery_failures_total m;
      sn_requeue_total := me_requeue_total m;
      sn_producer_drops_total := Producers.bt_drops_total backlog;
      sn_producer_backlog_messages := Producers.backlog_messages backlog;
      sn_producer_backlog_bytes := Producers.backlog_bytes backlog;
      sn_producer_pending_messages := Producers.bt_pending_messages backlog;
      sn_producer_ring_messages := Producers.bt_ring_messages backlog;
      sn_consumer_inflight :=
        count_state ["awaiting_batch"; "processing"; "delivery_failed"]%string consumer_rows;
      sn_transfer_per_sec := transfer_per_sec; sn_batches_per_sec := batches_per_sec;
      sn_bytes_per_sec := bytes_per_sec;
      sn_producers_connected := Z.of_nat (length producer_rows);
      sn_consumers_connected := Z.of_nat (length consumer_rows);
      sn_consumers_waiting := waiting;
      sn_consumers_await_batch := count_state ["awaiting_batch"]%string consumer_rows;
      sn_producers_ready := Producers.ready_count pr; sn_producers_busy := Producers.busy_count pr;
      sn_consumers_queued := waiting; sn_consumer_capacity_pct := capacity_pct;
      sn_producers := producer_rows; sn_consumers := consumer_rows;
      sn_ticks_buffered := ticks_buffered m |}, pr, cr, m).

(** ** The history *)

Record HistoryPoint :=
  { hp_ts : Z; hp_producer_backlog : Z; hp_producer_pending : Z; hp_producer_ring : Z;
    hp_consumer_inflight : Z; hp_transfer_per_sec : f64; hp_batches_per_sec : f64;
    hp_bytes_per_sec : f64; hp_delivery_failures_per_sec : f64; hp_drops_per_sec : f64;
    hp_drops_total : Z; hp_producers_ready : Z; hp_producers_busy : Z; hp_consumers_waiting : Z }.

Record RateCounters :=
  { rc_ts : Z; rc_transfers_total : Z; rc_transfer_bytes_total : Z; rc_batches_total : Z;
    rc_delivery_failures_total : Z; rc_drops_total : Z }.

(** The arguments of [record], in their order. *)
Record Sample :=
  { sm_ts : Z; sm_producer_backlog : Z; sm_producer_pending : Z; sm_producer_ring : Z;
    sm_consumer_inflight : Z; sm_transfers_total : Z; sm_transfer_bytes_total : Z;
    sm_batches_total : Z; sm_delivery_failures_total : Z; sm_drops_total : Z;
    sm_producers_ready : Z; sm_producers_busy : Z; sm_consumers_waiting : Z }.

Module History.
Record t := { points : list HistoryPoint; last : option RateCounters; cap : Z }.

Definition new (cap : Z) : t := {| points := []; last := None; cap := Z.max cap 1 |}.

Definition rate (now before : Z) (dt_sec : f64) : f64 := fdiv (of_int (sat_sub now before)) dt_sec.

Definition rate_f64 (now before dt_sec : f64) : f64 := fdiv (fmax (fsub now before) f0) dt_sec.

(** The five rates since the previous sample. *)
Definition rates (s : Sample) (prev : option RateCounters) : f64 * f64 * f64 * f64 * f64 :=
  match prev with
  | None => (f0, f0, f0, f0, f0)
  | Some p =>
    let dt_ms := sat_sub (sm_ts s) (rc_ts p) in
    if 0 <? dt_ms then
      let dt := fdiv (of_int dt_ms) (of_int 1000) in
      (rate (sm_transfers_total s) (rc_transfers_total p) dt,
       rate (sm_batches_total s) (rc_batches_total p) dt,
       rate_f64 (of_int (sm_transfer_bytes_total s)) (of_int (rc_transfer_bytes_total p)) dt,
       rate (sm_delivery_failures_total s) (rc_delivery_failures_total p) dt,
       rate (sm_drops_total s) (rc_drops_total p) dt)
    else (f0, f0, f0, f0, f0)
  end.

Definition point_of (s : Sample) (prev : option RateCounters) : HistoryPoint :=
  let '(transfers, batches, bytes, failures, drops) := rates s prev in
  {| hp_ts := sm_ts s; hp_producer_backlog := sm_producer_backlog s;
     hp_producer_pending := sm_producer_pending s; hp_producer_ring := sm_producer_ring s;
     hp_consumer_inflight := sm_consumer_inflight s; hp_transfer_per_sec := transfers;
     hp_batches_per_sec := batches; hp_bytes_per_sec := bytes;
     hp_delivery_failures_per_sec := failures; hp_drops_per_sec := drops;
     hp_drops_total := sm_drops_total s; hp_producers_ready := sm_producers_ready s;
     hp_producers_busy := sm_producers_busy s; hp_consumers_waiting := sm_consumers_waiting s |}.

Definition counters_of (s : Sample) : RateCounters :=
  {| rc_ts := sm_ts s; rc_transfers_total := sm_transfers_total s;
     rc_transfer_bytes_total := sm_transfer_bytes_total s; rc_batches_total := sm_batches_total s;
     rc_delivery_failures_total := sm_delivery_failures_total s; rc_drops_total := sm_drops_total s |}.

Definition record (s : Sample) (h : t) : t :=
  let point := point_of s (last h) in
  let points := points h ++ [point] in
  let points :=
    if cap h <? Z.of_nat (length points)
    then drop (Z.to_nat (Z.of_nat (length points) - cap h)) points else points in
  {| points := points; last := Some (counters_of s); cap := cap h |}.

Definition list_since (since_ms : Z) (h : t) : list HistoryPoint :=
  filter (fun p => since_ms <= hp_ts p) (points h).

Definition list_all (h : t) : list HistoryPoint := points h.

Definition last_rates (h : t) : f64 * f64 * f64 :=
  match list.last (points h) with
  | Some p => (hp_transfer_per_sec p, hp_batches_per_sec p, hp_bytes_per_sec p)
  | None => (f0, f0, f0)
  end.
End History.

(** ** Properties *)

(** The last [n] elements. *)
Definition lastn {A} (n : nat) (l : list A) : list A := drop (length l - n) l.

Lemma length_lastn {A} n (l : list A) : length (lastn n l) = Nat.min n (length l).
Proof. unfold lastn. rewrite length_drop. lia. Qed.

Lemma lastn_ge {A} n (l : list A) : (length l <= n)%nat -> lastn n l = l.
Proof. intros. unfold lastn. by replace (length l - n)%nat with 0%nat by lia. Qed.

(** The tick buffer keeps the newest ticks: after any pushes it holds the last
    [cap] of them in order (between 1 and 65536), and [drain] yields exactly these
    and leaves it empty. *)
Theorem tick_buffer_keeps_newest cap ticks :
  let b := foldl (fun b t => TickBuffer.push t b) (TickBuffer.new cap) ticks in
  1 <= TickBuffer.cap b <= TICK_BUFFER_CAP /\
  TickBuffer.inner b = lastn (Z.to_nat (TickBuffer.cap b)) ticks /\
  (TickBuffer.drain b).1 = TickBuffer.inner b /\ TickBuffer.len (TickBuffer.drain b).2 = 0.
Proof.
  cbv zeta. induction ticks as [|t ticks IH] using rev_ind.
  { cbn. unfold TICK_BUFFER_CAP. split_and!; (lia || done). }
  rewrite foldl_app. cbn [foldl]. set (b := foldl _ _ ticks) in *. destruct IH as (Hc & Hi & _).
  split_and!; [exact (proj1 Hc)|exact (proj2 Hc)| |done|done].
  cbn [TickBuffer.push TickBuffer.inner TickBuffer.cap]. set (n := Z.to_nat (TickBuffer.cap b)) in *.
  assert (Hn : (1 <= n)%nat) by lia. rewrite Hi, length_lastn.
  destruct (Z.leb_spec (TickBuffer.cap b) (Z.of_nat (n `min` length ticks))) as [Hge|Hlt].
  - replace (tail (lastn n ticks)) with (drop 1 (lastn n ticks)) by by destruct (lastn n ticks).
    unfold lastn. rewrite length_app. cbn [length]. rewrite drop_drop, drop_app_le by lia.
    do 2 f_equal. lia.
  - rewrite !lastn_ge; [done|rewrite length_app; simpl; lia|lia].
Qed.

(** The history holds the points of the newest [cap] samples, in order, and a
    sample's rates are taken against the sample just before it. *)
Theorem history_keeps_newest cap samples s :
  let h := foldl (fun h s => History.record s h) (History.new cap) samples in
  let h' := History.record s h in
  (length (History.list_all h') <= Z.to_nat (Z.max cap 1))%nat /\
  History.list_all h' = lastn (Z.to_nat (Z.max cap 1))
    (History.list_all h ++ [History.point_of s (History.counters_of <$> list.last samples)]) /\
  list.last (History.list_all h') = Some (History.point_of s (History.counters_of <$> list.last samples)).
Proof.
  cbv zeta. assert (Hcap : forall l, History.cap (foldl (fun h s => History.record s h) (History.new cap) l)
                        = Z.max cap 1).
  { intros l. induction l as [|x l IH] using rev_ind; [done|]. by rewrite foldl_app. }
  assert (Hlast : History.last (foldl (fun h s => History.record s h) (History.new cap) samples)
            = History.counters_of <$> list.last samples).
  { destruct samples as [|x l _] using rev_ind; [done|]. rewrite foldl_app, last_snoc. done. }
  set (h := foldl _ _ samples) in *. specialize (Hcap samples). fold h in Hcap.
  assert (Hrec : History.list_all (History.record s h) = lastn (Z.to_nat (Z.max cap 1))
    (History.list_all h ++ [History.point_of s (History.counters_of <$> list.last samples)])).
  { unfold History.list_all, History.record. cbn [History.points]. rewrite Hlast, Hcap. unfold lastn.
    set (l := History.points h ++ _).
    destruct (Z.ltb_spec (Z.max cap 1) (Z.of_nat (length l))).
    - f_equal. lia.
    - by replace (length l - Z.to_nat (Z.max cap 1))%nat with 0%nat by lia. }
  rewrite Hrec. split_and!; [rewrite length_lastn; lia|done|].
  unfold lastn. rewrite length_app. cbn [length]. rewrite drop_app_le by lia. apply last_snoc.
Qed.
