(* ===== verification/Matchmaker.v ===== *)
(** * The matchmaker ([Matchmaker], [master/src/producers.rs])

    It pairs consumers that asked for a batch (CRDY) with producers that have one
    (PRDY).  [Master] is the shared state its methods work on: the two registries,
    the metrics, its own queue and pool, and the outcomes sent to the [done]
    channels.  A method is the sequence of its critical sections; [env] is what
    the outside answers: the clock, and [send_assign]'s writes, numbered by the
    turn of the matching loop. *)

From S2P Require Import Prelude Protocol Metrics.
From S2P Require Producers Consumers.

(** ** State *)

(** [done] is the receiver that waits for the match, if it was not dropped. *)
Record PendingConsumer :=
  { pc_consumer_id : Z; pc_ready : ReadyRequest; pc_data_addr : string; pc_done : option nat }.

Record MatchmakerInner :=
  { mi_ready : gset Z; mi_waiting : list PendingConsumer; mi_consumer_rr : nat; mi_producer_rr : nat }.

Record Master :=
  { ma_producers : Producers.ProducerRegistry; ma_consumers : Consumers.ConsumerRegistry;
    ma_metrics : Metrics; ma_inner : MatchmakerInner; ma_done : list (nat * result string unit) }.

Record env := { env_now : Z; env_io : nat -> result string unit }.

Definition new_inner : MatchmakerInner :=
  {| mi_ready := ∅; mi_waiting := []; mi_consumer_rr := 0; mi_producer_rr := 0 |}.

Definition new (now_ms : Z) : Master :=
  {| ma_producers := Producers.new; ma_consumers := Consumers.new; ma_metrics := Metrics.new now_ms;
     ma_inner := new_inner; ma_done := [] |}.

(** Updates of one part of the state. *)
Definition on_producers (f : Producers.ProducerRegistry -> Producers.ProducerRegistry) (m : Master) : Master :=
  {| m with ma_producers := f (ma_producers m) |}.
Definition on_consumers (f : Consumers.ConsumerRegistry -> Consumers.ConsumerRegistry) (m : Master) : Master :=
  {| m with ma_consumers := f (ma_consumers m) |}.
Definition on_metrics (f : Metrics -> Metrics) (m : Master) : Master :=
  {| m with ma_metrics := f (ma_metrics m) |}.
Definition on_inner (f : MatchmakerInner -> MatchmakerInner) (m : Master) : Master :=
  {| m with ma_inner := f (ma_inner m) |}.

Definition on_ready (f : gset Z -> gset Z) (i : MatchmakerInner) : MatchmakerInner :=
  {| i with mi_ready := f (mi_ready i) |}.
Definition on_waiting (f : list PendingConsumer -> list PendingConsumer) (i : MatchmakerInner) : MatchmakerInner :=
  {| i with mi_waiting := f (mi_waiting i) |}.

(** [done.send(..)]: it has an effect only if the receiver is there. *)
Definition send_done (c : PendingConsumer) (r : result string unit) (m : Master) : Master :=
  match pc_done c with
  | Some ch => {| m with ma_done := ma_done m ++ [(ch, r)] |}
  | None => m
  end.

(** ** The queue of waiting consumers *)

Definition push_waiting (entry : PendingConsumer) (wait : list PendingConsumer) : list PendingConsumer :=
  filter (fun p => pc_consumer_id p <> pc_consumer_id entry) wait ++ [entry].

Definition take_next_waiting_inner (i : MatchmakerInner) : option PendingConsumer * MatchmakerInner :=
  let len := length (mi_waiting i) in
  if (len =? 0)%nat then (None, i)
  else
    let pick := if (len <=? mi_consumer_rr i)%nat then 0%nat else mi_consumer_rr i in
    (mi_waiting i !! pick,
     {| i with mi_consumer_rr := ((pick + 1) `mod` len)%nat; mi_waiting := delete pick (mi_waiting i) |}).

(** [Vec::swap_remove]: the last element takes the place of the removed one. *)
Definition swap_remove {A} (pos : nat) (l : list A) : list A :=
  match last l with
  | Some x => take (length l - 1) (<[pos := x]> l)
  | None => []
  end.

(** ** Matching *)

Definition assign_of (c : PendingConsumer) : AssignRequest :=
  {| ar_max_items := rr_max_items (pc_ready c); ar_consumer_tag := rr_consumer_tag (pc_ready c);
     ar_data_addr := pc_data_addr c |}.

Definition error_string (e : error) : string :=
  match e with Bail msg _ => msg | ReadExact => "early eof" | WriteError => "write error" end.

(** After an ASGN was written: the producer is busy with the consumer, the consumer
    awaits the producer, the tick is recorded and the waiter told. *)
Definition complete_match (now producer_id : Z) (c : PendingConsumer) (m : Master) : Master :=
  let m := on_producers (Producers.mark_assigned producer_id (pc_consumer_id c) now) m in
  let m := on_consumers (Consumers.release_stale_assignments producer_id (pc_consumer_id c)) m in
  let m := on_consumers (Consumers.mark_awaiting_batch (pc_consumer_id c) producer_id) m in
  let m := on_metrics (record_assign_tick now producer_id (pc_consumer_id c) "busy" "awaiting_batch") m in
  send_done c (Ok tt) m.

(** After a failed write. *)
Definition abort_match (producer_id : Z) (c : PendingConsumer) (m : Master) : Master :=
  let m := on_producers (Producers.set_state producer_id Producers.Idle) m in
  on_inner (fun i => on_waiting (fun w => w ++ [c]) (on_ready (fun s => s ∖ {[producer_id]}) i)) m.

(** The second half of a turn of [try_match], once the producer is out of the pool
    and the consumer out of the queue: encode the ASGN, write it, and record the
    match.  [io] is what the write answers. *)
Definition send_match (now : Z) (io : result string unit) (producer_id : Z) (consumer : PendingConsumer)
    (m : Master) : Master * option (result string unit) :=
  match encode_assign (assign_of consumer) with
  | Err e => (m, Some (Err (error_string e)))
  | Ok frame =>
    let '(sent, producers) := Producers.send_assign io producer_id frame (ma_producers m) in
    let m := {| m with ma_producers := producers |} in
    match sent with
    | Err _ => (abort_match producer_id consumer m, None)
    | Ok _ => (complete_match now producer_id consumer m, None)
    end
  end.

(** One turn of the loop of [try_match]: [Some r] when it returned [r], [None] when
    it goes on. *)
Definition try_match_turn (now : Z) (io : result string unit) (m : Master) : Master * option (result string unit) :=
  let inner := ma_inner m in
  if bool_decide (mi_waiting inner = []) || bool_decide (mi_ready inner = ∅) then (m, Some (Ok tt))
  else
    let '(best, stale, rr, producers) :=
      Producers.rank_ready_candidates (elements (mi_ready inner)) (mi_producer_rr inner) (ma_producers m) in
    let inner := {| inner with mi_producer_rr := rr; mi_ready := mi_ready inner ∖ list_to_set stale |} in
    let m := {| m with ma_producers := producers; ma_inner := inner |} in
    match best with
    | None => (m, Some (Ok tt))
    | Some producer_id =>
      match take_next_waiting_inner (on_ready (fun s => s ∖ {[producer_id]}) inner) with
      | (None, _) => (m, Some (Ok tt))
      | (Some consumer, inner) => send_match now io producer_id consumer {| m with ma_inner := inner |}
      end
    end.

Fixpoint try_match_loop (fuel i : nat) (e : env) (m : Master) : Master * option (result string unit) :=
  match fuel with
  | O => (m, None)
  | S n =>
    match try_match_turn (env_now e) (env_io e i) m with
    | (m, Some r) => (m, Some r)
    | (m, None) => try_match_loop n (S i) e m
    end
  end.

(** Every turn that goes on removes a producer from the pool: the size of the pool
    is the number of turns ([Tasks.try_match_terminates]). *)
Definition try_match (e : env) (m : Master) : Master * result string unit :=
  let '(m, r) := try_match_loop (S (size (mi_ready (ma_inner m)))) 0 e m in
  (m, default (Ok tt) r).

(** ** Methods *)

Definition ready_pool_len (m : Master) : Z := Z.of_nat (size (mi_ready (ma_inner m))).
Definition waiting_count (m : Master) : Z := Z.of_nat (length (mi_waiting (ma_inner m))).

Definition ensure_in_ready_pool (producer_id : Z) (m : Master) : Master :=
  on_inner (on_ready (fun s => {[producer_id]} ∪ s)) m.

Definition sync_ready_pool (m : Master) : Master :=
  let '(add, rem, producers) :=
    Producers.sync_matcher_ready_state (mi_ready (ma_inner m)) (ma_producers m) in
  on_inner (on_ready (fun s => add ∪ (s ∖ rem))) {| m with ma_producers := producers |}.

Definition on_producer_ready (e : env) (producer_id : Z) (m : Master) : Master * result string unit :=
  match Producers.state_of producer_id (ma_producers m) with
  | Some Producers.Ready =>
    let m := on_producers (Producers.mark_prdy producer_id) m in
    try_match e (ensure_in_ready_pool producer_id m)
  | st =>
    let m := match st with
             | Some Producers.Busy => on_producers (fun r => (Producers.clear_stale_busy producer_id r).2) m
             | _ => m
             end in
    let m := on_producers (Producers.mark_prdy producer_id) m in
    let m := ensure_in_ready_pool producer_id m in
    let m := on_producers (Producers.set_state producer_id Producers.Ready) m in
    try_match e m
  end.

Definition push_consumer_wait_with_done (consumer_id : Z) (ready : ReadyRequest) (data_addr : string)
    (done : option nat) (m : Master) : Master :=
  on_inner (on_waiting (push_waiting
    {| pc_consumer_id := consumer_id; pc_ready := ready; pc_data_addr := data_addr; pc_done := done |})) m.

Definition enqueue_consumer (consumer_id : Z) (ready : ReadyRequest) (data_addr : string) (m : Master) : Master :=
  push_consumer_wait_with_done consumer_id ready data_addr None m.

(** [on_consumer_read] up to its wait on channel [ch]; [received] is what it then
    gets, [None] while it blocks. *)
Definition on_consumer_read (e : env) (consumer_id : Z) (ready : ReadyRequest) (data_addr : string) (ch : nat)
    (m : Master) : Master * result string unit :=
  try_match e (push_consumer_wait_with_done consumer_id ready data_addr (Some ch) m).

Definition received (ch : nat) (m : Master) : option (result string unit) :=
  match filter (fun kv => kv.1 = ch) (ma_done m) with
  | (_, r) :: _ => Some r
  | [] =>
    if bool_decide (Exists (fun p => pc_done p = Some ch) (mi_waiting (ma_inner m))) then None
    else Some (Err "match cancelled"%string)
  end.

Definition on_producer_done (e : env) (producer_id : Z) (m : Master) : Master :=
  let m := on_producers (Producers.set_state producer_id Producers.Idle) m in
  let m := on_inner (on_ready (fun s => s ∖ {[producer_id]})) m in
  (try_match e m).1.

(** What [on_producer_disconnect] does for the consumer of the lost ASGN. *)
Definition requeue_orphan (cid : Z) (m : Master) : Master :=
  match Consumers.state_of cid (ma_consumers m) with
  | Some st =>
    if String.eqb st "awaiting_batch" || String.eqb st "matcher_queue" then
      match Consumers.match_context cid (ma_consumers m) with
      | Some (ready, data_addr) =>
        enqueue_consumer cid ready data_addr (on_consumers (Consumers.set_phase cid "matcher_queue") m)
      | None => m
      end
    else m
  | None => m
  end.

Definition on_producer_disconnect (e : env) (producer_id : Z) (m : Master) : Master :=
  let m := on_inner (on_ready (fun s => s ∖ {[producer_id]})) m in
  let '(consumer_id, producers) := Producers.take_pending_consumer producer_id (ma_producers m) in
  let m := {| m with ma_producers := producers |} in
  let m := match consumer_id with Some cid => requeue_orphan cid m | None => m end in
  let m := on_producers (Producers.remove producer_id) m in
  (try_match e m).1.

Definition wake_producer (e : env) (producer_id : Z) (m : Master) : Master :=
  (try_match e (ensure_in_ready_pool producer_id m)).1.

(** The first half of [cancel_consumer]: the consumer leaves the queue. *)
Definition drop_waiting (consumer_id : Z) (m : Master) : Master :=
  match list_find (fun p => pc_consumer_id p = consumer_id) (mi_waiting (ma_inner m)) with
  | Some (pos, p) =>
    send_done p (Err "consumer disconnected"%string) (on_inner (on_waiting (swap_remove pos)) m)
  | None => m
  end.

Definition cancel_consumer (e : env) (consumer_id : Z) (m : Master) : Master :=
  let m := drop_waiting consumer_id m in
  let '(cleared, producers) := Producers.clear_assignments_to_consumer consumer_id (ma_producers m) in
  let m := {| m with ma_producers := producers |} in
  if (0 <? cleared)%nat then (try_match e m).1 else m.

(** ** The invariant *)

(** An ASGN for this consumer can be encoded: its tag and address have the length a
    frame read from the wire gives them. *)
Definition encodable (c : PendingConsumer) : Prop :=
  slen (rr_consumer_tag (pc_ready c)) <= umax 16 /\ 1 <= slen (pc_data_addr c) <= umax 16.

Definition waiting_ids (m : Master) : list Z := pc_consumer_id <$> mi_waiting (ma_inner m).

Definition producer_entry (p : Z) (m : Master) : option Producers.ProducerEntry :=
  Producers.pr_inner (ma_producers m) !! p.

(** The frames written to a producer's connection. *)
Definition frames (p : Z) (m : Master) : option (list (list byte)) :=
  Producers.pe_written <$> producer_entry p m.

(** The frames and the consumer a producer owes a batch to. *)
Definition ledger (p : Z) (m : Master) : option (list (list byte) * option Z) :=
  (fun e => (Producers.pe_written e, Producers.pe_pending_consumer_id e)) <$> producer_entry p m.

Lemma ledger_frames p m m' : ledger p m' = ledger p m -> frames p m' = frames p m.
Proof.
  unfold ledger, frames. destruct (producer_entry p m'), (producer_entry p m); cbn; congruence.
Qed.

(** Only a busy producer owes a batch, no busy producer is in the pool, and the
    queue holds each consumer at most once, connected and without an ASGN. *)
Record master_ok (m : Master) : Prop :=
  { mo_registry : Producers.registry_ok (ma_producers m);
    mo_range : Producers.in_range (ma_producers m);
    mo_pending : forall p e, producer_entry p m = Some e ->
      Producers.pe_pending_consumer_id e <> None -> Producers.pe_state e = Producers.Busy;
    mo_pool : forall p e, p ∈ mi_ready (ma_inner m) -> producer_entry p m = Some e ->
      Producers.pe_state e <> Producers.Busy;
    mo_consumers : Consumers.consumers_ok (ma_consumers m);
    mo_waiting : NoDup (waiting_ids m);
    mo_connected : forall c, c ∈ waiting_ids m ->
      is_Some (Consumers.cr_inner (ma_consumers m) !! c) /\ Consumers.assigned c (ma_consumers m) = None;
    mo_encodable : Forall encodable (mi_waiting (ma_inner m));
    mo_contexts : Consumers.contexts_ok (ma_consumers m) }.

(** ** Lemmas *)

Lemma take_next_spec i :
  mi_waiting i <> [] ->
  exists pick c, mi_waiting i !! pick = Some c /\
    take_next_waiting_inner i =
      (Some c, {| i with mi_consumer_rr := ((pick + 1) `mod` length (mi_waiting i))%nat;
                         mi_waiting := delete pick (mi_waiting i) |}) /\
    pick = (if (length (mi_waiting i) <=? mi_consumer_rr i)%nat then 0%nat else mi_consumer_rr i).
Proof.
  intros Hne. unfold take_next_waiting_inner. set (len := length (mi_waiting i)).
  assert (Hpos : (0 < len)%nat) by (unfold len; destruct (mi_waiting i); [done|simpl; lia]).
  destruct (Nat.eqb_spec len 0); [lia|].
  set (pick := if (len <=? mi_consumer_rr i)%nat then 0%nat else mi_consumer_rr i).
  assert (Hpick : (pick < len)%nat) by (unfold pick; destruct (Nat.leb_spec len (mi_consumer_rr i)); lia).
  destruct (lookup_lt_is_Some_2 (mi_waiting i) pick Hpick) as [c Hc].
  exists pick, c. by rewrite Hc.
Qed.

Lemma delete_perm {A} (l : list A) i x : l !! i = Some x -> l ≡ₚ x :: delete i l.
Proof. intros H. by rewrite <- (delete_Permutation l i x). Qed.

(** A successful turn, as the rest of the development sees it. *)
Record matched (p : Z) (c : PendingConsumer) (m m' : Master) : Prop :=
  { mt_entry : exists e, producer_entry p m' = Some e /\ Producers.pe_state e = Producers.Busy /\
      Producers.pe_pending_consumer_id e = Some (pc_consumer_id c);
    mt_frame : exists frame l, encode_assign (assign_of c) = Ok frame /\
      frames p m = Some l /\ frames p m' = Some (l ++ [frame]);
    mt_consumer : Consumers.assigned (pc_consumer_id c) (ma_consumers m') = Some p }.

Lemma encodable_ok c : encodable c -> exists frame, encode_assign (assign_of c) = Ok frame.
Proof.
  intros [Ht Ha]. unfold encode_assign, assign_of. cbn [ar_consumer_tag ar_data_addr ar_max_items].
  unfold slen in *. destruct (Z.ltb_spec (umax 16) (blen (as_bytes (rr_consumer_tag (pc_ready c))))); [lia|].
  destruct (Z.eqb_spec (blen (as_bytes (pc_data_addr c))) 0); [lia|].
  destruct (Z.ltb_spec (umax 16) (blen (as_bytes (pc_data_addr c)))); [lia|]. cbn [orb]. eauto.
Qed.

(** The ranking of a turn. *)
Lemma rank_master m best stale rr producers :
  master_ok m ->
  Producers.rank_ready_candidates (elements (mi_ready (ma_inner m))) (mi_producer_rr (ma_inner m))
    (ma_producers m) = (best, stale, rr, producers) ->
  let inner := ma_inner m in
  let m' := {| m with ma_producers := producers;
       ma_inner := {| inner with mi_producer_rr := rr; mi_ready := mi_ready inner ∖ list_to_set stale |} |} in
  master_ok m' /\
  (forall q, q ∉ mi_ready inner -> producer_entry q m' = producer_entry q m) /\
  (forall q, ledger q m' = ledger q m) /\
  match best with
  | Some p => p ∈ mi_ready (ma_inner m') /\ Producers.live (ma_producers m) p /\
              producer_entry p m' = producer_entry p m
  | None => mi_ready (ma_inner m') = ∅
  end.
Proof.
  intros Hok Hrank. pose proof Hok as [H1 H2 H3 H4 H5 H6 H7 H8 H9]. cbv zeta.
  pose proof (Producers.rank_ready_ok (elements (mi_ready (ma_inner m))) (mi_producer_rr (ma_inner m)) _ H1) as Hreg.
  assert (Hent : forall q, Producers.pr_inner producers !! q = producer_entry q m \/
     (q ∈ mi_ready (ma_inner m) /\ exists e, producer_entry q m = Some e /\
        Producers.pr_inner producers !! q = Some (Producers.dropped e))).
  { intros q. pose proof (Producers.rank_entries (elements (mi_ready (ma_inner m)))
      (mi_producer_rr (ma_inner m)) (ma_producers m) q) as He. rewrite Hrank in He. cbn [snd] in He.
    rewrite elem_of_elements in He. exact He. }
  rewrite Hrank in Hreg. cbn [snd] in Hreg.
  pose proof (Producers.rank_ready_pick (elements (mi_ready (ma_inner m))) (mi_producer_rr (ma_inner m))
    (ma_producers m) H2) as Hpick. rewrite Hrank in Hpick. destruct Hpick as [Hstale Hbest].
  assert (Hin : forall q e', Producers.pr_inner producers !! q = Some e' -> exists e, producer_entry q m = Some e /\
     (e' = e \/ e' = Producers.dropped e)).
  { intros q e' He'. destruct (Hent q) as [Heq|[_ (e & He & Heq)]].
    - exists e'. rewrite <- Heq. split; [done|by left].
    - exists e. split; [done|]. right. congruence. }
  split_and!.
  - constructor; cbn [ma_producers ma_consumers ma_inner mi_ready mi_waiting]; try done.
    + intros q e' He'. destruct (Hin q e' He') as (e & He & [->| ->]); apply (H2 q e He).
    + intros q e' He'. destruct (Hin q e' He') as (e & He & [->| ->]); [by eapply H3|].
      unfold Producers.dropped. cbn. intros Hne. rewrite (H3 q e He Hne). done.
    + intros q e' Hq He'. destruct (Hin q e' He') as (e & He & Hor).
      assert (Hnb : Producers.pe_state e <> Producers.Busy) by (eapply H4; [|exact He]; set_solver).
      destruct Hor as [->| ->]; [done|]. unfold Producers.dropped. cbn. by case_decide.
  - intros q Hq. destruct (Hent q) as [?|[? _]]; done.
  - intros q. unfold ledger. change (producer_entry q {| m with ma_producers := producers; ma_inner := _ |})
      with (Producers.pr_inner producers !! q).
    destruct (Hent q) as [->|[_ (e & -> & ->)]]; done.
  - cbn [ma_inner mi_ready]. destruct best as [p|].
    + destruct Hbest as (Hp & [Hl _] & Hsame). rewrite elem_of_elements in Hp. split_and!; [|done|done].
      rewrite Hstale, elem_of_difference, elem_of_list_to_set, list_elem_of_filter. naive_solver.
    + apply leibniz_equiv. intros q. rewrite Hstale, elem_of_difference, elem_of_list_to_set, list_elem_of_filter.
      rewrite elem_of_elements. split; [|by intros ?%elem_of_empty]. intros [Hq Hn]. destruct Hn.
      split; [|done]. apply Hbest. by apply elem_of_elements.
Qed.

Lemma send_done_fields c r m :
  ma_producers (send_done c r m) = ma_producers m /\ ma_consumers (send_done c r m) = ma_consumers m /\
  ma_inner (send_done c r m) = ma_inner m.
Proof. unfold send_done. by destruct (pc_done c). Qed.

(** A queue without [c], and a pool without [p]: what a turn holds when it sends. *)
Record selected (p : Z) (c : PendingConsumer) (m : Master) : Prop :=
  { se_ok : master_ok m;
    se_pool : p ∉ mi_ready (ma_inner m);
    se_queue : pc_consumer_id c ∉ waiting_ids m;
    se_idle : exists e, producer_entry p m = Some e /\ Producers.pe_state e <> Producers.Busy;
    se_connected : is_Some (Consumers.cr_inner (ma_consumers m) !! pc_consumer_id c);
    se_unassigned : Consumers.assigned (pc_consumer_id c) (ma_consumers m) = None;
    se_encodable : encodable c }.

(** The consumers' side of a match. *)
Lemma assign_consumers p c r :
  Consumers.consumers_ok r -> is_Some (Consumers.cr_inner r !! c) -> Consumers.assigned c r = None ->
  let r' := Consumers.mark_awaiting_batch c p (Consumers.release_stale_assignments p c r) in
  Consumers.consumers_ok r' /\
  (forall j, is_Some (Consumers.cr_inner r' !! j) <-> is_Some (Consumers.cr_inner r !! j)) /\
  (forall j, Consumers.assigned j r' =
     if decide (j = c) then Some p
     else if decide (Consumers.assigned j r = Some p) then None else Consumers.assigned j r).
Proof.
  intros Hok Hc Hn. destruct (Consumers.release_spec p c r Hok) as (Hok1 & _ & Hdom & Has & _).
  set (r1 := Consumers.release_stale_assignments p c r) in *. cbv zeta.
  assert (Hn1 : Consumers.assigned c r1 = None) by (rewrite Has; case_decide; done).
  split_and!.
  - apply Consumers.mark_awaiting_ok; [by apply Hdom|by left|done].
  - intros j. rewrite <- Hdom. unfold Consumers.mark_awaiting_batch, Consumers.track_awaiting, Consumers.with_entry.
    cbn [Consumers.cr_inner]. apply lookup_alter_is_Some.
  - intros j. unfold Consumers.mark_awaiting_batch.
    change (Consumers.assigned j (Consumers.track_awaiting p c ?x)) with (Consumers.assigned j x).
    rewrite Consumers.assigned_with_entry. case_decide as Hj; [by destruct (proj2 (Hdom c) Hc) as [e ->]|].
    rewrite Has. repeat case_decide; naive_solver.
Qed.

Lemma complete_match_spec now p c frame m :
  selected p c m -> encode_assign (assign_of c) = Ok frame ->
  let m' := complete_match now p c
    {| m with ma_producers := (Producers.send_assign (Ok tt) p frame (ma_producers m)).2 |} in
  master_ok m' /\ ma_inner m' = ma_inner m /\ matched p c m m' /\
  (forall q, q <> p -> producer_entry q m' = producer_entry q m) /\
  (forall j q, j <> pc_consumer_id c -> q <> p ->
     Consumers.assigned j (ma_consumers m') = Some q <-> Consumers.assigned j (ma_consumers m) = Some q).
Proof.
  intros [Hok Hpool Hqueue (e & He & Hnb) Hc Hn Henc] Hframe. cbv zeta. unfold complete_match.
  set (r1 := (Producers.send_assign (Ok tt) p frame (ma_producers m)).2).
  set (r2 := Producers.mark_assigned p (pc_consumer_id c) now r1).
  match goal with |- context [send_done c (Ok tt) ?x] => set (m1 := x) end.
  destruct (send_done_fields c (Ok tt) m1) as (Hsp & Hsc & Hsi).
  assert (Hr1 : Producers.pr_inner r1 !! p = Some {| e with Producers.pe_written := Producers.pe_written e ++ [frame] |}).
  { unfold r1. rewrite (Producers.send_assign_entry _ _ e) by done. by rewrite decide_True. }
  assert (Hent : forall q, producer_entry q (send_done c (Ok tt) m1) =
     if decide (q = p)
     then Some {| e with Producers.pe_written := Producers.pe_written e ++ [frame];
                         Producers.pe_state := Producers.Busy;
                         Producers.pe_pending_consumer_id := Some (pc_consumer_id c);
                         Producers.pe_busy_since_ms := now |}
     else producer_entry q m).
  { intros q. unfold producer_entry at 1. rewrite Hsp. change (ma_producers m1) with r2. unfold r2.
    rewrite (Producers.mark_assigned_entry _ _ _ _ _ _ Hr1). case_decide; [done|].
    unfold r1. rewrite (Producers.send_assign_entry _ _ e) by done. by rewrite decide_False. }
  destruct (assign_consumers p (pc_consumer_id c) (ma_consumers m) (mo_consumers _ Hok) Hc Hn) as (Hco & Hdom & Has).
  change (Consumers.mark_awaiting_batch _ _ _) with (ma_consumers m1) in Hco, Hdom, Has.
  rewrite <- Hsc in Hco, Hdom, Has. pose proof Hok as [H1 H2 H3 H4 H5 H6 H7 H8 H9].
  split_and!.
  - constructor.
    + rewrite Hsp. apply Producers.mark_assigned_ok, Producers.send_assign_ok, H1.
    + intros q e' He'. change (producer_entry q (send_done c (Ok tt) m1) = Some e') in He'.
      rewrite Hent in He'. case_decide; [|by eapply H2]. injection He' as <-. apply (H2 p e He).
    + intros q e'. rewrite Hent. case_decide; [by intros [= <-]|by apply H3].
    + intros q e'. rewrite Hent, Hsi. change (ma_inner m1) with (ma_inner m). intros Hq.
      rewrite decide_False by (intros ->; done). by apply H4.
    + done.
    + unfold waiting_ids. rewrite Hsi. exact H6.
    + intros j. unfold waiting_ids. rewrite Hsi. change (ma_inner m1) with (ma_inner m). intros Hj.
      rewrite Hdom, Has. destruct (H7 j Hj) as [Hs Hnj]. split; [done|].
      rewrite decide_False by (intros ->; done). by rewrite Hnj.
    + rewrite Hsi. exact H8.
    + rewrite Hsc. by apply Consumers.mark_contexts, Consumers.release_contexts.
  - by rewrite Hsi.
  - constructor; [| |by rewrite Has, decide_True].
    + eexists. rewrite Hent, decide_True by done. done.
    + exists frame, (Producers.pe_written e). unfold frames. rewrite Hent, decide_True, He by done. done.
  - intros q Hq. by rewrite Hent, decide_False.
  - intros j q Hj Hq. rewrite Has, decide_False by done. case_decide; naive_solver.
Qed.

Lemma abort_match_spec p c m :
  selected p c m ->
  let m' := abort_match p c m in
  master_ok m' /\ mi_waiting (ma_inner m') = mi_waiting (ma_inner m) ++ [c] /\
  mi_ready (ma_inner m') = mi_ready (ma_inner m) /\
  (forall q, q <> p -> producer_entry q m' = producer_entry q m) /\
  (forall q, ledger q m' = ledger q m) /\
  ma_consumers m' = ma_consumers m.
Proof.
  intros [Hok Hpool Hqueue (e & He & Hnb) Hc Hn Henc]. cbv zeta. pose proof Hok as [H1 H2 H3 H4 H5 H6 H7 H8 H9].
  assert (Hready : mi_ready (ma_inner (abort_match p c m)) = mi_ready (ma_inner m)).
  { cbn. set_solver. }
  assert (Hent : forall q, producer_entry q (abort_match p c m) =
     if decide (q = p) then Some {| e with Producers.pe_state := Producers.Idle |} else producer_entry q m).
  { intros q. unfold producer_entry at 1. cbn [abort_match on_inner on_producers ma_producers].
    rewrite Producers.set_state_entry. unfold producer_entry in He. by rewrite He. }
  split_and!; [|done|done| | |done].
  - constructor.
    + by apply Producers.set_state_ok.
    + intros q e' He'. change (producer_entry q (abort_match p c m) = Some e') in He'.
      rewrite Hent in He'. case_decide; [|by eapply H2]. injection He' as <-. apply (H2 p e He).
    + intros q e'. rewrite Hent. case_decide; [|by apply H3]. intros [= <-]. cbn. intros Hne.
      specialize (H3 p e He Hne). done.
    + intros q e'. rewrite Hent, Hready. case_decide; [by intros _ [= <-]|by apply H4].
    + done.
    + unfold waiting_ids. cbn. rewrite fmap_app. cbn. apply NoDup_app. split_and!; [done| |apply NoDup_singleton].
      intros j Hj ->%list_elem_of_singleton. done.
    + intros j. unfold waiting_ids. cbn. rewrite fmap_app, elem_of_app. cbn.
      intros [Hj| ->%list_elem_of_singleton]; [by apply H7|done].
    + cbn. apply Forall_app. split; [done|]. by constructor.
    + done.
  - intros q Hq. by rewrite Hent, decide_False.
  - intros q. unfold ledger. rewrite Hent. case_decide as Hq; [|done]. by rewrite Hq, He.
Qed.

(** Taking a live producer out of the pool and a consumer out of the queue. *)
Lemma select_ok p c pick i m :
  master_ok m -> p ∈ mi_ready (ma_inner m) -> is_Some (producer_entry p m) ->
  mi_waiting (ma_inner m) !! pick = Some c ->
  mi_ready i = mi_ready (ma_inner m) ∖ {[p]} -> mi_waiting i = delete pick (mi_waiting (ma_inner m)) ->
  selected p c {| m with ma_inner := i |}.
Proof.
  intros Hok Hp [e He] Hc Hr Hw. pose proof Hok as [H1 H2 H3 H4 H5 H6 H7 H8 H9].
  pose proof (delete_perm _ _ _ Hc) as Hperm.
  assert (Hids : waiting_ids m ≡ₚ pc_consumer_id c :: waiting_ids {| m with ma_inner := i |}).
  { unfold waiting_ids. cbn [ma_inner]. by rewrite Hperm, Hw. }
  assert (Hin : pc_consumer_id c ∈ waiting_ids m) by (rewrite Hids; by left).
  constructor; cbn [ma_inner ma_consumers].
  - constructor; try done; cbn [ma_inner ma_consumers].
    + intros q e'. rewrite Hr. intros [Hq _]%elem_of_difference. by apply H4.
    + rewrite Hids in H6. by apply NoDup_cons in H6 as [_ ?].
    + intros j Hj. apply H7. rewrite Hids. by right.
    + rewrite Hw. rewrite Hperm in H8. by apply Forall_cons in H8 as [_ ?].
  - rewrite Hr. set_solver.
  - rewrite Hids in H6. by apply NoDup_cons in H6 as [? _].
  - exists e. split; [done|]. by apply (H4 p).
  - by apply H7.
  - by apply H7.
  - rewrite Hperm in H8. by apply Forall_cons in H8 as [? _].
Qed.

(** The index of the queue a turn takes: the round-robin counter's, or the first
    where the queue has become shorter than that. *)
Definition queue_turn (rr len : nat) : nat := if (len <=? rr)%nat then 0%nat else rr.

#[export] Existing Instance Producers.live_dec.

(** *** What a turn of the matching loop does

    A turn that goes on: the producer [p] is the rotation's pick among the best of
    the pool, the consumer [c] is the one at the round-robin index; both leave, with
    the producers of the pool that had nothing to deliver.  [io] is the answer of
    the write: after a success they are matched; after a failure the consumer is
    last in the queue, and the producer idle and told nothing. *)
Record turn_made (io : result string unit) (p : Z) (c : PendingConsumer) (m m' : Master) : Prop :=
  { tm_ok : master_ok m';
    tm_best : p ∈ mi_ready (ma_inner m) /\
      Producers.is_best (ma_producers m) (elements (mi_ready (ma_inner m))) p;
    tm_rotates : Producers.rotates (ma_producers m) (elements (mi_ready (ma_inner m)))
      (mi_producer_rr (ma_inner m)) (Some p) (mi_producer_rr (ma_inner m'));
    tm_ready : mi_ready (ma_inner m') =
      filter (Producers.live (ma_producers m)) (mi_ready (ma_inner m)) ∖ {[p]};
    tm_queue : let w := mi_waiting (ma_inner m) in
      let k := queue_turn (mi_consumer_rr (ma_inner m)) (length w) in
      w !! k = Some c /\ mi_consumer_rr (ma_inner m') = (S k `mod` length w)%nat /\
      mi_waiting (ma_inner m') = delete k w ++ (if io is Ok _ then [] else [c]);
    tm_frame : forall q, q ∉ mi_ready (ma_inner m) -> producer_entry q m' = producer_entry q m;
    tm_ledger : forall q, q <> p -> ledger q m' = ledger q m;
    tm_outcome :
      match io with
      | Ok _ => matched p c m m' /\
          (forall j q, j <> pc_consumer_id c -> q <> p ->
             Consumers.assigned j (ma_consumers m') = Some q <-> Consumers.assigned j (ma_consumers m) = Some q)
      | Err _ => ma_consumers m' = ma_consumers m /\ ledger p m' = ledger p m /\
          Producers.state_of p (ma_producers m') = Some Producers.Idle
      end }.

(** The turn that returns: nobody waits or the pool is empty; or nobody in the
    pool has anything to deliver, and the pool is emptied. *)
Record turn_stops (m m' : Master) : Prop :=
  { ts_ok : master_ok m';
    ts_waiting : mi_waiting (ma_inner m') = mi_waiting (ma_inner m);
    ts_consumers : ma_consumers m' = ma_consumers m;
    ts_why : (m' = m /\ (mi_waiting (ma_inner m) = [] \/ mi_ready (ma_inner m) = ∅)) \/
      (mi_ready (ma_inner m') = ∅ /\ forall q, q ∈ mi_ready (ma_inner m) -> ~ Producers.live (ma_producers m) q);
    ts_frame : forall q, q ∉ mi_ready (ma_inner m) -> producer_entry q m' = producer_entry q m;
    ts_ledger : forall q, ledger q m' = ledger q m }.

Lemma ts_end m m' : turn_stops m m' -> mi_waiting (ma_inner m') = [] \/ mi_ready (ma_inner m') = ∅.
Proof. intros [_ Hw _ [[-> ?]|[? _]] _ _]; tauto. Qed.

Lemma ts_ready m m' : turn_stops m m' -> mi_ready (ma_inner m') ⊆ mi_ready (ma_inner m).
Proof. intros [_ _ _ [[-> _]|[-> _]] _ _]; set_solver. Qed.

Lemma tm_pool io p c m m' :
  turn_made io p c m m' -> mi_ready (ma_inner m') ⊆ mi_ready (ma_inner m) ∖ {[p]}.
Proof. intros Ht. rewrite (tm_ready _ _ _ _ _ Ht). intros q. rewrite elem_of_difference, elem_of_filter. set_solver. Qed.

Lemma tm_waiting io p c m m' :
  turn_made io p c m m' ->
  mi_waiting (ma_inner m) ≡ₚ (if io is Ok _ then [c] else []) ++ mi_waiting (ma_inner m').
Proof.
  intros Ht. destruct (tm_queue _ _ _ _ _ Ht) as (Hc & _ & ->).
  rewrite (delete_perm _ _ _ Hc) at 1. destruct io; cbn [app]; [by rewrite app_nil_r|].
  by rewrite (Permutation_app_comm _ [c]).
Qed.

(** The second half of a turn always goes on, and leaves a consistent state. *)
Lemma send_match_spec now io p c m :
  selected p c m ->
  exists m', send_match now io p c m = (m', None) /\
    master_ok m' /\ mi_ready (ma_inner m') = mi_ready (ma_inner m) /\
    (forall q, q <> p -> producer_entry q m' = producer_entry q m) /\
    match io with
    | Ok _ => mi_waiting (ma_inner m') = mi_waiting (ma_inner m) /\ matched p c m m' /\
        (forall j q, j <> pc_consumer_id c -> q <> p ->
           Consumers.assigned j (ma_consumers m') = Some q <-> Consumers.assigned j (ma_consumers m) = Some q)
    | Err _ => mi_waiting (ma_inner m') = mi_waiting (ma_inner m) ++ [c] /\ ma_consumers m' = ma_consumers m /\
        (forall q, ledger q m' = ledger q m)
    end.
Proof.
  intros Hsel. pose proof Hsel as [_ _ _ (e & He & _) _ _ Henc].
  destruct (encodable_ok c Henc) as [frame Hframe]. unfold send_match. rewrite Hframe.
  destruct io as [[]|msg].
  - destruct (complete_match_spec now p c frame m Hsel Hframe) as (Hok & Hi & Hm & Hf & Has).
    assert (Hs : Producers.send_assign (Ok tt) p frame (ma_producers m)
              = (Ok tt, (Producers.send_assign (Ok tt) p frame (ma_producers m)).2)).
    { unfold producer_entry in He. unfold Producers.send_assign. by rewrite He. }
    rewrite Hs. eexists. split; [reflexivity|]. rewrite Hi. split_and!; done.
  - unfold producer_entry in He. unfold Producers.send_assign. rewrite He.
    destruct (abort_match_spec p c m Hsel) as (Hok & Hw & Hr & Hf & Hfr & Hc).
    exists (abort_match p c m). split; [by destruct m|]. split_and!; done.
Qed.

(** The counters are the ranking's and the queue's alone. *)
Lemma send_match_counters now io p c m :
  mi_consumer_rr (ma_inner (send_match now io p c m).1) = mi_consumer_rr (ma_inner m) /\
  mi_producer_rr (ma_inner (send_match now io p c m).1) = mi_producer_rr (ma_inner m).
Proof.
  unfold send_match. destruct (encode_assign _); [|done]. destruct (Producers.send_assign _ _ _ _) as [[] r]; [|done].
  cbn [fst]. unfold complete_match. by rewrite (proj2 (proj2 (send_done_fields _ _ _))).
Qed.

Lemma send_match_idle now msg p c m :
  selected p c m -> Producers.state_of p (ma_producers (send_match now (Err msg) p c m).1) = Some Producers.Idle.
Proof.
  intros Hsel. pose proof Hsel as [_ _ _ (e & He & _) _ _ Henc].
  destruct (encodable_ok c Henc) as [frame Hframe]. unfold send_match, Producers.send_assign. rewrite Hframe.
  unfold producer_entry in He. rewrite He. cbn [fst]. unfold Producers.state_of, abort_match.
  cbn [on_inner on_producers ma_producers]. rewrite Producers.set_state_entry, decide_True by done. by rewrite He.
Qed.

(** One turn of the loop. *)
Lemma try_match_turn_spec now io m :
  master_ok m ->
  match try_match_turn now io m with
  | (m', Some r) => r = Ok tt /\ turn_stops m m'
  | (m', None) => exists p c, turn_made io p c m m'
  end.
Proof.
  intros Hok. unfold try_match_turn. destruct (_ || _) eqn:Hempty.
  { split; [done|]. constructor; try done. left. split; [done|].
    apply orb_true_iff in Hempty as [?%bool_decide_eq_true|?%bool_decide_eq_true]; tauto. }
  apply orb_false_iff in Hempty as [Hw%bool_decide_eq_false _].
  pose proof (Producers.rank_ready_pick (elements (mi_ready (ma_inner m))) (mi_producer_rr (ma_inner m)) _ (mo_range m Hok)) as Hpick.
  pose proof (Producers.rank_rotates (elements (mi_ready (ma_inner m))) (mi_producer_rr (ma_inner m)) _ (mo_range m Hok)) as Hrot.
  destruct (Producers.rank_ready_candidates _ _ _) as [[[best stale] rr] producers] eqn:Hrank.
  destruct Hpick as [Hstale Hbp].
  destruct (rank_master m best stale rr producers Hok Hrank) as (Hok1 & Hframe1 & Hfr1 & Hbest).
  set (inner := ma_inner m) in *.
  set (i1 := {| inner with mi_producer_rr := rr; mi_ready := mi_ready inner ∖ list_to_set stale |}) in *.
  set (m1 := {| m with ma_producers := producers; ma_inner := i1 |}) in *.
  assert (Hlive : mi_ready i1 = filter (Producers.live (ma_producers m)) (mi_ready inner)).
  { apply leibniz_equiv. intros q. cbn [mi_ready i1]. rewrite Hstale, elem_of_difference, elem_of_list_to_set,
      list_elem_of_filter, elem_of_elements, elem_of_filter. destruct (decide (Producers.live (ma_producers m) q)); tauto. }
  destruct best as [p|].
  2: { split; [done|]. constructor; try done. right. split; [done|]. intros q Hq. by apply Hbp, elem_of_elements. }
  destruct Hbest as (Hp & Hl & Hsame), Hbp as (_ & Hbst & _).
  destruct (take_next_spec (on_ready (fun s => s ∖ {[p]}) i1)) as (pick & c & Hc & -> & Hpk); [done|].
  match goal with |- context [send_match now io p c ?x] => set (m2 := x) end.
  assert (Hsel : selected p c m2).
  { apply (select_ok p c pick (ma_inner m2) m1); try done.
    rewrite Hsame. destruct (Producers.live_lookup _ _ Hl) as (e & He & _). by exists e. }
  destruct (send_match_counters now io p c m2) as [Hcr Hpr].
  pose proof (fun msg => send_match_idle now msg p c m2 Hsel) as Hidle.
  destruct (send_match_spec now io p c m2 Hsel) as (m' & Heq & Hok' & Hr & Hf & Hio).
  rewrite Heq in *. cbn [fst] in Hcr, Hpr. exists p, c. change (ma_inner m1) with i1 in Hp. rewrite Hlive in Hp.
  apply elem_of_filter in Hp as [_ Hp].
  constructor; try done.
  - rewrite Hpr. exact Hrot.
  - rewrite Hr. change (mi_ready (ma_inner m2)) with (mi_ready i1 ∖ {[p]}). by rewrite Hlive.
  - cbv zeta. rewrite Hcr. unfold queue_turn. change (ma_inner m) with inner. change (mi_waiting (on_ready _ i1)) with (mi_waiting inner) in Hc, Hpk.
    change (mi_consumer_rr (on_ready _ i1)) with (mi_consumer_rr inner) in Hpk. rewrite <- Hpk.
    split_and!; [done|cbn; f_equal; lia|]. destruct io; destruct Hio as [-> _]; cbn [ma_inner m2 mi_waiting]; [by rewrite app_nil_r|done].
  - intros q Hq. rewrite Hf by (intros ->; done). by apply Hframe1.
  - intros q Hq. rewrite <- Hfr1. unfold ledger. by rewrite Hf.
  - destruct io as [u|msg].
    + destruct Hio as (Hwt & [Hme (frame & l & Henc & Hl1 & Hl2) Hmc] & Has). split; [|exact Has].
      constructor; [exact Hme| |exact Hmc]. exists frame, l. split_and!; [done| |done].
      by rewrite <- (ledger_frames _ _ _ (Hfr1 p)).
    + destruct Hio as (Hwt & Hc' & Hfr). split_and!; [exact Hc'|by rewrite <- Hfr1, Hfr|].
      specialize (Hidle msg). by rewrite Heq in Hidle.
Qed.

(** *** What the whole loop does *)

(** A turn that went on: its producer, its consumer and the answer of its write. *)
Record turn := { tu_producer : Z; tu_consumer : PendingConsumer; tu_io : result string unit }.

(** The turns of a call, from the [i]-th write of the environment on. *)
Inductive matching_run (e : env) : nat -> Master -> list turn -> Master -> Prop :=
| mr_stop i m m' : turn_stops m m' -> matching_run e i m [] m'
| mr_turn i p c m m1 ts m' : turn_made (env_io e i) p c m m1 -> matching_run e (S i) m1 ts m' ->
    matching_run e i m ({| tu_producer := p; tu_consumer := c; tu_io := env_io e i |} :: ts) m'.

Definition succeeded (t : turn) : Prop := if tu_io t is Ok _ then True else False.

#[export] Instance succeeded_dec t : Decision (succeeded t).
Proof. unfold succeeded. destruct (tu_io t); apply _. Defined.

(** The pairs of the turns whose write succeeded. *)
Definition pairs_of (ts : list turn) : list (Z * PendingConsumer) :=
  (fun t => (tu_producer t, tu_consumer t)) <$> filter succeeded ts.

(** With more fuel than producers in the pool the loop returns, and it is a run. *)
Lemma try_match_loop_run n i e m :
  master_ok m -> (size (mi_ready (ma_inner m)) < n)%nat ->
  exists m' ts, try_match_loop n i e m = (m', Some (Ok tt)) /\ matching_run e i m ts m'.
Proof.
  revert i m. induction n as [|n IH]; intros i m Hok Hsz; [lia|]. cbn [try_match_loop].
  pose proof (try_match_turn_spec (env_now e) (env_io e i) m Hok) as Hturn.
  destruct (try_match_turn (env_now e) (env_io e i) m) as [m1 [r|]].
  { destruct Hturn as [-> Hs]. exists m1, []. split; [done|by constructor]. }
  destruct Hturn as (p & c & Ht).
  destruct (IH (S i) m1 (tm_ok _ _ _ _ _ Ht)) as (m' & ts & Hloop & Hrun).
  { eapply size_shrinks; [exact (proj1 (tm_best _ _ _ _ _ Ht))|exact (tm_pool _ _ _ _ _ Ht)|exact Hsz]. }
  eexists m', _. split; [exact Hloop|]. by econstructor.
Qed.

(** The producers a run leaves alone. *)
Record run_frame (e : env) (m : Master) (ts : list turn) (m' : Master) : Prop :=
  { rf_ok : master_ok m';
    rf_end : mi_waiting (ma_inner m') = [] \/ mi_ready (ma_inner m') = ∅;
    rf_ready : mi_ready (ma_inner m') ⊆ mi_ready (ma_inner m);
    rf_waiting : mi_waiting (ma_inner m) ≡ₚ (pairs_of ts).*2 ++ mi_waiting (ma_inner m');
    rf_nodup : NoDup (tu_producer <$> ts);
    rf_pool : Forall (fun t => tu_producer t ∈ mi_ready (ma_inner m) /\ tu_producer t ∉ mi_ready (ma_inner m')) ts;
    rf_entry : forall q, q ∉ mi_ready (ma_inner m) -> producer_entry q m' = producer_entry q m;
    rf_ledger : forall q, q ∉ (pairs_of ts).*1 -> ledger q m' = ledger q m;
    rf_assigned : forall j q, j ∉ waiting_ids m -> q ∉ mi_ready (ma_inner m) ->
      Consumers.assigned j (ma_consumers m') = Some q <-> Consumers.assigned j (ma_consumers m) = Some q }.

Lemma pairs_of_cons t ts :
  pairs_of (t :: ts) = (if tu_io t is Ok _ then [(tu_producer t, tu_consumer t)] else []) ++ pairs_of ts.
Proof. unfold pairs_of. rewrite filter_cons. unfold succeeded. destruct t as [p c []]; cbn; by case_decide. Qed.

Lemma pairs_of_producer q ts : q ∈ (pairs_of ts).*1 -> q ∈ tu_producer <$> ts.
Proof.
  unfold pairs_of. rewrite <- list_fmap_compose. intros (t & -> & [_ Ht]%list_elem_of_filter)%list_elem_of_fmap.
  by apply list_elem_of_fmap_2.
Qed.

Lemma matching_run_frame e i m ts m' : master_ok m -> matching_run e i m ts m' -> run_frame e m ts m'.
Proof.
  intros Hok Hrun. induction Hrun as [i m m' Hs|i p c m m1 ts m' Ht Hrun IH].
  { constructor; try done; [by apply Hs|by eapply ts_end|by eapply ts_ready|by rewrite (ts_waiting _ _ Hs)
      |constructor|by apply Hs|intros q _; by apply Hs|]. intros j q _ _. by rewrite (ts_consumers _ _ Hs). }
  destruct (IH (tm_ok _ _ _ _ _ Ht)) as [Hok' Hend Hr' Hw' Hnd Hall Hf' Hfr' Has'].
  pose proof (tm_pool _ _ _ _ _ Ht) as Hr. pose proof (tm_waiting _ _ _ _ _ Ht) as Hw.
  pose proof (proj1 (tm_best _ _ _ _ _ Ht)) as Hp.
  assert (Hids : waiting_ids m ≡ₚ (if env_io e i is Ok _ then [pc_consumer_id c] else []) ++ waiting_ids m1).
  { unfold waiting_ids. rewrite Hw, fmap_app. by destruct (env_io e i). }
  constructor; try done; rewrite ?pairs_of_cons; cbn [tu_io tu_producer tu_consumer fmap list_fmap].
  - set_solver.
  - rewrite Hw, Hw'. by destruct (env_io e i).
  - constructor; [|done]. intros Hin. apply list_elem_of_fmap in Hin as (t & -> & Hin).
    rewrite Forall_forall in Hall. destruct (Hall t Hin). set_solver.
  - constructor; [set_solver|]. eapply Forall_impl; [exact Hall|]. intros t [? ?]. set_solver.
  - intros q Hq. rewrite Hf' by set_solver. by apply Ht.
  - intros q Hq. rewrite fmap_app, elem_of_app in Hq. rewrite Hfr' by tauto.
    destruct (decide (q = p)) as [->|]; [|by apply Ht].
    destruct (env_io e i) as [u|] eqn:Hio; [destruct Hq; left; cbn; by left|].
    pose proof (tm_outcome _ _ _ _ _ Ht) as (_ & ? & _). done.
  - intros j q Hj Hq. rewrite Hids, elem_of_app in Hj. rewrite Has' by (tauto || set_solver).
    pose proof (tm_outcome _ _ _ _ _ Ht) as Hout. destruct (env_io e i) as [u|] eqn:Hio.
    + apply Hout; [|by intros ->]. intros ->. apply Hj. left. by left.
    + by destruct Hout as [-> _].
Qed.

(** What became of each turn's producer. *)
Definition turn_result (m m' : Master) (t : turn) : Prop :=
  match tu_io t with
  | Ok _ => matched (tu_producer t) (tu_consumer t) m m'
  | Err _ => frames (tu_producer t) m' = frames (tu_producer t) m /\
      Producers.state_of (tu_producer t) (ma_producers m') = Some Producers.Idle
  end.

Lemma turn_result_before m m1 m' t :
  ledger (tu_producer t) m1 = ledger (tu_producer t) m -> turn_result m1 m' t -> turn_result m m' t.
Proof.
  intros Hl%ledger_frames. unfold turn_result. destruct (tu_io t).
  - intros [He (frame & l & Henc & Hl1 & Hl2) Hc]. constructor; [done| |done]. exists frame, l. by rewrite <- Hl.
  - by rewrite <- Hl.
Qed.

Lemma matching_run_results e i m ts m' :
  master_ok m -> matching_run e i m ts m' -> Forall (turn_result m m') ts.
Proof.
  intros Hok Hrun. induction Hrun as [|i p c m m1 ts m' Ht Hrun IH]; [constructor|].
  pose proof (tm_ok _ _ _ _ _ Ht) as Hok1. specialize (IH Hok1).
  destruct (matching_run_frame _ _ _ _ _ Hok1 Hrun) as [_ _ _ _ _ Hall Hf' Hfr' Has'].
  pose proof (tm_pool _ _ _ _ _ Ht) as Hr. assert (Hp1 : p ∉ mi_ready (ma_inner m1)) by set_solver.
  assert (Hpt : p ∉ tu_producer <$> ts).
  { intros (t & -> & Hin)%list_elem_of_fmap. rewrite Forall_forall in Hall. by destruct (Hall t Hin). }
  constructor.
  - unfold turn_result. cbn [tu_io tu_producer tu_consumer]. pose proof (tm_outcome _ _ _ _ _ Ht) as Hout.
    pose proof (Hf' p Hp1) as Hfp. destruct (env_io e i) as [u|] eqn:Hio.
    + destruct Hout as [[(e0 & He0) (frame & l & Henc & Hl1 & Hl2) Hcs] _].
      constructor; [exists e0; by rewrite Hfp| |].
      * exists frame, l. unfold frames in *. by rewrite Hfp.
      * apply Has'; [|done|done]. intros Hin. pose proof (mo_waiting _ Hok) as Hnd0.
        assert (Hids : waiting_ids m ≡ₚ pc_consumer_id c :: waiting_ids m1).
        { pose proof (tm_waiting _ _ _ _ _ Ht) as Hw. unfold waiting_ids. by rewrite Hw. }
        rewrite Hids in Hnd0. by apply NoDup_cons in Hnd0 as [? _].
    + destruct Hout as (_ & Hl%ledger_frames & Hst). unfold Producers.state_of, frames, producer_entry in *.
      by rewrite Hfp.
  - apply Forall_forall. intros t Hin. rewrite Forall_forall in IH, Hall.
    apply (turn_result_before m m1); [|by apply IH]. apply Ht. intros Heq. destruct (Hall t Hin) as [Hin' _].
    by rewrite Heq in Hin'.
Qed.

(** *** The methods keep the invariant *)

Lemma master_good m : master_ok m -> Producers.all_good (mi_ready (ma_inner m)) (ma_producers m).
Proof.
  intros [H1 H2 H3 H4 _ _ _ _ _] p e He. split_and!; [by eapply H2|by eapply H3|].
  intros Hp. by eapply H4.
Qed.

Lemma master_intro m :
  Producers.registry_ok (ma_producers m) ->
  Producers.all_good (mi_ready (ma_inner m)) (ma_producers m) ->
  Consumers.consumers_ok (ma_consumers m) -> NoDup (waiting_ids m) ->
  (forall c, c ∈ waiting_ids m ->
     is_Some (Consumers.cr_inner (ma_consumers m) !! c) /\ Consumers.assigned c (ma_consumers m) = None) ->
  Forall encodable (mi_waiting (ma_inner m)) -> Consumers.contexts_ok (ma_consumers m) -> master_ok m.
Proof.
  intros H1 Hg H5 H6 H7 H8 H9. constructor; try done.
  - intros p e He. by apply (Hg p e).
  - intros p e He. by apply (Hg p e).
  - intros p e Hp He. by apply (Hg p e).
Qed.

(** A change of the producers' table, and of the pool. *)
Lemma producers_ok m pool r :
  master_ok m -> Producers.registry_ok r -> Producers.all_good pool r ->
  master_ok {| m with ma_producers := r; ma_inner := on_ready (fun _ => pool) (ma_inner m) |}.
Proof. intros [_ _ _ _ H5 H6 H7 H8 H9] Hr Hg. by apply master_intro. Qed.

Lemma producers_only_ok m r :
  master_ok m -> Producers.registry_ok r -> Producers.all_good (mi_ready (ma_inner m)) r ->
  master_ok {| m with ma_producers := r |}.
Proof. intros [_ _ _ _ H5 H6 H7 H8 H9] Hr Hg. by apply master_intro. Qed.

Lemma pool_ok m f :
  master_ok m ->
  (forall p e, p ∈ f (mi_ready (ma_inner m)) -> p ∉ mi_ready (ma_inner m) -> producer_entry p m = Some e ->
     Producers.pe_state e <> Producers.Busy) ->
  master_ok (on_inner (on_ready f) m).
Proof.
  intros Hok Hf. pose proof (master_good m Hok) as Hg. destruct Hok as [H1 _ _ _ H5 H6 H7 H8 H9].
  apply master_intro; try done. intros p e He. destruct (Hg p e He) as (? & ? & Hp). split_and!; [done|done|].
  intros Hin. destruct (decide (p ∈ mi_ready (ma_inner m))); [by apply Hp|by eapply Hf].
Qed.

Lemma shrink_pool_ok m p : master_ok m -> master_ok (on_inner (on_ready (fun s => s ∖ {[p]})) m).
Proof. intros Hok. apply pool_ok; [done|]. set_solver. Qed.

Lemma try_match_run e m :
  master_ok m ->
  exists m' ts, try_match e m = (m', Ok tt) /\
    try_match_loop (S (size (mi_ready (ma_inner m)))) 0 e m = (m', Some (Ok tt)) /\ matching_run e 0 m ts m'.
Proof.
  intros Hok. destruct (try_match_loop_run (S (size (mi_ready (ma_inner m)))) 0 e m Hok ltac:(lia))
    as (m' & ts & Hloop & Hrun). exists m', ts. unfold try_match. by rewrite Hloop.
Qed.

(** Its matches, between distinct producers and consumers. *)
Lemma try_match_spec e m :
  master_ok m ->
  exists m' pairs,
    try_match e m = (m', Ok tt) /\
    try_match_loop (S (size (mi_ready (ma_inner m)))) 0 e m = (m', Some (Ok tt)) /\ master_ok m' /\
    (mi_waiting (ma_inner m') = [] \/ mi_ready (ma_inner m') = ∅) /\
    mi_ready (ma_inner m') ⊆ mi_ready (ma_inner m) /\
    mi_waiting (ma_inner m) ≡ₚ pairs.*2 ++ mi_waiting (ma_inner m') /\ NoDup pairs.*1 /\
    Forall (fun pc => pc.1 ∈ mi_ready (ma_inner m) /\ pc.1 ∉ mi_ready (ma_inner m') /\
                      matched pc.1 pc.2 m m') pairs /\
    (forall q, q ∉ mi_ready (ma_inner m) -> producer_entry q m' = producer_entry q m) /\
    (forall q, q ∉ pairs.*1 -> ledger q m' = ledger q m) /\
    (forall j q, j ∉ waiting_ids m -> q ∉ mi_ready (ma_inner m) ->
       Consumers.assigned j (ma_consumers m') = Some q <-> Consumers.assigned j (ma_consumers m) = Some q).
Proof.
  intros Hok. destruct (try_match_run e m Hok) as (m' & ts & Heq & Hloop & Hrun).
  pose proof (matching_run_results _ _ _ _ _ Hok Hrun) as Hres.
  destruct (matching_run_frame _ _ _ _ _ Hok Hrun) as [Hok' Hend Hr Hw Hnd Hall Hf Hfr Has].
  exists m', (pairs_of ts). split_and!; try done.
  - unfold pairs_of. rewrite <- list_fmap_compose. eapply sublist_NoDup; [exact Hnd|].
    apply fmap_sublist, sublist_filter.
  - apply Forall_fmap, Forall_forall. intros t [Hs Ht]%list_elem_of_filter.
    rewrite Forall_forall in Hall, Hres. destruct (Hall t Ht) as [? ?]. specialize (Hres t Ht).
    unfold turn_result, succeeded in *. by destruct (tu_io t).
Qed.

Lemma try_match_ok e m : master_ok m -> master_ok (try_match e m).1.
Proof. intros Hok. by destruct (try_match_spec e m Hok) as (m' & pairs & -> & _ & ? & _). Qed.

Lemma push_waiting_elem x entry w :
  x ∈ push_waiting entry w <-> x = entry \/ (x ∈ w /\ pc_consumer_id x <> pc_consumer_id entry).
Proof. unfold push_waiting. rewrite elem_of_app, list_elem_of_filter, list_elem_of_singleton. tauto. Qed.

Lemma push_waiting_nodup entry w :
  NoDup (pc_consumer_id <$> w) -> NoDup (pc_consumer_id <$> push_waiting entry w).
Proof.
  intros Hw. unfold push_waiting. rewrite fmap_app. apply NoDup_app. split_and!.
  - eapply sublist_NoDup; [exact Hw|]. apply fmap_sublist, sublist_filter.
  - cbn. intros x Hx ->%list_elem_of_singleton.
    apply list_elem_of_fmap in Hx as (y & Hy & [Hne _]%list_elem_of_filter). by rewrite Hy in Hne.
  - apply NoDup_singleton.
Qed.

Lemma enqueue_ok c rd addr dn m :
  master_ok m -> is_Some (Consumers.cr_inner (ma_consumers m) !! c) ->
  Consumers.assigned c (ma_consumers m) = None ->
  slen (rr_consumer_tag rd) <= umax 16 -> 1 <= slen addr <= umax 16 ->
  master_ok (push_consumer_wait_with_done c rd addr dn m).
Proof.
  intros Hok Hc Hn Ht Ha. pose proof (master_good m Hok) as Hg. destruct Hok as [H1 _ _ _ H5 H6 H7 H8 H9].
  apply master_intro; try done.
  - by apply push_waiting_nodup.
  - intros j Hj. apply list_elem_of_fmap in Hj as (x & -> & Hx). apply push_waiting_elem in Hx as [->|[Hx _]]; [done|].
    apply H7. by apply list_elem_of_fmap_2.
  - apply Forall_forall. intros x Hx. apply push_waiting_elem in Hx as [->|[Hx _]]; [done|].
    rewrite Forall_forall in H8. by apply H8.
Qed.

Lemma ensure_in_ready_pool_ok p m :
  master_ok m -> (forall e, producer_entry p m = Some e -> Producers.pe_state e <> Producers.Busy) ->
  master_ok (ensure_in_ready_pool p m).
Proof.
  intros Hok Hp. apply pool_ok; [done|]. intros q e [->%elem_of_singleton|?]%elem_of_union Hq He; [by apply Hp|done].
Qed.

Lemma sync_ready_pool_ok m : master_ok m -> master_ok (sync_ready_pool m).
Proof.
  intros Hok. unfold sync_ready_pool. pose proof (Producers.sync_good _ _ (master_good m Hok)) as Hg.
  pose proof (Producers.sync_ok (mi_ready (ma_inner m)) _ (mo_registry _ Hok)) as Hr.
  destruct (Producers.sync_matcher_ready_state _ _) as [[add rem] r]. cbn [snd] in Hr.
  exact (producers_ok m (add ∪ (mi_ready (ma_inner m) ∖ rem)) r Hok Hr Hg).
Qed.

(** What [on_producer_ready] starts the matching with: the producer is in the pool
    and not busy, and nothing else changed. *)
Record readied (p : Z) (m m1 : Master) : Prop :=
  { rd_ok : master_ok m1;
    rd_inner : ma_inner m1 = on_ready (fun s => {[p]} ∪ s) (ma_inner m);
    rd_consumers : ma_consumers m1 = ma_consumers m;
    rd_others : forall q, q <> p -> producer_entry q m1 = producer_entry q m;
    rd_entry : is_Some (producer_entry p m1) <-> is_Some (producer_entry p m);
    rd_prdy : forall e, producer_entry p m1 = Some e -> Producers.pe_prdy_pending e = true }.

Lemma readied_prdy p m r :
  master_ok m -> Producers.registry_ok r -> Producers.all_good (mi_ready (ma_inner m)) r ->
  (forall e, Producers.pr_inner r !! p = Some e -> Producers.pe_state e <> Producers.Busy) ->
  (forall q, q <> p -> Producers.pr_inner r !! q = producer_entry q m) ->
  is_Some (Producers.pr_inner r !! p) <-> is_Some (producer_entry p m) ->
  readied p m (ensure_in_ready_pool p {| m with ma_producers := Producers.mark_prdy p r |}).
Proof.
  intros Hok Hr Hg Hnb Hq Hp.
  assert (Hent : forall q, Producers.pr_inner (Producers.mark_prdy p r) !! q =
    if decide (q = p) then (fun e => {| e with Producers.pe_prdy_pending := true |}) <$> Producers.pr_inner r !! p
    else Producers.pr_inner r !! q) by (intros q; apply Producers.mark_prdy_entry).
  constructor; try done; unfold producer_entry; cbn [ensure_in_ready_pool on_inner ma_producers].
  - apply ensure_in_ready_pool_ok.
    + apply producers_only_ok; [done|by apply Producers.mark_prdy_ok|by apply Producers.mark_prdy_good].
    + unfold producer_entry. cbn [ma_producers]. intros e. rewrite Hent. destruct (decide (p = p)) as [_|]; [|done].
      intros (e0 & He0 & ->)%fmap_Some. exact (Hnb e0 He0).
  - intros q Hne. rewrite Hent. destruct (decide (q = p)); [done|]. by apply Hq.
  - rewrite Hent. destruct (decide (p = p)) as [_|]; [|done]. by rewrite fmap_is_Some.
  - intros e. rewrite Hent. destruct (decide (p = p)) as [_|]; [|done]. by intros (e0 & _ & ->)%fmap_Some.
Qed.

Lemma readied_set_state p m m1 :
  (forall e, producer_entry p m1 = Some e -> Producers.pe_state e <> Producers.Busy) ->
  readied p m m1 -> readied p m (on_producers (Producers.set_state p Producers.Ready) m1).
Proof.
  intros Hnb [H1 H2 H3 H4 H5 H6].
  assert (Hent : forall q, Producers.pr_inner (Producers.set_state p Producers.Ready (ma_producers m1)) !! q =
    if decide (q = p) then (fun e => {| e with Producers.pe_state := Producers.Ready |}) <$> producer_entry p m1
    else producer_entry q m1) by (intros q; apply Producers.set_state_entry).
  constructor; try done; unfold producer_entry; cbn [on_producers ma_producers].
  - apply producers_only_ok; [done|by apply Producers.set_state_ok, H1|].
    apply Producers.set_state_good; [done| |exact (master_good _ H1)]. intros e He. left. by apply Hnb.
  - intros q Hq. rewrite Hent. destruct (decide (q = p)); [done|by apply H4].
  - rewrite Hent. destruct (decide (p = p)) as [_|]; [|done]. by rewrite fmap_is_Some.
  - intros e. rewrite Hent. destruct (decide (p = p)) as [_|]; [|done]. intros (e0 & He0 & ->)%fmap_Some. exact (H6 e0 He0).
Qed.

Lemma on_producer_ready_spec e p m :
  master_ok m -> exists m1, on_producer_ready e p m = try_match e m1 /\ readied p m m1.
Proof.
  intros Hok. pose proof (mo_registry _ Hok) as Hreg. pose proof (master_good m Hok) as Hg.
  assert (Hgo : forall r, Producers.registry_ok r -> Producers.all_good (mi_ready (ma_inner m)) r ->
    (forall e', Producers.pr_inner r !! p = Some e' -> Producers.pe_state e' <> Producers.Busy) ->
    (forall q, q <> p -> Producers.pr_inner r !! q = producer_entry q m) ->
    is_Some (Producers.pr_inner r !! p) <-> is_Some (producer_entry p m) ->
    readied p m (ensure_in_ready_pool p {| m with ma_producers := Producers.mark_prdy p r |}) /\
    readied p m (on_producers (Producers.set_state p Producers.Ready)
                   (ensure_in_ready_pool p {| m with ma_producers := Producers.mark_prdy p r |}))).
  { intros r Hr Hgr Hnb Hq Hp. pose proof (readied_prdy p m r Hok Hr Hgr Hnb Hq Hp) as H1. split; [done|].
    apply readied_set_state; [|done]. unfold producer_entry. cbn [ensure_in_ready_pool on_inner ma_producers].
    intros e' He'. rewrite Producers.mark_prdy_entry in He'. destruct (decide (p = p)) as [_|]; [|done].
    apply fmap_Some in He' as (e0 & He0 & ->). exact (Hnb e0 He0). }
  unfold on_producer_ready, Producers.state_of.
  destruct (Producers.pr_inner (ma_producers m) !! p) as [e0|] eqn:He0; cbn [fmap option_fmap option_map].
  - destruct (Producers.pe_state e0) eqn:Hst; eexists; (split; [reflexivity|]).
    + apply (Hgo (ma_producers m)); try done. intros e'. rewrite He0. intros [= <-]. congruence.
    + apply (Hgo (ma_producers m)); try done. intros e'. rewrite He0. intros [= <-]. congruence.
    + apply (Hgo (Producers.clear_stale_busy p (ma_producers m)).2);
        [by apply Producers.clear_stale_busy_ok|by apply Producers.clear_stale_busy_good| | |].
      * intros e' He'. by apply (Producers.clear_stale_busy_entry _ _ _ _ He').
      * intros q Hq. rewrite Producers.clear_stale_busy_others by done. done.
      * by rewrite Producers.clear_stale_busy_present.
  - eexists. split; [reflexivity|]. apply (Hgo (ma_producers m)); try done. intros e'. by rewrite He0.
Qed.

Lemma on_producer_ready_ok e p m : master_ok m -> master_ok (on_producer_ready e p m).1.
Proof. intros Hok. destruct (on_producer_ready_spec e p m Hok) as (m1 & -> & Hr). by apply try_match_ok, Hr. Qed.

(** A producer done with its batch owes nothing any more. *)
Lemma on_producer_done_ok e p m :
  master_ok m ->
  (forall e', producer_entry p m = Some e' -> Producers.pe_pending_consumer_id e' = None) ->
  master_ok (on_producer_done e p m).
Proof.
  intros Hok Hp. apply try_match_ok, shrink_pool_ok. apply producers_only_ok; [done| |].
  - by apply Producers.set_state_ok, Hok.
  - apply Producers.set_state_good; [done| |exact (master_good _ Hok)]. intros e' He'. right. by apply Hp.
Qed.

Lemma wake_producer_ok e p m :
  master_ok m -> (forall e', producer_entry p m = Some e' -> Producers.pe_state e' <> Producers.Busy) ->
  master_ok (wake_producer e p m).
Proof. intros Hok Hp. by apply try_match_ok, ensure_in_ready_pool_ok. Qed.

Lemma set_phase_lookup id state r :
  state <> Consumers.AWAITING ->
  (forall c, is_Some (Consumers.cr_inner (Consumers.set_phase id state r) !! c) <->
             is_Some (Consumers.cr_inner r !! c)) /\
  (forall c, Consumers.assigned c (Consumers.set_phase id state r) =
     if decide (c = id) then None else Consumers.assigned c r).
Proof.
  intros Hst. unfold Consumers.set_phase, Consumers.set_state.
  destruct (String.eqb_spec state "awaiting_batch"); [done|].
  rewrite Consumers.take_assigned_spec. destruct (Consumers.cr_inner r !! id) as [e|] eqn:He.
  - set (r1 := Consumers.with_entry id _ r). set (r2 := Consumers.untrack_stale _ id r1).
    destruct (Consumers.untrack_stale_fields (Consumers.assigned id r) id r1) as (Hin & _).
    fold r2 in Hin. split; intros c.
    + cbn [Consumers.with_entry Consumers.cr_inner]. rewrite lookup_alter_is_Some. fold r2. rewrite Hin.
      cbn. apply lookup_alter_is_Some.
    + rewrite Consumers.assigned_with_entry. fold r2. unfold Consumers.assigned at 1. rewrite Hin.
      case_decide as Hc.
      * cbn. rewrite lookup_alter_eq, He. done.
      * change (Consumers.assigned c r1 = Consumers.assigned c r). unfold r1. rewrite Consumers.assigned_with_entry.
        by rewrite decide_False.
  - split; intros c; [done|]. case_decide as Hc; [|done]. rewrite Hc. unfold Consumers.assigned. by rewrite He.
Qed.

Lemma requeue_orphan_ok cid m : master_ok m -> master_ok (requeue_orphan cid m).
Proof.
  intros Hok. unfold requeue_orphan. destruct (Consumers.state_of cid (ma_consumers m)) as [st|]; [|done].
  destruct (_ || _); [|done]. unfold Consumers.match_context.
  destruct (Consumers.cr_inner (ma_consumers m) !! cid) as [e|] eqn:He; [|done].
  assert (Hne : "matcher_queue"%string <> Consumers.AWAITING) by done.
  destruct (set_phase_lookup cid "matcher_queue" (ma_consumers m) Hne) as [Hdom Has].
  destruct (mo_contexts _ Hok cid e He) as [Ht Ha].
  apply enqueue_ok; cbn [on_consumers ma_consumers rr_consumer_tag]; [|by apply Hdom|by rewrite Has, decide_True|done|done].
  pose proof (master_good m Hok) as Hg. destruct Hok as [H1 _ _ _ H5 H6 H7 H8 H9].
  apply master_intro; cbn [on_consumers ma_consumers ma_producers ma_inner]; try done.
  - by apply Consumers.set_phase_ok.
  - intros j Hj. rewrite Hdom, Has. destruct (H7 j Hj) as [? Hn]. split; [done|]. by case_decide.
  - by apply Consumers.set_phase_contexts.
Qed.

(** What a disconnect starts the matching with. *)
Definition orphaned (p : Z) (m : Master) : Master :=
  let m := on_inner (on_ready (fun s => s ∖ {[p]})) m in
  let '(consumer_id, producers) := Producers.take_pending_consumer p (ma_producers m) in
  let m := {| m with ma_producers := producers |} in
  let m := match consumer_id with Some cid => requeue_orphan cid m | None => m end in
  on_producers (Producers.remove p) m.

Lemma on_producer_disconnect_eq e p m : on_producer_disconnect e p m = (try_match e (orphaned p m)).1.
Proof. unfold on_producer_disconnect, orphaned. by destruct (Producers.take_pending_consumer _ _). Qed.

Lemma requeue_orphan_fields cid m :
  ma_producers (requeue_orphan cid m) = ma_producers m /\
  mi_ready (ma_inner (requeue_orphan cid m)) = mi_ready (ma_inner m).
Proof. unfold requeue_orphan. by repeat case_match. Qed.

Lemma orphaned_ok p m : master_ok m -> master_ok (orphaned p m).
Proof.
  intros Hok. unfold orphaned.
  set (m1 := on_inner _ m). assert (Hok1 : master_ok m1) by by apply shrink_pool_ok.
  pose proof (Producers.take_pending_ok p _ (mo_registry _ Hok1)) as Hr.
  pose proof (Producers.take_pending_good _ p _ (master_good _ Hok1)) as Hg.
  destruct (Producers.take_pending_consumer p (ma_producers m1)) as [cid r]. cbn [snd] in *.
  assert (Hok2 : master_ok {| m1 with ma_producers := r |}) by by apply producers_only_ok.
  set (m2 := {| m1 with ma_producers := r |}) in *.
  assert (Hok3 : master_ok (match cid with Some cid => requeue_orphan cid m2 | None => m2 end))
    by (destruct cid; [by apply requeue_orphan_ok|done]).
  apply producers_only_ok; [done|apply Producers.remove_ok, Hok3|].
  by apply Producers.remove_good, master_good.
Qed.

Lemma orphaned_pool p m : mi_ready (ma_inner (orphaned p m)) = mi_ready (ma_inner m) ∖ {[p]}.
Proof.
  unfold orphaned. destruct (Producers.take_pending_consumer _ _) as [[cid|] r]; [|done].
  cbn [on_producers ma_inner]. by rewrite (proj2 (requeue_orphan_fields cid _)).
Qed.

Lemma on_producer_disconnect_ok e p m : master_ok m -> master_ok (on_producer_disconnect e p m).
Proof. intros Hok. rewrite on_producer_disconnect_eq. by apply try_match_ok, orphaned_ok. Qed.

Lemma swap_remove_perm {A} (l : list A) pos x : l !! pos = Some x -> l ≡ₚ x :: swap_remove pos l.
Proof.
  intros Hx. unfold swap_remove. destruct l as [|z l0 _] using rev_ind; [done|].
  rewrite last_snoc, length_app. cbn [length]. replace (length l0 + 1 - 1)%nat with (length l0) by lia.
  destruct (decide (pos < length l0)%nat) as [Hlt|Hge].
  - rewrite lookup_app_l in Hx by done. rewrite insert_app_l by done.
    rewrite take_app_length' by by rewrite length_insert.
    rewrite (insert_take_drop l0 pos z Hlt). rewrite <- (take_drop_middle l0 pos x Hx) at 1. solve_Permutation.
  - assert (pos = length l0) as ->.
    { apply lookup_lt_Some in Hx. rewrite length_app in Hx. simpl in Hx. lia. }
    rewrite list_lookup_middle in Hx by done. injection Hx as ->.
    rewrite insert_app_r_alt by done. rewrite Nat.sub_diag. cbn. rewrite take_app_length. solve_Permutation.
Qed.

(** The queue without one consumer. *)
Lemma drop_waiting_spec cid m :
  master_ok m ->
  let m1 := drop_waiting cid m in
  master_ok m1 /\ cid ∉ waiting_ids m1 /\ ma_producers m1 = ma_producers m /\
  ma_consumers m1 = ma_consumers m /\ mi_ready (ma_inner m1) = mi_ready (ma_inner m).
Proof.
  intros Hok. cbv zeta. unfold drop_waiting. destruct (list_find _ _) as [[pos p]|] eqn:Hfind.
  - apply list_find_Some in Hfind as (Hpos & Hid & _).
    destruct (send_done_fields p (Err "consumer disconnected"%string) (on_inner (on_waiting (swap_remove pos)) m))
      as (Hsp & Hsc & Hsi).
    pose proof (swap_remove_perm _ _ _ Hpos) as Hperm.
    assert (Hids : waiting_ids m ≡ₚ cid :: waiting_ids (on_inner (on_waiting (swap_remove pos)) m)).
    { unfold waiting_ids. cbn [on_inner on_waiting ma_inner mi_waiting]. by rewrite Hperm at 1; cbn; rewrite Hid. }
    pose proof (master_good m Hok) as Hg. destruct Hok as [G1 _ _ _ G5 G6 G7 G8 G9].
    rewrite Hids in G6. apply NoDup_cons in G6 as [Hnot Hnd].
    assert (Hwids : waiting_ids (send_done p (Err "consumer disconnected"%string) (on_inner (on_waiting (swap_remove pos)) m))
              = waiting_ids (on_inner (on_waiting (swap_remove pos)) m)) by (unfold waiting_ids; by rewrite Hsi).
    split_and!; [|by rewrite Hwids|done|done|by rewrite Hsi].
    apply master_intro; rewrite ?Hsp, ?Hsc, ?Hsi, ?Hwids; try done.
    + intros c Hc. apply G7. rewrite Hids. by right.
    + rewrite Hperm in G8. by apply Forall_cons in G8 as [_ ?].
  - apply list_find_None in Hfind. split_and!; [done| |done..].
    unfold waiting_ids. intros Hin. apply list_elem_of_fmap in Hin as (x & Hx & Hin).
    rewrite Forall_forall in Hfind. by apply (Hfind x Hin).
Qed.

(** Dropping a consumer from the queue, and its debts from the producers' table. *)
Lemma cancel_consumer_spec e cid m :
  master_ok m ->
  let m' := cancel_consumer e cid m in
  master_ok m' /\ cid ∉ waiting_ids m' /\
  (forall p e', producer_entry p m' = Some e' -> Producers.pe_pending_consumer_id e' <> Some cid).
Proof.
  intros Hok. cbv zeta. unfold cancel_consumer.
  pose proof (drop_waiting_spec cid m Hok) as H1. cbv zeta in H1. set (m1 := drop_waiting cid m) in *.
  destruct H1 as (Hok1 & Hnw & Hp & _).
  pose proof (Producers.clear_assignments_ok cid _ (mo_registry _ Hok1)) as Hr.
  pose proof (Producers.clear_assignments_good _ cid _ (master_good _ Hok1)) as Hg.
  pose proof (Producers.clear_assignments_spec cid (ma_producers m1)) as Hcl. cbv zeta in Hcl.
  destruct (Producers.clear_assignments_to_consumer cid (ma_producers m1)) as [n r]. cbn [snd] in *.
  assert (Hok2 : master_ok {| m1 with ma_producers := r |}) by by apply producers_only_ok.
  destruct (0 <? n)%nat; [|done].
  destruct (try_match_spec e _ Hok2) as (m' & pairs & -> & _ & Hok' & _ & Hsub & Hperm & _ & Hall & Hf & Hfr & _).
  cbn [fst]. assert (Hids : waiting_ids m1 ≡ₚ (pc_consumer_id <$> pairs.*2) ++ waiting_ids m').
  { unfold waiting_ids in *. cbn [ma_inner] in Hperm. rewrite <- fmap_app. by rewrite <- Hperm. }
  split_and!; [done|rewrite Hids in Hnw; set_solver|].
  intros p e' He' Hpend. destruct (decide (p ∈ mi_ready (ma_inner m1))) as [Hin|Hin].
  - destruct (decide (p ∈ pairs.*1)) as [Hpp|Hpp].
    + apply list_elem_of_fmap in Hpp as ([p0 c0] & -> & Hpc). rewrite Forall_forall in Hall.
      destruct (Hall _ Hpc) as (_ & _ & [(e0 & He0 & _ & Hpe) _ _]). cbn [fst snd] in *.
      assert (e' = e0) as -> by congruence. rewrite Hpe in Hpend. injection Hpend as Hc.
      apply Hnw. rewrite Hids. apply elem_of_app. left. rewrite <- Hc. apply list_elem_of_fmap_2.
      apply (list_elem_of_fmap_2 snd _ _ Hpc).
    + apply Hfr in Hpp. unfold ledger in Hpp. rewrite He' in Hpp.
      change (producer_entry p {| m1 with ma_producers := r |}) with (Producers.pr_inner r !! p) in Hpp.
      destruct (Producers.pr_inner r !! p) as [e0|] eqn:He0; [|done]. cbn in Hpp. injection Hpp as _ Hpe.
      apply (Hcl p e0 He0). congruence.
  - apply (Hcl p e'); [|done]. pose proof (Hf p Hin) as Hs. rewrite He' in Hs. by symmetry.
Qed.

(** ** Properties *)

(** C8: [try_match] always returns, within as many turns as there are producers in
    the pool plus one, and without an error, and what it does is a run of turns
    ([matching_run]).  Each turn takes the producer that ranks best in the pool as
    it is then, ties by rotation, and the waiting consumer at the round-robin
    index, and drops the producers without backlog from the pool ([turn_made]).
    Afterwards no consumer waits or no producer is left in the pool: no possible
    match is missed.  The turns have distinct producers, and each is out of the
    pool.  One whose write succeeded got exactly its consumer's ASGN, is busy for
    it, and the consumer awaits it; one whose write failed is idle and was told
    nothing.  The consumers that left the queue are those of the successful turns,
    and no other connection got a frame. *)
Theorem try_match_correct e m :
  master_ok m ->
  exists m' ts,
    try_match_loop (S (size (mi_ready (ma_inner m)))) 0 e m = (m', Some (Ok tt)) /\
    try_match e m = (m', Ok tt) /\ matching_run e 0 m ts m' /\ master_ok m' /\
    (mi_waiting (ma_inner m') = [] \/ mi_ready (ma_inner m') = ∅) /\
    mi_waiting (ma_inner m) ≡ₚ (pairs_of ts).*2 ++ mi_waiting (ma_inner m') /\ NoDup (tu_producer <$> ts) /\
    Forall (fun t => tu_producer t ∈ mi_ready (ma_inner m) /\ tu_producer t ∉ mi_ready (ma_inner m')) ts /\
    Forall (turn_result m m') ts /\
    (forall q, q ∉ (pairs_of ts).*1 -> frames q m' = frames q m).
Proof.
  intros Hok. destruct (try_match_run e m Hok) as (m' & ts & Heq & Hloop & Hrun).
  destruct (matching_run_frame _ _ _ _ _ Hok Hrun) as [Hok' Hend _ Hw Hnd Hall _ Hfr _].
  exists m', ts. split_and!; try done.
  - by eapply matching_run_results.
  - intros q Hq. by apply ledger_frames, Hfr.
Qed.

(** Two producers with backlog and two consumers in the queue. *)
Definition demo_env : env := {| env_now := 500; env_io := fun i => if (i =? 0)%nat then Err "reset"%string else Ok tt |}.

Definition demo_request (tag : string) : ReadyRequest := {| rr_max_items := 8; rr_consumer_tag := tag |}.

Definition demo_master : Master :=
  let m := on_consumers (fun r => (Consumers.register "c1" "h:1" 0 r).2) (new 0) in
  let m := on_consumers (fun r => (Consumers.register "c2" "h:2" 0 r).2) m in
  let m := on_producers (fun _ => Producers.demo_registry) m in
  let m := ensure_in_ready_pool 1 (ensure_in_ready_pool 2 m) in
  enqueue_consumer 2 (demo_request "b") "h:2" (enqueue_consumer 1 (demo_request "a") "h:1" m).

Lemma demo_registry_ok : Producers.registry_ok Producers.demo_registry.
Proof.
  apply Producers.record_heartbeat_ok, Producers.record_heartbeat_ok.
  do 3 (apply Producers.register_ok; [|vm_compute; reflexivity]). apply Producers.new_ok.
Qed.

Lemma demo_registry_good : Producers.all_good ∅ Producers.demo_registry.
Proof.
  apply Producers.record_heartbeat_good, Producers.record_heartbeat_good;
    [vm_compute; repeat split; discriminate..|].
  do 3 apply Producers.register_good. intros p x. cbn. by rewrite lookup_empty.
Qed.

Lemma demo_consumers_two :
  let r := (Consumers.register "c2" "h:2" 0 (Consumers.register "c1" "h:1" 0 Consumers.new).2).2 in
  Consumers.consumers_ok r /\ Consumers.contexts_ok r.
Proof.
  intros r. split.
  - do 2 (apply Consumers.registered_consumer_ok; [|vm_compute; reflexivity]). apply Consumers.new_consumers_ok.
  - do 2 (apply Consumers.register_contexts; [vm_compute; split; discriminate|vm_compute; split; discriminate|]).
    apply Consumers.new_contexts.
Qed.

Lemma demo_master_ok : master_ok demo_master.
Proof.
  unfold demo_master. destruct demo_consumers_two as [Hc Hx].
  apply enqueue_ok; [|eexists; vm_compute; reflexivity|vm_compute; reflexivity|vm_compute; discriminate
    |vm_compute; split; discriminate].
  apply enqueue_ok; [|eexists; vm_compute; reflexivity|vm_compute; reflexivity|vm_compute; discriminate
    |vm_compute; split; discriminate].
  apply ensure_in_ready_pool_ok; [apply ensure_in_ready_pool_ok|].
  - apply master_intro; cbn; try done; [apply demo_registry_ok|apply demo_registry_good|constructor|].
    intros c Hin. by apply not_elem_of_nil in Hin.
  - intros x Hx'. vm_compute in Hx'. injection Hx' as <-. done.
  - intros x Hx'. vm_compute in Hx'. injection Hx' as <-. done.
Qed.

(** The first write fails: producer 2 is given up, producer 1 takes its consumer. *)
Lemma try_match_correct_witness :
  (try_match demo_env demo_master).2 = Ok tt /\
  waiting_ids (try_match demo_env demo_master).1 = [2] /\
  exists m' ts,
    try_match_loop (S (size (mi_ready (ma_inner demo_master)))) 0 demo_env demo_master = (m', Some (Ok tt)) /\
    try_match demo_env demo_master = (m', Ok tt) /\ matching_run demo_env 0 demo_master ts m' /\ master_ok m' /\
    (mi_waiting (ma_inner m') = [] \/ mi_ready (ma_inner m') = ∅) /\
    mi_waiting (ma_inner demo_master) ≡ₚ (pairs_of ts).*2 ++ mi_waiting (ma_inner m') /\
    NoDup (tu_producer <$> ts) /\
    Forall (fun t => tu_producer t ∈ mi_ready (ma_inner demo_master) /\ tu_producer t ∉ mi_ready (ma_inner m')) ts /\
    Forall (turn_result demo_master m') ts /\
    (forall q, q ∉ (pairs_of ts).*1 -> frames q m' = frames q demo_master).
Proof.
  split; [vm_compute; reflexivity|]. split; [vm_compute; reflexivity|].
  exact (try_match_correct demo_env demo_master demo_master_ok).
Defined.

(** When a consumer's connection is dropped it is out of the queue for good and
    no producer owes it a batch any more, whatever matches the freed producers then
    make. *)
Theorem cancel_consumer_correct e cid m :
  master_ok m ->
  let m' := cancel_consumer e cid m in
  master_ok m' /\ cid ∉ waiting_ids m' /\
  forall p, Producers.take_pending_consumer p (ma_producers m') <>
              (Some cid, (Producers.take_pending_consumer p (ma_producers m')).2).
Proof.
  intros Hok. destruct (cancel_consumer_spec e cid m Hok) as (Hok' & Hw & Hp). cbv zeta.
  split_and!; [done|done|]. intros p. unfold Producers.take_pending_consumer.
  destruct (Producers.pr_inner (ma_producers (cancel_consumer e cid m)) !! p) as [e'|] eqn:He'; [|done].
  cbn [snd]. intros [= Hc]. by eapply Hp.
Qed.

Lemma cancel_consumer_correct_witness :
  waiting_ids demo_master = [1; 2] /\
  let m' := cancel_consumer demo_env 1 demo_master in
  master_ok m' /\ 1 ∉ waiting_ids m' /\
  forall p, Producers.take_pending_consumer p (ma_producers m') <>
              (Some 1, (Producers.take_pending_consumer p (ma_producers m')).2).
Proof.
  split; [vm_compute; reflexivity|]. exact (cancel_consumer_correct demo_env 1 demo_master demo_master_ok).
Defined.
