(* ===== verification/Fairness.v ===== *)
(** * Fairness of the consumer queue ([take_next_waiting_inner], [consumer_rr])

    The queue is not first-in first-out: the round-robin index moves on while the
    removals shift the queue under it.  It still serves every consumer: the number
    of picks a waiting consumer can be passed over is bounded by its position and
    the length of the queue. *)

From S2P Require Import Prelude Protocol Metrics Matchmaker.

(** The consumer [c] is at index [k]. *)
Definition at_index (c : Z) (w : list PendingConsumer) (k : nat) : Prop :=
  exists p, w !! k = Some p /\ pc_consumer_id p = c.

(** What happens to the queue between two picks: the calls of the matchmaker, for
    other consumers than [c]. *)
Inductive other_step (c : Z) : MatchmakerInner -> MatchmakerInner -> Prop :=
| os_push entry i : pc_consumer_id entry <> c -> other_step c i (on_waiting (push_waiting entry) i)
| os_put_back entry i : other_step c i (on_waiting (fun w => w ++ [entry]) i)
| os_cancel pos p i : mi_waiting i !! pos = Some p -> pc_consumer_id p <> c ->
    other_step c i (on_waiting (swap_remove pos) i)
| os_pool f rr i : other_step c i {| i with mi_ready := f (mi_ready i); mi_producer_rr := rr |}.

(** [n] picks, none of them [c], in a queue that holds at most [N] consumers. *)
Inductive passed_over (N : nat) (c : Z) : nat -> MatchmakerInner -> MatchmakerInner -> Prop :=
| po_refl i : passed_over N c 0 i i
| po_other n i i1 i2 : other_step c i i1 -> (length (mi_waiting i1) <= N)%nat ->
    passed_over N c n i1 i2 -> passed_over N c n i i2
| po_pick n i p i1 i2 : take_next_waiting_inner i = (Some p, i1) -> pc_consumer_id p <> c ->
    passed_over N c n i1 i2 -> passed_over N c (S n) i i2.

(** ** Lemmas *)

Lemma at_index_filter c P `{!forall x, Decision (P x)} w k :
  (forall p, pc_consumer_id p = c -> P p) -> at_index c w k ->
  exists k', (k' <= k)%nat /\ at_index c (filter P w) k'.
Proof.
  intros HP. revert k. induction w as [|x w IH]; intros k (p & Hp & Hc); [done|].
  rewrite filter_cons. destruct k as [|k].
  - injection Hp as ->. rewrite decide_True by by apply HP. exists 0%nat. split; [lia|]. by exists p.
  - destruct (IH k) as (k' & Hk & q & Hq & Hqc); [by exists p|].
    case_decide; [exists (S k')|exists k']; (split; [lia|]); by exists q.
Qed.

Lemma at_index_app c w l k : at_index c w k -> at_index c (w ++ l) k.
Proof. intros (p & Hp & Hc). exists p. split; [by apply lookup_app_l_Some|done]. Qed.

Lemma at_index_swap_remove c w pos p k :
  w !! pos = Some p -> pc_consumer_id p <> c -> at_index c w k ->
  exists k', (k' <= k)%nat /\ at_index c (swap_remove pos w) k'.
Proof.
  intros Hpos Hne (q & Hq & Hc). unfold swap_remove.
  assert (k <> pos) by (intros ->; congruence).
  pose proof (lookup_lt_Some _ _ _ Hq) as Hk. pose proof (lookup_lt_Some _ _ _ Hpos) as Hp.
  destruct (last w) as [z|] eqn:Hlast; [|by apply last_None in Hlast; subst].
  rewrite last_lookup in Hlast.
  destruct (decide (k = length w - 1)%nat) as [->|Hkl].
  - (* the last one moves to the free place *)
    exists pos. split; [lia|]. exists q. split; [|done].
    rewrite lookup_take_lt by lia. rewrite list_lookup_insert_eq by lia.
    replace (pred (length w)) with (length w - 1)%nat in Hlast by lia. congruence.
  - exists k. split; [lia|]. exists q. split; [|done].
    rewrite lookup_take_lt by lia. by rewrite list_lookup_insert_ne.
Qed.

Lemma other_step_index c i i' k :
  other_step c i i' -> at_index c (mi_waiting i) k ->
  mi_consumer_rr i' = mi_consumer_rr i /\ exists k', (k' <= k)%nat /\ at_index c (mi_waiting i') k'.
Proof.
  intros Hs Hk. destruct Hs as [entry i He|entry i|pos p i Hp He|f rr i]; (split; [done|]).
  - destruct (at_index_filter c (fun p => pc_consumer_id p <> pc_consumer_id entry) (mi_waiting i) k) as (k' & Hle & Hk');
      [by intros p ->|done|]. exists k'. split; [done|]. by apply at_index_app.
  - exists k. split; [done|]. by apply at_index_app.
  - by eapply at_index_swap_remove.
  - by exists k.
Qed.

Lemma at_index_delete c w pick p k :
  w !! pick = Some p -> pc_consumer_id p <> c -> at_index c w k ->
  at_index c (delete pick w) (if decide (pick < k)%nat then (k - 1)%nat else k).
Proof.
  intros Hp Hne (q & Hq & Hc). exists q. split; [|done].
  assert (k <> pick) by (intros ->; congruence).
  case_decide.
  - rewrite list_lookup_delete_ge by lia. by replace (S (k - 1)) with k by lia.
  - by rewrite list_lookup_delete_lt by lia.
Qed.

(** How far a consumer at index [k] is from being picked. *)
Definition distance (N k rr : nat) : nat := (k * (N + 1) + (if (rr =? 0)%nat then 0 else N - rr))%nat.

Lemma pick_distance N c i p i1 k :
  (length (mi_waiting i) <= N)%nat -> take_next_waiting_inner i = (Some p, i1) ->
  pc_consumer_id p <> c -> at_index c (mi_waiting i) k ->
  (length (mi_waiting i1) <= N)%nat /\
  exists k', at_index c (mi_waiting i1) k' /\
    (distance N k' (mi_consumer_rr i1) < distance N k (mi_consumer_rr i))%nat.
Proof.
  intros HN Htake Hne Hk.
  assert (Hw : mi_waiting i <> []) by (intros Hnil; destruct Hk as (q & Hq & _); by rewrite Hnil in Hq).
  destruct (take_next_spec i Hw) as (pick & p' & Hp & Heq & Hpick). rewrite Heq in Htake.
  assert (p' = p) as -> by congruence. assert (i1 = {| i with mi_consumer_rr := ((pick + 1) `mod` length (mi_waiting i))%nat;
                         mi_waiting := delete pick (mi_waiting i) |}) as -> by congruence.
  cbn [mi_waiting mi_consumer_rr]. pose proof (lookup_lt_Some _ _ _ Hp) as Hlt.
  rewrite length_delete by eauto. split; [lia|].
  exists (if decide (pick < k)%nat then (k - 1)%nat else k). split; [by eapply at_index_delete|].
  assert (Hkp : k <> pick) by (intros ->; destruct Hk as (q & Hq & Hc); congruence).
  destruct Hk as (q & Hq & _). pose proof (lookup_lt_Some _ _ _ Hq) as Hkl.
  set (len := length (mi_waiting i)) in *. unfold distance.
  destruct (decide (pick + 1 = len)%nat) as [Hend|Hend].
  - rewrite Hend, Nat.Div0.mod_same. cbn [Nat.eqb].
    destruct (Nat.leb_spec len (mi_consumer_rr i)).
    + (* the index was past the end *) exfalso. lia.
    + destruct (Nat.eqb_spec (mi_consumer_rr i) 0); case_decide; lia.
  - rewrite Nat.mod_small by lia. destruct (Nat.eqb_spec (pick + 1) 0); [lia|].
    destruct (Nat.leb_spec len (mi_consumer_rr i)); [|destruct (Nat.eqb_spec (mi_consumer_rr i) 0)];
      case_decide; nia.
Qed.

(** ** Properties *)

(** C23: no waiting consumer starves.  In a queue of at most [N] consumers, one at
    index [k] is passed over at most [k * (N + 1) + N] times before it is picked,
    however many consumers arrive, leave or are put back meanwhile. *)
Theorem waiting_consumer_served N c n k i i' :
  (length (mi_waiting i) <= N)%nat -> at_index c (mi_waiting i) k ->
  passed_over N c n i i' -> (n <= k * (N + 1) + N)%nat.
Proof.
  intros HN Hk Hrun. cut (n <= distance N k (mi_consumer_rr i))%nat.
  { unfold distance. destruct (Nat.eqb_spec (mi_consumer_rr i) 0); lia. }
  revert k HN Hk. induction Hrun as [i|n i i1 i2 Ho HN1 _ IH|n i p i1 i2 Ht Hne _ IH]; intros k HN Hk; [lia| |].
  - destruct (other_step_index c i i1 k Ho Hk) as (Hrr & k' & Hle & Hk').
    specialize (IH k' HN1 Hk'). rewrite Hrr in IH. unfold distance in *. nia.
  - destruct (pick_distance N c i p i1 k HN Ht Hne Hk) as (HN1 & k' & Hk' & Hlt).
    specialize (IH k' HN1 Hk'). lia.
Qed.

Definition demo_pending (c : Z) : PendingConsumer :=
  {| pc_consumer_id := c; pc_ready := {| rr_max_items := 1; rr_consumer_tag := "t" |};
     pc_data_addr := "h:1"; pc_done := None |}.

(** Three consumers: the one at index 2 sees 1 picked, then 3 arrive, then... *)
Definition demo_queue : MatchmakerInner :=
  on_waiting (fun _ => [demo_pending 1; demo_pending 2; demo_pending 3]) new_inner.

Lemma waiting_consumer_served_witness :
  let i1 := (take_next_waiting_inner demo_queue).2 in
  let i2 := on_waiting (push_waiting (demo_pending 4)) i1 in
  passed_over 3 2 1 demo_queue i2 /\ (1 <= 1 * (3 + 1) + 3)%nat.
Proof.
  intros i1 i2. assert (Hrun : passed_over 3 2 1 demo_queue i2).
  { eapply po_pick; [vm_compute; reflexivity|discriminate|].
    eapply po_other; [apply os_push with (entry := demo_pending 4); discriminate|vm_compute; lia|].
    apply po_refl. }
  split; [exact Hrun|]. refine (waiting_consumer_served 3 2 1 1 demo_queue i2 _ _ Hrun); [vm_compute; lia|].
  exists (demo_pending 2). split; reflexivity.
Defined.
