(* ===== verification/Server.v ===== *)
(** * The master's server ([master/src/server.rs], [metrics_cache.rs])

    One TCP listener for producers and consumers, told apart by the first four
    bytes, the matcher and sampler tasks, and the HTTP handlers.  A connection is a
    task: its phase is where its handler waits, [conn_turn] what it does between
    two waits.  The lemmas say what each turn keeps; [Relay.v] interleaves them. *)

From S2P Require Import Prelude Utf8 Protocol Float64 Metrics Matchmaker.
From S2P Require Producers Consumers.

(** ** State *)

Record RelayState :=
  { rs_master : Master; rs_history : History.t; rs_metrics_cache : option MetricsSnapshot;
    rs_history_interval_ms : Z }.

Record RelayConfig :=
  { rc_control_addr : string; rc_metrics_addr : string; rc_history_interval_ms : Z;
    rc_history_cap : Z; rc_dashboard_dir : option string }.

(** The state [run] builds before it listens. *)
Definition initial_state (now_ms : Z) (cfg : RelayConfig) : RelayState :=
  {| rs_master := Matchmaker.new now_ms; rs_history := History.new (rc_history_cap cfg);
     rs_metrics_cache := None; rs_history_interval_ms := rc_history_interval_ms cfg |}.

Definition on_master (f : Master -> Master) (st : RelayState) : RelayState :=
  {| st with rs_master := f (rs_master st) |}.

Definition unix_secs (e : env) : Z := env_now e / 1000.

(** *** The metrics cache *)

Definition store (snap : MetricsSnapshot) (st : RelayState) : RelayState :=
  {| st with rs_metrics_cache := Some snap |}.

Definition get (st : RelayState) : option MetricsSnapshot := rs_metrics_cache st.

(** ** Producer frames *)

Definition is_producer_magic (magic : list byte) : bool :=
  bytes_eqb magic MAGIC_PRODUCER_READY || bytes_eqb magic MAGIC_HEARTBEAT ||
  bytes_eqb magic MAGIC_DELIVERED || bytes_eqb magic MAGIC_FAILED.

(** The consumer a report is about: the one the producer owes the batch to, or the
    one that awaits it; 0 for none. *)
Definition report_consumer (producer_id : Z) (pending : option Z) (cr : Consumers.ConsumerRegistry) : Z :=
  let consumer_id := default 0 pending in
  if consumer_id =? 0 then default 0 (Consumers.find_id_by_assigned_producer producer_id cr) else consumer_id.

(** The consumer's side and the counters. *)
Definition settle_consumer (now producer_id consumer_id msg_count batch_bytes : Z) (ok : bool)
    (fail_message : option string) (m : Master) : Master :=
  let m :=
    if ok then
      on_consumers (Consumers.finish_batch consumer_id msg_count batch_bytes now (msg_count =? 0)) m
    else
      on_consumers (Consumers.set_phase consumer_id "delivery_failed")
        (on_consumers (Consumers.set_unacked consumer_id 0) m) in
  let consumer_state := if ok then "processing"%string else "delivery_failed"%string in
  on_metrics (record_transfer_tick now producer_id consumer_id msg_count batch_bytes ok fail_message
                "busy" consumer_state) m.

Definition finish_producer_batch (e : env) (producer_id : Z) (report : DeliveryReport) (ok : bool)
    (fail_message : option string) (m : Master) : Master :=
  let msg_count := dr_msg_count report in
  let batch_bytes := dr_batch_bytes report in
  let '(pending, producers) := Producers.take_pending_consumer producer_id (ma_producers m) in
  let m := {| m with ma_producers := producers |} in
  let consumer_id := report_consumer producer_id pending (ma_consumers m) in
  let m :=
    if 0 <? consumer_id
    then settle_consumer (env_now e) producer_id consumer_id msg_count batch_bytes ok fail_message m else m in
  let m :=
    if ok then on_producers (Producers.record_delivery producer_id msg_count) m
    else on_producers (Producers.record_failure producer_id) m in
  on_producer_done e producer_id m.

Definition producer_heartbeat (e : env) (producer_id : Z) (hb : ProducerHeartbeat) (m : Master) : Master :=
  let '(rematch, producers) := Producers.record_heartbeat (env_now e) producer_id hb (ma_producers m) in
  let m := {| m with ma_producers := producers |} in
  if rematch then wake_producer e producer_id m
  else
    match Producers.state_of producer_id (ma_producers m) with
    | Some Producers.Ready => if 0 <? waiting_count m then (try_match e m).1 else m
    | _ => m
    end.

(** The frame after its magic: the state, and the bytes left or the error that
    ends the connection. *)
Definition process_producer_magic (e : env) (producer_id : Z) (magic : list byte) (input : list byte)
    (m : Master) : Master * result error (list byte) :=
  if bytes_eqb magic MAGIC_PRODUCER_READY then
    match on_producer_ready e producer_id m with
    | (m, Ok _) => (m, Ok input)
    | (m, Err msg) => (m, Err (Bail msg []))
    end
  else if bytes_eqb magic MAGIC_HEARTBEAT then
    match read_heartbeat_payload input with
    | Err err => (m, Err err)
    | Ok (hb, input) => (producer_heartbeat e producer_id hb m, Ok input)
    end
  else if bytes_eqb magic MAGIC_DELIVERED then
    match read_delivery_report_payload input with
    | Err err => (m, Err err)
    | Ok (report, input) => (finish_producer_batch e producer_id report true None m, Ok input)
    end
  else if bytes_eqb magic MAGIC_FAILED then
    match read_failure_report_payload input with
    | Err err => (m, Err err)
    | Ok (report, input) =>
      (finish_producer_batch e producer_id
         {| dr_msg_count := fr_msg_count report; dr_batch_bytes := fr_batch_bytes report |}
         false (Some (fr_message report)) m, Ok input)
    end
  else (m, Err (Bail "unknown producer magic" [])).

(** ** Connections *)

(** Where a connection's handler is.  [ProducerFrame] has read a magic,
    [ProducerLoop] waits for one; the drops are the tasks spawned by the guards
    [ProducerCleanup] and [ConsumerSession]. *)
Inductive ConnPhase : Type :=
| Accepted
| ProducerFrame (producer_id : Z) (magic : list byte)
| ProducerLoop (producer_id : Z)
| ConsumerLoop (consumer_id : Z) (data_addr : string)
| ProducerDrop (producer_id : Z)
| ConsumerDrop (consumer_id : Z)
| Closed.

(** [cn_input]: what the peer will send; [cn_written]: the error frames sent to it. *)
Record Conn := { cn_addr : string; cn_phase : ConnPhase; cn_input : list byte; cn_written : list (list byte) }.

Definition goto (ph : ConnPhase) (input : list byte) (c : Conn) : Conn :=
  {| c with cn_phase := ph; cn_input := input |}.

(** [encode_error] then the end of the handler. *)
Definition refuse (msg : string) (ph : ConnPhase) (c : Conn) : Conn :=
  {| c with cn_phase := ph; cn_written := cn_written c ++ [encode_error ERR_PROTOCOL msg] |}.

(** [handle_control] up to the producer's registration or the consumer's
    [read_register_payload]. *)
Definition handle_control (e : env) (m : Master) (c : Conn) : Master * Conn :=
  match read_exact 4 (cn_input c) with
  | Err _ => (m, goto Closed [] c)
  | Ok (magic, input) =>
    if bytes_eqb magic MAGIC_REGISTER then
      match read_register_payload input with
      | Err _ => (m, refuse "expected REG!" Closed c)
      | Ok (data_addr, input) =>
        let '(id, consumers) := Consumers.register (cn_addr c) data_addr (unix_secs e) (ma_consumers m) in
        ({| m with ma_consumers := consumers |}, goto (ConsumerLoop id data_addr) input c)
      end
    else if is_producer_magic magic then
      let '(id, producers) := Producers.register (cn_addr c) (unix_secs e) (ma_producers m) in
      ({| m with ma_producers := producers |}, goto (ProducerFrame id magic) input c)
    else (m, refuse "expected REG! or producer frame" Closed c)
  end.

(** One turn of the loop of [handle_consumer]. *)
Definition handle_consumer (e : env) (consumer_id : Z) (data_addr : string) (m : Master) (c : Conn) :
    Master * Conn :=
  match read_consumer_ready_request (cn_input c) with
  | Err _ => (m, refuse "expected CRDY" (ConsumerDrop consumer_id) c)
  | Ok (ready, input) =>
    let m := on_consumers (Consumers.begin_cycle consumer_id (rr_max_items ready) (rr_consumer_tag ready)
                             (env_now e)) m in
    let m := enqueue_consumer consumer_id ready data_addr m in
    ((try_match e m).1, goto (ConsumerLoop consumer_id data_addr) input c)
  end.

(** The task of [ConsumerSession]'s drop. *)
Definition drop_consumer_session (e : env) (id : Z) (m : Master) : Master :=
  on_consumers (Consumers.remove id) (cancel_consumer e id m).

Definition conn_turn (e : env) (m : Master) (c : Conn) : Master * Conn :=
  match cn_phase c with
  | Accepted => handle_control e m c
  | ProducerFrame id magic =>
    match process_producer_magic e id magic (cn_input c) m with
    | (m, Ok input) => (m, goto (ProducerLoop id) input c)
    | (m, Err _) => (m, goto (ProducerDrop id) [] c)
    end
  | ProducerLoop id =>
    match read_exact 4 (cn_input c) with
    | Err _ => (m, goto (ProducerDrop id) [] c)
    | Ok (magic, input) => (m, goto (ProducerFrame id magic) input c)
    end
  | ConsumerLoop id data_addr => handle_consumer e id data_addr m c
  | ProducerDrop id => (on_producer_disconnect e id m, goto Closed [] c)
  | ConsumerDrop id => (drop_consumer_session e id m, goto Closed [] c)
  | Closed => (m, c)
  end.

(** ** Background tasks and HTTP handlers *)

Definition run_match_loop_turn (e : env) (m : Master) : Master :=
  if waiting_count m =? 0 then m else (try_match e (sync_ready_pool m)).1.

Definition sampler_interval (interval_ms : Z) : Z := Z.max interval_ms 500.

(** [Metrics::snapshot] on the shared state. *)
Definition take_snapshot (e : env) (rates : f64 * f64 * f64) (m : Master) : MetricsSnapshot * Master :=
  let '(snap, producers, consumers, metrics) :=
    Metrics.snapshot (env_now e) (unix_secs e) rates (ma_producers m) (ma_consumers m) (ma_metrics m) in
  (snap, {| m with ma_producers := producers; ma_consumers := consumers; ma_metrics := metrics |}).

Definition with_queue (queued : Z) (snap : MetricsSnapshot) : MetricsSnapshot :=
  {| snap with sn_consumers_queued := queued; sn_consumers_waiting := queued |}.

(** What the sampler records of a snapshot. *)
Definition sample_of (ts match_queue : Z) (snap : MetricsSnapshot) : Sample :=
  {| sm_ts := ts; sm_producer_backlog := sn_producer_backlog_messages snap;
     sm_producer_pending := sn_producer_pending_messages snap;
     sm_producer_ring := sn_producer_ring_messages snap; sm_consumer_inflight := sn_consumer_inflight snap;
     sm_transfers_total := sn_transfers_total snap; sm_transfer_bytes_total := sn_transfer_bytes_total snap;
     sm_batches_total := sn_batches_total snap;
     sm_delivery_failures_total := sn_delivery_failures_total snap;
     sm_drops_total := sn_producer_drops_total snap; sm_producers_ready := sn_producers_ready snap;
     sm_producers_busy := sn_producers_busy snap; sm_consumers_waiting := match_queue |}.

Definition run_history_sampler_turn (e : env) (st : RelayState) : RelayState :=
  let '(snap, m) := take_snapshot e (History.last_rates (rs_history st)) (rs_master st) in
  let match_queue := waiting_count m in
  let snap := with_queue match_queue snap in
  let st := store snap {| st with rs_master := m |} in
  {| st with rs_history := History.record (sample_of (env_now e) match_queue snap) (rs_history st) |}.

Definition metrics_handler (e : env) (st : RelayState) : MetricsSnapshot * RelayState :=
  let '(snap, st) :=
    match get st with
    | Some cached => (cached, st)
    | None =>
      let '(snap, m) := take_snapshot e (History.last_rates (rs_history st)) (rs_master st) in
      (snap, {| st with rs_master := m |})
    end in
  (with_queue (waiting_count (rs_master st)) snap, st).

Definition ticks_handler (st : RelayState) : list TransferTick * RelayState :=
  let '(ticks, metrics) := drain_ticks (ma_metrics (rs_master st)) in
  (ticks, on_master (fun m => {| m with ma_metrics := metrics |}) st).

Record HistoryQuery := { hq_since_ms : option Z; hq_minutes : option Z }.
Record HistoryResponse := { hr_interval_ms : Z; hr_points : list HistoryPoint }.

(** [m.saturating_mul(60_000)] *)
Definition minutes_ms (m : Z) : Z := Z.min (m * 60000) (umax 64).

Definition query_since (e : env) (q : HistoryQuery) : option Z :=
  match hq_since_ms q with
  | Some since => Some since
  | None => (fun m => sat_sub (env_now e) (minutes_ms m)) <$> hq_minutes q
  end.

Definition history_handler (e : env) (q : HistoryQuery) (st : RelayState) : HistoryResponse :=
  {| hr_interval_ms := rs_history_interval_ms st;
     hr_points := match query_since e q with
                  | Some since => History.list_since since (rs_history st)
                  | None => History.list_all (rs_history st)
                  end |}.

(** The ids are not used up: fewer than [2^64] connections were ever registered. *)
Definition ids_left (m : Master) : Prop :=
  Producers.pr_next_id (ma_producers m) < umax 64 /\ Consumers.cr_next_id (ma_consumers m) < umax 64.

(** ** Lemmas *)

(** *** The connected consumers *)

Definition connected (m : Master) (j : Z) : Prop := is_Some (Consumers.cr_inner (ma_consumers m) !! j).

Lemma release_ids p keep r j :
  is_Some (Consumers.cr_inner (Consumers.release_stale_assignments p keep r) !! j) <->
  is_Some (Consumers.cr_inner r !! j).
Proof.
  unfold Consumers.release_stale_assignments. case_decide; [done|]. rewrite Consumers.untrack_inner.
  match goal with |- context [foldl _ r (elements ?s)] => set (l := elements s) end.
  destruct (Consumers.foldl_with_entry Consumers.release_entry l r (NoDup_elements _)) as (Hl & _).
  rewrite Hl. case_decide; [apply fmap_is_Some|done].
Qed.

Lemma mark_awaiting_ids id p r j :
  is_Some (Consumers.cr_inner (Consumers.mark_awaiting_batch id p r) !! j) <->
  is_Some (Consumers.cr_inner r !! j).
Proof.
  unfold Consumers.mark_awaiting_batch, Consumers.track_awaiting, Consumers.with_entry.
  cbn [Consumers.cr_inner]. apply lookup_alter_is_Some.
Qed.

Lemma send_match_connected now io p c m j : connected (send_match now io p c m).1 j <-> connected m j.
Proof.
  unfold send_match. destruct (encode_assign (assign_of c)) as [frame|err]; [|done].
  destruct (Producers.send_assign io p frame (ma_producers m)) as [[u|msg] r]; [|done]. cbn [fst].
  unfold complete_match, connected. match goal with |- context [send_done c (Ok tt) ?x] => set (m1 := x) end.
  destruct (send_done_fields c (Ok tt) m1) as (_ & -> & _).
  etransitivity; [apply mark_awaiting_ids|apply release_ids].
Qed.

Lemma try_match_turn_connected now io m j : connected (try_match_turn now io m).1 j <-> connected m j.
Proof.
  unfold try_match_turn. destruct (_ || _); [done|].
  destruct (Producers.rank_ready_candidates _ _ _) as [[[[p|] stale] rr] r]; [|done].
  match goal with |- context [take_next_waiting_inner ?x] => destruct (take_next_waiting_inner x) as [[c|] inner] end;
    [|done]. by rewrite send_match_connected.
Qed.

Lemma try_match_loop_connected n i e m j : connected (try_match_loop n i e m).1 j <-> connected m j.
Proof.
  revert i m. induction n as [|n IH]; intros i m; [done|]. cbn [try_match_loop].
  pose proof (try_match_turn_connected (env_now e) (env_io e i) m j) as Ht.
  destruct (try_match_turn _ _ m) as [m1 [r|]]; [done|]. by rewrite IH.
Qed.

Lemma try_match_connected e m j : connected (try_match e m).1 j <-> connected m j.
Proof.
  unfold try_match. pose proof (try_match_loop_connected (S (size (mi_ready (ma_inner m)))) 0 e m j) as H.
  by destruct (try_match_loop _ _ _ _) as [m1 r].
Qed.

Lemma set_phase_ids id state r j :
  is_Some (Consumers.cr_inner (Consumers.set_phase id state r) !! j) <-> is_Some (Consumers.cr_inner r !! j).
Proof.
  destruct (decide (state = Consumers.AWAITING)) as [->|Hne].
  - unfold Consumers.set_phase, Consumers.set_state. cbn. apply lookup_alter_is_Some.
  - by apply set_phase_lookup.
Qed.

Lemma requeue_orphan_connected cid m j : connected (requeue_orphan cid m) j <-> connected m j.
Proof.
  unfold requeue_orphan. destruct (Consumers.state_of _ _); [|done]. destruct (_ || _); [|done].
  destruct (Consumers.match_context _ _) as [[ready addr]|]; [|done]. apply set_phase_ids.
Qed.

Lemma on_producer_disconnect_connected e p m j : connected (on_producer_disconnect e p m) j <-> connected m j.
Proof.
  unfold on_producer_disconnect.
  destruct (Producers.take_pending_consumer _ _) as [[cid|] r]; rewrite try_match_connected; [|done].
  etransitivity; [apply requeue_orphan_connected|done].
Qed.

Lemma cancel_consumer_connected e cid m j : connected (cancel_consumer e cid m) j <-> connected m j.
Proof.
  unfold cancel_consumer. assert (connected (drop_waiting cid m) j <-> connected m j) as <-.
  { unfold drop_waiting, connected. destruct (list_find _ _) as [[pos p]|]; [|done].
    by destruct (send_done_fields p (Err "consumer disconnected"%string)
                  (on_inner (on_waiting (swap_remove pos)) m)) as (_ & -> & _). }
  destruct (Producers.clear_assignments_to_consumer _ _) as [n r]. destruct (0 <? n)%nat; [|done].
  by rewrite try_match_connected.
Qed.

(** *** Operations that end an assignment *)

(** [r'] is [r] with the assignment of [id], if any, gone. *)
Record unassigns (id : Z) (r r' : Consumers.ConsumerRegistry) : Prop :=
  { un_ok : Consumers.consumers_ok r'; un_contexts : Consumers.contexts_ok r';
    un_ids : forall j, is_Some (Consumers.cr_inner r' !! j) <-> is_Some (Consumers.cr_inner r !! j);
    un_assigned : forall j, Consumers.assigned j r' = if decide (j = id) then None else Consumers.assigned j r;
    un_next : Consumers.cr_next_id r' = Consumers.cr_next_id r }.

Lemma unassigned_fields pid id f g r :
  (forall e, Consumers.ce_assigned_producer_id (f e) = None) ->
  (forall e, Consumers.ce_assigned_producer_id (g e) = Consumers.ce_assigned_producer_id e) ->
  let r' := Consumers.with_entry id g (Consumers.untrack_stale pid id (Consumers.with_entry id f r)) in
  (forall j, is_Some (Consumers.cr_inner r' !! j) <-> is_Some (Consumers.cr_inner r !! j)) /\
  (forall j, Consumers.assigned j r' = if decide (j = id) then None else Consumers.assigned j r) /\
  Consumers.cr_next_id r' = Consumers.cr_next_id r.
Proof.
  intros Hf Hg. cbv zeta.
  destruct (Consumers.untrack_stale_fields pid id (Consumers.with_entry id f r)) as (Hin & Hnx & _).
  split_and!; [..|exact Hnx].
  - intros j. unfold Consumers.with_entry at 1. cbn [Consumers.cr_inner]. rewrite lookup_alter_is_Some, Hin.
    apply lookup_alter_is_Some.
  - intros j. rewrite Consumers.assigned_with_entry, Hin. case_decide as Hj.
    + unfold Consumers.with_entry. cbn [Consumers.cr_inner]. rewrite lookup_alter_eq.
      destruct (Consumers.cr_inner r !! id); [|done]. cbn. by rewrite Hg, Hf.
    + unfold Consumers.assigned. rewrite Hin. change (Consumers.assigned j (Consumers.with_entry id f r) = Consumers.assigned j r).
      by rewrite Consumers.assigned_with_entry, decide_False.
Qed.

Lemma with_entry_same id r : Consumers.with_entry id (fun e => e) r = r.
Proof.
  destruct r as [nx inn aw]. unfold Consumers.with_entry. cbn. f_equal. apply map_eq. intros j.
  destruct (decide (j = id)) as [Hj|Hj]; [|by rewrite lookup_alter_ne].
  rewrite Hj, lookup_alter_eq. by destruct (inn !! id).
Qed.

Lemma unassigns_absent id r :
  Consumers.consumers_ok r -> Consumers.contexts_ok r -> Consumers.cr_inner r !! id = None -> unassigns id r r.
Proof.
  intros H1 H2 Hn. constructor; try done. intros j. case_decide as Hj; [|done].
  rewrite Hj. unfold Consumers.assigned. by rewrite Hn.
Qed.

Lemma begin_cycle_unassigns id n tag ts r :
  slen tag <= umax 16 -> Consumers.consumers_ok r -> Consumers.contexts_ok r ->
  unassigns id r (Consumers.begin_cycle id n tag ts r).
Proof.
  intros Ht H1 H2. pose proof (Consumers.begin_cycle_ok id n tag ts r H1) as Ho.
  pose proof (Consumers.begin_cycle_contexts id n tag ts r Ht H2) as Hc.
  revert Ho Hc. unfold Consumers.begin_cycle. rewrite Consumers.take_assigned_spec.
  destruct (Consumers.cr_inner r !! id) eqn:He; [|intros; by apply unassigns_absent].
  match goal with |- context [Consumers.with_entry id ?g (Consumers.untrack_stale ?pid id (Consumers.with_entry id ?f r))] =>
    destruct (unassigned_fields pid id f g r) as (? & ? & ?); [done|done|] end.
  intros Ho Hc. by constructor.
Qed.

Lemma set_phase_unassigns id state r :
  state <> Consumers.AWAITING -> Consumers.consumers_ok r -> Consumers.contexts_ok r ->
  unassigns id r (Consumers.set_phase id state r).
Proof.
  intros Hne H1 H2. destruct (set_phase_lookup id state r Hne) as [Hi Ha].
  constructor; [by apply Consumers.set_phase_ok|by apply Consumers.set_phase_contexts|done|done|].
  unfold Consumers.set_phase, Consumers.set_state. destruct (String.eqb _ _); [done|].
  rewrite Consumers.take_assigned_spec. destruct (Consumers.cr_inner r !! id); [|done].
  match goal with |- context [Consumers.untrack_stale ?pid id ?x] =>
    by destruct (Consumers.untrack_stale_fields pid id x) as (_ & ? & _) end.
Qed.

Lemma finish_batch_unassigns id n b ts empty r :
  Consumers.consumers_ok r -> Consumers.contexts_ok r ->
  unassigns id r (Consumers.finish_batch id n b ts empty r).
Proof.
  intros H1 H2. pose proof (Consumers.finish_batch_ok id n b ts empty r H1) as Ho.
  pose proof (Consumers.finish_batch_contexts id n b ts empty r H2) as Hc.
  revert Ho Hc. unfold Consumers.finish_batch.
  destruct (Consumers.cr_inner r !! id) as [e|] eqn:He; [|intros; by apply unassigns_absent].
  intros Ho Hc. destruct empty.
  all: match goal with H : Consumers.consumers_ok (Consumers.untrack_stale ?pid ?id0 (Consumers.with_entry ?id0 ?f ?r0)) |- _ =>
    destruct (unassigned_fields pid id0 f (fun e => e) r0) as (Hi & Ha & Hn); [done|done|];
    rewrite with_entry_same in Hi, Ha, Hn; by constructor end.
Qed.

(** *** The invariant of one turn *)

Lemma consumers_ok_master m r' :
  master_ok m -> Consumers.consumers_ok r' -> Consumers.contexts_ok r' ->
  (forall j, connected m j -> is_Some (Consumers.cr_inner r' !! j)) ->
  (forall j, Consumers.assigned j (ma_consumers m) = None -> Consumers.assigned j r' = None) ->
  master_ok {| m with ma_consumers := r' |}.
Proof.
  intros Hok H1 H2 Hc Ha. pose proof (master_good m Hok) as Hg. destruct Hok as [G1 _ _ _ _ G6 G7 G8 _].
  apply master_intro; try done. intros j Hj. destruct (G7 j Hj) as [Hs Hn]. split; [by apply Hc|by apply Ha].
Qed.

Lemma unassigns_master m id r' :
  master_ok m -> unassigns id (ma_consumers m) r' -> master_ok {| m with ma_consumers := r' |}.
Proof.
  intros Hok [H1 H2 Hi Ha _]. apply consumers_ok_master; try done; [intros j; by rewrite Hi|].
  intros j Hj. rewrite Ha. by case_decide.
Qed.

Lemma metrics_ok_master m f : master_ok m -> master_ok (on_metrics f m).
Proof. by intros [G1 G2 G3 G4 G5 G6 G7 G8 G9]. Qed.

Definition owes_nothing (p : Z) (m : Master) : Prop :=
  forall e, producer_entry p m = Some e -> Producers.pe_pending_consumer_id e = None.

(** A producer's entry after its report. *)
Definition reported (ok : bool) (n : Z) (e : Producers.ProducerEntry) : Producers.ProducerEntry :=
  if ok then
    {| e with Producers.pe_rate_batches := wrap 64 (Producers.pe_rate_batches e + 1);
              Producers.pe_rate_msgs := wrap 64 (Producers.pe_rate_msgs e + n);
              Producers.pe_state := Producers.Idle; Producers.pe_pending_consumer_id := None;
              Producers.pe_busy_since_ms := 0; Producers.pe_prdy_pending := false |}
  else
    {| e with Producers.pe_rate_errors := wrap 64 (Producers.pe_rate_errors e + 1);
              Producers.pe_state := Producers.Idle; Producers.pe_pending_consumer_id := None;
              Producers.pe_busy_since_ms := 0; Producers.pe_prdy_pending := false |}.

Lemma take_pending_fields p r :
  (Producers.take_pending_consumer p r).1 = Producers.pr_inner r !! p ≫= Producers.pe_pending_consumer_id /\
  Producers.pr_next_id (Producers.take_pending_consumer p r).2 = Producers.pr_next_id r /\
  forall q, Producers.pr_inner (Producers.take_pending_consumer p r).2 !! q =
    if decide (q = p) then (fun e => {| e with Producers.pe_pending_consumer_id := None |}) <$> Producers.pr_inner r !! p
    else Producers.pr_inner r !! q.
Proof.
  unfold Producers.take_pending_consumer. destruct (Producers.pr_inner r !! p) as [e|] eqn:He; cbn [fst snd].
  - split_and!; [done|by apply Producers.with_entry_inner, Producers.take_pending_moves|].
    intros q. rewrite Producers.with_entry_lookup by apply Producers.take_pending_moves. by rewrite He.
  - split_and!; [done..|]. intros q. case_decide as Hq; [by rewrite Hq, He|done].
Qed.

Lemma record_report_entry (ok : bool) p n r q :
  Producers.pr_inner (if ok then Producers.record_delivery p n r else Producers.record_failure p r) !! q =
    if decide (q = p) then reported ok n <$> Producers.pr_inner r !! p else Producers.pr_inner r !! q.
Proof.
  destruct ok; unfold Producers.record_delivery, Producers.record_failure.
  - rewrite Producers.with_entry_lookup by apply Producers.delivered_moves. case_decide; [|done].
    destruct (Producers.pr_inner r !! p); [|done]. cbn. by rewrite Producers.delivered_fst.
  - rewrite Producers.with_entry_lookup by apply Producers.failed_moves. case_decide; [|done].
    destruct (Producers.pr_inner r !! p); [|done]. cbn. by rewrite Producers.failed_fst.
Qed.

(** What [settle_consumer] leaves of the master. *)
Lemma settle_consumer_spec now p c n b (ok : bool) msg m :
  master_ok m ->
  let m' := settle_consumer now p c n b ok msg m in
  master_ok m' /\ ma_producers m' = ma_producers m /\ ma_inner m' = ma_inner m /\
  unassigns c (ma_consumers m) (ma_consumers m').
Proof.
  intros Hok. cbv zeta. unfold settle_consumer. destruct ok.
  - pose proof (finish_batch_unassigns c n b now (n =? 0) _ (mo_consumers _ Hok) (mo_contexts _ Hok)) as Hu.
    split_and!; [|done|done|exact Hu]. apply metrics_ok_master. exact (unassigns_master m c _ Hok Hu).
  - set (r1 := Consumers.set_unacked c 0 (ma_consumers m)).
    assert (Hk : Consumers.consumers_ok r1) by apply Consumers.set_unacked_ok, Hok.
    assert (Hx : Consumers.contexts_ok r1) by apply Consumers.set_unacked_contexts, Hok.
    destruct (set_phase_unassigns c "delivery_failed" r1) as [U1 U2 U3 U4 U5]; [done|done|done|].
    assert (Hu : unassigns c (ma_consumers m) (Consumers.set_phase c "delivery_failed" r1)).
    { constructor; [done|done| | |done].
      - intros j. rewrite U3. unfold r1, Consumers.set_unacked, Consumers.with_entry. cbn [Consumers.cr_inner].
        apply lookup_alter_is_Some.
      - intros j. rewrite U4. case_decide as Hj; [done|]. unfold r1, Consumers.set_unacked.
        by rewrite Consumers.assigned_with_entry, decide_False. }
    split_and!; [|done|done|exact Hu]. apply metrics_ok_master. exact (unassigns_master m c _ Hok Hu).
Qed.

(** The report up to [on_producer_done]: the producer owes nothing and is idle. *)
Definition before_done (e : env) (p : Z) (report : DeliveryReport) (ok : bool) (msg : option string)
    (m : Master) : Master :=
  let n := dr_msg_count report in
  let '(pending, r) := Producers.take_pending_consumer p (ma_producers m) in
  let m := {| m with ma_producers := r |} in
  let c := report_consumer p pending (ma_consumers m) in
  let m := if 0 <? c then settle_consumer (env_now e) p c n (dr_batch_bytes report) ok msg m else m in
  if ok then on_producers (Producers.record_delivery p n) m else on_producers (Producers.record_failure p) m.

Lemma finish_producer_batch_eq e p report ok msg m :
  finish_producer_batch e p report ok msg m = on_producer_done e p (before_done e p report ok msg m).
Proof. unfold finish_producer_batch, before_done. by destruct (Producers.take_pending_consumer _ _). Qed.

Definition report_target (p : Z) (m : Master) : Z :=
  report_consumer p (producer_entry p m ≫= Producers.pe_pending_consumer_id) (ma_consumers m).

Lemma before_done_spec e p report ok msg m :
  master_ok m ->
  let m' := before_done e p report ok msg m in
  let c := report_target p m in
  master_ok m' /\ ma_inner m' = ma_inner m /\
  (forall q, producer_entry q m' =
     if decide (q = p) then reported ok (dr_msg_count report) <$> producer_entry p m else producer_entry q m) /\
  (forall j, connected m' j <-> connected m j) /\
  (forall j, Consumers.assigned j (ma_consumers m') =
     if decide (j = c /\ 0 < c) then None else Consumers.assigned j (ma_consumers m)).
Proof.
  intros Hok. cbv zeta. unfold before_done, report_target, producer_entry.
  destruct (take_pending_fields p (ma_producers m)) as (Hp & Hn & Hl).
  pose proof (Producers.take_pending_ok p _ (mo_registry _ Hok)) as Hr.
  pose proof (Producers.take_pending_good _ p _ (master_good _ Hok)) as Hg.
  destruct (Producers.take_pending_consumer p (ma_producers m)) as [pending r]. cbn [fst snd] in *. subst pending.
  set (c := report_consumer p _ (ma_consumers m)). set (m1 := {| m with ma_producers := r |}).
  assert (Hok1 : master_ok m1) by by apply producers_only_ok.
  change (ma_consumers m1) with (ma_consumers m). fold c.
  set (m2 := if 0 <? c then settle_consumer _ _ _ _ _ _ _ m1 else m1).
  assert (H2 : master_ok m2 /\ ma_producers m2 = r /\ ma_inner m2 = ma_inner m /\
    (forall j, connected m2 j <-> connected m j) /\
    (forall j, Consumers.assigned j (ma_consumers m2) =
       if decide (j = c /\ 0 < c) then None else Consumers.assigned j (ma_consumers m))).
  { unfold m2. destruct (Z.ltb_spec 0 c).
    - destruct (settle_consumer_spec (env_now e) p c (dr_msg_count report) (dr_batch_bytes report) ok msg m1 Hok1)
        as (? & ? & ? & [_ _ Hu1 Hu2 _]).
      split_and!; [done|done|done|exact Hu1|]. intros j. rewrite Hu2. repeat case_decide; naive_solver.
    - split_and!; [done|done|done|done|]. intros j. rewrite decide_False by lia. done. }
  destruct H2 as (Hok2 & Hr2 & Hi2 & Hc2 & Ha2).
  set (m3 := if ok then on_producers (Producers.record_delivery p (dr_msg_count report)) m2
             else on_producers (Producers.record_failure p) m2).
  assert (H3 : ma_producers m3 = (if ok then Producers.record_delivery p (dr_msg_count report) r else Producers.record_failure p r)
    /\ ma_inner m3 = ma_inner m2 /\ ma_consumers m3 = ma_consumers m2).
  { unfold m3. rewrite <- Hr2. by destruct ok. }
  destruct H3 as (Hr3 & Hi3 & Hc3). split_and!.
  - assert (m3 = {| m2 with ma_producers := ma_producers m3 |}) as -> by (unfold m3; by destruct ok).
    apply producers_only_ok; [done| |]; rewrite Hr3.
    + destruct ok; [by apply Producers.record_delivery_ok|by apply Producers.record_failure_ok].
    + rewrite Hi2. destruct ok; [by apply Producers.record_delivery_good|by apply Producers.record_failure_good].
  - by rewrite Hi3.
  - intros q. rewrite Hr3, record_report_entry, !Hl, (decide_True (P:=p = p)) by done.
    destruct (decide (q = p)); [|done].
    destruct (Producers.pr_inner (ma_producers m) !! p); [|done]. cbn. unfold reported. by destruct ok.
  - intros j. unfold connected. rewrite Hc3. apply Hc2.
  - intros j. rewrite Hc3. apply Ha2.
Qed.

Lemma reported_free p report ok msg e m :
  master_ok m -> owes_nothing p (before_done e p report ok msg m).
Proof.
  intros Hok e'. destruct (before_done_spec e p report ok msg m Hok) as (_ & _ & Hent & _).
  rewrite Hent. destruct (decide (p = p)) as [_|]; [|done].
  destruct (producer_entry p m); [|done]. cbn. intros [= <-]. unfold reported. by destruct ok.
Qed.

Lemma finish_producer_batch_ok e p report ok msg m :
  master_ok m -> master_ok (finish_producer_batch e p report ok msg m).
Proof.
  intros Hok. rewrite finish_producer_batch_eq. apply on_producer_done_ok.
  - by apply before_done_spec.
  - by apply reported_free.
Qed.

(** A heartbeat that asks for a rematch left the producer ready. *)
Lemma rematch_ready now p hb r r' :
  Producers.record_heartbeat now p hb r = (true, r') ->
  Producers.state_of p r' = Some Producers.Ready.
Proof.
  unfold Producers.record_heartbeat. destruct (Producers.pr_inner r !! p) as [e|] eqn:He; [|done].
  intros Heq. injection Heq as Hre <-. unfold Producers.state_of.
  rewrite Producers.with_entry_lookup by apply Producers.heartbeat_moves.
  destruct (decide (p = p)) as [_|]; [|done]. rewrite He. cbn [fmap option_fmap option_map]. f_equal.
  revert Hre. unfold Producers.heartbeat_entry. cbv zeta.
  destruct (decide _); [|destruct (_ && _); [|by destruct (negb _)]].
  - destruct (_ || _); [|done]. destruct (Producers.release_busy_entry _ _) as [e2 r2].
    destruct (0 <? hb_ring_messages hb); [|done]. cbn [fst snd]. intros _. by rewrite Producers.promote_fst.
  - cbn [fst snd]. intros _. by rewrite Producers.promote_fst.
Qed.

Lemma producer_heartbeat_ok e p hb m :
  Producers.heartbeat_in_range hb -> master_ok m -> master_ok (producer_heartbeat e p hb m).
Proof.
  intros Hhb Hok. unfold producer_heartbeat.
  pose proof (Producers.record_heartbeat_ok (env_now e) p hb _ (mo_registry _ Hok)) as Hr.
  pose proof (Producers.record_heartbeat_good _ (env_now e) p hb _ Hhb (master_good _ Hok)) as Hg.
  destruct (Producers.record_heartbeat (env_now e) p hb (ma_producers m)) as [rematch r] eqn:Heq.
  cbn [snd] in *. set (m1 := {| m with ma_producers := r |}).
  assert (Hok1 : master_ok m1) by by apply producers_only_ok.
  destruct rematch.
  - apply wake_producer_ok; [done|]. intros e' He'. apply rematch_ready in Heq.
    unfold Producers.state_of in Heq. change (Producers.pr_inner r !! p = Some e') in He'.
    rewrite He' in Heq. cbn in Heq. congruence.
  - change (ma_producers m1) with r. destruct (Producers.state_of p r) as [[]|]; try done.
    destruct (0 <? waiting_count m1); [by apply try_match_ok|done].
Qed.

Lemma read_heartbeat_range s hb rest :
  read_heartbeat_payload s = Ok (hb, rest) -> Producers.heartbeat_in_range hb.
Proof.
  unfold read_heartbeat_payload. intros (body & s1 & _ & [= <- _])%bind_ok.
  unfold Producers.heartbeat_in_range. cbn. split_and!; apply (u_at_range 4).
Qed.

Lemma process_producer_magic_ok e p magic s m :
  master_ok m -> master_ok (process_producer_magic e p magic s m).1.
Proof.
  intros Hok. unfold process_producer_magic. repeat case_match; cbn [fst]; try done.
  - pose proof (on_producer_ready_ok e p m Hok) as Hr. by destruct (on_producer_ready e p m) as [m1 []]; simplify_eq.
  - pose proof (on_producer_ready_ok e p m Hok) as Hr. by destruct (on_producer_ready e p m) as [m1 []]; simplify_eq.
  - apply producer_heartbeat_ok; [|done]. by eapply read_heartbeat_range.
  - by apply finish_producer_batch_ok.
  - by apply finish_producer_batch_ok.
Qed.

(** *** What the wire gives a consumer *)

Definition wire_len (lo : Z) (s : string) : Prop := lo <= slen s <= 768.

Lemma read_utf8_field_len n f s str rest :
  read_utf8_field n f s = Ok (str, rest) -> wire_len 0 str.
Proof.
  unfold read_utf8_field, wire_len. destruct (Z.eqb_spec n 0).
  { intros [= <- _]. split; [apply blen_nonneg|by vm_compute]. }
  destruct (Z.ltb_spec 256 n); [done|].
  intros (buf & s1 & [_ Hlen]%read_exact_ok & [= <- _])%bind_ok.
  rewrite slen_of_bytes. pose proof (lossy_len buf). pose proof (blen_nonneg (from_utf8_lossy buf)).
  unfold blen in *. lia.
Qed.

Lemma read_register_len s addr rest : read_register_payload s = Ok (addr, rest) -> wire_len 1 addr.
Proof.
  unfold read_register_payload, wire_len. intros (lb & s1 & _ & Hr)%bind_ok. cbv zeta in Hr.
  pose proof (from_le_range lb) as Hrange. unfold in_u in Hrange.
  destruct (Z.eqb_spec (from_le lb) 0); [done|]. destruct (Z.ltb_spec 256 (from_le lb)); [done|].
  cbn [orb] in Hr. apply bind_ok in Hr as (buf & s2 & [_ Hlen]%read_exact_ok & [= <- _]).
  rewrite slen_of_bytes. pose proof (lossy_len buf). pose proof (blen_nonneg (from_utf8_lossy buf)).
  destruct (decide (blen (from_utf8_lossy buf) = 0)) as [Hz|Hz].
  - apply blen_0, lossy_nil_inv in Hz. subst buf. simpl in Hlen. lia.
  - unfold blen in *. lia.
Qed.

Lemma read_ready_len s ready rest :
  read_consumer_ready_request s = Ok (ready, rest) -> wire_len 0 (rr_consumer_tag ready).
Proof.
  unfold read_consumer_ready_request. intros (prefix & s1 & _ & Hr)%bind_ok.
  destruct (negb _); [done|]. apply bind_ok in Hr as ([n l] & s2 & _ & Hr).
  apply bind_ok in Hr as (tag & s3 & Ht & [= <- _]). by eapply read_utf8_field_len.
Qed.

Lemma wire_len_16 lo s : wire_len lo s -> lo <= slen s <= umax 16.
Proof. unfold wire_len, umax. lia. Qed.

(** *** Connections *)

Lemma register_consumer_ok addr data now m :
  master_ok m -> wire_len 1 data -> ids_left m ->
  master_ok {| m with ma_consumers := (Consumers.register addr data now (ma_consumers m)).2 |}.
Proof.
  intros Hok Hd [_ Hids]. pose proof (mo_consumers _ Hok) as Hc. set (r := ma_consumers m) in *.
  assert (Hn : Consumers.cr_inner r !! Consumers.cr_next_id r = None).
  { destruct (Consumers.cr_inner r !! Consumers.cr_next_id r) eqn:He; [|done].
    pose proof (Consumers.co_ids _ Hc (Consumers.cr_next_id r) ltac:(eauto)). lia. }
  pose proof (Consumers.co_next _ Hc).
  apply consumers_ok_master; [done|by apply Consumers.registered_consumer_ok| | |].
  - apply Consumers.register_contexts; [by apply wire_len_16|unfold in_u; lia|by apply mo_contexts].
  - intros j [x Hx]. apply lookup_insert_is_Some. destruct (decide (Consumers.cr_next_id r = j)); [by left|right].
    split; [done|]. by exists x.
  - intros j. unfold Consumers.assigned, Consumers.register. cbn [snd Consumers.cr_inner].
    rewrite lookup_insert. by case_decide.
Qed.

Lemma register_producer_ok addr now m :
  master_ok m -> ids_left m ->
  master_ok {| m with ma_producers := (Producers.register addr now (ma_producers m)).2 |}.
Proof.
  intros Hok [Hids _]. apply producers_only_ok; [done| |by apply Producers.register_good, master_good].
  apply Producers.register_ok; [by apply mo_registry|done].
Qed.

(** The master once a CRDY has been read and its consumer queued. *)
Definition queued (e : env) (c : Z) (ready : ReadyRequest) (addr : string) (m : Master) : Master :=
  enqueue_consumer c ready addr
    (on_consumers (Consumers.begin_cycle c (rr_max_items ready) (rr_consumer_tag ready) (env_now e)) m).

Lemma queued_ok e c ready addr m :
  master_ok m -> connected m c -> wire_len 0 (rr_consumer_tag ready) -> wire_len 1 addr ->
  master_ok (queued e c ready addr m).
Proof.
  intros Hok Hc Ht Ha.
  pose proof (begin_cycle_unassigns c (rr_max_items ready) (rr_consumer_tag ready) (env_now e) (ma_consumers m)
    (proj2 (wire_len_16 _ _ Ht)) (mo_consumers _ Hok) (mo_contexts _ Hok)) as Hu.
  unfold queued. apply enqueue_ok.
  - exact (unassigns_master m c _ Hok Hu).
  - apply (un_ids _ _ _ Hu). exact Hc.
  - cbn [on_consumers ma_consumers]. rewrite (un_assigned _ _ _ Hu). by destruct (decide (c = c)).
  - by eapply wire_len_16.
  - by apply wire_len_16.
Qed.

Lemma queued_connected e c ready addr m j : connected (queued e c ready addr m) j <-> connected m j.
Proof.
  unfold queued, connected, Consumers.begin_cycle. cbn.
  rewrite Consumers.take_assigned_spec. destruct (Consumers.cr_inner (ma_consumers m) !! c); [|done].
  match goal with |- context [Consumers.with_entry c ?g (Consumers.untrack_stale ?pid c (Consumers.with_entry c ?f ?r))] =>
    by destruct (unassigned_fields pid c f g r) as (Hi & _); [done|done|] end.
Qed.

(** A consumer that is gone leaves the queue, the table and the producers' debts. *)
Lemma drop_consumer_session_spec e c m :
  master_ok m ->
  let m' := drop_consumer_session e c m in
  master_ok m' /\ c ∉ waiting_ids m' /\ ~ connected m' c /\
  (forall j, j <> c -> connected m' j <-> connected m j) /\
  (forall p, c ∉ Consumers.awaiting p (ma_consumers m')) /\
  (forall p e', producer_entry p m' = Some e' -> Producers.pe_pending_consumer_id e' <> Some c).
Proof.
  intros Hok. cbv zeta. unfold drop_consumer_session.
  destruct (cancel_consumer_spec e c m Hok) as (Hok1 & Hw & Hp).
  pose proof (cancel_consumer_connected e c m) as Hc. set (m1 := cancel_consumer e c m) in *.
  pose proof (Consumers.remove_consumer_ok c _ (mo_consumers _ Hok1)) as Hr.
  pose proof (Consumers.remove_contexts c _ (mo_contexts _ Hok1)) as Hx.
  assert (Hin : Consumers.cr_inner (Consumers.remove c (ma_consumers m1)) = delete c (Consumers.cr_inner (ma_consumers m1))).
  { unfold Consumers.remove. destruct (Consumers.cr_inner (ma_consumers m1) !! c) as [x|] eqn:Hcx.
    - by match goal with |- context [Consumers.untrack_stale ?pid c ?r] =>
        destruct (Consumers.untrack_stale_fields pid c r) as (-> & _) end.
    - by rewrite delete_id. }
  assert (Hgone : ~ connected (on_consumers (Consumers.remove c) m1) c).
  { unfold connected. cbn [on_consumers ma_consumers]. rewrite Hin, lookup_delete_eq. by intros [? ?]. }
  split_and!; try done.
  - pose proof (master_good _ Hok1) as Hg. destruct Hok1 as [G1 _ _ _ _ G6 G7 G8 _]. apply master_intro; try done.
    intros j Hj. destruct (G7 j Hj) as [Hs Hn]. cbn [on_consumers ma_consumers]. unfold Consumers.assigned.
    rewrite Hin. assert (j <> c) by (intros ->; done). by rewrite lookup_delete_ne.
  - intros j Hj. rewrite <- Hc. unfold connected. cbn [on_consumers ma_consumers]. by rewrite Hin, lookup_delete_ne.
  - intros p. rewrite (Consumers.co_index _ Hr). unfold Consumers.assigned. by rewrite Hin, lookup_delete_eq.
Qed.

Lemma run_match_loop_turn_ok e m : master_ok m -> master_ok (run_match_loop_turn e m).
Proof.
  intros Hok. unfold run_match_loop_turn. destruct (_ =? _); [done|]. by apply try_match_ok, sync_ready_pool_ok.
Qed.

Lemma run_match_loop_turn_connected e m j : connected (run_match_loop_turn e m) j <-> connected m j.
Proof.
  unfold run_match_loop_turn. destruct (_ =? _); [done|]. rewrite try_match_connected.
  unfold sync_ready_pool. by destruct (Producers.sync_matcher_ready_state _ _) as [[add rem] r].
Qed.

(** *** Snapshots refresh rates and nothing else *)

Lemma refresh_producer_fields now e :
  let e' := Producers.refresh_producer_rates now e in
  Producers.pe_state e' = Producers.pe_state e /\
  Producers.pe_pending_consumer_id e' = Producers.pe_pending_consumer_id e /\
  (Producers.entry_in_range e -> Producers.entry_in_range e').
Proof. cbv zeta. unfold Producers.refresh_producer_rates. by destruct (_ && _). Qed.

Lemma list_rows_good pool secs now r :
  Producers.all_good pool r -> Producers.all_good pool (Producers.list_rows secs now r).2.
Proof.
  intros Hg p e. unfold Producers.list_rows. cbn [snd Producers.pr_inner]. rewrite lookup_fmap.
  intros (e0 & He0 & ->)%fmap_Some. destruct (Hg p e0 He0) as (H1 & H2 & H3).
  destruct (refresh_producer_fields now e0) as (Hs & Hp & Hr). split_and!; [by apply Hr|by rewrite Hs, Hp|by rewrite Hs].
Qed.

Lemma refresh_rates_fields now e :
  let e' := Consumers.refresh_rates now e in
  Consumers.ce_state e' = Consumers.ce_state e /\
  Consumers.ce_assigned_producer_id e' = Consumers.ce_assigned_producer_id e /\
  Consumers.ce_consumer_tag e' = Consumers.ce_consumer_tag e /\
  Consumers.ce_data_addr e' = Consumers.ce_data_addr e.
Proof. cbv zeta. unfold Consumers.refresh_rates. by destruct (_ && _). Qed.

Lemma list_with_capacity_same secs now demand r :
  let r' := (Consumers.list_with_capacity secs now demand r).2 in
  (forall j, is_Some (Consumers.cr_inner r' !! j) <-> is_Some (Consumers.cr_inner r !! j)) /\
  (forall j, Consumers.assigned j r' = Consumers.assigned j r) /\
  (Consumers.consumers_ok r -> Consumers.consumers_ok r') /\ (Consumers.contexts_ok r -> Consumers.contexts_ok r').
Proof.
  cbv zeta. unfold Consumers.list_with_capacity. cbn [snd].
  set (r' := {| r with Consumers.cr_inner := _ |}).
  assert (Ha : forall j, Consumers.assigned j r' = Consumers.assigned j r).
  { intros j. unfold Consumers.assigned, r'. cbn [Consumers.cr_inner]. rewrite lookup_fmap.
    destruct (Consumers.cr_inner r !! j); [|done]. cbn. apply refresh_rates_fields. }
  assert (Hi : forall j, is_Some (Consumers.cr_inner r' !! j) <-> is_Some (Consumers.cr_inner r !! j)).
  { intros j. unfold r'. cbn [Consumers.cr_inner]. by rewrite lookup_fmap, fmap_is_Some. }
  split_and!; [done|done| |].
  - intros [H1 H2 H3 H4 H5]. constructor; [| |done| |done].
    + intros p c. rewrite Ha. apply H1.
    + intros c e. unfold r'. cbn [Consumers.cr_inner]. rewrite lookup_fmap. intros (e0 & He0 & ->)%fmap_Some.
      destruct (refresh_rates_fields now e0) as (-> & -> & _). by apply (H2 c).
    + intros j. rewrite Hi. apply H4.
  - intros Hx c e. unfold r'. cbn [Consumers.cr_inner]. rewrite lookup_fmap. intros (e0 & He0 & ->)%fmap_Some.
    unfold Consumers.context_ok. destruct (refresh_rates_fields now e0) as (_ & _ & -> & ->). by eapply Hx.
Qed.

Lemma take_snapshot_spec e rates m :
  let m' := (take_snapshot e rates m).2 in
  (master_ok m -> master_ok m') /\ (forall j, connected m' j <-> connected m j) /\
  ma_inner m' = ma_inner m /\
  Producers.pr_next_id (ma_producers m') = Producers.pr_next_id (ma_producers m) /\
  Consumers.cr_next_id (ma_consumers m') = Consumers.cr_next_id (ma_consumers m).
Proof.
  cbv zeta. unfold take_snapshot, Metrics.snapshot. destruct rates as [[tps bps] yps].
  destruct (compute_backlog_growth_per_sec _ _ _) as [growth me].
  match goal with |- context [Consumers.list_with_capacity ?s ?n ?d ?r] =>
    destruct (list_with_capacity_same s n d r) as (Hi & Ha & Ho & Hx);
    assert (Hn : Consumers.cr_next_id (Consumers.list_with_capacity s n d r).2 = Consumers.cr_next_id r) by done;
    destruct (Consumers.list_with_capacity s n d r) as [[pct rows] cr] end.
  pose proof (list_rows_good (mi_ready (ma_inner m)) (unix_secs e) (env_now e) (ma_producers m)) as Hg.
  pose proof (Producers.list_rows_ok (unix_secs e) (env_now e) (ma_producers m)) as Hr.
  assert (Hpn : Producers.pr_next_id (Producers.list_rows (unix_secs e) (env_now e) (ma_producers m)).2
                = Producers.pr_next_id (ma_producers m)) by done.
  destruct (Producers.list_rows _ _ _) as [prows pr]. cbn [snd fst] in *.
  split_and!; [|exact Hi|done|done|done]. intros Hok.
  pose proof (master_good m Hok) as Hgd. destruct Hok as [G1 _ _ _ G5 G6 G7 G8 G9].
  apply master_intro; cbn [ma_producers ma_consumers ma_inner]; try done; [by apply Hr|by apply Hg|by apply Ho| |by apply Hx].
  intros j Hj. rewrite Hi, Ha. by apply G7.
Qed.

(** *** The registered producers *)

Definition present (m : Master) (p : Z) : Prop := is_Some (Producers.pr_inner (ma_producers m) !! p).

Lemma rank_present candidates rr r q :
  is_Some (Producers.pr_inner (Producers.rank_ready_candidates candidates rr r).2 !! q) <->
  is_Some (Producers.pr_inner r !! q).
Proof.
  destruct (Producers.rank_entries candidates rr r q) as [->|(_ & e & -> & ->)]; [done|].
  split; intros _; by eexists.
Qed.

Lemma set_state_present id s r q :
  is_Some (Producers.pr_inner (Producers.set_state id s r) !! q) <-> is_Some (Producers.pr_inner r !! q).
Proof.
  rewrite Producers.set_state_entry. destruct (decide (q = id)) as [->|]; [|done]. apply fmap_is_Some.
Qed.

Lemma mark_prdy_present id r q :
  is_Some (Producers.pr_inner (Producers.mark_prdy id r) !! q) <-> is_Some (Producers.pr_inner r !! q).
Proof.
  rewrite Producers.mark_prdy_entry. destruct (decide (q = id)) as [->|]; [|done]. apply fmap_is_Some.
Qed.

Lemma send_match_present now io p c m q : present (send_match now io p c m).1 q <-> present m q.
Proof.
  unfold send_match. destruct (encode_assign (assign_of c)) as [frame|err]; [|done].
  unfold present. destruct (Producers.pr_inner (ma_producers m) !! p) as [e|] eqn:He.
  - destruct io as [[]|msg].
    + pose proof (fun q => Producers.send_assign_entry p frame e (ma_producers m) q He) as Hs.
      assert (Hok : (Producers.send_assign (Ok tt) p frame (ma_producers m)).1 = Ok tt)
        by (unfold Producers.send_assign; by rewrite He).
      destruct (Producers.send_assign (Ok tt) p frame (ma_producers m)) as [[u|msg] r]; [|done]. cbn [fst snd] in *.
      unfold complete_match. match goal with |- context [send_done c (Ok tt) ?x] => set (m1 := x) end.
      destruct (send_done_fields c (Ok tt) m1) as (-> & _). unfold m1. cbn [on_producers on_consumers on_metrics ma_producers].
      assert (Hp : Producers.pr_inner r !! p = Some {| e with Producers.pe_written := Producers.pe_written e ++ [frame] |})
        by (rewrite Hs; by destruct (decide (p = p))).
      rewrite (Producers.mark_assigned_entry _ _ _ _ _ _ Hp).
      destruct (decide (q = p)) as [->|Hq]; [rewrite He; split; intros _; by eexists|].
      rewrite Hs. by destruct (decide (q = p)).
    + unfold Producers.send_assign. rewrite He. cbn [fst]. unfold abort_match. cbn. apply set_state_present.
  - unfold Producers.send_assign. rewrite He. cbn [fst]. unfold abort_match. cbn. apply set_state_present.
Qed.

Lemma try_match_turn_present now io m q : present (try_match_turn now io m).1 q <-> present m q.
Proof.
  unfold try_match_turn. destruct (_ || _); [done|].
  pose proof (rank_present (elements (mi_ready (ma_inner m))) (mi_producer_rr (ma_inner m)) (ma_producers m) q) as Hr.
  destruct (Producers.rank_ready_candidates _ _ _) as [[[[p|] stale] rr] r]; cbn [snd] in Hr; [|done].
  match goal with |- context [take_next_waiting_inner ?x] => destruct (take_next_waiting_inner x) as [[c|] inner] end;
    [|done]. by rewrite send_match_present.
Qed.

Lemma try_match_present e m q : present (try_match e m).1 q <-> present m q.
Proof.
  unfold try_match. assert (H : forall n i m, present (try_match_loop n i e m).1 q <-> present m q).
  { induction n as [|n IH]; intros i m0; [done|]. cbn [try_match_loop].
    pose proof (try_match_turn_present (env_now e) (env_io e i) m0 q) as Ht.
    destruct (try_match_turn _ _ m0) as [m1 [r|]]; [done|]. by rewrite IH. }
  specialize (H (S (size (mi_ready (ma_inner m)))) 0%nat m). by destruct (try_match_loop _ _ _ _) as [m1 r].
Qed.

Lemma clear_assignments_present c r q :
  is_Some (Producers.pr_inner (Producers.clear_assignments_to_consumer c r).2 !! q) <->
  is_Some (Producers.pr_inner r !! q).
Proof.
  unfold Producers.clear_assignments_to_consumer. generalize (Producers.ids r), 0%nat. intros l.
  revert r. induction l as [|i l IH]; intros r n; [done|]. cbn [foldl Producers.clear_assign_step].
  destruct (Producers.pr_inner r !! i); [|apply IH]. destruct (decide _); [|apply IH].
  rewrite IH. apply Producers.with_entry_present, Producers.release_busy_moves.
Qed.

Lemma sync_present pool r q :
  is_Some (Producers.pr_inner (Producers.sync_matcher_ready_state pool r).2 !! q) <-> is_Some (Producers.pr_inner r !! q).
Proof.
  unfold Producers.sync_matcher_ready_state.
  assert (H1 : forall l s, is_Some (Producers.pr_inner (foldl Producers.sync_pool_step s l).1 !! q) <-> is_Some (Producers.pr_inner s.1 !! q)).
  { induction l as [|i l IH]; intros [r0 rem]; [done|]. cbn [foldl]. rewrite IH. unfold Producers.sync_pool_step.
    destruct (Producers.pr_inner r0 !! i); [|done]. destruct (negb _); [|done].
    apply Producers.with_entry_present, Producers.drop_ready_moves. }
  assert (H2 : forall l s, is_Some (Producers.pr_inner (foldl Producers.sync_entry_step s l).1 !! q) <-> is_Some (Producers.pr_inner s.1 !! q)).
  { induction l as [|i l IH]; intros [r0 add]; [done|]. cbn [foldl]. rewrite IH. unfold Producers.sync_entry_step.
    destruct (Producers.pr_inner r0 !! i); [|done]. destruct (negb _); [done|]. repeat case_decide; try done.
    cbn [fst]. apply Producers.with_entry_present, Producers.promote_moves. }
  specialize (H1 (elements pool) (r, ∅)). destruct (foldl Producers.sync_pool_step _ _) as [r1 rem]. cbn [fst] in H1.
  specialize (H2 (Producers.ids r1) (r1, ∅)). destruct (foldl Producers.sync_entry_step _ _) as [r2 add].
  cbn [fst snd] in *. by rewrite H2.
Qed.

Lemma sync_added pool r q :
  q ∈ (Producers.sync_matcher_ready_state pool r).1.1 -> is_Some (Producers.pr_inner r !! q).
Proof.
  rewrite <- (sync_present pool r q). unfold Producers.sync_matcher_ready_state.
  destruct (foldl Producers.sync_pool_step _ _) as [r1 rem].
  pose proof (Producers.sync_entries_spec (Producers.ids r1) r1 ∅ (Producers.NoDup_ids r1)) as He.
  destruct (foldl Producers.sync_entry_step _ _) as [r2 add]. destruct He as [Hi Ha]. cbn [fst snd].
  rewrite Ha, Hi. intros [?%elem_of_empty|(Hq & e & He & _)]; [done|].
  destruct (decide (q ∈ Producers.ids r1)); [|done]. rewrite He. by eexists.
Qed.

Lemma remove_present id r q :
  is_Some (Producers.pr_inner (Producers.remove id r) !! q) <-> q <> id /\ is_Some (Producers.pr_inner r !! q).
Proof.
  unfold Producers.remove. destruct (Producers.pr_inner r !! id) as [e|] eqn:He.
  - assert (Producers.pr_inner (Producers.uncount (Producers.pe_state e)
              {| r with Producers.pr_inner := delete id (Producers.pr_inner r) |}) = delete id (Producers.pr_inner r))
      as -> by by destruct (Producers.pe_state e).
    rewrite lookup_delete_is_Some. split; intros [? ?]; done.
  - split; [|tauto]. intros Hq. split; [|done]. intros ->. rewrite He in Hq. by destruct Hq.
Qed.

(** *** The ready pool holds registered producers *)

Definition pool_present (m : Master) : Prop := forall p, p ∈ mi_ready (ma_inner m) -> present m p.

Lemma try_match_pool e m : master_ok m -> pool_present m -> pool_present (try_match e m).1.
Proof.
  intros Hok Hp p. rewrite try_match_present.
  destruct (try_match_spec e m Hok) as (m' & pairs & -> & _ & _ & _ & Hsub & _). cbn [fst].
  intros Hin. by apply Hp, Hsub.
Qed.

(** What a producer's frame does to the pool and the table. *)
Record same_producers (m m' : Master) : Prop :=
  { sp_present : forall q, present m' q <-> present m q;
    sp_connected : forall j, connected m' j <-> connected m j;
    sp_pool : pool_present m -> pool_present m' }.

Lemma same_producers_try e m0 m :
  master_ok m -> same_producers m0 m -> same_producers m0 (try_match e m).1.
Proof.
  intros Hok [H1 H2 H3]. constructor.
  - intros q. by rewrite try_match_present, H1.
  - intros j. by rewrite try_match_connected, H2.
  - intros Hp. by apply try_match_pool, H3.
Qed.

(** An update of the producers' table and of the pool that adds at most [p]. *)
Lemma same_producers_intro p m m' :
  present m p -> (forall q, present m' q <-> present m q) -> (forall j, connected m' j <-> connected m j) ->
  mi_ready (ma_inner m') ⊆ {[p]} ∪ mi_ready (ma_inner m) -> same_producers m m'.
Proof.
  intros Hp H1 H2 Hsub. constructor; [done|done|]. intros Hpool q Hq. rewrite H1.
  apply Hsub, elem_of_union in Hq as [->%elem_of_singleton|Hq]; [done|by apply Hpool].
Qed.

Lemma on_producer_ready_same e p m :
  master_ok m -> present m p -> same_producers m (on_producer_ready e p m).1.
Proof.
  intros Hok Hp. destruct (on_producer_ready_spec e p m Hok) as (m1 & -> & [H1 H2 H3 H4 H5 _]).
  apply same_producers_try; [done|]. apply (same_producers_intro p); [done| | |].
  - intros q. unfold present. destruct (decide (q = p)) as [->|Hq]; [exact H5|].
    change (is_Some (producer_entry q m1) <-> is_Some (producer_entry q m)). by rewrite H4.
  - intros j. unfold connected. by rewrite H3.
  - by rewrite H2.
Qed.

Lemma producer_heartbeat_same e p hb m :
  Producers.heartbeat_in_range hb -> master_ok m -> present m p -> same_producers m (producer_heartbeat e p hb m).
Proof.
  intros Hhb Hok Hp. unfold producer_heartbeat.
  pose proof (Producers.record_heartbeat_ok (env_now e) p hb _ (mo_registry _ Hok)) as Hr.
  pose proof (Producers.record_heartbeat_good _ (env_now e) p hb _ Hhb (master_good _ Hok)) as Hg.
  assert (Hpr : forall q, is_Some (Producers.pr_inner (Producers.record_heartbeat (env_now e) p hb (ma_producers m)).2 !! q)
                   <-> present m q).
  { intros q. unfold Producers.record_heartbeat, present. destruct (Producers.pr_inner (ma_producers m) !! p); [|done].
    apply Producers.with_entry_present, Producers.heartbeat_moves. }
  destruct (Producers.record_heartbeat (env_now e) p hb (ma_producers m)) as [rematch r] eqn:Heq.
  cbn [snd] in *. set (m1 := {| m with ma_producers := r |}).
  assert (Hok1 : master_ok m1) by by apply producers_only_ok.
  destruct rematch.
  - unfold wake_producer. apply same_producers_try.
    + apply ensure_in_ready_pool_ok; [done|]. intros e' He'. apply rematch_ready in Heq.
      unfold Producers.state_of in Heq. change (Producers.pr_inner r !! p = Some e') in He'.
      rewrite He' in Heq. cbn in Heq. congruence.
    + by apply (same_producers_intro p).
  - assert (H1 : same_producers m m1) by (apply (same_producers_intro p); try done; cbn; set_solver).
    change (ma_producers m1) with r. destruct (Producers.state_of p r) as [[]|]; try done.
    destruct (0 <? waiting_count m1); [by apply same_producers_try|done].
Qed.

Lemma finish_producer_batch_same e p report ok msg m :
  master_ok m -> present m p -> same_producers m (finish_producer_batch e p report ok msg m).
Proof.
  intros Hok Hp. rewrite finish_producer_batch_eq.
  pose proof (reported_free p report ok msg e m Hok) as Hfree.
  destruct (before_done_spec e p report ok msg m Hok) as (Hok1 & Hi & Hent & Hc & _).
  set (m1 := before_done e p report ok msg m) in *. unfold on_producer_done. apply same_producers_try.
  - apply shrink_pool_ok, producers_only_ok; [done|by apply Producers.set_state_ok, Hok1|].
    apply Producers.set_state_good; [done| |exact (master_good _ Hok1)]. intros e' He'. right. by apply Hfree.
  - apply (same_producers_intro p); [done| |exact Hc|cbn; rewrite Hi; set_solver].
    intros q. unfold present. cbn [on_inner on_producers ma_producers]. rewrite set_state_present.
    change (is_Some (producer_entry q m1) <-> is_Some (producer_entry q m)). rewrite Hent.
    destruct (decide (q = p)) as [->|]; [apply fmap_is_Some|done].
Qed.

Lemma process_producer_magic_same e p magic s m :
  master_ok m -> present m p -> same_producers m (process_producer_magic e p magic s m).1.
Proof.
  intros Hok Hp. assert (Hid : same_producers m m) by done.
  unfold process_producer_magic. repeat case_match; cbn [fst]; try done.
  - pose proof (on_producer_ready_same e p m Hok Hp) as Hr. by destruct (on_producer_ready e p m) as [m1 []]; simplify_eq.
  - pose proof (on_producer_ready_same e p m Hok Hp) as Hr. by destruct (on_producer_ready e p m) as [m1 []]; simplify_eq.
  - apply producer_heartbeat_same; [|done|done]. by eapply read_heartbeat_range.
  - by apply finish_producer_batch_same.
  - by apply finish_producer_batch_same.
Qed.

(** The end of a producer's connection: it is in no table any more. *)
Lemma orphaned_present p m q : present (orphaned p m) q <-> q <> p /\ present m q.
Proof.
  unfold orphaned. destruct (take_pending_fields p (ma_producers m)) as (_ & _ & Hl).
  change (ma_producers (on_inner (on_ready (fun s => s ∖ {[p]})) m)) with (ma_producers m).
  destruct (Producers.take_pending_consumer p (ma_producers m)) as [cid r]. cbn [snd] in Hl.
  unfold present. cbn [on_producers ma_producers].
  match goal with |- context [Producers.remove p (ma_producers ?x)] => assert (ma_producers x = r) as -> end.
  { destruct cid; [|done]. by rewrite (proj1 (requeue_orphan_fields _ _)). }
  rewrite remove_present. split; intros [Hq Hs]; (split; [done|]); rewrite Hl in *; by destruct (decide (q = p)).
Qed.

Lemma on_producer_disconnect_same e p m :
  master_ok m ->
  let m' := on_producer_disconnect e p m in
  (forall q, present m' q <-> q <> p /\ present m q) /\ (forall j, connected m' j <-> connected m j) /\
  (pool_present m -> pool_present m').
Proof.
  intros Hok. cbv zeta. split_and!.
  - intros q. rewrite on_producer_disconnect_eq, try_match_present. apply orphaned_present.
  - intros j. apply on_producer_disconnect_connected.
  - intros Hp. rewrite on_producer_disconnect_eq. apply try_match_pool; [by apply orphaned_ok|].
    intros q. rewrite orphaned_pool, orphaned_present, elem_of_difference, elem_of_singleton.
    intros [Hq Hn]. split; [done|by apply Hp].
Qed.

(** A consumer's turns leave the producers' table to the matching. *)
Lemma queued_same e c ready addr m : ma_producers (queued e c ready addr m) = ma_producers m.
Proof. done. Qed.

Lemma drop_consumer_session_same e c m :
  master_ok m ->
  let m' := drop_consumer_session e c m in
  (forall q, present m' q <-> present m q) /\ (pool_present m -> pool_present m').
Proof.
  intros Hok. cbv zeta. unfold drop_consumer_session, cancel_consumer.
  destruct (drop_waiting_spec c m Hok) as (Hok1 & _ & Hp & _ & Hi). set (m1 := drop_waiting c m) in *.
  pose proof (Producers.clear_assignments_ok c _ (mo_registry _ Hok1)) as Hr.
  pose proof (Producers.clear_assignments_good _ c _ (master_good _ Hok1)) as Hg.
  pose proof (clear_assignments_present c (ma_producers m1)) as Hpr.
  destruct (Producers.clear_assignments_to_consumer c (ma_producers m1)) as [n r]. cbn [snd] in *.
  set (m2 := {| m1 with ma_producers := r |}).
  assert (Hok2 : master_ok m2) by by apply producers_only_ok.
  assert (Hp2 : forall q, present m2 q <-> present m q) by (intros q; unfold present, m2; cbn; by rewrite Hpr, Hp).
  assert (Hpool : pool_present m -> pool_present m2).
  { intros Hm q. change (mi_ready (ma_inner m2)) with (mi_ready (ma_inner m1)). rewrite Hi, Hp2. apply Hm. }
  destruct (0 <? n)%nat; [|done]. split.
  - intros q. change (present (try_match e m2).1 q <-> present m q). by rewrite try_match_present.
  - intros Hm. exact (try_match_pool e m2 Hok2 (Hpool Hm)).
Qed.

Lemma run_match_loop_turn_same e m :
  master_ok m -> same_producers m (run_match_loop_turn e m).
Proof.
  intros Hok. unfold run_match_loop_turn. destruct (_ =? _); [done|].
  apply same_producers_try; [by apply sync_ready_pool_ok|]. unfold sync_ready_pool.
  pose proof (sync_present (mi_ready (ma_inner m)) (ma_producers m)) as Hp.
  pose proof (sync_added (mi_ready (ma_inner m)) (ma_producers m)) as Ha.
  destruct (Producers.sync_matcher_ready_state _ _) as [[add rem] r]. cbn [fst snd] in *.
  constructor; [done|done|]. intros Hm q. cbn. rewrite elem_of_union, elem_of_difference. unfold present. cbn.
  rewrite Hp. intros [Hq|[Hq _]]; [by apply Ha|by apply Hm].
Qed.
