(* ===== verification/Tasks.v ===== *)
(** * The master's tasks, one critical section at a time ([producers.rs], [consumers.rs], [server.rs])

    [Matchmaker.v], [Consumers.v] and [Server.v] give each method and handler as one
    function.  In the program a method releases every lock between its critical
    sections, and the tasks of other connections run in the gaps.  Here a method, or
    the part of a handler that follows a frame, is a [Task]: a program counter with
    the values the code holds.  [task_step] is one critical section.  A [call] is
    what a connection or the match loop starts; run alone, its task computes exactly
    the function of [Server.v] ([sections_refine_methods]).  [Interleaving.v] runs
    any number of tasks at once. *)

From S2P Require Import Prelude Protocol Metrics Matchmaker Server.
From S2P Require Producers Consumers.

(** ** Tasks *)

Inductive Task : Type :=
(* [try_match]: the top of the loop, the ranking, the pick; with a producer and a
   consumer in hand: the write, the two sections of its failure; those of its
   success, between [Mark] and [Tick] the two methods of the consumer table. *)
| Match
| Rank (candidates : list Z) (rr : nat)
| Pick (best : option Z) (stale : list Z) (rr : nat)
| Send (p : Z) (c : PendingConsumer)
| SendFailed (p : Z) (c : PendingConsumer)
| PutBack (p : Z) (c : PendingConsumer)
| Mark (p : Z) (c : PendingConsumer)
| Tick (p : Z) (c : PendingConsumer)
(* [on_producer_ready]; [known] in the branch of a producer that is ready already. *)
| ReadyState (p : Z)
| ReadyStale (p : Z)
| ReadyMark (p : Z) (known : bool)
| ReadyPool (p : Z) (known : bool)
| ReadySet (p : Z)
(* [enqueue_consumer] or [on_consumer_read], with the [try_match] after it. *)
| Enqueue (c : PendingConsumer)
(* [on_producer_done] *)
| DoneIdle (p : Z)
| DonePool (p : Z)
(* [on_producer_disconnect] *)
| LeavePool (p : Z)
| LeaveTake (p : Z)
| LeaveState (p cid : Z)
| LeaveContext (p cid : Z)
| LeavePush (p cid : Z) (ready : ReadyRequest) (data_addr : string)
| LeaveRemove (p : Z)
(* [wake_producer] *)
| Wake (p : Z)
(* [cancel_consumer] *)
| CancelQueue (cid : Z)
| CancelAssigned (cid : Z)
(* [sync_ready_pool] *)
| SyncSnapshot
| SyncRegistry (current : gset Z)
| SyncApply (add remove : gset Z)
(* [finish_producer_batch], up to [on_producer_done] *)
| ReportTake (p : Z) (report : DeliveryReport) (ok : bool) (message : option string)
| ReportFind (p : Z) (report : DeliveryReport) (ok : bool) (message : option string)
| ReportTick (p cid : Z) (report : DeliveryReport) (ok : bool) (message : option string)
| ReportRecord (p : Z) (report : DeliveryReport) (ok : bool)
(* the branch of HBRP *)
| HeartbeatStore (p : Z) (hb : ProducerHeartbeat)
| HeartbeatState (p : Z)
| HeartbeatQueue
(* a CRDY: the clock is read, then [begin_cycle] *)
| Cycle (cid : Z) (ready : ReadyRequest) (data_addr : string)
(* a turn of [run_match_loop] *)
| LoopTop
(* A method of the consumer table; one task after another. *)
| Registry (q : Consumers.method)
| Then (t k : Task).

(** What a step does to the requests of consumers: one is asked, sent to a producer,
    replaced in the queue by a newer one of the same consumer, cancelled with its
    connection, or given up because its ASGN cannot be encoded. *)
Inductive event : Type :=
| Asked (c : PendingConsumer)
| Sent (p : Z) (c : PendingConsumer)
| Replaced (c : PendingConsumer)
| Cancelled (c : PendingConsumer)
| Unencodable (c : PendingConsumer).

Definition outcome : Type := Master * option Task * list event.

(** [push_consumer_wait_with_done], and what it does to the requests. *)
Definition push_request (c : PendingConsumer) (m : Master) : Master * list event :=
  (on_inner (on_waiting (push_waiting c)) m,
   Asked c :: map Replaced (filter (fun q => pc_consumer_id q = pc_consumer_id c) (mi_waiting (ma_inner m)))).

Definition goes (m : Master) (t : Task) : outcome := (m, Some t, []).
Definition ends (m : Master) : outcome := (m, None, []).

(** The sections of [try_match]. *)
Definition match_step (now : Z) (io : result string unit) (t : Task) (m : Master) : outcome :=
  let inner := ma_inner m in
  match t with
  | Match =>
    if bool_decide (mi_waiting inner = []) || bool_decide (mi_ready inner = ∅) then ends m
    else goes m (Rank (elements (mi_ready inner)) (mi_producer_rr inner))
  | Rank candidates rr =>
    let '(best, stale, rr, producers) := Producers.rank_ready_candidates candidates rr (ma_producers m) in
    goes {| m with ma_producers := producers |} (Pick best stale rr)
  | Pick best stale rr =>
    let inner := {| inner with mi_producer_rr := rr; mi_ready := mi_ready inner ∖ list_to_set stale |} in
    let m := {| m with ma_inner := inner |} in
    match best with
    | None => ends m
    | Some p =>
      match take_next_waiting_inner (on_ready (fun s => s ∖ {[p]}) inner) with
      | (None, _) => ends m
      | (Some c, inner) => goes {| m with ma_inner := inner |} (Send p c)
      end
    end
  | Send p c =>
    match encode_assign (assign_of c) with
    | Err _ => (m, None, [Unencodable c])
    | Ok frame =>
      let '(sent, producers) := Producers.send_assign io p frame (ma_producers m) in
      let m := {| m with ma_producers := producers |} in
      match sent with
      | Err _ => goes m (SendFailed p c)
      | Ok _ => (m, Some (Mark p c), [Sent p c])
      end
    end
  | SendFailed p c => goes (on_producers (Producers.set_state p Producers.Idle) m) (PutBack p c)
  | PutBack p c =>
    goes (on_inner (fun i => on_waiting (fun w => w ++ [c]) (on_ready (fun s => s ∖ {[p]}) i)) m) Match
  | Mark p c =>
    goes (on_producers (Producers.mark_assigned p (pc_consumer_id c) now) m)
      (Then (Registry (Consumers.release_stale_assignments_m p (pc_consumer_id c)))
        (Then (Registry (Consumers.mark_awaiting_batch_m (pc_consumer_id c) p)) (Tick p c)))
  | Tick p c =>
    goes (send_done c (Ok tt) (on_metrics (record_assign_tick now p (pc_consumer_id c) "busy" "awaiting_batch") m))
      Match
  | _ => ends m
  end.

(** The sections of the methods of a producer's connection. *)
Definition producer_step (t : Task) (m : Master) : outcome :=
  match t with
  | ReadyState p =>
    match Producers.state_of p (ma_producers m) with
    | Some Producers.Busy => goes m (ReadyStale p)
    | Some Producers.Ready => goes m (ReadyMark p true)
    | Some Producers.Idle | None => goes m (ReadyMark p false)
    end
  | ReadyStale p => goes (on_producers (fun r => (Producers.clear_stale_busy p r).2) m) (ReadyMark p false)
  | ReadyMark p known => goes (on_producers (Producers.mark_prdy p) m) (ReadyPool p known)
  | ReadyPool p known => goes (ensure_in_ready_pool p m) (if known then Match else ReadySet p)
  | ReadySet p => goes (on_producers (Producers.set_state p Producers.Ready) m) Match
  | DoneIdle p => goes (on_producers (Producers.set_state p Producers.Idle) m) (DonePool p)
  | DonePool p => goes (on_inner (on_ready (fun s => s ∖ {[p]})) m) Match
  | LeavePool p => goes (on_inner (on_ready (fun s => s ∖ {[p]})) m) (LeaveTake p)
  | LeaveTake p =>
    let '(consumer_id, producers) := Producers.take_pending_consumer p (ma_producers m) in
    goes {| m with ma_producers := producers |}
      (match consumer_id with Some cid => LeaveState p cid | None => LeaveRemove p end)
  | LeaveState p cid =>
    goes m
      (match Consumers.state_of cid (ma_consumers m) with
       | Some st =>
         if String.eqb st "awaiting_batch" || String.eqb st "matcher_queue" then LeaveContext p cid else LeaveRemove p
       | None => LeaveRemove p
       end)
  | LeaveContext p cid =>
    goes m
      (match Consumers.match_context cid (ma_consumers m) with
       | Some (ready, data_addr) =>
         Then (Registry (Consumers.set_phase_m cid "matcher_queue")) (LeavePush p cid ready data_addr)
       | None => LeaveRemove p
       end)
  | LeavePush p cid ready data_addr =>
    let '(m, log) :=
      push_request {| pc_consumer_id := cid; pc_ready := ready; pc_data_addr := data_addr; pc_done := None |} m in
    (m, Some (LeaveRemove p), log)
  | LeaveRemove p => goes (on_producers (Producers.remove p) m) Match
  | Wake p => goes (ensure_in_ready_pool p m) Match
  | _ => ends m
  end.

(** Those of a consumer's connection, and of the match loop. *)
Definition consumer_step (t : Task) (m : Master) : outcome :=
  match t with
  | Enqueue c => let '(m, log) := push_request c m in (m, Some Match, log)
  | CancelQueue cid =>
    (drop_waiting cid m, Some (CancelAssigned cid),
     match list_find (fun p => pc_consumer_id p = cid) (mi_waiting (ma_inner m)) with
     | Some (_, p) => [Cancelled p]
     | None => []
     end)
  | CancelAssigned cid =>
    let '(cleared, producers) := Producers.clear_assignments_to_consumer cid (ma_producers m) in
    let m := {| m with ma_producers := producers |} in
    if (0 <? cleared)%nat then goes m Match else ends m
  | SyncSnapshot => goes m (SyncRegistry (mi_ready (ma_inner m)))
  | SyncRegistry current =>
    let '(add, rem, producers) := Producers.sync_matcher_ready_state current (ma_producers m) in
    goes {| m with ma_producers := producers |} (SyncApply add rem)
  | SyncApply add rem => ends (on_inner (on_ready (fun s => add ∪ (s ∖ rem))) m)
  | _ => ends m
  end.

(** The consumer's side of a report, once the consumer [cid] is known; 0 for none. *)
Definition settle_task (now p cid : Z) (report : DeliveryReport) (ok : bool) (message : option string) : Task :=
  let n := dr_msg_count report in
  if 0 <? cid then
    if ok then
      Then (Registry (Consumers.finish_batch_m cid n (dr_batch_bytes report) now (n =? 0)))
        (ReportTick p cid report ok message)
    else
      Then (Registry (Consumers.once (Consumers.set_unacked cid 0)))
        (Then (Registry (Consumers.set_phase_m cid "delivery_failed")) (ReportTick p cid report ok message))
  else ReportRecord p report ok.

(** Those of a producer's reports and heartbeats, and the start of a cycle. *)
Definition handler_step (now : Z) (t : Task) (m : Master) : outcome :=
  match t with
  | ReportTake p report ok message =>
    let '(pending, producers) := Producers.take_pending_consumer p (ma_producers m) in
    let cid := default 0 pending in
    goes {| m with ma_producers := producers |}
      (if cid =? 0 then ReportFind p report ok message else settle_task now p cid report ok message)
  | ReportFind p report ok message =>
    goes m (settle_task now p (default 0 (Consumers.find_id_by_assigned_producer p (ma_consumers m))) report ok message)
  | ReportTick p cid report ok message =>
    goes (on_metrics (record_transfer_tick now p cid (dr_msg_count report) (dr_batch_bytes report) ok message "busy"
                        (if ok then "processing" else "delivery_failed")) m)
      (ReportRecord p report ok)
  | ReportRecord p report ok =>
    goes (if ok then on_producers (Producers.record_delivery p (dr_msg_count report)) m
          else on_producers (Producers.record_failure p) m)
      (DoneIdle p)
  | HeartbeatStore p hb =>
    let '(rematch, producers) := Producers.record_heartbeat now p hb (ma_producers m) in
    goes {| m with ma_producers := producers |} (if rematch then Wake p else HeartbeatState p)
  | HeartbeatState p =>
    match Producers.state_of p (ma_producers m) with
    | Some Producers.Ready => goes m HeartbeatQueue
    | _ => ends m
    end
  | HeartbeatQueue => if 0 <? waiting_count m then goes m Match else ends m
  | Cycle cid ready data_addr =>
    goes m
      (Then (Registry (Consumers.begin_cycle_m cid (rr_max_items ready) (rr_consumer_tag ready) now))
        (Enqueue {| pc_consumer_id := cid; pc_ready := ready; pc_data_addr := data_addr; pc_done := None |}))
  | LoopTop => if waiting_count m =? 0 then ends m else goes m (Then SyncSnapshot Match)
  | _ => ends m
  end.

Fixpoint task_step (now : Z) (io : result string unit) (t : Task) (m : Master) : outcome :=
  match t with
  | Registry (Consumers.Locks f) =>
    let '(consumers, q) := f (ma_consumers m) in
    ({| m with ma_consumers := consumers |}, Registry <$> q, [])
  | Then t k =>
    let '(m, t', log) := task_step now io t m in
    (m, Some (match t' with Some t' => Then t' k | None => k end), log)
  | Match | Rank _ _ | Pick _ _ _ | Send _ _ | SendFailed _ _ | PutBack _ _ | Mark _ _ | Tick _ _ => match_step now io t m
  | Enqueue _ | CancelQueue _ | CancelAssigned _ | SyncSnapshot | SyncRegistry _ | SyncApply _ _ => consumer_step t m
  | ReportTake _ _ _ _ | ReportFind _ _ _ _ | ReportTick _ _ _ _ _ | ReportRecord _ _ _ | HeartbeatStore _ _
  | HeartbeatState _ | HeartbeatQueue | Cycle _ _ _ | LoopTop => handler_step now t m
  | _ => producer_step t m
  end.

(** ** Calls *)

(** What a connection or the match loop starts: the frames PRDY, HBRP, DELV or FAIL, and
    CRDY, the end of either connection, a turn of the match loop; and [on_consumer_read],
    which no handler uses. *)
Inductive call : Type :=
| CallReady (p : Z)
| CallHeartbeat (p : Z) (hb : ProducerHeartbeat)
| CallReport (p : Z) (report : DeliveryReport) (ok : bool) (message : option string)
| CallProducerGone (p : Z)
| CallCycle (cid : Z) (ready : ReadyRequest) (data_addr : string)
| CallConsumerGone (cid : Z)
| CallMatchLoop
| CallConsumerRead (cid : Z) (ready : ReadyRequest) (data_addr : string) (ch : nat).

Definition entry (c : call) : Task :=
  match c with
  | CallReady p => ReadyState p
  | CallHeartbeat p hb => HeartbeatStore p hb
  | CallReport p report ok message => ReportTake p report ok message
  | CallProducerGone p => LeavePool p
  | CallCycle cid ready data_addr => Cycle cid ready data_addr
  | CallConsumerGone cid => Then (CancelQueue cid) (Registry (Consumers.remove_m cid))
  | CallMatchLoop => LoopTop
  | CallConsumerRead cid ready data_addr ch =>
    Enqueue {| pc_consumer_id := cid; pc_ready := ready; pc_data_addr := data_addr; pc_done := Some ch |}
  end.

(** The function of the whole call. *)
Definition call_effect (e : env) (c : call) (m : Master) : Master :=
  match c with
  | CallReady p => (on_producer_ready e p m).1
  | CallHeartbeat p hb => producer_heartbeat e p hb m
  | CallReport p report ok message => finish_producer_batch e p report ok message m
  | CallProducerGone p => on_producer_disconnect e p m
  | CallCycle cid ready data_addr =>
    let m := on_consumers (Consumers.begin_cycle cid (rr_max_items ready) (rr_consumer_tag ready) (env_now e)) m in
    (try_match e (enqueue_consumer cid ready data_addr m)).1
  | CallConsumerGone cid => drop_consumer_session e cid m
  | CallMatchLoop => run_match_loop_turn e m
  | CallConsumerRead cid ready data_addr ch => (on_consumer_read e cid ready data_addr ch m).1
  end.

(** ** A task alone *)

(** The turn of [try_match]'s loop the task is in after [t]. *)
Fixpoint next_turn (t : Task) (i : nat) : nat :=
  match t with PutBack _ _ | Tick _ _ => S i | Then t _ => next_turn t i | _ => i end.

Inductive alone_step (e : env) : nat * option Task * Master -> nat * option Task * Master -> Prop :=
| alone_intro i t m m' t' log :
    task_step (env_now e) (env_io e i) t m = (m', t', log) ->
    alone_step e (i, Some t, m) (next_turn t i, t', m').

(** Alone, the task [t] ends, and leaves [m'] of [m]. *)
Definition runs (e : env) (i : nat) (t : Task) (m m' : Master) : Prop :=
  exists j, star (alone_step e) (i, Some t, m) (j, None, m').

(** ** Lemmas *)

Lemma runs_step e i t m m1 t1 log m' :
  task_step (env_now e) (env_io e i) t m = (m1, Some t1, log) -> runs e (next_turn t i) t1 m1 m' -> runs e i t m m'.
Proof. intros Hs (j & Hr). exists j. eapply star_step; [by econstructor|exact Hr]. Qed.

Lemma runs_end e i t m m' log :
  task_step (env_now e) (env_io e i) t m = (m', None, log) -> runs e i t m m'.
Proof. intros Hs. exists (next_turn t i). eapply star_step; [by econstructor|apply star_refl]. Qed.

(** A method of the consumer table, with what comes after it, or at the end. *)
Lemma registry_runs e i q k m m' :
  runs e i k (on_consumers (Consumers.exec q) m) m' -> runs e i (Then (Registry q) k) m m'.
Proof.
  revert m. induction q as [f IH] using Consumers.method_induction. intros m Hr. unfold on_consumers in Hr. cbn [Consumers.exec] in Hr.
  destruct (f (ma_consumers m)) as [r [q|]] eqn:Hf.
  - eapply runs_step; [cbn [task_step]; rewrite Hf; reflexivity|]. eapply IH; [exact Hf|]. exact Hr.
  - eapply runs_step; [cbn [task_step]; rewrite Hf; reflexivity|]. exact Hr.
Qed.

Lemma method_runs e i q f k m m' :
  (forall r, Consumers.exec q r = f r) -> runs e i k (on_consumers f m) m' -> runs e i (Then (Registry q) k) m m'.
Proof. intros Hf Hr. apply registry_runs. unfold on_consumers in *. by rewrite Hf. Qed.

Lemma registry_ends e i q m : runs e i (Registry q) m (on_consumers (Consumers.exec q) m).
Proof.
  revert m. induction q as [f IH] using Consumers.method_induction. intros m. unfold on_consumers. cbn [Consumers.exec].
  destruct (f (ma_consumers m)) as [r [q|]] eqn:Hf.
  - eapply runs_step; [cbn [task_step]; rewrite Hf; reflexivity|]. exact (IH _ _ _ Hf {| m with ma_consumers := r |}).
  - eapply runs_end. cbn [task_step]. rewrite Hf. reflexivity.
Qed.

Lemma then_runs e i t k m m1 m2 :
  runs e i t m m1 -> (forall j, runs e j k m1 m2) -> runs e i (Then t k) m m2.
Proof.
  intros (j & Hr) Hk. remember (i, Some t, m) as a eqn:Ha. remember (j, None, m1) as b eqn:Hb.
  revert i t m Ha. induction Hr as [a|a a1 b Hs Hr IH]; intros i t m ->; [done|].
  inversion Hs as [i0 t0 m0 m' t' log Hstep]; subst. destruct t' as [t'|].
  - eapply runs_step; [cbn [task_step]; rewrite Hstep; reflexivity|]. by apply IH.
  - eapply runs_step; [cbn [task_step]; rewrite Hstep; reflexivity|].
    inversion Hr as [|x y z Hs']; subst; [|inversion Hs']. apply Hk.
Qed.

Lemma send_match_runs e i p c m m' r m2 :
  send_match (env_now e) (env_io e i) p c m = (m', r) ->
  match r with Some _ => m2 = m' | None => runs e (S i) Match m' m2 end ->
  runs e i (Send p c) m m2.
Proof.
  unfold send_match. destruct (encode_assign (assign_of c)) as [frame|err] eqn:Henc.
  2: { intros [= <- <-] ->. eapply runs_end. cbn -[encode_assign]. rewrite Henc. reflexivity. }
  destruct (Producers.send_assign _ _ _ _) as [[[]|msg] r1] eqn:Hsend; intros [= <- <-] Hr.
  - eapply runs_step; [cbn -[encode_assign Producers.send_assign]; rewrite Henc, Hsend; reflexivity|].
    eapply runs_step; [reflexivity|].
    eapply method_runs; [apply Consumers.exec_release_stale_assignments|].
    eapply method_runs; [apply Consumers.exec_mark_awaiting_batch|]. eapply runs_step; [reflexivity|]. exact Hr.
  - eapply runs_step; [cbn -[encode_assign Producers.send_assign]; rewrite Henc, Hsend; reflexivity|].
    do 2 (eapply runs_step; [reflexivity|]). exact Hr.
Qed.

(** One turn of [try_match]'s loop is the run of a [Match] back to [Match]. *)
Lemma try_match_turn_runs e i m m' r m2 :
  try_match_turn (env_now e) (env_io e i) m = (m', r) ->
  match r with Some _ => m2 = m' | None => runs e (S i) Match m' m2 end ->
  runs e i Match m m2.
Proof.
  unfold try_match_turn. destruct (_ || _) eqn:Hstop.
  { intros [= <- <-] ->. eapply runs_end. cbn -[elements]. rewrite Hstop. reflexivity. }
  destruct (Producers.rank_ready_candidates _ _ _) as [[[best stale] rr] r0] eqn:Hrank.
  intros Hturn Hr. eapply runs_step; [cbn -[elements]; rewrite Hstop; reflexivity|].
  eapply runs_step; [cbn -[elements Producers.rank_ready_candidates]; rewrite Hrank; reflexivity|].
  destruct best as [p|].
  2: { injection Hturn as <- <-. subst m2. eapply runs_end. reflexivity. }
  destruct (take_next_waiting_inner _) as [[c|] i1] eqn:Htake.
  2: { injection Hturn as <- <-. subst m2. eapply runs_end.
       cbn -[take_next_waiting_inner]. cbn -[take_next_waiting_inner] in Htake. rewrite Htake. reflexivity. }
  eapply runs_step.
  { cbn -[take_next_waiting_inner]. cbn -[take_next_waiting_inner] in Htake. rewrite Htake. reflexivity. }
  by eapply send_match_runs.
Qed.

(** The producer ranked best is one of the candidates. *)
Lemma rank_tier_candidates candidates k id :
  id ∈ Producers.rk_tier (foldl Producers.rank_step k candidates) ->
  id ∈ Producers.rk_tier k \/ id ∈ candidates.
Proof.
  revert k. induction candidates as [|x l IH]; intros k Hin; [by left|].
  cbn [foldl] in Hin. apply IH in Hin as [Hin|Hin]; [|right; by right].
  assert (id ∈ Producers.rk_tier k \/ id = x) as [?| ->]; [|by left|right; by left].
  revert Hin. unfold Producers.rank_step. destruct (Producers.pr_inner (Producers.rk_reg k) !! x) as [en|]; [|by left].
  destruct (negb _); [by left|]. destruct (Producers.entry_backlog_weight en) as [msgs bytes].
  destruct (_ || _); cbn; [intros H; right; by apply list_elem_of_singleton in H|].
  destruct (_ && _); cbn; [|by left]. intros [H|H]%elem_of_app; [by left|right; by apply list_elem_of_singleton in H].
Qed.

(** A turn that goes on takes a producer out of the pool. *)
Lemma turn_shrinks now io m m' :
  try_match_turn now io m = (m', None) ->
  (size (mi_ready (ma_inner m')) < size (mi_ready (ma_inner m)))%nat.
Proof.
  unfold try_match_turn. destruct (_ || _); [done|].
  destruct (Producers.rank_ready_candidates _ _ _) as [[[best stale] rr] r0] eqn:Hrank.
  destruct best as [p|]; [|done].
  assert (Hp : p ∈ mi_ready (ma_inner m)).
  { unfold Producers.rank_ready_candidates in Hrank.
    destruct (Producers.pick_tier _ _) as [best rr'] eqn:Hpick. simplify_eq.
    apply Producers.pick_tier_elem, rank_tier_candidates in Hpick as [Hn|Hin]; [by apply not_elem_of_nil in Hn|].
    by apply elem_of_elements. }
  destruct (take_next_waiting_inner _) as [[c|] i1] eqn:Htake; [|done]. unfold send_match.
  assert (Hi1 : mi_ready i1 = (mi_ready (ma_inner m) ∖ list_to_set stale) ∖ {[p]}).
  { unfold take_next_waiting_inner in Htake. destruct (_ =? _)%nat; [done|]. by simplify_eq/=. }
  destruct (encode_assign _) as [frame|]; [|done].
  destruct (Producers.send_assign _ _ _ _) as [[[]|msg] r1]; intros [= <-].
  - unfold complete_match. match goal with |- context [send_done ?c ?r ?m] => destruct (send_done_fields c r m) as (_ & _ & ->) end.
    cbn. rewrite Hi1. apply subset_size. set_solver.
  - cbn. rewrite Hi1. apply subset_size. set_solver.
Qed.

Lemma try_match_loop_runs n i e m m' r :
  try_match_loop n i e m = (m', Some r) -> runs e i Match m m'.
Proof.
  revert i m. induction n as [|n IH]; intros i m; [done|]. cbn [try_match_loop].
  destruct (try_match_turn _ _ m) as [m1 [r1|]] eqn:Hturn.
  - intros [= <- <-]. eapply try_match_turn_runs; [exact Hturn|done].
  - intros Hl. eapply try_match_turn_runs; [exact Hturn|]. by apply IH.
Qed.

(** The fuel of [try_match] is enough, in every state. *)
Lemma try_match_terminates n i e m :
  (size (mi_ready (ma_inner m)) < n)%nat -> exists m' r, try_match_loop n i e m = (m', Some r).
Proof.
  revert i m. induction n as [|n IH]; intros i m Hn; [lia|]. cbn [try_match_loop].
  destruct (try_match_turn _ _ m) as [m1 [r1|]] eqn:Hturn; [eauto|].
  apply IH. apply turn_shrinks in Hturn. lia.
Qed.

Lemma try_match_runs e m : runs e 0 Match m (try_match e m).1.
Proof.
  unfold try_match. destruct (try_match_terminates (S (size (mi_ready (ma_inner m)))) 0 e m) as (m' & r & H); [lia|].
  rewrite H. by eapply try_match_loop_runs.
Qed.

Lemma on_producer_ready_runs e p m : runs e 0 (ReadyState p) m (on_producer_ready e p m).1.
Proof.
  unfold on_producer_ready. destruct (Producers.state_of p (ma_producers m)) as [[]|] eqn:Hs;
    (eapply runs_step; [cbn; rewrite Hs; reflexivity|]); do 2 (eapply runs_step; [reflexivity|]);
    try (eapply runs_step; [reflexivity|]); try (eapply runs_step; [reflexivity|]); apply try_match_runs.
Qed.

Lemma on_producer_disconnect_runs e p m : runs e 0 (LeavePool p) m (on_producer_disconnect e p m).
Proof.
  assert (Hend : forall m1, runs e 0 (LeaveRemove p) m1 (try_match e (on_producers (Producers.remove p) m1)).1).
  { intros m1. eapply runs_step; [reflexivity|]. apply try_match_runs. }
  unfold on_producer_disconnect. eapply runs_step; [reflexivity|].
  destruct (Producers.take_pending_consumer p _) as [cid r] eqn:Htake.
  eapply runs_step; [cbn -[Producers.take_pending_consumer]; cbn -[Producers.take_pending_consumer] in Htake; rewrite Htake; reflexivity|].
  destruct cid as [cid|]; [|apply Hend]. unfold requeue_orphan.
  eapply runs_step; [reflexivity|].
  destruct (Consumers.state_of cid _) as [st|]; [|apply Hend]. destruct (_ || _); [|apply Hend].
  eapply runs_step; [reflexivity|].
  destruct (Consumers.match_context cid _) as [[ready addr]|]; [|apply Hend].
  eapply method_runs; [apply Consumers.exec_set_phase|]. eapply runs_step; [reflexivity|]. apply Hend.
Qed.

Lemma cancel_consumer_runs e cid m : runs e 0 (CancelQueue cid) m (cancel_consumer e cid m).
Proof.
  unfold cancel_consumer. eapply runs_step; [reflexivity|].
  destruct (Producers.clear_assignments_to_consumer cid _) as [n r] eqn:Hc. destruct (0 <? n)%nat eqn:Hn.
  - eapply runs_step; [cbn -[Producers.clear_assignments_to_consumer Nat.ltb]; rewrite Hc, Hn; reflexivity|].
    apply try_match_runs.
  - eapply runs_end. cbn -[Producers.clear_assignments_to_consumer Nat.ltb]. rewrite Hc, Hn. reflexivity.
Qed.

Lemma sync_ready_pool_runs e m : runs e 0 SyncSnapshot m (sync_ready_pool m).
Proof.
  unfold sync_ready_pool. eapply runs_step; [reflexivity|].
  destruct (Producers.sync_matcher_ready_state _ _) as [[add rem] r] eqn:Hs.
  eapply runs_step; [cbn -[Producers.sync_matcher_ready_state]; rewrite Hs; reflexivity|].
  by eapply runs_end.
Qed.


Lemma on_producer_done_runs e i p m : i = 0%nat -> runs e i (DoneIdle p) m (on_producer_done e p m).
Proof. intros ->. do 2 (eapply runs_step; [reflexivity|]). apply try_match_runs. Qed.

(** The part of a report after [take_pending_consumer] and the lookup. *)
Lemma settle_runs e p cid report ok message m :
  let n := dr_msg_count report in
  let m1 := if 0 <? cid
            then settle_consumer (env_now e) p cid n (dr_batch_bytes report) ok message m else m in
  let m2 := if ok then on_producers (Producers.record_delivery p n) m1 else on_producers (Producers.record_failure p) m1 in
  runs e 0 (settle_task (env_now e) p cid report ok message) m (on_producer_done e p m2).
Proof.
  cbv zeta. unfold settle_task.
  assert (Hrec : forall m1, runs e 0 (ReportRecord p report ok) m1
    (on_producer_done e p (if ok then on_producers (Producers.record_delivery p (dr_msg_count report)) m1
                           else on_producers (Producers.record_failure p) m1))).
  { intros m1. eapply runs_step; [reflexivity|]. by apply on_producer_done_runs. }
  destruct (0 <? cid); [|apply Hrec]. unfold settle_consumer. destruct ok.
  - eapply method_runs; [apply Consumers.exec_finish_batch|]. eapply runs_step; [reflexivity|]. apply Hrec.
  - eapply method_runs; [reflexivity|]. eapply method_runs; [apply Consumers.exec_set_phase|].
    eapply runs_step; [reflexivity|]. apply Hrec.
Qed.

Lemma finish_producer_batch_runs e p report ok message m :
  runs e 0 (ReportTake p report ok message) m (finish_producer_batch e p report ok message m).
Proof.
  unfold finish_producer_batch. destruct (Producers.take_pending_consumer p _) as [pending r] eqn:Htake.
  eapply runs_step.
  { cbn -[Producers.take_pending_consumer settle_task Z.eqb]. rewrite Htake. reflexivity. }
  unfold report_consumer. destruct (default 0 pending =? 0) eqn:Hz; [|apply settle_runs].
  eapply runs_step; [reflexivity|]. apply settle_runs.
Qed.

Lemma producer_heartbeat_runs e p hb m : runs e 0 (HeartbeatStore p hb) m (producer_heartbeat e p hb m).
Proof.
  unfold producer_heartbeat. destruct (Producers.record_heartbeat _ _ _ _) as [rematch r] eqn:Hhb.
  eapply runs_step; [cbn -[Producers.record_heartbeat]; rewrite Hhb; reflexivity|].
  destruct rematch; [eapply runs_step; [reflexivity|]; apply try_match_runs|].
  destruct (Producers.state_of p _) as [[]|] eqn:Hs.
  2: { eapply runs_step; [cbn; cbn in Hs; rewrite Hs; reflexivity|].
       destruct (0 <? waiting_count _) eqn:Hw.
       - eapply runs_step; [cbn -[waiting_count Z.ltb]; rewrite Hw; reflexivity|]. apply try_match_runs.
       - eapply runs_end. cbn -[waiting_count Z.ltb]. rewrite Hw. reflexivity. }
  all: eapply runs_end; cbn; cbn in Hs; rewrite Hs; reflexivity.
Qed.

Lemma drop_consumer_session_runs e cid m :
  runs e 0 (Then (CancelQueue cid) (Registry (Consumers.remove_m cid))) m (drop_consumer_session e cid m).
Proof.
  eapply then_runs; [apply cancel_consumer_runs|]. intros j. unfold drop_consumer_session, on_consumers.
  rewrite <- Consumers.exec_remove. apply registry_ends.
Qed.

Lemma match_loop_runs e m : runs e 0 LoopTop m (run_match_loop_turn e m).
Proof.
  unfold run_match_loop_turn. destruct (waiting_count m =? 0) eqn:Hw.
  - eapply runs_end. cbn -[waiting_count]. rewrite Hw. reflexivity.
  - eapply runs_step; [cbn -[waiting_count]; rewrite Hw; reflexivity|]. unfold sync_ready_pool.
    eapply runs_step; [reflexivity|].
    destruct (Producers.sync_matcher_ready_state _ _) as [[add rem] r] eqn:Hs.
    eapply runs_step; [cbn -[Producers.sync_matcher_ready_state]; rewrite Hs; reflexivity|].
    eapply runs_step; [reflexivity|]. apply try_match_runs.
Qed.

Lemma sections_alone e m c : runs e 0 (entry c) m (call_effect e c m).
Proof.
  destruct c as [p|p hb|p report ok message|p|cid ready addr|cid| |cid ready addr ch]; cbn [entry call_effect].
  - apply on_producer_ready_runs.
  - apply producer_heartbeat_runs.
  - apply finish_producer_batch_runs.
  - apply on_producer_disconnect_runs.
  - eapply runs_step; [reflexivity|]. eapply method_runs; [apply Consumers.exec_begin_cycle|].
    eapply runs_step; [reflexivity|]. apply try_match_runs.
  - apply drop_consumer_session_runs.
  - apply match_loop_runs.
  - eapply runs_step; [reflexivity|]. apply try_match_runs.
Qed.

(** What the turn of a connection does to the master: nothing, a registration, or a call. *)
Inductive turn_effect (e : env) (m : Master) : Master -> Prop :=
| te_none : turn_effect e m m
| te_producer addr : turn_effect e m (on_producers (fun r => (Producers.register addr (unix_secs e) r).2) m)
| te_consumer addr data :
    turn_effect e m (on_consumers (fun r => (Consumers.register addr data (unix_secs e) r).2) m)
| te_call c : turn_effect e m (call_effect e c m).

Lemma conn_turn_effect e m c : turn_effect e m (conn_turn e m c).1.
Proof.
  unfold conn_turn. destruct (cn_phase c) as [|p magic|p|id addr|p|id|].
  - unfold handle_control. destruct (read_exact 4 _) as [[magic input]|err]; [|constructor].
    destruct (bytes_eqb magic MAGIC_REGISTER).
    + destruct (read_register_payload input) as [[addr rest]|err]; [|constructor].
      apply (te_consumer e m (cn_addr c) addr).
    + destruct (is_producer_magic magic); [|constructor]. apply (te_producer e m (cn_addr c)).
  - unfold process_producer_magic. destruct (bytes_eqb magic MAGIC_PRODUCER_READY).
    { pose proof (te_call e m (CallReady p)) as H. cbn [call_effect] in H.
      by destruct (on_producer_ready e p m) as [m' [u|msg]]. }
    destruct (bytes_eqb magic MAGIC_HEARTBEAT).
    { destruct (read_heartbeat_payload _) as [[hb input]|err]; [apply (te_call e m (CallHeartbeat p hb))|constructor]. }
    destruct (bytes_eqb magic MAGIC_DELIVERED).
    { destruct (read_delivery_report_payload _) as [[report input]|err];
        [apply (te_call e m (CallReport p report true None))|constructor]. }
    destruct (bytes_eqb magic MAGIC_FAILED); [|constructor].
    destruct (read_failure_report_payload _) as [[report input]|err]; [|constructor].
    apply (te_call e m (CallReport p {| dr_msg_count := fr_msg_count report; dr_batch_bytes := fr_batch_bytes report |}
                          false (Some (fr_message report)))).
  - destruct (read_exact 4 _) as [[magic input]|err]; constructor.
  - unfold handle_consumer. destruct (read_consumer_ready_request _) as [[ready input]|err]; [|constructor].
    apply (te_call e m (CallCycle id ready addr)).
  - apply (te_call e m (CallProducerGone p)).
  - apply (te_call e m (CallConsumerGone id)).
  - constructor.
Qed.

(** ** Properties *)

(** C5: the critical sections are the handlers.  A task that no other task interrupts
    always ends, and what it leaves is what the function of its call computes, from
    every state and for every answer of the writes: the four frames of a producer,
    CRDY, the ends of the two kinds of connection, and a turn of the match loop; the
    fuel of [try_match] is enough.  And the turn of a connection does nothing else to
    the master than register it or make one such call. *)
Theorem sections_refine_methods e m :
  (forall c, runs e 0 (entry c) m (call_effect e c m)) /\ (forall conn, turn_effect e m (conn_turn e m conn).1).
Proof.
  split; [apply sections_alone|apply conn_turn_effect].
Qed.
