(* ===== verification/Interleaving.v ===== *)
(** * Any number of tasks at once

    [System] is the shared state of the master with the tasks of [Tasks.v], which move
    in any order, one critical section at a time.  The theorems are about all
    interleavings: what stays true, and the races, which no run of whole turns
    ([Relay.v]) has. *)

From S2P Require Import Prelude Protocol Metrics Matchmaker Server Tasks.
From S2P Require Producers Consumers.

(** ** The system *)

Record System := { sy_master : Master; sy_tasks : list Task; sy_log : list event }.

(** A task moves ([il_task]; its snapshot of the pool is in the order of a hash set,
    [il_order]); a connection or the match loop makes a call; a connection is accepted
    and registered; the sampler and the HTTP handlers refresh the rates of the two
    tables and use the metrics. *)
Inductive il_step : System -> System -> Prop :=
| il_task s i t now io m' t' log :
    sy_tasks s !! i = Some t -> task_step now io t (sy_master s) = (m', t', log) ->
    il_step s {| sy_master := m';
                 sy_tasks := match t' with Some t' => <[i := t']> (sy_tasks s) | None => delete i (sy_tasks s) end;
                 sy_log := sy_log s ++ log |}
| il_order s i candidates candidates' rr :
    sy_tasks s !! i = Some (Rank candidates rr) -> Permutation candidates candidates' ->
    il_step s {| s with sy_tasks := <[i := Rank candidates' rr]> (sy_tasks s) |}
| il_call s c : il_step s {| s with sy_tasks := sy_tasks s ++ [entry c] |}
| il_producer s addr now :
    Producers.pr_next_id (ma_producers (sy_master s)) < umax 64 ->
    il_step s {| s with sy_master := on_producers (fun r => (Producers.register addr now r).2) (sy_master s) |}
| il_consumer s addr data now :
    Consumers.cr_next_id (ma_consumers (sy_master s)) < umax 64 ->
    il_step s {| s with sy_master := on_consumers (fun r => (Consumers.register addr data now r).2) (sy_master s) |}
| il_producer_rates s secs now :
    il_step s {| s with sy_master := on_producers (fun r => (Producers.list_rows secs now r).2) (sy_master s) |}
| il_consumer_rates s secs now demand :
    il_step s {| s with sy_master :=
                   on_consumers (fun r => (Consumers.list_with_capacity secs now demand r).2) (sy_master s) |}
| il_metrics s f : il_step s {| s with sy_master := on_metrics f (sy_master s) |}.

Definition boot (now_ms : Z) : System := {| sy_master := Matchmaker.new now_ms; sy_tasks := []; sy_log := [] |}.

(** ** Where the requests are *)

(** The request a task holds, out of the queue and not sent yet. *)
Fixpoint in_hand (t : Task) : list PendingConsumer :=
  match t with
  | Send _ c | SendFailed _ c | PutBack _ c => [c]
  | Then t k => in_hand t ++ in_hand k
  | _ => []
  end.

Definition in_hands (s : System) : list PendingConsumer := concat (map in_hand (sy_tasks s)).

Definition asked_of (ev : event) : list PendingConsumer := match ev with Asked c => [c] | _ => [] end.
Definition sent_of (ev : event) : list PendingConsumer := match ev with Sent _ c => [c] | _ => [] end.
Definition gone_of (ev : event) : list PendingConsumer :=
  match ev with Replaced c | Cancelled c | Unencodable c => [c] | _ => [] end.

Definition requests (f : event -> list PendingConsumer) (s : System) : list PendingConsumer :=
  concat (map f (sy_log s)).

(** Every request asked is in the queue, in a task's hand, sent to one producer, or
    gone for a reason the log names. *)
Definition accounted (s : System) : Prop :=
  Permutation (requests asked_of s)
    (mi_waiting (ma_inner (sy_master s)) ++ in_hands s ++ requests sent_of s ++ requests gone_of s).

(** ** Scripts *)

(** A run of the system, written out: task [i] makes a step, a call is made, a
    producer or consumer registers. *)
Inductive action : Type :=
| Step (i : nat) (io : result string unit)
| Call (c : call)
| AddProducer (addr : string)
| AddConsumer (addr data_addr : string).

Definition act (now : Z) (a : action) (s : System) : option System :=
  match a with
  | Step i io =>
    match sy_tasks s !! i with
    | None => None
    | Some t =>
      let '(m', t', log) := task_step now io t (sy_master s) in
      Some {| sy_master := m';
              sy_tasks := match t' with Some t' => <[i := t']> (sy_tasks s) | None => delete i (sy_tasks s) end;
              sy_log := sy_log s ++ log |}
    end
  | Call c => Some {| s with sy_tasks := sy_tasks s ++ [entry c] |}
  | AddProducer addr =>
    if Producers.pr_next_id (ma_producers (sy_master s)) <? umax 64
    then Some {| s with sy_master := on_producers (fun r => (Producers.register addr now r).2) (sy_master s) |}
    else None
  | AddConsumer addr data =>
    if Consumers.cr_next_id (ma_consumers (sy_master s)) <? umax 64
    then Some {| s with sy_master := on_consumers (fun r => (Consumers.register addr data now r).2) (sy_master s) |}
    else None
  end.

Fixpoint script (now : Z) (acts : list action) (s : System) : option System :=
  match acts with
  | [] => Some s
  | a :: acts => match act now a s with Some s => script now acts s | None => None end
  end.

(** [n] steps of task [i], the writes answering [Ok]. *)
Definition steps (i n : nat) : list action := repeat (Step i (Ok tt)) n.

Definition request (cid : Z) (max : Z) : PendingConsumer :=
  {| pc_consumer_id := cid; pc_ready := {| rr_max_items := max; rr_consumer_tag := "t" |};
     pc_data_addr := "h:1"; pc_done := None |}.

Definition backlog : ProducerHeartbeat :=
  {| hb_pending_messages := 0; hb_pending_bytes := 0; hb_ring_messages := 5; hb_ring_bytes := 50;
     hb_drops_total := 0 |}.

(** What the consumer [cid] asks. *)
Definition ask (cid max : Z) : call := CallCycle cid (pc_ready (request cid max)) "h:1".

(** Two consumers wait, the producer announces itself, and the task of its PRDY has
    picked it for the first consumer; the match loop's reconciliation and its own
    [try_match] run before the ASGN is written. *)
Definition double_script : list action :=
  [AddProducer "p1"; AddConsumer "c1" "h:1"; AddConsumer "c2" "h:1"; Call (ask 1 8)] ++ steps 0 5 ++
  [Call (ask 2 8)] ++ steps 0 5 ++ [Call (CallReady 1)] ++ steps 0 7 ++ [Call CallMatchLoop] ++ steps 1 14 ++ steps 0 9.

(** The ASGN of the consumer's first request cannot be written, and the consumer asks
    again before the request is put back; two more producers announce themselves. *)
Definition twice_script : list action :=
  [AddProducer "p1"; AddProducer "p2"; AddProducer "p3"; AddConsumer "c1" "h:1"; Call (ask 1 8)] ++ steps 0 5 ++
  [Call (CallReady 1)] ++ steps 0 7 ++ [Step 0 (Err "broken pipe"%string)] ++
  [Call (ask 1 9)] ++ steps 1 5 ++ steps 0 3 ++
  [Call (CallReady 2)] ++ steps 0 14 ++ [Call (CallReady 3)] ++ steps 0 14.

(** The producer reports while the task of its match stands between the write of the
    ASGN and [mark_assigned]. *)
Definition early_script : list action :=
  [AddProducer "p1"; AddConsumer "c1" "h:1"; Call (ask 1 8)] ++ steps 0 5 ++
  [Call (CallReady 1)] ++ steps 0 8 ++
  [Call (CallReport 1 {| dr_msg_count := 5; dr_batch_bytes := 50 |} true None)] ++ steps 1 6 ++ steps 0 6.

(** The batch is delivered and reported, and the consumer asks again and is matched
    with a second producer, while the task of its first match stands between the two
    sections of [mark_awaiting_batch]; then the first producer is matched with another
    consumer, and the second leaves. *)
Definition stale_script : list action :=
  [AddProducer "p1"; AddProducer "p2"; AddConsumer "c1" "h:1"; AddConsumer "c2" "h:1"; Call (ask 1 8)] ++ steps 0 5 ++
  [Call (CallReady 1)] ++ steps 0 11 ++
  [Call (CallReport 1 {| dr_msg_count := 5; dr_batch_bytes := 50 |} true None)] ++ steps 1 8 ++
  [Call (ask 1 8)] ++ steps 1 5 ++ [Call (CallReady 2)] ++ steps 1 14 ++ steps 0 3 ++
  [Call (ask 2 8)] ++ steps 0 5 ++ [Call (CallReady 1)] ++ steps 0 16 ++
  [Call (CallProducerGone 2)] ++ steps 0 5.

(** The double assignment, as a run in which every request is accounted for. *)
Definition double_end : System := default (boot 0) (script 0 double_script (boot 0)).

(** ** Conservation of requests *)

Definition task_hand (t : option Task) : list PendingConsumer :=
  match t with Some t => in_hand t | None => [] end.

Definition waiting_of (m : Master) : list PendingConsumer := mi_waiting (ma_inner m).

(** What a step moves balances. *)
Definition balanced (t : Task) (m : Master) (out : outcome) : Prop :=
  let '(m', t', log) := out in
  Permutation (waiting_of m ++ in_hand t ++ concat (map asked_of log))
    (waiting_of m' ++ task_hand t' ++ concat (map sent_of log) ++ concat (map gone_of log)).

Lemma replaced_events (l : list PendingConsumer) :
  concat (map asked_of (map Replaced l)) = [] /\ concat (map sent_of (map Replaced l)) = [] /\
  concat (map gone_of (map Replaced l)) = l.
Proof. induction l as [|c l (H1 & H2 & H3)]; [done|]. cbn. rewrite H1, H2, H3. done. Qed.

Lemma push_request_balance c m :
  let '(m', log) := push_request c m in
  Permutation (waiting_of m ++ concat (map asked_of log))
    (waiting_of m' ++ concat (map sent_of log) ++ concat (map gone_of log)).
Proof.
  cbn. destruct (replaced_events (filter (fun q => pc_consumer_id q = pc_consumer_id c) (waiting_of m)))
    as (H1 & H2 & H3).
  unfold waiting_of in *. rewrite H1, H2, H3. unfold push_waiting. cbn.
  rewrite <- (filter_app_complement (fun q => pc_consumer_id q = pc_consumer_id c) (mi_waiting (ma_inner m))) at 1.
  solve_Permutation.
Qed.

Lemma take_next_balance i c i' :
  take_next_waiting_inner i = (Some c, i') -> Permutation (mi_waiting i) (c :: mi_waiting i').
Proof.
  intros H. assert (Hne : mi_waiting i <> []).
  { intros Hnil. unfold take_next_waiting_inner in H. rewrite Hnil in H. done. }
  destruct (take_next_spec i Hne) as (pick & c' & Hc & Heq & _). rewrite Heq in H. simplify_eq.
  by apply delete_perm.
Qed.

Lemma match_step_balance now io t m :
  match t with Then _ _ => False | _ => True end -> balanced t m (match_step now io t m).
Proof.
  intros Ht. destruct t; try (by destruct Ht); cbn -[take_next_waiting_inner encode_assign]; rewrite ?app_nil_r; try done.
  - destruct (_ || _); cbn; by rewrite ?app_nil_r.
  - destruct (Producers.rank_ready_candidates _ _ _) as [[[best stale] rr'] r]. cbn. by rewrite ?app_nil_r.
  - destruct best as [p|]; [|cbn; by rewrite ?app_nil_r].
    match goal with |- context [take_next_waiting_inner ?i] => destruct (take_next_waiting_inner i) as [[c|] i'] eqn:Hq end.
    + cbn. apply take_next_balance in Hq. cbn in Hq. unfold waiting_of. cbn. rewrite Hq. solve_Permutation.
    + cbn. by rewrite ?app_nil_r.
  - destruct (encode_assign _) as [frame|]; [|cbn; by rewrite ?app_nil_r].
    unfold Producers.send_assign. destruct (Producers.pr_inner _ !! p); [destruct io|]; cbn; by rewrite ?app_nil_r.
  - unfold waiting_of. destruct (send_done_fields c (Ok tt)
      (on_metrics (record_assign_tick now p (pc_consumer_id c) "busy" "awaiting_batch") m)) as (_ & _ & ->). done.
Qed.

Lemma producer_step_balance t m : in_hand t = [] -> balanced t m (producer_step t m).
Proof.
  intros Hh. destruct t; cbn -[push_request] in *; rewrite ?Hh, ?app_nil_r; try done.
  - destruct (Producers.state_of p (ma_producers m)) as [[]|]; cbn; by rewrite ?app_nil_r.
  - destruct known; cbn; by rewrite ?app_nil_r.
  - unfold Producers.take_pending_consumer. destruct (Producers.pr_inner (ma_producers m) !! p) as [en|];
      [destruct (Producers.pe_pending_consumer_id en)|]; cbn; by rewrite ?app_nil_r.
  - destruct (Consumers.state_of cid (ma_consumers m)) as [st|]; [destruct (_ || _)|]; cbn; by rewrite ?app_nil_r.
  - destruct (Consumers.match_context cid (ma_consumers m)) as [[ready addr]|]; cbn; by rewrite ?app_nil_r.
  - pose proof (push_request_balance
      {| pc_consumer_id := cid; pc_ready := ready; pc_data_addr := data_addr; pc_done := None |} m) as H.
    destruct (push_request _ m) as [m' log]. exact H.
Qed.

Lemma drop_waiting_balance cid m :
  Permutation (waiting_of m)
    (waiting_of (drop_waiting cid m) ++
     match list_find (fun p => pc_consumer_id p = cid) (waiting_of m) with Some (_, p) => [p] | None => [] end).
Proof.
  unfold drop_waiting, waiting_of. destruct (list_find _ _) as [[pos p]|] eqn:Hf; [|by rewrite app_nil_r].
  apply list_find_Some in Hf as (Hpos & _).
  destruct (send_done_fields p (Err "consumer disconnected"%string) (on_inner (on_waiting (swap_remove pos)) m))
    as (_ & _ & ->). cbn. rewrite (swap_remove_perm _ _ _ Hpos) at 1. solve_Permutation.
Qed.

Lemma consumer_step_balance t m : in_hand t = [] -> balanced t m (consumer_step t m).
Proof.
  intros Hh. destruct t;
    cbn -[push_request Producers.clear_assignments_to_consumer Producers.sync_matcher_ready_state Nat.ltb] in *;
    rewrite ?Hh, ?app_nil_r; try done.
  - pose proof (push_request_balance c m) as H. destruct (push_request c m) as [m' log]. exact H.
  - pose proof (drop_waiting_balance cid m) as H. fold (waiting_of m).
    destruct (list_find _ (waiting_of m)) as [[pos p]|]; cbn in *; by rewrite ?app_nil_r in *.
  - destruct (Producers.clear_assignments_to_consumer _ _) as [cleared r]. destruct (0 <? cleared)%nat; cbn; by rewrite ?app_nil_r.
  - destruct (Producers.sync_matcher_ready_state _ _) as [[add rem] r]. cbn. by rewrite ?app_nil_r.
Qed.

Lemma settle_task_hand now p cid report ok message : in_hand (settle_task now p cid report ok message) = [].
Proof. unfold settle_task. destruct (0 <? cid); [by destruct ok|done]. Qed.

Lemma handler_step_balance now t m : in_hand t = [] -> balanced t m (handler_step now t m).
Proof.
  intros Hh. destruct t;
    cbn -[settle_task Producers.take_pending_consumer Producers.record_heartbeat Z.eqb Z.ltb waiting_count] in *;
    rewrite ?Hh, ?app_nil_r, ?settle_task_hand, ?app_nil_r; try done.
  - destruct (Producers.take_pending_consumer _ _) as [pending r].
    destruct (default 0 pending =? 0); cbn -[settle_task]; by rewrite ?settle_task_hand, ?app_nil_r.
  - destruct ok; cbn; by rewrite ?app_nil_r.
  - destruct (Producers.record_heartbeat _ _ _ _) as [[] r]; cbn; by rewrite ?app_nil_r.
  - destruct (Producers.state_of _ _) as [[]|]; cbn; by rewrite ?app_nil_r.
  - destruct (0 <? waiting_count m); cbn; by rewrite ?app_nil_r.
  - destruct (waiting_count m =? 0); cbn; by rewrite ?app_nil_r.
Qed.

Lemma task_step_balance now io t m : balanced t m (task_step now io t m).
Proof.
  revert m. induction t as [ | | | | | | | | | | | | | | | | | | | | | | | | | | | | | | | | | | | | |q|t IH k _]; intros m;
    try first [by apply match_step_balance | by apply producer_step_balance | by apply consumer_step_balance
              | by apply handler_step_balance].
  - destruct q as [f]. cbn [task_step]. destruct (f (ma_consumers m)) as [r [q|]]; cbn; by rewrite ?app_nil_r.
  - specialize (IH m). cbn [task_step]. destruct (task_step now io t m) as [[m' t'] log]. cbn in *.
    rewrite <- !app_assoc. transitivity ((waiting_of m ++ in_hand t ++ concat (map asked_of log)) ++ in_hand k);
      [solve_Permutation|]. rewrite IH. destruct t' as [t'|]; cbn; solve_Permutation.
Qed.

Lemma in_hands_at tasks i t :
  tasks !! i = Some t ->
  Permutation (concat (map in_hand tasks)) (in_hand t ++ concat (map in_hand (delete i tasks))).
Proof.
  revert i. induction tasks as [|u l IH]; intros [|i] H; cbn in *; simplify_eq; [done|].
  rewrite (IH i H). solve_Permutation.
Qed.

Lemma delete_after_insert {A} (l : list A) i x : delete i (<[i := x]> l) = delete i l.
Proof. revert i. induction l as [|y l IH]; intros [|i]; cbn; [done..|]. by rewrite IH. Qed.

Lemma in_hands_after tasks i t t' :
  tasks !! i = Some t ->
  Permutation (concat (map in_hand (match t' with Some t' => <[i := t']> tasks | None => delete i tasks end)))
    (task_hand t' ++ concat (map in_hand (delete i tasks))).
Proof.
  intros H. destruct t' as [t'|]; [|done].
  rewrite (in_hands_at (<[i := t']> tasks) i t') by (apply list_lookup_insert_eq; by eapply lookup_lt_Some).
  by rewrite delete_after_insert.
Qed.

Lemma requests_app f s log :
  concat (map f (sy_log s ++ log)) = requests f s ++ concat (map f log).
Proof. unfold requests. by rewrite map_app, concat_app. Qed.

Lemma accounted_step s s' : accounted s -> il_step s s' -> accounted s'.
Proof.
  intros Hacc Hstep.
  destruct Hstep as [s i t now io m' t' log Ht Heq|s i cand cand' rr Ht Hp|s c| | | | |]; try exact Hacc.
  - pose proof (task_step_balance now io t (sy_master s)) as Hb. rewrite Heq in Hb. cbn in Hb.
    unfold accounted, in_hands, requests in *. cbn [sy_log sy_master sy_tasks].
    rewrite (in_hands_after _ _ _ t' Ht), !map_app, !concat_app.
    rewrite (in_hands_at _ _ _ Ht) in Hacc. fold (waiting_of m'). fold (waiting_of (sy_master s)) in Hacc.
    rewrite Hacc. set (H := concat (map in_hand (delete i (sy_tasks s)))).
    transitivity ((waiting_of (sy_master s) ++ in_hand t ++ concat (map asked_of log)) ++
                  H ++ concat (map sent_of (sy_log s)) ++ concat (map gone_of (sy_log s))); [solve_Permutation|].
    rewrite Hb. solve_Permutation.
  - unfold accounted, in_hands in *. cbn [sy_log sy_master sy_tasks].
    pose proof (in_hands_after _ _ _ (Some (Rank cand' rr)) Ht) as H1. cbn in H1. rewrite H1.
    rewrite (in_hands_at _ _ _ Ht) in Hacc. exact Hacc.
  - unfold accounted, in_hands in *. cbn [sy_log sy_master sy_tasks]. rewrite map_app, concat_app. cbn.
    assert (in_hand (entry c) = []) as -> by (by destruct c). cbn. by rewrite app_nil_r.
Qed.

(** ** The producer registry under interleaving *)

(** A step uses the registry at most once, by one of its operations. *)
Definition registry_used (m : Master) (out : outcome) : Prop :=
  let '(m', _, _) := out in
  ma_producers m' = ma_producers m \/ Producers.registry_step (ma_producers m) (ma_producers m').

Ltac uses := cbn; first [by left | right; constructor].

Lemma match_step_registry now io t m : registry_used m (match_step now io t m).
Proof.
  destruct t; cbn -[take_next_waiting_inner encode_assign Producers.rank_ready_candidates Producers.send_assign];
    try uses.
  - destruct (_ || _); uses.
  - pose proof (Producers.rs_rank candidates rr (ma_producers m)) as H.
    destruct (Producers.rank_ready_candidates _ _ _) as [[[best stale] rr'] r]. right. exact H.
  - destruct best as [p|]; [|uses].
    match goal with |- context [take_next_waiting_inner ?i] => destruct (take_next_waiting_inner i) as [[c|] i'] end; uses.
  - destruct (encode_assign _) as [frame|]; [|uses].
    pose proof (Producers.rs_send_assign io p frame (ma_producers m)) as H.
    destruct (Producers.send_assign io p frame (ma_producers m)) as [[]]; right; exact H.
  - left. destruct (send_done_fields c (Ok tt)
      (on_metrics (record_assign_tick now p (pc_consumer_id c) "busy" "awaiting_batch") m)) as (-> & _ & _). done.
Qed.

Lemma producer_step_registry t m : registry_used m (producer_step t m).
Proof.
  destruct t; cbn -[Producers.take_pending_consumer Producers.clear_stale_busy]; try uses.
  - destruct (Producers.state_of p (ma_producers m)) as [[]|]; uses.
  - pose proof (Producers.rs_take_pending p (ma_producers m)) as H.
    destruct (Producers.take_pending_consumer p (ma_producers m)) as [cid r]. right. exact H.
Qed.

Lemma consumer_step_registry t m : registry_used m (consumer_step t m).
Proof.
  destruct t; cbn -[Producers.clear_assignments_to_consumer Producers.sync_matcher_ready_state Nat.ltb]; try uses.
  - unfold drop_waiting. left. destruct (list_find _ _) as [[pos p]|]; [|done].
    by destruct (send_done_fields p (Err "consumer disconnected"%string) (on_inner (on_waiting (swap_remove pos)) m))
      as (-> & _ & _).
  - pose proof (Producers.rs_clear_assignments cid (ma_producers m)) as H.
    destruct (Producers.clear_assignments_to_consumer cid _) as [n r]. destruct (0 <? n)%nat; right; exact H.
  - pose proof (Producers.rs_sync current (ma_producers m)) as H.
    destruct (Producers.sync_matcher_ready_state current _) as [[add rem] r]. right. exact H.
Qed.

Lemma handler_step_registry now t m : registry_used m (handler_step now t m).
Proof.
  destruct t; cbn -[settle_task Producers.take_pending_consumer Producers.record_heartbeat waiting_count]; try uses.
  - pose proof (Producers.rs_take_pending p (ma_producers m)) as H.
    destruct (Producers.take_pending_consumer p (ma_producers m)) as [cid r]. right. exact H.
  - right. destruct ok; constructor.
  - pose proof (Producers.rs_heartbeat now p hb (ma_producers m)) as H.
    destruct (Producers.record_heartbeat now p hb (ma_producers m)) as [rematch r]. right. exact H.
  - destruct (Producers.state_of _ _) as [[]|]; uses.
  - destruct (0 <? waiting_count m); uses.
  - destruct (waiting_count m =? 0); uses.
Qed.

Lemma task_step_registry now io t m : registry_used m (task_step now io t m).
Proof.
  revert m. induction t as [ | | | | | | | | | | | | | | | | | | | | | | | | | | | | | | | | | | | | |q|t IH k _]; intros m;
    try first [apply match_step_registry | apply producer_step_registry | apply consumer_step_registry
              | apply handler_step_registry].
  - destruct q as [f]. cbn [task_step]. destruct (f (ma_consumers m)) as [r q]. by left.
  - specialize (IH m). cbn [task_step]. by destruct (task_step now io t m) as [[m' t'] log].
Qed.

Lemma il_step_registry s s' :
  il_step s s' -> Producers.registry_ok (ma_producers (sy_master s)) ->
  Producers.registry_ok (ma_producers (sy_master s')).
Proof.
  intros Hstep Hok. destruct Hstep as [s i t now io m' t' log Ht Heq| | |s addr now Hn| |s secs now| |]; try exact Hok.
  - pose proof (task_step_registry now io t (sy_master s)) as H. rewrite Heq in H. cbn in *.
    destruct H as [->|H]; [done|]. by eapply Producers.registry_step_ok.
  - eapply Producers.registry_step_ok; [exact Hok|by apply Producers.rs_register].
  - eapply Producers.registry_step_ok; [exact Hok|apply Producers.rs_list].
Qed.

Lemma script_star now acts s s' : script now acts s = Some s' -> star il_step s s'.
Proof.
  revert s. induction acts as [|a acts IH]; intros s; cbn [script]; [intros [= <-]; constructor|].
  destruct (act now a s) as [t|] eqn:Ha; [|done]. intros Hrun. apply star_step with t; [|by apply IH].
  destruct a as [i io|c|addr|addr data]; cbn [act] in Ha.
  - destruct (sy_tasks s !! i) as [t0|] eqn:Ht; [|done].
    destruct (task_step now io t0 (sy_master s)) as [[m' t'] log] eqn:Hstep. simplify_eq. by econstructor.
  - simplify_eq. apply il_call.
  - destruct (Z.ltb_spec (Producers.pr_next_id (ma_producers (sy_master s))) (umax 64)); [|done].
    simplify_eq. by apply il_producer.
  - destruct (Z.ltb_spec (Consumers.cr_next_id (ma_consumers (sy_master s))) (umax 64)); [|done].
    simplify_eq. by apply il_consumer.
Qed.

(** ** Properties *)

(** C7: no request is lost or answered twice, whatever the interleaving.  With any
    number of tasks, each stopped after any of its critical sections, every CRDY that
    was queued is in the queue, in the hands of one task, sent to exactly one
    producer, or gone for one of three reasons (replaced by a newer one of the same
    consumer, cancelled with its connection, impossible to encode). *)
Theorem requests_accounted now s :
  star il_step (boot now) s -> accounted s /\ requests sent_of s ⊆+ requests asked_of s.
Proof.
  intros Hr. assert (Hacc : accounted s).
  { eapply star_invariant; [apply accounted_step|exact Hr|]. unfold accounted. reflexivity. }
  split; [done|]. unfold accounted in Hacc. rewrite Hacc.
  by apply submseteq_inserts_l, submseteq_inserts_l, submseteq_inserts_r.
Qed.

(** The producer counters survive every interleaving. *)
Theorem counters_interleaved now s :
  star il_step (boot now) s -> Z.of_nat (size (Producers.pr_inner (ma_producers (sy_master s)))) <= umax 64 ->
  Producers.ready_count (ma_producers (sy_master s))
    = Producers.count Producers.Ready (Producers.pr_inner (ma_producers (sy_master s))) /\
  Producers.busy_count (ma_producers (sy_master s))
    = Producers.count Producers.Busy (Producers.pr_inner (ma_producers (sy_master s))).
Proof.
  intros Hr. apply Producers.registry_counters.
  eapply (star_invariant il_step (fun s => Producers.registry_ok (ma_producers (sy_master s)))); [|exact Hr|apply Producers.new_ok].
  intros a b Ha Hs. by eapply il_step_registry.
Qed.

(** C36: the reconciliation of the pool can undo a pick.  Between the section of
    [try_match] that takes a producer out of the pool and the one that marks it busy,
    [sync_ready_pool] still finds it ready and puts it back: a second task gives it
    another consumer.  The producer has two ASGN frames and not reported on either;
    the master holds it busy for the one marked last, and the other consumer is
    neither waiting nor assigned to anyone. *)
Theorem double_assignment_race :
  exists s frame1 frame2,
    star il_step (boot 0) s /\ sy_tasks s = [] /\
    encode_assign (assign_of (request 1 8)) = Ok frame1 /\ encode_assign (assign_of (request 2 8)) = Ok frame2 /\
    frames 1 (sy_master s) = Some [frame2; frame1] /\
    (Producers.pe_pending_consumer_id <$> producer_entry 1 (sy_master s)) = Some (Some 1) /\
    Consumers.assigned 2 (ma_consumers (sy_master s)) = None /\ mi_waiting (ma_inner (sy_master s)) = [].
Proof.
  do 3 eexists. split; [apply (script_star 0 double_script); vm_compute; reflexivity|].
  split_and!; vm_compute; reflexivity.
Qed.

(** The put-back of a request can duplicate a consumer.  [push_waiting] keeps one
    request per consumer; the request put back after a failed write is pushed without
    it, behind the newer one of the same consumer.  Two producers end up owing a
    batch to one consumer, for two requests of which it made the second to replace
    the first. *)
Theorem put_back_duplicates :
  exists s,
    star il_step (boot 0) s /\ sy_tasks s = [] /\
    (Producers.pe_pending_consumer_id <$> producer_entry 2 (sy_master s)) = Some (Some 1) /\
    (Producers.pe_pending_consumer_id <$> producer_entry 3 (sy_master s)) = Some (Some 1) /\
    (exists f, frames 2 (sy_master s) = Some [f] /\ encode_assign (assign_of (request 1 9)) = Ok f) /\
    (exists f, frames 3 (sy_master s) = Some [f] /\ encode_assign (assign_of (request 1 8)) = Ok f).
Proof.
  eexists. split; [apply (script_star 0 twice_script); vm_compute; reflexivity|].
  split_and!; [vm_compute; reflexivity..| |]; eexists; split; vm_compute; reflexivity.
Qed.

(** A report can overtake the mark of its own assignment.  [try_match] writes the
    ASGN first and marks the producer in a later section; when the DELV is handled in
    between, it finds no assignment, so the batch is counted for no consumer and in no
    total, and the late mark then leaves the producer busy, and the consumer awaiting,
    for a batch that was delivered. *)
Theorem early_report_uncounted :
  exists s,
    star il_step (boot 0) s /\ sy_tasks s = [] /\ requests sent_of s = [request 1 8] /\
    (Producers.pe_rate_msgs <$> producer_entry 1 (sy_master s)) = Some 5 /\
    me_transfers_total (ma_metrics (sy_master s)) = 0 /\
    Producers.state_of 1 (ma_producers (sy_master s)) = Some Producers.Busy /\
    (Producers.pe_pending_consumer_id <$> producer_entry 1 (sy_master s)) = Some (Some 1) /\
    Consumers.assigned 1 (ma_consumers (sy_master s)) = Some 1.
Proof.
  eexists. split; [apply (script_star 0 early_script); vm_compute; reflexivity|].
  split_and!; vm_compute; reflexivity.
Qed.

(** C37: the index by producer can outlive its assignment.  [mark_awaiting_batch] enters
    the index in a second section; when the batch is reported, and its consumer
    assigned to another producer, in between, the index keeps the consumer under the
    first.  The first producer's next ASGN then releases that consumer from the
    second, and when the second leaves, the consumer's request is not queued again: it
    is connected, idle, assigned to nobody and waits for nothing. *)
Theorem stale_index_strands :
  exists s,
    star il_step (boot 0) s /\ sy_tasks s = [] /\
    requests sent_of s = [request 1 8; request 1 8; request 2 8] /\
    producer_entry 2 (sy_master s) = None /\
    Consumers.state_of 1 (ma_consumers (sy_master s)) = Some "idle"%string /\
    Consumers.assigned 1 (ma_consumers (sy_master s)) = None /\
    mi_waiting (ma_inner (sy_master s)) = [].
Proof.
  eexists. split; [apply (script_star 0 stale_script); vm_compute; reflexivity|].
  split_and!; vm_compute; reflexivity.
Qed.

Lemma requests_accounted_witness :
  star il_step (boot 0) double_end /\
  accounted double_end /\ requests sent_of double_end ⊆+ requests asked_of double_end.
Proof.
  assert (H : star il_step (boot 0) double_end) by (apply (script_star 0 double_script); vm_compute; reflexivity).
  split; [exact H|]. apply (requests_accounted 0 double_end H).
Defined.

Lemma counters_interleaved_witness :
  Producers.ready_count (ma_producers (sy_master double_end))
    = Producers.count Producers.Ready (Producers.pr_inner (ma_producers (sy_master double_end))) /\
  Producers.busy_count (ma_producers (sy_master double_end))
    = Producers.count Producers.Busy (Producers.pr_inner (ma_producers (sy_master double_end))).
Proof.
  apply (counters_interleaved 0 double_end); [apply (script_star 0 double_script); vm_compute; reflexivity|].
  vm_compute. discriminate.
Defined.
