(* ===== verification/Relay.v ===== *)
(** * The master as a whole ([run] of [master/src/server.rs])

    The connections and the background tasks on the shared state.  [relay_step]
    interleaves their turns in any order; a turn runs to its end, so an interleaving
    here is one of whole turns; [Interleaving.v] takes the handlers and methods apart,
    to the gaps between their critical sections, and shows what changes there.  The
    bytes a peer will send are chosen when it connects; a turn that needs more than
    the peer sends is the end of its connection. *)

From S2P Require Import Prelude Protocol Metrics Matchmaker Server.
From S2P Require Producers Consumers.

(** ** The whole master *)

Record Relay := { ry_state : RelayState; ry_conns : gmap nat Conn }.

Definition initial (now_ms : Z) (cfg : RelayConfig) : Relay :=
  {| ry_state := initial_state now_ms cfg; ry_conns := ∅ |}.

Definition on_state (f : RelayState -> RelayState) (r : Relay) : Relay :=
  {| r with ry_state := f (ry_state r) |}.

Definition new_conn (addr : string) (input : list byte) : Conn :=
  {| cn_addr := addr; cn_phase := Accepted; cn_input := input; cn_written := [] |}.

(** The turn of the connection [k]. *)
Definition turn (e : env) (k : nat) (r : Relay) : Relay :=
  match ry_conns r !! k with
  | None => r
  | Some c =>
    let '(m, c) := conn_turn e (rs_master (ry_state r)) c in
    {| ry_state := on_master (fun _ => m) (ry_state r); ry_conns := <[k := c]> (ry_conns r) |}
  end.

Inductive relay_step : Relay -> Relay -> Prop :=
| rs_accept k addr input r : ry_conns r !! k = None ->
    relay_step r {| r with ry_conns := <[k := new_conn addr input]> (ry_conns r) |}
| rs_turn e k r : ids_left (rs_master (ry_state r)) -> relay_step r (turn e k r)
| rs_match e r : relay_step r (on_state (on_master (run_match_loop_turn e)) r)
| rs_sample e r : relay_step r (on_state (run_history_sampler_turn e) r)
| rs_get_metrics e r : relay_step r (on_state (fun st => (metrics_handler e st).2) r)
| rs_get_ticks r : relay_step r (on_state (fun st => (ticks_handler st).2) r).


(** ** The invariant *)

(** The table entry a connection answers for, until its guard's task has run. *)
Definition consumer_of (c : Conn) : option Z :=
  match cn_phase c with ConsumerLoop id _ | ConsumerDrop id => Some id | _ => None end.

Definition producer_of (c : Conn) : option Z :=
  match cn_phase c with
  | ProducerFrame id _ | ProducerLoop id | ProducerDrop id => Some id
  | _ => None
  end.

(** The ids in [P] are those the connections answer for, each of them once. *)
Record owned (owner : Conn -> option Z) (P : Z -> Prop) (conns : gmap nat Conn) : Prop :=
  { ow_ids : forall j, P j <-> exists k c, conns !! k = Some c /\ owner c = Some j;
    ow_once : forall k1 k2 c1 c2 j, conns !! k1 = Some c1 -> conns !! k2 = Some c2 ->
      owner c1 = Some j -> owner c2 = Some j -> k1 = k2 }.

(** The data address of a session came from the wire. *)
Definition session_ok (c : Conn) : Prop :=
  match cn_phase c with ConsumerLoop _ addr => wire_len 1 addr | _ => True end.

Record relay_ok (r : Relay) : Prop :=
  { ro_master : master_ok (rs_master (ry_state r));
    ro_consumers : owned consumer_of (connected (rs_master (ry_state r))) (ry_conns r);
    ro_producers : owned producer_of (present (rs_master (ry_state r))) (ry_conns r);
    ro_pool : pool_present (rs_master (ry_state r));
    ro_sessions : map_Forall (fun _ => session_ok) (ry_conns r) }.

(** How one turn may move the table of ids and the connection's own. *)
Inductive tracks : option Z -> option Z -> (Z -> Prop) -> (Z -> Prop) -> Prop :=
| tr_same o (P P' : Z -> Prop) : (forall j, P' j <-> P j) -> tracks o o P P'
| tr_new id (P P' : Z -> Prop) : ~ P id -> (forall j, P' j <-> j = id \/ P j) -> tracks None (Some id) P P'
| tr_gone id (P P' : Z -> Prop) : (forall j, P' j <-> j <> id /\ P j) -> tracks (Some id) None P P'.

(** ** Lemmas *)

Lemma owned_ext owner (P P' : Z -> Prop) conns :
  (forall j, P' j <-> P j) -> owned owner P conns -> owned owner P' conns.
Proof. intros HP [H1 H2]. constructor; [intros j; by rewrite HP|done]. Qed.

Lemma owned_turn owner P P' conns k c c' :
  owned owner P conns -> conns !! k = Some c -> tracks (owner c) (owner c') P P' ->
  owned owner P' (<[k := c']> conns).
Proof.
  intros [H1 H2] Hk Ht. assert (Hlook : forall k0 c0, <[k := c']> conns !! k0 = Some c0 ->
    (k0 = k /\ c0 = c') \/ (k0 <> k /\ conns !! k0 = Some c0)).
  { intros k0 c0 [[<- <-]|[? ?]]%lookup_insert_Some; [by left|right]. done. }
  assert (Hother : forall k0 c0, k0 <> k -> conns !! k0 = Some c0 -> <[k := c']> conns !! k0 = Some c0)
    by (intros; by rewrite lookup_insert_ne).
  assert (Hnew : <[k := c']> conns !! k = Some c') by apply lookup_insert_eq.
  remember (owner c) as o eqn:Ho. remember (owner c') as o' eqn:Ho'.
  destruct Ht as [o P P' HP|id P P' Hn HP|id P P' HP].
  - constructor.
    + intros j. rewrite HP, H1. split; intros (k0 & c0 & Hk0 & Hj).
      * destruct (decide (k0 = k)) as [->|Hne]; [|exists k0, c0; auto].
        exists k, c'. split; [done|]. congruence.
      * apply Hlook in Hk0 as [[-> ->]|[_ ?]]; [|by exists k0, c0]. exists k, c. split; [done|]. congruence.
    + intros k1 k2 c1 c2 j Hc1 Hc2 Ho1 Ho2.
      apply Hlook in Hc1 as [[-> ->]|[Hn1 Hc1]], Hc2 as [[-> ->]|[Hn2 Hc2]]; [done|..].
      * apply (H2 k k2 c c2 j); congruence.
      * apply (H2 k1 k c1 c j); congruence.
      * by apply (H2 k1 k2 c1 c2 j).
  - assert (Hid : forall k0 c0, conns !! k0 = Some c0 -> owner c0 <> Some id)
      by (intros k0 c0 Hk0 Hc0; apply Hn, H1; eauto).
    constructor.
    + intros j. rewrite HP, H1. split.
      * intros [->|(k0 & c0 & Hk0 & Hj)]; [by exists k, c'|].
        exists k0, c0. split; [|done]. apply Hother; [|done]. intros ->. congruence.
      * intros (k0 & c0 & Hk0 & Hj). apply Hlook in Hk0 as [[-> ->]|[_ ?]]; [left; congruence|right; eauto].
    + intros k1 k2 c1 c2 j Hc1 Hc2 Ho1 Ho2.
      apply Hlook in Hc1 as [[-> ->]|[Hn1 Hc1]], Hc2 as [[-> ->]|[Hn2 Hc2]]; [done|..].
      * destruct (Hid _ _ Hc2). congruence.
      * destruct (Hid _ _ Hc1). congruence.
      * by apply (H2 k1 k2 c1 c2 j).
  - constructor.
    + intros j. rewrite HP, H1. split.
      * intros (Hj & k0 & c0 & Hk0 & Hc0). exists k0, c0. split; [|done]. apply Hother; [|done].
        intros ->. congruence.
      * intros (k0 & c0 & Hk0 & Hj). apply Hlook in Hk0 as [[-> ->]|[Hne Hk0]]; [congruence|].
        split; [|eauto]. intros ->. apply Hne. by apply (H2 k0 k c0 c id).
    + intros k1 k2 c1 c2 j Hc1 Hc2 Ho1 Ho2.
      apply Hlook in Hc1 as [[-> ->]|[Hn1 Hc1]], Hc2 as [[-> ->]|[Hn2 Hc2]]; [done|congruence..|].
      by apply (H2 k1 k2 c1 c2 j).
Qed.

Lemma owned_accept owner P conns k c :
  owned owner P conns -> conns !! k = None -> owner c = None -> owned owner P (<[k := c]> conns).
Proof.
  intros [H1 H2] Hk Hc. constructor.
  - intros j. rewrite H1. split; intros (k0 & c0 & Hk0 & Hj); exists k0, c0; split; try done.
    + rewrite lookup_insert_ne; [done|]. intros ->. congruence.
    + apply lookup_insert_Some in Hk0 as [[<- <-]|[_ ?]]; [congruence|done].
  - intros k1 k2 c1 c2 j. rewrite !lookup_insert_Some.
    intros [[<- <-]|[_ ?]] [[<- <-]|[_ ?]] ? ?; [done|congruence|congruence|]. by apply (H2 k1 k2 c1 c2 j).
Qed.

(** A fresh id is in no table. *)
Lemma register_consumer_tracks addr data now m :
  master_ok m -> ids_left m ->
  let r := Consumers.register addr data now (ma_consumers m) in
  ~ connected m r.1 /\ forall j, is_Some (Consumers.cr_inner r.2 !! j) <-> j = r.1 \/ connected m j.
Proof.
  intros Hok [_ Hids]. cbv zeta. unfold Consumers.register. cbn [fst snd Consumers.cr_inner]. split.
  - intros Hc. pose proof (Consumers.co_ids _ (mo_consumers _ Hok) _ Hc). lia.
  - intros j. rewrite lookup_insert_is_Some. unfold connected.
    destruct (decide (Consumers.cr_next_id (ma_consumers m) = j)); naive_solver.
Qed.

Lemma register_producer_tracks addr now m :
  master_ok m -> ids_left m ->
  let r := Producers.register addr now (ma_producers m) in
  ~ present m r.1 /\ forall j, is_Some (Producers.pr_inner r.2 !! j) <-> j = r.1 \/ present m j.
Proof.
  intros Hok [Hids _]. cbv zeta. unfold Producers.register. cbn [fst snd Producers.pr_inner]. split.
  - intros Hc. pose proof (Producers.ro_ids _ (mo_registry _ Hok) _ Hc). lia.
  - intros j. rewrite lookup_insert_is_Some. unfold present.
    destruct (decide (Producers.pr_next_id (ma_producers m) = j)); naive_solver.
Qed.

(** What a turn keeps. *)
Record turned (m m' : Master) (c c' : Conn) : Prop :=
  { tu_ok : master_ok m';
    tu_consumers : tracks (consumer_of c) (consumer_of c') (connected m) (connected m');
    tu_producers : tracks (producer_of c) (producer_of c') (present m) (present m');
    tu_pool : pool_present m -> pool_present m';
    tu_session : session_ok c' }.

Lemma turned_idle m c c' :
  master_ok m -> consumer_of c' = consumer_of c -> producer_of c' = producer_of c -> session_ok c' ->
  turned m m c c'.
Proof. intros Hok Hc Hp Hs. constructor; [done|rewrite Hc; by constructor|rewrite Hp; by constructor|done|done]. Qed.

Lemma turned_same m m' c c' :
  master_ok m' -> same_producers m m' -> consumer_of c' = consumer_of c -> producer_of c' = producer_of c ->
  session_ok c' -> turned m m' c c'.
Proof. intros Hok [H1 H2 H3] Hc Hp Hs. constructor; [done|rewrite Hc; by constructor|rewrite Hp; by constructor|done|done]. Qed.

Lemma handle_control_turned e m c m' c' :
  master_ok m -> ids_left m -> consumer_of c = None -> producer_of c = None ->
  handle_control e m c = (m', c') -> turned m m' c c'.
Proof.
  intros Hok Hids Hc Hp. unfold handle_control.
  destruct (read_exact 4 (cn_input c)) as [[magic input]|err];
    [|intros [= <- <-]; apply turned_idle; cbn; congruence || done].
  destruct (bytes_eqb magic MAGIC_REGISTER).
  - destruct (read_register_payload input) as [[addr rest]|err] eqn:Hread;
      [|intros [= <- <-]; apply turned_idle; cbn; congruence || done].
    apply read_register_len in Hread.
    pose proof (register_consumer_ok (cn_addr c) addr (unix_secs e) m Hok Hread Hids) as Hreg.
    destruct (register_consumer_tracks (cn_addr c) addr (unix_secs e) m Hok Hids) as [Hfresh Htr].
    destruct (Consumers.register _ _ _ _) as [id r]. cbn [fst snd] in *. intros [= <- <-].
    constructor; [done| | |done|done].
    + rewrite Hc. by constructor.
    + rewrite Hp. by constructor.
  - destruct (is_producer_magic magic); [|intros [= <- <-]; apply turned_idle; cbn; congruence || done].
    pose proof (register_producer_ok (cn_addr c) (unix_secs e) m Hok Hids) as Hreg.
    destruct (register_producer_tracks (cn_addr c) (unix_secs e) m Hok Hids) as [Hfresh Htr].
    destruct (Producers.register _ _ _) as [id r]. cbn [fst snd] in *. intros [= <- <-].
    constructor; [done| | | |done].
    + rewrite Hc. by constructor.
    + rewrite Hp. by constructor.
    + intros Hpool q Hq. apply Htr. right. by apply Hpool.
Qed.

Lemma handle_consumer_turned e id addr m c m' c' :
  master_ok m -> connected m id -> cn_phase c = ConsumerLoop id addr -> wire_len 1 addr ->
  handle_consumer e id addr m c = (m', c') -> turned m m' c c'.
Proof.
  intros Hok Hconn Hph Haddr. unfold handle_consumer.
  destruct (read_consumer_ready_request (cn_input c)) as [[ready input]|err] eqn:Hread; intros [= <- <-].
  - apply read_ready_len in Hread.
    pose proof (queued_ok e id ready addr m Hok Hconn Hread Haddr) as Hq. fold (queued e id ready addr m).
    apply turned_same; [by apply try_match_ok| |unfold consumer_of; by rewrite Hph|unfold producer_of; by rewrite Hph|exact Haddr].
    apply same_producers_try; [done|]. constructor; [done|intros j; apply queued_connected|done].
  - apply turned_idle; [done|unfold consumer_of; by rewrite Hph|unfold producer_of; by rewrite Hph|done].
Qed.

Lemma conn_turn_spec e m c m' c' :
  master_ok m -> ids_left m -> pool_present m -> session_ok c ->
  (forall id, consumer_of c = Some id -> connected m id) ->
  (forall p, producer_of c = Some p -> present m p) ->
  conn_turn e m c = (m', c') -> turned m m' c c'.
Proof.
  intros Hok Hids Hpool Hs Hco Hpr. unfold conn_turn, session_ok, consumer_of, producer_of in *.
  destruct (cn_phase c) as [|p magic|p|id addr|p|id|] eqn:Hph.
  - intros Ht. apply (handle_control_turned e m); try done; unfold consumer_of, producer_of; by rewrite Hph.
  - specialize (Hpr p eq_refl).
    pose proof (process_producer_magic_ok e p magic (cn_input c) m Hok) as Hok1.
    pose proof (process_producer_magic_same e p magic (cn_input c) m Hok Hpr) as Hsame.
    destruct (process_producer_magic _ _ _ _ _) as [m1 [input|err]]; cbn [fst] in *; intros [= <- <-];
      (apply turned_same; [done|done|unfold consumer_of; by rewrite Hph|unfold producer_of; by rewrite Hph|done]).
  - destruct (read_exact 4 (cn_input c)) as [[magic input]|err]; intros [= <- <-];
      (apply turned_idle; [done|unfold consumer_of; by rewrite Hph|unfold producer_of; by rewrite Hph|done]).
  - intros Ht. apply (handle_consumer_turned e id addr m c); try done. by apply Hco.
  - intros [= <- <-]. destruct (on_producer_disconnect_same e p m Hok) as (H1 & H2 & H3).
    constructor; [by apply on_producer_disconnect_ok| | |done|done]; unfold consumer_of, producer_of; rewrite Hph; by constructor.
  - intros [= <- <-]. destruct (drop_consumer_session_spec e id m Hok) as (H1 & _ & H2 & H3 & _).
    destruct (drop_consumer_session_same e id m Hok) as (H4 & H5).
    constructor; [done| | |done|done]; unfold consumer_of, producer_of; rewrite Hph; constructor; [|done].
    intros j. destruct (decide (j = id)) as [->|Hj]; [tauto|]. rewrite H3 by done. tauto.
  - intros [= <- <-]. apply turned_idle; [done|done|done|]. unfold session_ok. by rewrite Hph.
Qed.

(** A change of the state that moves no id. *)
Lemma relay_ok_state r st' :
  relay_ok r -> master_ok (rs_master st') -> same_producers (rs_master (ry_state r)) (rs_master st') ->
  relay_ok {| r with ry_state := st' |}.
Proof.
  intros [H1 H2 H3 H4 H5] Hok [Hp Hc Hpool].
  constructor; cbn [ry_state ry_conns]; [done|by eapply owned_ext|by eapply owned_ext|by apply Hpool|done].
Qed.

Lemma take_snapshot_same e rates m : same_producers m (take_snapshot e rates m).2.
Proof.
  destruct (take_snapshot_spec e rates m) as (_ & Hc & Hi & Hpn & _).
  assert (Hp : forall q, present (take_snapshot e rates m).2 q <-> present m q).
  { intros q. unfold take_snapshot, Metrics.snapshot. destruct rates as [[tps bps] yps].
    destruct (compute_backlog_growth_per_sec _ _ _) as [growth me].
    destruct (Consumers.list_with_capacity _ _ _ _) as [[pct rows] cr].
    unfold present. cbn. rewrite lookup_fmap. apply fmap_is_Some. }
  constructor; [done|done|]. intros Hm q. rewrite Hi, Hp. apply Hm.
Qed.

Lemma sampler_master e st :
  rs_master (run_history_sampler_turn e st) = (take_snapshot e (History.last_rates (rs_history st)) (rs_master st)).2.
Proof. unfold run_history_sampler_turn. by destruct (take_snapshot _ _ _). Qed.

Lemma metrics_master e st :
  rs_master (metrics_handler e st).2 = rs_master st \/
  rs_master (metrics_handler e st).2 = (take_snapshot e (History.last_rates (rs_history st)) (rs_master st)).2.
Proof.
  unfold metrics_handler. destruct (get st); [by left|right]. by destruct (take_snapshot _ _ _).
Qed.

Lemma turn_ok e k r : relay_ok r -> ids_left (rs_master (ry_state r)) -> relay_ok (turn e k r).
Proof.
  intros Hr Hids. unfold turn. destruct (ry_conns r !! k) as [c|] eqn:Hk; [|done].
  pose proof Hr as [H1 H2 H3 H4 H5]. destruct (conn_turn e _ c) as [m' c'] eqn:Ht.
  apply conn_turn_spec in Ht as [T1 T2 T3 T4 T5]; try done.
  - constructor; cbn [ry_state ry_conns on_master rs_master]; [done|by eapply owned_turn|by eapply owned_turn|by apply T4|].
    by apply map_Forall_insert_2.
  - by eapply H5.
  - intros id Hid. apply (ow_ids _ _ _ H2). by exists k, c.
  - intros p Hp. apply (ow_ids _ _ _ H3). by exists k, c.
Qed.

Lemma relay_step_ok r r' : relay_ok r -> relay_step r r' -> relay_ok r'.
Proof.
  intros Hr Hs. pose proof (ro_master _ Hr) as Hok. revert Hr Hok. destruct Hs; intros Hr Hok.
  - destruct Hr as [H1 H2 H3 H4 H5].
    constructor; cbn [ry_state ry_conns]; [done|by apply owned_accept|by apply owned_accept|done|].
    by apply map_Forall_insert_2.
  - by apply turn_ok.
  - apply relay_ok_state; [done|by apply run_match_loop_turn_ok|by apply run_match_loop_turn_same].
  - apply relay_ok_state; [done|rewrite sampler_master; by apply take_snapshot_spec|].
    rewrite sampler_master. apply take_snapshot_same.
  - apply relay_ok_state; [done| |]; destruct (metrics_master e (ry_state r)) as [->| ->]; try done.
    + by apply take_snapshot_spec.
    + apply take_snapshot_same.
  - assert (Hm : exists f, rs_master (ticks_handler (ry_state r)).2 = on_metrics f (rs_master (ry_state r))).
    { unfold ticks_handler. destruct (drain_ticks _) as [ticks me]. by exists (fun _ => me). }
    destruct Hm as [f Hm].
    apply relay_ok_state; [done| |]; rewrite Hm; [by apply metrics_ok_master|done].
Qed.

Lemma initial_ok now cfg : relay_ok (initial now cfg).
Proof.
  assert (Hnone : forall owner (P : Z -> Prop), (forall j, ~ P j) -> owned owner P ∅).
  { intros owner P HP. constructor; [|intros k1 k2 c1 c2 j; by rewrite lookup_empty].
    intros j. split; [by intros ?%HP|]. intros (k & c & Hk & _). by rewrite lookup_empty in Hk. }
  constructor; cbn.
  - apply master_intro; cbn.
    + apply Producers.new_ok.
    + intros p e. cbn. by rewrite lookup_empty.
    + apply Consumers.new_consumers_ok.
    + constructor.
    + intros c Hc. by apply not_elem_of_nil in Hc.
    + constructor.
    + apply Consumers.new_contexts.
  - apply Hnone. intros j [x Hx]. cbn in Hx. by rewrite lookup_empty in Hx.
  - apply Hnone. intros j [x Hx]. cbn in Hx. by rewrite lookup_empty in Hx.
  - intros p Hp. cbn in Hp. by apply elem_of_empty in Hp.
  - apply map_Forall_empty.
Qed.

(** ** Properties *)

(** C3: the invariant of the running master.  Whatever the connections send, in
    whatever order the turns of the handlers, the match loop, the sampler and the
    HTTP requests come, whatever writes fail: only busy producers owe a batch and
    none of them is in the ready pool, the queue holds each consumer at most once
    and without an outstanding ASGN, the assignments and their index agree, and
    the two tables hold exactly the entries of the live connections, each of them
    owned by one connection: nothing leaks and nothing is removed early. *)
Theorem relay_reachable_ok now cfg r : star relay_step (initial now cfg) r -> relay_ok r.
Proof. intros Hstar. eapply star_invariant; [apply relay_step_ok|exact Hstar|apply initial_ok]. Qed.

Definition demo_config : RelayConfig :=
  {| rc_control_addr := "0.0.0.0:7878"; rc_metrics_addr := "0.0.0.0:9090"; rc_history_interval_ms := 2000;
     rc_history_cap := 3600; rc_dashboard_dir := None |}.

(** A producer with backlog and a consumer connect, are matched, and the producer's
    connection ends. *)
Definition producer_bytes : list byte :=
  encode_heartbeat (Build_ProducerHeartbeat 0 0 5 100 0) ++ MAGIC_PRODUCER_READY.

Definition consumer_bytes : list byte :=
  MAGIC_REGISTER ++ to_le 2 3 ++ as_bytes "h:1" ++ MAGIC_CONSUMER_READY ++ to_le 2 8 ++ to_le 2 1 ++ as_bytes "t".

Definition tick_env (t : Z) : env := {| env_now := t; env_io := fun _ => Ok tt |}.

Definition accept (k : nat) (addr : string) (input : list byte) (r : Relay) : Relay :=
  {| r with ry_conns := <[k := new_conn addr input]> (ry_conns r) |}.

Definition demo_turns (ks : list nat) (r : Relay) : Relay := foldl (fun r k => turn (tick_env 1000) k r) r ks.

Definition demo_relay : Relay :=
  demo_turns [0; 1; 0; 1]%nat (accept 1 "c" consumer_bytes (accept 0 "p" producer_bytes (initial 0 demo_config))).

Definition ids_left_b (m : Master) : bool :=
  (Producers.pr_next_id (ma_producers m) <? umax 64) && (Consumers.cr_next_id (ma_consumers m) <? umax 64).

Lemma ids_left_true m : ids_left_b m = true -> ids_left m.
Proof. unfold ids_left_b, ids_left. rewrite andb_true_iff, !Z.ltb_lt. done. Qed.

(** A run of turns is a run of the relay as long as ids are left. *)
Lemma demo_turns_star ks r :
  forallb (fun n => ids_left_b (rs_master (ry_state (demo_turns (take n ks) r)))) (seq 0 (length ks)) = true ->
  star relay_step r (demo_turns ks r).
Proof.
  revert r. induction ks as [|k ks IH]; intros r; [constructor|].
  cbn [length seq forallb]. rewrite andb_true_iff. intros [H0 H1].
  eapply star_step; [apply (rs_turn (tick_env 1000) k); by apply ids_left_true|].
  change (demo_turns (k :: ks) r) with (demo_turns ks (turn (tick_env 1000) k r)). apply IH.
  apply forallb_forall. intros n Hn. apply in_seq in Hn.
  rewrite forallb_forall in H1. specialize (H1 (S n)). cbn [take] in H1. apply H1. apply in_seq. lia.
Qed.

Lemma relay_reachable_ok_witness :
  producer_entry 1 (rs_master (ry_state demo_relay)) ≫= Producers.pe_pending_consumer_id = Some 1 /\
  relay_ok (turn (tick_env 2000) 0 demo_relay).
Proof.
  split; [vm_compute; reflexivity|]. apply (relay_reachable_ok 0 demo_config).
  eapply star_step; [apply (rs_accept 0 "p" producer_bytes); reflexivity|].
  eapply star_step; [apply (rs_accept 1 "c" consumer_bytes); reflexivity|].
  eapply star_snoc; [apply (demo_turns_star [0; 1; 0; 1]%nat); vm_compute; reflexivity|].
  apply (rs_turn (tick_env 2000) 0). apply ids_left_true. vm_compute. reflexivity.
Defined.
