(* ===== verification/Turns.v ===== *)
(** * The runs of whole turns are interleavings

    [Relay.v] runs the master one turn of a connection at a time, [Interleaving.v] one
    critical section at a time.  Every run of the first is one of the second, in which
    no task is ever interrupted; what is proved of all interleavings holds of the
    relay. *)

From S2P Require Import Prelude Protocol Metrics Matchmaker Server Tasks Interleaving Relay.
From S2P Require Producers Consumers.

(** [s] is between two turns, with the master [m]. *)
Definition quiet (m : Master) (s : System) : Prop := sy_master s = m /\ sy_tasks s = [].

(** A task alone, as the last task of a system. *)
Lemma alone_star e a b :
  star (alone_step e) a b ->
  forall i t m j m' log, a = (i, Some t, m) -> b = (j, None, m') ->
  exists log', star il_step {| sy_master := m; sy_tasks := [t]; sy_log := log |}
                            {| sy_master := m'; sy_tasks := []; sy_log := log' |}.
Proof.
  induction 1 as [a|a a1 b Hs Hr IH]; intros i t m j m' log -> Hb; [done|].
  inversion Hs as [i0 t0 m0 m1 t1 l Hstep]; subst.
  pose proof (il_task {| sy_master := m; sy_tasks := [t]; sy_log := log |} 0 t (env_now e) (env_io e i) m1 t1 l eq_refl Hstep)
    as Hil. cbn in Hil. destruct t1 as [t1|].
  - destruct (IH _ _ _ _ _ (log ++ l) eq_refl eq_refl) as [log' Hlog]. exists log'. by eapply star_step.
  - inversion Hr as [x|x y z Hs']; subst; [|inversion Hs']. eexists. by eapply star_step; [|apply star_refl].
Qed.

Lemma call_quiet e c m s :
  quiet m s -> exists s', star il_step s s' /\ quiet (call_effect e c m) s'.
Proof.
  intros [<- Ht]. destruct (sections_alone e (sy_master s) c) as [j Hj].
  destruct (alone_star e _ _ Hj _ _ _ _ _ (sy_log s) eq_refl eq_refl) as [log' Hlog].
  exists {| sy_master := call_effect e c (sy_master s); sy_tasks := []; sy_log := log' |}. split; [|done].
  eapply star_step; [apply (il_call s c)|]. rewrite Ht. exact Hlog.
Qed.

(** A step that only changes the master. *)
Lemma one_quiet m m' s :
  quiet m s -> il_step s {| s with sy_master := m' |} -> exists s', star il_step s s' /\ quiet m' s'.
Proof.
  intros [Hm Ht] Hs. exists {| s with sy_master := m' |}. split; [|by split].
  eapply star_step; [exact Hs|apply star_refl].
Qed.

Lemma turn_quiet e m m' s :
  turn_effect e m m' -> ids_left m -> quiet m s -> exists s', star il_step s s' /\ quiet m' s'.
Proof.
  intros Ht [Hp Hc] Hq. destruct Ht as [|addr|addr data|c].
  - exists s. split; [apply star_refl|done].
  - eapply one_quiet; [exact Hq|]. destruct Hq as [<- _]. by apply (il_producer s).
  - eapply one_quiet; [exact Hq|]. destruct Hq as [<- _]. by apply (il_consumer s).
  - by apply call_quiet.
Qed.

(** The snapshot is three steps: the rates of each table, and the metrics. *)
Lemma snapshot_quiet e rates m s :
  quiet m s -> exists s', star il_step s s' /\ quiet (take_snapshot e rates m).2 s'.
Proof.
  intros Hq. unfold take_snapshot, Metrics.snapshot. destruct rates as [[tps bps] yps].
  destruct (compute_backlog_growth_per_sec _ _ _) as [growth me].
  set (demand := ingress_per_sec _ _ _).
  destruct (Consumers.list_with_capacity _ _ _ _) as [[pct rows] cr] eqn:Hc.
  destruct (Producers.list_rows _ _ _) as [prows pr] eqn:Hp.
  destruct Hq as [<- Ht].
  exists {| sy_master := {| ma_producers := pr; ma_consumers := cr; ma_metrics := me;
                            ma_inner := ma_inner (sy_master s); ma_done := ma_done (sy_master s) |};
            sy_tasks := sy_tasks s; sy_log := sy_log s |}.
  split; [|split; [reflexivity|exact Ht]].
  eapply star_step; [apply (il_consumer_rates s (unix_secs e) (env_now e) demand)|].
  eapply star_step; [apply (il_producer_rates _ (unix_secs e) (env_now e))|].
  eapply star_step; [apply (il_metrics _ (fun _ => me))|].
  cbv [on_metrics on_producers on_consumers]. cbn [sy_master ma_producers ma_consumers ma_inner ma_done sy_tasks sy_log].
  rewrite Hc, Hp. apply star_refl.
Qed.

Lemma relay_step_quiet r r' s :
  relay_step r r' -> quiet (rs_master (ry_state r)) s ->
  exists s', star il_step s s' /\ quiet (rs_master (ry_state r')) s'.
Proof.
  intros Hs Hq. destruct Hs as [k addr input r Hk|e k r Hids|e r|e r|e r|r]; cbn [on_state ry_state].
  - exists s. split; [apply star_refl|done].
  - unfold turn. destruct (ry_conns r !! k) as [c|]; [|exists s; by split; [apply star_refl|]].
    pose proof (conn_turn_effect e (rs_master (ry_state r)) c) as Ht. destruct (conn_turn _ _ _) as [m c'].
    by eapply turn_quiet.
  - exact (call_quiet e CallMatchLoop _ s Hq).
  - rewrite sampler_master. by apply snapshot_quiet.
  - destruct (metrics_master e (ry_state r)) as [->| ->]; [exists s; by split; [apply star_refl|]|]. by apply snapshot_quiet.
  - unfold ticks_handler. destruct (drain_ticks _) as [ticks me]. eapply one_quiet; [exact Hq|].
    destruct Hq as [Hm _]. pose proof (il_metrics s (fun _ => me)) as Hi. rewrite Hm in Hi. exact Hi.
Qed.

(** ** Properties *)

(** C6: whole turns are interleavings.  Every state the relay reaches, with all its
    connections, tasks and HTTP requests, turn by turn, is the state of a run of
    critical sections in which no task is left unfinished. *)
Theorem relay_refines_interleaving now cfg r :
  star relay_step (initial now cfg) r ->
  exists s, star il_step (boot now) s /\ sy_master s = rs_master (ry_state r) /\ sy_tasks s = [].
Proof.
  intros Hr. refine (star_invariant relay_step
    (fun r => exists s, star il_step (boot now) s /\ quiet (rs_master (ry_state r)) s) _ _ _ Hr _).
  - intros a b (s & Hs & Hq) Hstep. destruct (relay_step_quiet a b s Hstep Hq) as (s' & Hs' & Hq').
    exists s'. split; [by eapply star_trans|done].
  - exists (boot now). split; [apply star_refl|done].
Qed.

Lemma relay_refines_interleaving_witness :
  exists s, star il_step (boot 0) s /\
    producer_entry 1 (sy_master s) ≫= Producers.pe_pending_consumer_id = Some 1 /\ sy_tasks s = [].
Proof.
  destruct (relay_refines_interleaving 0 demo_config demo_relay) as (s & Hs & Hm & Ht).
  - eapply star_step; [apply (rs_accept 0 "p" producer_bytes); reflexivity|].
    eapply star_step; [apply (rs_accept 1 "c" consumer_bytes); reflexivity|].
    apply (demo_turns_star [0; 1; 0; 1]%nat). vm_compute. reflexivity.
  - exists s. split; [exact Hs|]. split; [|exact Ht]. rewrite Hm. vm_compute. reflexivity.
Defined.
