(* ===== verification/Progress.v ===== *)
(** * Progress of the matching ([try_match], [run_match_loop], [handle_consumer])

    What a consumer that asks, and a producer that has backlog, can count on after
    a turn of the matcher: no possible match is left undone. *)

From S2P Require Import Prelude Protocol Metrics Matchmaker Server.
From S2P Require Producers Consumers.

(** A producer in the pool with something to send. *)
Definition available (p : Z) (m : Master) : Prop :=
  p ∈ mi_ready (ma_inner m) /\ Producers.live (ma_producers m) p.

(** A producer at work for a consumer. *)
Definition at_work (p : Z) (m : Master) : Prop :=
  exists e, producer_entry p m = Some e /\ Producers.pe_state e = Producers.Busy /\
            Producers.pe_pending_consumer_id e <> None.

(** Every write of the turn succeeds. *)
Definition writes_succeed (e : env) : Prop := forall i, env_io e i = Ok tt.

(** ** Lemmas *)

Lemma live_entry m m' p :
  producer_entry p m' = producer_entry p m -> Producers.live (ma_producers m) p -> Producers.live (ma_producers m') p.
Proof.
  unfold producer_entry, Producers.live, Producers.has_backlog. by intros ->.
Qed.

Lemma rank_available m best stale rr r q :
  master_ok m ->
  Producers.rank_ready_candidates (elements (mi_ready (ma_inner m))) (mi_producer_rr (ma_inner m))
    (ma_producers m) = (best, stale, rr, r) ->
  available q m ->
  best <> None /\ q ∉ (list_to_set stale : gset Z) /\ Producers.pr_inner r !! q = producer_entry q m.
Proof.
  intros Hok Hrank [Hq Hl].
  pose proof (Producers.rank_ready_pick (elements (mi_ready (ma_inner m))) (mi_producer_rr (ma_inner m))
    (ma_producers m) (mo_range _ Hok)) as Hpick. rewrite Hrank in Hpick. destruct Hpick as [Hstale Hbest].
  split_and!.
  - intros ->. by apply (Hbest q); [apply elem_of_elements|].
  - rewrite elem_of_list_to_set, Hstale, list_elem_of_filter. tauto.
  - pose proof (Producers.rank_loop_inv (elements (mi_ready (ma_inner m))) (ma_producers m) (mo_range _ Hok))
      as [[_ Hsame] _ _ _ _].
    assert (r = Producers.rk_reg (Producers.rank_loop (elements (mi_ready (ma_inner m))) (ma_producers m))) as ->.
    { unfold Producers.rank_ready_candidates in Hrank. destruct (Producers.pick_tier _ _). congruence. }
    by apply Hsame.
Qed.

(** A turn whose write succeeds leaves an available producer available or at work,
    and returns only when nobody waits. *)
Lemma turn_progress now m q :
  master_ok m -> available q m ->
  match try_match_turn now (Ok tt) m with
  | (m', Some _) => mi_waiting (ma_inner m') = []
  | (m', None) => available q m' \/ (q ∉ mi_ready (ma_inner m') /\ at_work q m')
  end.
Proof.
  intros Hok Hq. pose proof (try_match_turn_spec now (Ok tt) m Hok) as Hspec. revert Hspec.
  unfold try_match_turn. destruct (_ || _) eqn:Hempty.
  { intros _. apply orb_true_iff in Hempty as [?%bool_decide_eq_true|He%bool_decide_eq_true]; [done|].
    destruct Hq as [Hq _]. rewrite He in Hq. by apply not_elem_of_empty in Hq. }
  apply orb_false_iff in Hempty as [Hw%bool_decide_eq_false _].
  destruct (Producers.rank_ready_candidates _ _ _) as [[[best stale] rr] r] eqn:Hrank.
  destruct (rank_available m best stale rr r q Hok Hrank Hq) as (Hb & Hs & Hr).
  destruct best as [p|]; [|done].
  match goal with |- context [take_next_waiting_inner ?x] => set (i := x) end.
  destruct (take_next_spec i Hw) as (pick & c & Hc & -> & _).
  match goal with |- context [send_match now _ p c ?x] => set (m2 := x) end.
  destruct (rank_master m (Some p) stale rr r Hok Hrank) as (Hok1 & _ & _ & Hp & Hl & Hsame).
  match type of Hok1 with master_ok ?x => set (m1 := x) in * end.
  assert (Hsel : selected p c m2).
  { apply (select_ok p c pick (ma_inner m2) m1); try done.
    rewrite Hsame. destruct (Producers.live_lookup _ _ Hl) as (x & Hx & _). by exists x. }
  destruct (send_match_spec now (Ok tt) p c m2 Hsel) as (m' & -> & _ & Hr2 & Hf & _ & Hm & _). intros _.
  assert (Hready : mi_ready (ma_inner m2) = (mi_ready (ma_inner m) ∖ list_to_set stale) ∖ {[p]}) by done.
  destruct (decide (q = p)) as [->|Hne].
  - right. split; [rewrite Hr2, Hready; set_solver|].
    destruct Hm as [(x & Hx & Hst & Hpe) _ _]. exists x. split_and!; [done|done|by rewrite Hpe].
  - left. destruct Hq as [Hq1 Hq2]. split; [rewrite Hr2, Hready; set_solver|].
    apply (live_entry m m'); [|done]. rewrite Hf by done. exact Hr.
Qed.

Lemma loop_progress n i e m q :
  master_ok m -> writes_succeed e -> (size (mi_ready (ma_inner m)) < n)%nat ->
  available q m \/ (q ∉ mi_ready (ma_inner m) /\ at_work q m) ->
  let m' := (try_match_loop n i e m).1 in mi_waiting (ma_inner m') = [] \/ at_work q m'.
Proof.
  intros Hok Hio. revert i m Hok. induction n as [|n IH]; intros i m Hok Hsz Hq; [lia|].
  cbv zeta. cbn [try_match_loop]. rewrite Hio.
  pose proof (try_match_turn_spec (env_now e) (Ok tt) m Hok) as Hs.
  destruct Hq as [Hq|[Hq Hw]].
  - pose proof (turn_progress (env_now e) m q Hok Hq) as Ht.
    destruct (try_match_turn _ _ m) as [m1 [r|]]; [by left|].
    destruct Hs as (p & c & Hs). pose proof (tm_pool _ _ _ _ _ Hs). destruct (tm_best _ _ _ _ _ Hs) as [Hp _].
    apply IH; [by apply Hs|by eapply size_shrinks|done].
  - destruct (try_match_turn _ _ m) as [m1 [r|]].
    + right. destruct Hs as [_ Hs]. unfold at_work. cbn [fst]. by rewrite (ts_frame _ _ Hs).
    + destruct Hs as (p & c & Hs). pose proof (tm_pool _ _ _ _ _ Hs). destruct (tm_best _ _ _ _ _ Hs) as [Hp _].
      apply IH; [by apply Hs|by eapply size_shrinks|].
      right. split; [set_solver|]. unfold at_work. by rewrite (tm_frame _ _ _ _ _ Hs).
Qed.

(** The reconciliation makes every producer with backlog that is not busy available. *)
Lemma sync_available m p e :
  producer_entry p m = Some e -> Producers.entry_has_backlog e = true -> Producers.pe_state e <> Producers.Busy ->
  available p (sync_ready_pool m).
Proof.
  intros He Hb Hs. unfold sync_ready_pool, available.
  unfold Producers.sync_matcher_ready_state.
  pose proof (Producers.sync_pool_spec (elements (mi_ready (ma_inner m))) (ma_producers m) ∅) as Hp.
  destruct (foldl Producers.sync_pool_step _ _) as [r1 rem]. destruct Hp as [[_ Hl] _].
  pose proof (Producers.sync_entries_spec (Producers.ids r1) r1 ∅ (Producers.NoDup_ids r1)) as Hsync.
  destruct (foldl Producers.sync_entry_step _ _) as [r' add]. destruct Hsync as [Hi Hadd].
  unfold producer_entry in He.
  assert (He1 : Producers.pr_inner r1 !! p = Some e).
  { rewrite <- He. apply Hl. unfold Producers.live, Producers.has_backlog. by rewrite He. }
  assert (Hid : p ∈ Producers.ids r1) by (apply Producers.elem_of_ids; by exists e).
  cbn. split.
  - apply elem_of_union. left. apply Hadd. right. split; [done|]. by exists e.
  - unfold Producers.live, Producers.has_backlog. rewrite Hi. destruct (decide (p ∈ Producers.ids r1)); [|done].
    rewrite He1. cbn. unfold Producers.promoted. rewrite Hb. cbn [andb]. by case_bool_decide.
Qed.

(** ** Properties *)

(** C22: the match loop misses nothing.  After one of its turns in which the writes
    succeed, either no consumer waits or every producer that reported backlog and
    was not busy is at work for a consumer: in particular, a waiting consumer and
    such a producer do not coexist for longer than a period of the loop, even if
    every wakeup by PRDY, CRDY or heartbeat was lost. *)
Theorem match_loop_serves e m p ent :
  master_ok m -> writes_succeed e ->
  producer_entry p m = Some ent -> Producers.entry_has_backlog ent = true ->
  Producers.pe_state ent <> Producers.Busy ->
  let m' := run_match_loop_turn e m in
  master_ok m' /\ (mi_waiting (ma_inner m') = [] \/ at_work p m').
Proof.
  intros Hok Hio He Hb Hs. cbv zeta. split; [by apply run_match_loop_turn_ok|].
  unfold run_match_loop_turn, waiting_count. destruct (Z.eqb_spec (Z.of_nat (length (mi_waiting (ma_inner m)))) 0) as [Hz|_].
  { left. by destruct (mi_waiting (ma_inner m)). }
  pose proof (sync_ready_pool_ok m Hok) as Hok1.
  pose proof (loop_progress (S (size (mi_ready (ma_inner (sync_ready_pool m))))) 0 e (sync_ready_pool m) p Hok1 Hio
    ltac:(lia) (or_introl (sync_available m p ent He Hb Hs))) as H.
  unfold try_match. by destruct (try_match_loop _ _ _ _) as [m1 r].
Qed.

(** A consumer's turn.  After its CRDY either its request waits in the queue,
    exactly as it was sent, and no producer is ready; or it left the queue, and one
    producer got exactly its ASGN, is busy for it and is the one it awaits. *)
Theorem consumer_cycle_correct e id addr m c ready input :
  master_ok m -> connected m id -> wire_len 1 addr ->
  read_consumer_ready_request (cn_input c) = Ok (ready, input) ->
  let '(m', c') := handle_consumer e id addr m c in
  let entry := {| pc_consumer_id := id; pc_ready := ready; pc_data_addr := addr; pc_done := None |} in
  master_ok m' /\ cn_phase c' = ConsumerLoop id addr /\ cn_input c' = input /\ cn_written c' = cn_written c /\
  ((entry ∈ mi_waiting (ma_inner m') /\ mi_ready (ma_inner m') = ∅) \/
   (id ∉ waiting_ids m' /\ exists p, p ∈ mi_ready (ma_inner m) /\ matched p entry m m')).
Proof.
  intros Hok Hc Ha Hread. unfold handle_consumer. rewrite Hread. fold (queued e id ready addr m).
  pose proof (queued_ok e id ready addr m Hok Hc (read_ready_len _ _ _ Hread) Ha) as Hq.
  set (entry := {| pc_consumer_id := id; pc_ready := ready; pc_data_addr := addr; pc_done := None |}).
  destruct (try_match_spec e _ Hq) as (m' & pairs & -> & _ & Hok' & Hend & _ & Hw & _ & Hall & _).
  cbn [fst]. split_and!; try done.
  assert (Hin : entry ∈ mi_waiting (ma_inner (queued e id ready addr m))).
  { cbn. apply push_waiting_elem. by left. }
  pose proof (mo_waiting _ Hq) as Hnd. unfold waiting_ids in Hnd. rewrite Hw, fmap_app in Hnd.
  apply NoDup_app in Hnd as (_ & Hdisj & _).
  rewrite Hw in Hin. apply elem_of_app in Hin as [Hin|Hin].
  - right. split; [apply Hdisj; by apply (list_elem_of_fmap_2 pc_consumer_id _ entry)|].
    apply list_elem_of_fmap in Hin as ([p c0] & Heq & Hp). cbn in Heq. subst c0.
    rewrite Forall_forall in Hall. destruct (Hall _ Hp) as (Hpool & _ & [H1 H2 H3]). exists p. split; [exact Hpool|].
    constructor; [exact H1|exact H2|exact H3].
  - left. split; [done|]. destruct Hend as [He|He]; [|done]. rewrite He in Hin. by apply not_elem_of_nil in Hin.
Qed.

(** Two producers with backlog, two consumers waiting, and a third that asks. *)
Definition steady_env : env := {| env_now := 500; env_io := fun _ => Ok tt |}.

Lemma match_loop_serves_witness :
  let ent := default (Producers.new_entry "" 0) (producer_entry 2 demo_master) in
  let m' := run_match_loop_turn steady_env demo_master in
  mi_waiting (ma_inner m') = [] /\ master_ok m' /\ (mi_waiting (ma_inner m') = [] \/ at_work 2 m').
Proof.
  intros ent m'. split; [vm_compute; reflexivity|].
  apply (match_loop_serves steady_env demo_master 2 ent); [apply demo_master_ok|by intros i|vm_compute; reflexivity..|].
  vm_compute. discriminate.
Defined.

(** Consumer 1 sends CRDY with another tag while it is still queued. *)
Definition demo_conn : Conn :=
  {| cn_addr := "c1"; cn_phase := ConsumerLoop 1 "h:1"; cn_written := [];
     cn_input := MAGIC_CONSUMER_READY ++ to_le 2 16 ++ to_le 2 1 ++ as_bytes "z" ++ as_bytes "CR" |}.

Lemma consumer_cycle_correct_witness :
  let '(m', c') := handle_consumer steady_env 1 "h:1" demo_master demo_conn in
  let entry := {| pc_consumer_id := 1; pc_ready := {| rr_max_items := 16; rr_consumer_tag := "z" |};
                  pc_data_addr := "h:1"; pc_done := None |} in
  master_ok m' /\ cn_phase c' = ConsumerLoop 1 "h:1" /\ cn_input c' = as_bytes "CR" /\ cn_written c' = [] /\
  ((entry ∈ mi_waiting (ma_inner m') /\ mi_ready (ma_inner m') = ∅) \/
   (1 ∉ waiting_ids m' /\ exists p, p ∈ mi_ready (ma_inner demo_master) /\ matched p entry demo_master m')).
Proof.
  apply (consumer_cycle_correct steady_env 1 "h:1" demo_master demo_conn
           {| rr_max_items := 16; rr_consumer_tag := "z" |} (as_bytes "CR")).
  - apply demo_master_ok.
  - eexists. vm_compute. reflexivity.
  - vm_compute. split; discriminate.
  - vm_compute. reflexivity.
Defined.
