(* ===== verification/Assignments.v ===== *)
(** * Assignments across connections

    What may settle an outstanding ASGN: frames of its producer, and the end of one of
    the two connections.  What becomes of it when one of them ends. *)

From S2P Require Import Prelude Protocol Metrics Matchmaker Server Relay.
From S2P Require Producers Consumers.

(** A producer that got an ASGN for the consumer and has not reported. *)
Definition owes (p c : Z) (m : Master) : Prop :=
  exists e, producer_entry p m = Some e /\ Producers.pe_pending_consumer_id e = Some c.

(** ** Lemmas *)

Lemma owes_not_ready p c m : master_ok m -> owes p c m -> p ∉ mi_ready (ma_inner m).
Proof.
  intros Hok (e & He & Hp) Hin. apply (mo_pool _ Hok p e Hin He). apply (mo_pending _ Hok p e He). by rewrite Hp.
Qed.

Lemma try_match_keeps e m p : master_ok m -> p ∉ mi_ready (ma_inner m) ->
  producer_entry p (try_match e m).1 = producer_entry p m.
Proof.
  intros Hok Hp. destruct (try_match_spec e m Hok) as (m' & pairs & -> & _ & _ & _ & _ & _ & _ & _ & Hf & _).
  by apply Hf.
Qed.

Lemma on_producer_ready_keeps e q p m :
  master_ok m -> p <> q -> p ∉ mi_ready (ma_inner m) ->
  producer_entry p (on_producer_ready e q m).1 = producer_entry p m.
Proof.
  intros Hok Hne Hp. destruct (on_producer_ready_spec e q m Hok) as (m1 & -> & [H1 H2 _ H4 _ _]).
  rewrite try_match_keeps; [by apply H4|done|]. rewrite H2. cbn. set_solver.
Qed.

Lemma producer_heartbeat_keeps e q p hb m :
  Producers.heartbeat_in_range hb -> master_ok m -> p <> q -> p ∉ mi_ready (ma_inner m) ->
  producer_entry p (producer_heartbeat e q hb m) = producer_entry p m.
Proof.
  intros Hhb Hok Hne Hp. unfold producer_heartbeat.
  pose proof (Producers.record_heartbeat_ok (env_now e) q hb _ (mo_registry _ Hok)) as Hr.
  pose proof (Producers.record_heartbeat_good _ (env_now e) q hb _ Hhb (master_good _ Hok)) as Hg.
  assert (Hk : Producers.pr_inner (Producers.record_heartbeat (env_now e) q hb (ma_producers m)).2 !! p = producer_entry p m).
  { unfold Producers.record_heartbeat, producer_entry. destruct (Producers.pr_inner (ma_producers m) !! q); [|done].
    cbn [snd]. rewrite Producers.with_entry_lookup by apply Producers.heartbeat_moves. by destruct (decide (p = q)). }
  destruct (Producers.record_heartbeat (env_now e) q hb (ma_producers m)) as [rematch r] eqn:Heq.
  cbn [snd] in *. set (m1 := {| m with ma_producers := r |}).
  assert (Hok1 : master_ok m1) by by apply producers_only_ok.
  destruct rematch.
  - unfold wake_producer. rewrite try_match_keeps; [done| |cbn; set_solver].
    apply ensure_in_ready_pool_ok; [done|]. intros e' He'. apply rematch_ready in Heq.
    unfold Producers.state_of in Heq. change (Producers.pr_inner r !! q = Some e') in He'.
    rewrite He' in Heq. cbn in Heq. congruence.
  - change (ma_producers m1) with r. destruct (Producers.state_of q r) as [[]|]; try done.
    destruct (0 <? waiting_count m1); [by rewrite try_match_keeps|done].
Qed.

Lemma finish_producer_batch_keeps e q p report ok msg m :
  master_ok m -> p <> q -> p ∉ mi_ready (ma_inner m) ->
  producer_entry p (finish_producer_batch e q report ok msg m) = producer_entry p m.
Proof.
  intros Hok Hne Hp. rewrite finish_producer_batch_eq.
  pose proof (reported_free q report ok msg e m Hok) as Hfree.
  destruct (before_done_spec e q report ok msg m Hok) as (Hok1 & Hi & Hent & _ & _).
  set (m1 := before_done e q report ok msg m) in *. unfold on_producer_done. rewrite try_match_keeps.
  - unfold producer_entry. cbn [on_inner on_producers ma_producers]. rewrite Producers.set_state_entry.
    destruct (decide (p = q)); [done|]. change (producer_entry p m1 = producer_entry p m). rewrite Hent.
    by destruct (decide (p = q)).
  - apply shrink_pool_ok, producers_only_ok; [done|by apply Producers.set_state_ok, Hok1|].
    apply Producers.set_state_good; [done| |exact (master_good _ Hok1)]. intros e' He'. right. by apply Hfree.
  - cbn. rewrite Hi. set_solver.
Qed.

Lemma process_producer_magic_keeps e q p magic s m :
  master_ok m -> p <> q -> p ∉ mi_ready (ma_inner m) ->
  producer_entry p (process_producer_magic e q magic s m).1 = producer_entry p m.
Proof.
  intros Hok Hne Hp. unfold process_producer_magic. repeat case_match; cbn [fst]; try done.
  - pose proof (on_producer_ready_keeps e q p m Hok Hne Hp) as Hr. by destruct (on_producer_ready e q m) as [m1 []]; simplify_eq.
  - pose proof (on_producer_ready_keeps e q p m Hok Hne Hp) as Hr. by destruct (on_producer_ready e q m) as [m1 []]; simplify_eq.
  - apply producer_heartbeat_keeps; [by eapply read_heartbeat_range|done..].
  - by apply finish_producer_batch_keeps.
  - by apply finish_producer_batch_keeps.
Qed.

Lemma orphaned_entry q p m : p <> q -> producer_entry p (orphaned q m) = producer_entry p m.
Proof.
  intros Hne. unfold orphaned. destruct (take_pending_fields q (ma_producers m)) as (_ & _ & Hl).
  change (ma_producers (on_inner (on_ready (fun s => s ∖ {[q]})) m)) with (ma_producers m).
  destruct (Producers.take_pending_consumer q (ma_producers m)) as [cid r]. cbn [snd] in Hl.
  unfold producer_entry. cbn [on_producers ma_producers].
  match goal with |- context [Producers.remove q (ma_producers ?x)] => assert (ma_producers x = r) as -> end.
  { destruct cid; [|done]. by rewrite (proj1 (requeue_orphan_fields _ _)). }
  unfold Producers.remove. destruct (Producers.pr_inner r !! q) as [x|] eqn:Hx.
  - assert (Producers.pr_inner (Producers.uncount (Producers.pe_state x)
              {| r with Producers.pr_inner := delete q (Producers.pr_inner r) |}) = delete q (Producers.pr_inner r))
      as -> by by destruct (Producers.pe_state x).
    rewrite lookup_delete_ne by done. rewrite Hl. by destruct (decide (p = q)).
  - rewrite Hl. by destruct (decide (p = q)).
Qed.

(** Clearing the debts to a consumer leaves the other debts alone. *)
Lemma clear_assignments_keeps c r p e :
  Producers.pr_inner r !! p = Some e -> Producers.pe_pending_consumer_id e <> Some c ->
  Producers.pr_inner (Producers.clear_assignments_to_consumer c r).2 !! p = Some e.
Proof.
  unfold Producers.clear_assignments_to_consumer. generalize (Producers.ids r), 0%nat. intros l.
  revert r. induction l as [|i l IH]; intros r n He Hne; [done|]. cbn [foldl Producers.clear_assign_step].
  destruct (Producers.pr_inner r !! i) as [x|] eqn:Hi; [|by apply IH]. destruct (decide _); [|by apply IH].
  apply IH; [|done]. rewrite Producers.with_entry_lookup by apply Producers.release_busy_moves.
  destruct (decide (p = i)) as [->|]; [congruence|done].
Qed.

Lemma cancel_consumer_keeps e d p c m :
  master_ok m -> owes p c m -> c <> d -> producer_entry p (cancel_consumer e d m) = producer_entry p m.
Proof.
  intros Hok Ho Hne. pose proof (owes_not_ready p c m Hok Ho) as Hp. destruct Ho as (x & Hx & Hpe).
  unfold cancel_consumer. destruct (drop_waiting_spec d m Hok) as (Hok1 & _ & Hpr & _ & Hi).
  set (m1 := drop_waiting d m) in *.
  pose proof (Producers.clear_assignments_ok d _ (mo_registry _ Hok1)) as Hr.
  pose proof (Producers.clear_assignments_good _ d _ (master_good _ Hok1)) as Hg.
  assert (Hk : Producers.pr_inner (Producers.clear_assignments_to_consumer d (ma_producers m1)).2 !! p = producer_entry p m).
  { rewrite Hx. apply clear_assignments_keeps; [|congruence]. rewrite Hpr. exact Hx. }
  destruct (Producers.clear_assignments_to_consumer d (ma_producers m1)) as [n r]. cbn [snd] in *.
  destruct (0 <? n)%nat; [|exact Hk]. rewrite try_match_keeps; [exact Hk|by apply producers_only_ok|cbn [ma_inner]; by rewrite Hi].
Qed.

Lemma sync_ready_keeps p m e :
  p ∉ mi_ready (ma_inner m) -> producer_entry p m = Some e -> Producers.pe_state e = Producers.Busy ->
  producer_entry p (sync_ready_pool m) = Some e /\ p ∉ mi_ready (ma_inner (sync_ready_pool m)).
Proof.
  intros Hp He Hb. unfold sync_ready_pool, Producers.sync_matcher_ready_state.
  assert (H1 : forall l s, p ∉ l -> Producers.pr_inner (foldl Producers.sync_pool_step s l).1 !! p = Producers.pr_inner s.1 !! p).
  { induction l as [|i l IH]; intros [r0 rem] Hn; [done|]. cbn [foldl]. apply not_elem_of_cons in Hn as [Hi Hn].
    rewrite IH by done. unfold Producers.sync_pool_step.
    destruct (Producers.pr_inner r0 !! i); [|done]. destruct (negb _); [|done]. cbn [fst].
    rewrite Producers.with_entry_lookup by apply Producers.drop_ready_moves. by destruct (decide (p = i)). }
  specialize (H1 (elements (mi_ready (ma_inner m))) (ma_producers m, ∅) ltac:(by rewrite elem_of_elements)).
  destruct (foldl Producers.sync_pool_step _ _) as [r1 rem]. cbn [fst] in H1.
  pose proof (Producers.sync_entries_spec (Producers.ids r1) r1 ∅ (Producers.NoDup_ids r1)) as Hs.
  destruct (foldl Producers.sync_entry_step _ _) as [r' add]. destruct Hs as [Hi Ha].
  change (Producers.pr_inner (ma_producers m) !! p = Some e) in He. rewrite He in H1. split.
  - unfold producer_entry. cbn. rewrite Hi, H1. destruct (decide _); [|done]. cbn. unfold Producers.promoted.
    rewrite Hb. by rewrite andb_false_r.
  - cbn. rewrite elem_of_union, elem_of_difference, Ha. intros [[?%elem_of_empty|(_ & x & Hx & _ & Hn)]|[? _]]; [done| |done].
    congruence.
Qed.

(** *** The turns that can end a debt *)

(** The frames of a producer that may end its debt: a PRDY, a report, and a heartbeat
    that announces a backlog in the ring or comes after the debt went stale. *)
Definition frame_settles (now : Z) (magic input : list byte) (entry : Producers.ProducerEntry) : bool :=
  if bytes_eqb magic MAGIC_HEARTBEAT then
    match read_heartbeat_payload input with
    | Ok (hb, _) =>
      (0 <? hb_ring_messages hb) ||
      ((0 <? Producers.pe_busy_since_ms entry) &&
       (Producers.STALE_BUSY_MS <=? sat_sub now (Producers.pe_busy_since_ms entry)))
    | Err _ => false
    end
  else is_producer_magic magic.

(** The turns that may end the debt of [p] to [d]: such a frame of [p], the end of its
    connection, and the end of the connection of [d]. *)
Definition may_settle (now p d : Z) (m : Master) (c : Conn) : Prop :=
  match cn_phase c with
  | ProducerFrame q magic =>
      q = p /\ exists x, producer_entry p m = Some x /\ frame_settles now magic (cn_input c) x = true
  | ProducerDrop q => q = p
  | ConsumerDrop j => j = d
  | _ => False
  end.

(** The debt stands, and the producer got nothing and is not on offer. *)
Definition stands (p d : Z) (m m' : Master) : Prop :=
  owes p d m' /\ frames p m' = frames p m /\ p ∉ mi_ready (ma_inner m').

Lemma ledger_stands p d m m' :
  master_ok m' -> owes p d m -> ledger p m' = ledger p m -> stands p d m m'.
Proof.
  intros Hok Ho Hl. assert (Ho' : owes p d m').
  { destruct Ho as (x & Hx & Hp). unfold ledger in Hl. rewrite Hx in Hl.
    destruct (producer_entry p m') as [y|] eqn:Hy; [|done]. exists y. split; [done|]. injection Hl. congruence. }
  split_and!; [done|by apply ledger_frames|by eapply owes_not_ready].
Qed.

Lemma entry_ledger p m m' : producer_entry p m' = producer_entry p m -> ledger p m' = ledger p m.
Proof. unfold ledger. by intros ->. Qed.

Lemma quiet_heartbeat_keeps e p hb x m :
  producer_entry p m = Some x -> Producers.pe_state x = Producers.Busy ->
  (0 <? hb_ring_messages hb) ||
    ((0 <? Producers.pe_busy_since_ms x) &&
     (Producers.STALE_BUSY_MS <=? sat_sub (env_now e) (Producers.pe_busy_since_ms x))) = false ->
  ledger p (producer_heartbeat e p hb m) = ledger p m.
Proof.
  intros Hx Hb Hq. unfold producer_heartbeat, Producers.record_heartbeat. change (Producers.pr_inner (ma_producers m) !! p = Some x) in Hx.
  rewrite Hx. unfold Producers.with_entry. rewrite Hx. unfold Producers.heartbeat_entry. cbv zeta.
  change (Producers.pe_state (Producers.store_heartbeat hb x)) with (Producers.pe_state x).
  change (Producers.pe_busy_since_ms (Producers.store_heartbeat hb x)) with (Producers.pe_busy_since_ms x).
  destruct (decide (Producers.pe_state x = Producers.Busy)) as [_|Hn]; [|done]. rewrite Hq. cbn [fst snd].
  match goal with |- context [Producers.state_of p (ma_producers ?y)] => set (m1 := y) end.
  assert (Hm1 : producer_entry p m1 = Some (Producers.store_heartbeat hb x)) by (unfold producer_entry, m1; cbn; apply lookup_insert_eq).
  assert (Hst : Producers.state_of p (ma_producers m1) = Some Producers.Busy).
  { unfold Producers.state_of. unfold producer_entry in Hm1. rewrite Hm1. cbn. by rewrite Hb. }
  rewrite Hst. unfold ledger. rewrite Hm1. unfold producer_entry. by rewrite Hx.
Qed.

Lemma quiet_frame_keeps e p d magic s x m :
  master_ok m -> owes p d m -> producer_entry p m = Some x -> frame_settles (env_now e) magic s x = false ->
  ledger p (process_producer_magic e p magic s m).1 = ledger p m.
Proof.
  intros Hok (y & Hy & Hpe) Hx Hq. assert (y = x) as -> by congruence.
  assert (Hb : Producers.pe_state x = Producers.Busy) by (apply (mo_pending _ Hok p x Hx); by rewrite Hpe).
  unfold frame_settles, is_producer_magic, process_producer_magic in *.
  destruct (bytes_eqb magic MAGIC_PRODUCER_READY) eqn:Hr.
  - apply bytes_eqb_true in Hr as ->. vm_compute in Hq. discriminate.
  - destruct (bytes_eqb magic MAGIC_HEARTBEAT).
    + destruct (read_heartbeat_payload s) as [[hb rest]|err]; [|done]. by apply (quiet_heartbeat_keeps e p hb x m).
    + cbn [orb] in Hq. by destruct (bytes_eqb magic MAGIC_DELIVERED), (bytes_eqb magic MAGIC_FAILED).
Qed.

Lemma conn_turn_keeps e m c p d :
  master_ok m -> ids_left m -> owes p d m -> ~ may_settle (env_now e) p d m c ->
  session_ok c -> (forall id, consumer_of c = Some id -> connected m id) ->
  ledger p (conn_turn e m c).1 = ledger p m.
Proof.
  intros Hok Hids Ho Hnot Hs Hc. pose proof (owes_not_ready p d m Hok Ho) as Hp.
  unfold conn_turn, may_settle, consumer_of, session_ok in *.
  destruct (cn_phase c) as [|q magic|q|id addr|q|id|]; try done.
  - apply entry_ledger. unfold handle_control. destruct (read_exact 4 (cn_input c)) as [[magic input]|]; [|done].
    destruct (bytes_eqb magic MAGIC_REGISTER).
    + destruct (read_register_payload input) as [[addr rest]|]; [|done]. by destruct (Consumers.register _ _ _ _).
    + destruct (is_producer_magic magic); [|done]. unfold Producers.register, producer_entry. cbn.
      rewrite lookup_insert_ne; [done|]. intros Heq. destruct Ho as (x & Hx & _).
      pose proof (Producers.ro_ids _ (mo_registry _ Hok) p ltac:(by exists x)). lia.
  - assert (Hk : ledger p (process_producer_magic e q magic (cn_input c) m).1 = ledger p m).
    { destruct (decide (p = q)) as [<-|Hne]; [|by apply entry_ledger, process_producer_magic_keeps].
      pose proof Ho as (x & Hx & _). apply (quiet_frame_keeps e p d _ _ x); [done..|].
      apply not_true_is_false. intros Ht. apply Hnot. split; [done|]. by exists x. }
    by destruct (process_producer_magic _ _ _ _ _) as [m1 [s|err]].
  - by destruct (read_exact 4 (cn_input c)) as [[magic input]|].
  - apply entry_ledger. unfold handle_consumer. destruct (read_consumer_ready_request (cn_input c)) as [[ready input]|] eqn:Hread; [|done].
    cbn [fst]. fold (queued e id ready addr m). rewrite try_match_keeps; [done| |done].
    apply queued_ok; [done|by apply Hc|by eapply read_ready_len|done].
  - cbn [fst]. apply entry_ledger.
    rewrite on_producer_disconnect_eq, try_match_keeps; [apply orphaned_entry; congruence|by apply orphaned_ok|].
    rewrite orphaned_pool. set_solver.
  - cbn [fst]. apply entry_ledger. unfold drop_consumer_session. apply (cancel_consumer_keeps e id p d); congruence || done.
Qed.

Lemma snapshot_ledger e rates p m : ledger p (take_snapshot e rates m).2 = ledger p m.
Proof.
  unfold take_snapshot, Metrics.snapshot. destruct rates as [[tps bps] yps].
  destruct (compute_backlog_growth_per_sec _ _ _) as [growth me].
  destruct (Consumers.list_with_capacity _ _ _ _) as [[pct rows] cr].
  unfold ledger, producer_entry, Producers.list_rows. cbn [snd ma_producers Producers.pr_inner]. rewrite lookup_fmap.
  destruct (Producers.pr_inner (ma_producers m) !! p) as [x|]; [|done]. cbn.
  unfold Producers.refresh_producer_rates. by destruct (_ && _).
Qed.

Lemma match_loop_turn_keeps e p d m :
  master_ok m -> owes p d m -> ledger p (run_match_loop_turn e m) = ledger p m.
Proof.
  intros Hok Ho. pose proof (owes_not_ready p d m Hok Ho) as Hp. apply entry_ledger.
  destruct Ho as (x & Hx & Hpe). assert (Hb : Producers.pe_state x = Producers.Busy)
    by (apply (mo_pending _ Hok p x Hx); by rewrite Hpe).
  destruct (sync_ready_keeps p m x Hp Hx Hb) as [Hs1 Hs2].
  unfold run_match_loop_turn. destruct (_ =? _); [done|].
  rewrite try_match_keeps; [by rewrite Hs1|by apply sync_ready_pool_ok|done].
Qed.

Lemma may_settle_dec now p d m c : may_settle now p d m c \/ ~ may_settle now p d m c.
Proof.
  unfold may_settle. destruct (cn_phase c) as [|q magic|q|id addr|q|j|]; try (right; tauto).
  2: destruct (decide (q = p)); [by left|by right].
  2: destruct (decide (j = d)); [by left|by right].
  destruct (decide (q = p)); [|by right; intros [? _]]. destruct (producer_entry p m) as [x|]; [|by right; intros (_ & y & ? & _)].
  destruct (frame_settles now magic (cn_input c) x) eqn:Hf; [left; eauto|right; intros (_ & y & [= <-] & ?); congruence].
Qed.

(** The steps of the relay but for the turns that may settle the debt. *)
Inductive quiet_step (p d : Z) (r : Relay) : Relay -> Prop :=
| qs_accept k addr input : ry_conns r !! k = None ->
    quiet_step p d r {| ry_state := ry_state r; ry_conns := <[k := new_conn addr input]> (ry_conns r) |}
| qs_turn e k : ids_left (rs_master (ry_state r)) ->
    (forall c, ry_conns r !! k = Some c -> ~ may_settle (env_now e) p d (rs_master (ry_state r)) c) ->
    quiet_step p d r (turn e k r)
| qs_match e : quiet_step p d r (on_state (on_master (run_match_loop_turn e)) r)
| qs_sample e : quiet_step p d r (on_state (run_history_sampler_turn e) r)
| qs_get_metrics e : quiet_step p d r (on_state (fun st => (metrics_handler e st).2) r)
| qs_get_ticks : quiet_step p d r (on_state (fun st => (ticks_handler st).2) r).

Lemma quiet_relay_step p d r r' : quiet_step p d r r' -> relay_step r r'.
Proof. destruct 1; by constructor. Qed.

Lemma quiet_or_settles p d r r' :
  relay_step r r' -> quiet_step p d r r' \/
  exists e k c, r' = turn e k r /\ ry_conns r !! k = Some c /\
    may_settle (env_now e) p d (rs_master (ry_state r)) c.
Proof.
  destruct 1 as [| e k r Hids | | | |]; [left; by constructor| |left; by constructor..].
  destruct (ry_conns r !! k) as [c|] eqn:Hk; [|left; constructor; [done|]; intros c; by rewrite Hk].
  destruct (may_settle_dec (env_now e) p d (rs_master (ry_state r)) c); [right; by exists e, k, c|].
  left. constructor; [done|]. intros c'. rewrite Hk. by intros [= <-].
Qed.

Lemma quiet_step_stands p d r r' :
  relay_ok r -> owes p d (rs_master (ry_state r)) -> quiet_step p d r r' ->
  stands p d (rs_master (ry_state r)) (rs_master (ry_state r')).
Proof.
  intros Hr Ho Hs. pose proof (ro_master _ (relay_step_ok _ _ Hr (quiet_relay_step _ _ _ _ Hs))) as Hok'.
  pose proof (ro_master _ Hr) as Hok. apply ledger_stands; [done..|]. clear Hok'.
  destruct Hs as [k addr input Hk|e k Hids Hm|e|e|e|]; cbn [on_state ry_state]; [done| | | | |].
  - unfold turn. destruct (ry_conns r !! k) as [c|] eqn:Hk; [|done].
    pose proof (conn_turn_keeps e _ c p d Hok Hids Ho (Hm c eq_refl) (ro_sessions _ Hr k c Hk)) as Hkeep.
    destruct (conn_turn e _ c) as [m' c']. apply Hkeep. intros id Hid.
    apply (ow_ids _ _ _ (ro_consumers _ Hr)). by exists k, c.
  - by eapply match_loop_turn_keeps.
  - rewrite sampler_master. apply snapshot_ledger.
  - destruct (metrics_master e (ry_state r)) as [->| ->]; [done|apply snapshot_ledger].
  - unfold ticks_handler. by destruct (drain_ticks _).
Qed.

(** *** The end of a producer's connection *)

Lemma owes_dec_iff p d m :
  owes p d m <-> (producer_entry p m ≫= Producers.pe_pending_consumer_id) = Some d.
Proof.
  unfold owes. destruct (producer_entry p m) as [e|]; cbn; [|by split; [intros (? & ? & _)|]].
  split; [by intros (? & [= <-] & ?)|]. intros Hd. by exists e.
Qed.

(** The consumer that is requeued is the one that was owed a batch. *)
Lemma orphaned_assigned p m j :
  master_ok m ->
  Consumers.assigned j (ma_consumers (orphaned p m)) = Some p <->
  Consumers.assigned j (ma_consumers m) = Some p /\ ~ owes p j m.
Proof.
  intros Hok. rewrite owes_dec_iff. unfold orphaned.
  set (m1 := on_inner (on_ready (fun s => s ∖ {[p]})) m).
  destruct (take_pending_fields p (ma_producers m1)) as (Hpend & _).
  destruct (Producers.take_pending_consumer p (ma_producers m1)) as [cid r]. cbn [fst] in Hpend. subst cid.
  change (Producers.pr_inner (ma_producers m1) !! p) with (producer_entry p m).
  cbn [on_producers ma_consumers].
  destruct (producer_entry p m ≫= Producers.pe_pending_consumer_id) as [d|]; [|naive_solver].
  unfold requeue_orphan, Consumers.state_of. cbn [ma_consumers on_inner m1].
  destruct (Consumers.cr_inner (ma_consumers m) !! d) as [ce|] eqn:Hce; cbn [fmap option_fmap option_map].
  - destruct (String.eqb (Consumers.ce_state ce) "awaiting_batch" || String.eqb (Consumers.ce_state ce) "matcher_queue") eqn:Hst.
    + unfold Consumers.match_context. rewrite Hce. cbn [enqueue_consumer push_consumer_wait_with_done on_inner on_consumers ma_consumers].
      rewrite (proj2 (set_phase_lookup d "matcher_queue" (ma_consumers m) ltac:(done))).
      destruct (decide (j = d)) as [->|Hj]; naive_solver.
    + assert (Hn : Consumers.assigned d (ma_consumers m) = None).
      { unfold Consumers.assigned. rewrite Hce. cbn. destruct (Consumers.ce_assigned_producer_id ce) as [q|] eqn:Hq; [|done].
        rewrite (Consumers.co_phase _ (mo_consumers _ Hok) d ce Hce) in Hst by by rewrite Hq. done. }
      split; [|naive_solver]. intros Hj. split; [done|]. intros Hd. injection Hd as Hd. subst d. cbn [ma_consumers] in Hj. by rewrite Hn in Hj.
  - split; [|naive_solver]. intros Hj. split; [done|]. intros Hd. injection Hd as Hd. subst d.
    cbn [ma_consumers] in Hj. unfold Consumers.assigned in Hj. by rewrite Hce in Hj.
Qed.

(** Matching leaves the assignments to a producer outside the pool alone. *)
Lemma try_match_assigned e m p j :
  master_ok m -> p ∉ mi_ready (ma_inner m) ->
  Consumers.assigned j (ma_consumers (try_match e m).1) = Some p <-> Consumers.assigned j (ma_consumers m) = Some p.
Proof.
  intros Hok Hp. destruct (try_match_spec e m Hok)
    as (m' & pairs & -> & _ & Hok' & _ & _ & Hw & _ & Hall & _ & _ & Has). cbn [fst].
  destruct (decide (j ∈ waiting_ids m)) as [Hj|Hj]; [|by apply Has].
  split; [|intros Hjp; destruct (mo_connected _ Hok j Hj) as [_ Hn]; congruence]. intros Hjp. exfalso.
  unfold waiting_ids in Hj. rewrite Hw, fmap_app, elem_of_app in Hj. destruct Hj as [Hj|Hj].
  - rewrite <- list_fmap_compose in Hj. apply list_elem_of_fmap in Hj as ([q c] & -> & Hin).
    rewrite Forall_forall in Hall. destruct (Hall _ Hin) as (Hq & _ & [_ _ Hm]). cbn in Hjp, Hq, Hm.
    rewrite Hm in Hjp. by injection Hjp as ->.
  - destruct (mo_connected _ Hok' j Hj) as [_ Hn]. congruence.
Qed.

Lemma orphan_requeued p m d :
  master_ok m -> owes p d m -> Consumers.assigned d (ma_consumers m) = Some p ->
  exists ready addr, Consumers.match_context d (ma_consumers m) = Some (ready, addr) /\
    {| pc_consumer_id := d; pc_ready := ready; pc_data_addr := addr; pc_done := None |}
      ∈ mi_waiting (ma_inner (orphaned p m)).
Proof.
  intros Hok (x & Hx & Hpe) Has. unfold Consumers.assigned in Has. unfold Consumers.match_context.
  destruct (Consumers.cr_inner (ma_consumers m) !! d) as [ce|] eqn:Hce; [|done]. cbn in Has.
  do 2 eexists. split; [reflexivity|].
  unfold orphaned. destruct (take_pending_fields p (ma_producers m)) as (Hpend & _).
  change (ma_producers (on_inner (on_ready (fun s => s ∖ {[p]})) m)) with (ma_producers m).
  destruct (Producers.take_pending_consumer p (ma_producers m)) as [cid r]. cbn [fst] in Hpend. subst cid.
  change (Producers.pr_inner (ma_producers m) !! p) with (producer_entry p m). rewrite Hx. cbn [mbind option_bind].
  rewrite Hpe. cbn [on_producers ma_inner]. unfold requeue_orphan, Consumers.state_of, Consumers.match_context.
  cbn [ma_consumers on_inner]. rewrite Hce. cbn [fmap option_fmap option_map].
  rewrite (Consumers.co_phase _ (mo_consumers _ Hok) d ce Hce) by by rewrite Has.
  cbn [String.eqb Ascii.eqb Bool.eqb orb Consumers.AWAITING]. unfold enqueue_consumer, push_consumer_wait_with_done.
  cbn. apply elem_of_app. right. by left.
Qed.

(** A request in the queue is still there with nobody ready, or was matched. *)
Lemma queued_or_matched e m entry :
  master_ok m -> entry ∈ mi_waiting (ma_inner m) ->
  let m' := (try_match e m).1 in
  (entry ∈ mi_waiting (ma_inner m') /\ mi_ready (ma_inner m') = ∅) \/
  (exists q, q ∈ mi_ready (ma_inner m) /\ matched q entry m m').
Proof.
  intros Hok Hin. destruct (try_match_spec e m Hok) as (m' & pairs & -> & _ & Hok' & Hend & _ & Hw & _ & Hall & _).
  cbn [fst]. rewrite Hw in Hin. apply elem_of_app in Hin as [Hin|Hin].
  - right. apply list_elem_of_fmap in Hin as ([q c0] & Heq & Hq). cbn in Heq. subst c0.
    rewrite Forall_forall in Hall. destruct (Hall _ Hq) as (Hpool & _ & Hm). by exists q.
  - left. split; [done|]. destruct Hend as [He|He]; [|done]. rewrite He in Hin. by apply not_elem_of_nil in Hin.
Qed.

(** ** Properties *)

(** C20: an outstanding ASGN stands.  From a state in which producer [p] owes consumer
    [d] a batch, however many turns of whatever connections, of the match loop, the
    sampler and the HTTP requests follow, [p] still owes [d] the batch, was sent no
    second frame and is not in the ready pool, as long as none of the turns is one that
    may settle the debt ([may_settle]): a PRDY, a DELV or a FAIL of [p], a heartbeat of
    [p] that announces a backlog in its ring or comes later than the limit for a busy
    producer, the end of the connection of [p], or the end of that of [d].  Every step
    of the relay is a quiet one or such a turn.  This is about the entry of the
    producer; the assignment of the consumer can be cleared by the report of another
    producer ([late_report_unassigns] in [Reports.v]). *)
Theorem outstanding_assignment_kept p d r r' :
  relay_ok r -> owes p d (rs_master (ry_state r)) -> star (quiet_step p d) r r' ->
  star relay_step r r' /\
  stands p d (rs_master (ry_state r)) (rs_master (ry_state r')) /\
  (forall r'', relay_step r' r'' -> quiet_step p d r' r'' \/
     exists e k c, r'' = turn e k r' /\ ry_conns r' !! k = Some c /\
       may_settle (env_now e) p d (rs_master (ry_state r')) c).
Proof.
  intros Hr Ho Hstar.
  assert (star relay_step r r' /\ stands p d (rs_master (ry_state r)) (rs_master (ry_state r'))) as [H1 H2];
    [|split_and!; [exact H1|exact H2|intros r''; apply quiet_or_settles]].
  revert Hr Ho. induction Hstar as [r|r r1 r' Hs Hstar IH]; intros Hr Ho.
  - split; [constructor|]. apply ledger_stands; [by apply ro_master|done..].
  - destruct (quiet_step_stands p d r r1 Hr Ho Hs) as (Ho1 & Hf1 & Hp1). apply quiet_relay_step in Hs.
    destruct (IH (relay_step_ok _ _ Hr Hs) Ho1) as (H0 & H1 & H2 & H3).
    split; [by eapply star_step|]. split_and!; [done|congruence|done].
Qed.

(** C25: the end of a consumer's connection leaves no trace of it: not in the table,
    the queue or the index of assignments, and no producer owes it a batch; the
    other consumers stay. *)
Theorem consumer_disconnect_correct e m c id :
  master_ok m -> cn_phase c = ConsumerDrop id ->
  let '(m', c') := conn_turn e m c in
  master_ok m' /\ cn_phase c' = Closed /\ ~ connected m' id /\ id ∉ waiting_ids m' /\
  (forall p, id ∉ Consumers.awaiting p (ma_consumers m')) /\ (forall p, ~ owes p id m') /\
  (forall j, j <> id -> connected m' j <-> connected m j) /\ (forall p, present m' p <-> present m p).
Proof.
  intros Hok Hph. unfold conn_turn. rewrite Hph.
  destruct (drop_consumer_session_spec e id m Hok) as (H1 & H2 & H3 & H4 & H5 & H6).
  destruct (drop_consumer_session_same e id m Hok) as (H7 & _).
  split_and!; try done. intros p (x & Hx & Hp). by apply (H6 p x).
Qed.

(** C26: the end of a producer's connection, busy or not.  It is in no table and not in
    the pool any more, and the other producers and all the consumers stay.  The index
    of assignments keeps nothing of the consumer it owed a batch to; what it keeps is
    a consumer that awaits the producer although the producer does not owe it a batch
    (one the master gave up on).  And the consumer it owed a batch to, if that awaits
    this producer, is not lost: the request it made, with its tag, size and address, is back in the queue and no
    producer is ready, or another producer already got its ASGN. *)
Theorem producer_disconnect_correct e m c p :
  master_ok m -> cn_phase c = ProducerDrop p ->
  let '(m', c') := conn_turn e m c in
  master_ok m' /\ cn_phase c' = Closed /\ ~ present m' p /\ p ∉ mi_ready (ma_inner m') /\
  (forall q, q <> p -> present m' q <-> present m q) /\ (forall j, connected m' j <-> connected m j) /\
  (forall j, j ∈ Consumers.awaiting p (ma_consumers m') <-> j ∈ Consumers.awaiting p (ma_consumers m) /\ ~ owes p j m) /\
  (forall d, owes p d m -> Consumers.assigned d (ma_consumers m) = Some p ->
     exists ready addr, Consumers.match_context d (ma_consumers m) = Some (ready, addr) /\
       let entry := {| pc_consumer_id := d; pc_ready := ready; pc_data_addr := addr; pc_done := None |} in
       (entry ∈ mi_waiting (ma_inner m') /\ mi_ready (ma_inner m') = ∅) \/
       (exists q, q <> p /\ matched q entry m m')).
Proof.
  intros Hok Hph. unfold conn_turn. rewrite Hph. pose proof (orphaned_ok p m Hok) as Hok1.
  destruct (on_producer_disconnect_same e p m Hok) as (Hpr & Hco & _).
  assert (Hpool : p ∉ mi_ready (ma_inner (orphaned p m))) by (rewrite orphaned_pool; set_solver).
  pose proof (on_producer_disconnect_ok e p m Hok) as Hok'. rewrite on_producer_disconnect_eq in *.
  split_and!; [exact Hok'|done|rewrite Hpr; tauto| |naive_solver|exact Hco| |].
  - destruct (try_match_spec e _ Hok1) as (m' & pairs & -> & _ & _ & _ & Hsub & _). cbn [fst]. set_solver.
  - intros j. rewrite (Consumers.co_index _ (mo_consumers _ Hok')), (Consumers.co_index _ (mo_consumers _ Hok)).
    rewrite try_match_assigned by done. by apply orphaned_assigned.
  - intros d Ho Has. destruct (orphan_requeued p m d Hok Ho Has) as (ready & addr & Hctx & Hin).
    exists ready, addr. split; [exact Hctx|]. cbv zeta.
    destruct (queued_or_matched e _ _ Hok1 Hin) as [?|(q & Hq & [M1 (frame & l & M2 & M3 & M4) M5])]; [by left|right].
    rewrite orphaned_pool in Hq. assert (Hqp : q <> p) by set_solver. exists q. split; [done|].
    constructor; [exact M1| |exact M5]. exists frame, l. split_and!; [done| |done].
    unfold frames in *. by rewrite orphaned_entry in M3.
Qed.

(** Witnesses: the relay in which producer 1 owes consumer 1 a batch. *)
Definition dropping (id : Z) : Conn :=
  {| cn_addr := "c"; cn_phase := ConsumerDrop id; cn_input := []; cn_written := [] |}.

Definition demo_state : Master := rs_master (ry_state demo_relay).

Lemma demo_relay_ok : relay_ok demo_relay.
Proof.
  eapply star_invariant; [apply relay_step_ok| |apply (initial_ok 0 demo_config)].
  eapply star_step; [apply (rs_accept 0 "p" producer_bytes); reflexivity|].
  eapply star_step; [apply (rs_accept 1 "c" consumer_bytes); reflexivity|].
  apply (demo_turns_star [0; 1; 0; 1]%nat). vm_compute. reflexivity.
Qed.

Lemma demo_owes : owes 1 1 demo_state.
Proof. eexists. split; vm_compute; reflexivity. Qed.

(** Both connections take another turn, in which they read that the peer is gone, and
    the match loop passes; the ends themselves are still to come. *)
Lemma outstanding_assignment_kept_witness :
  let r' := on_state (on_master (run_match_loop_turn (tick_env 1500))) (demo_turns [1; 0]%nat demo_relay) in
  owes 1 1 demo_state /\ frames 1 demo_state <> Some [] /\ star relay_step demo_relay r' /\
  stands 1 1 demo_state (rs_master (ry_state r')) /\
  (forall r'', relay_step r' r'' -> quiet_step 1 1 r' r'' \/
     exists e k c, r'' = turn e k r' /\ ry_conns r' !! k = Some c /\
       may_settle (env_now e) 1 1 (rs_master (ry_state r')) c).
Proof.
  intros r'. split; [exact demo_owes|]. split; [vm_compute; discriminate|].
  apply (outstanding_assignment_kept 1 1 demo_relay r' demo_relay_ok demo_owes).
  assert (Hq : forall k r, ids_left_b (rs_master (ry_state r)) = true ->
    match cn_phase <$> ry_conns r !! k with
    | Some (ProducerFrame _ _ | ProducerDrop _ | ConsumerDrop _) => false | _ => true
    end = true -> quiet_step 1 1 r (turn (tick_env 1000) k r)).
  { intros k r Hids Hph. constructor; [by apply ids_left_true|]. intros c Hc. rewrite Hc in Hph. cbn in Hph.
    unfold may_settle. destruct (cn_phase c); first [discriminate Hph|tauto]. }
  eapply star_step; [apply (Hq 1%nat); vm_compute; reflexivity|].
  eapply star_step; [apply (Hq 0%nat); vm_compute; reflexivity|].
  eapply star_step; [apply (qs_match 1 1 _ (tick_env 1500))|apply star_refl].
Defined.

Lemma consumer_disconnect_correct_witness :
  waiting_ids demo_master = [1; 2] /\
  let '(m', c') := conn_turn (tick_env 2000) demo_master (dropping 1) in
  master_ok m' /\ cn_phase c' = Closed /\ ~ connected m' 1 /\ 1 ∉ waiting_ids m' /\
  (forall p, 1 ∉ Consumers.awaiting p (ma_consumers m')) /\ (forall p, ~ owes p 1 m') /\
  (forall j, j <> 1 -> connected m' j <-> connected demo_master j) /\
  (forall p, present m' p <-> present demo_master p).
Proof.
  split; [vm_compute; reflexivity|].
  exact (consumer_disconnect_correct (tick_env 2000) demo_master (dropping 1) 1 demo_master_ok eq_refl).
Defined.

Lemma producer_disconnect_correct_witness :
  let c := {| cn_addr := "p"; cn_phase := ProducerDrop 1; cn_input := []; cn_written := [] |} in
  owes 1 1 demo_state /\ Consumers.assigned 1 (ma_consumers demo_state) = Some 1 /\
  let '(m', c') := conn_turn (tick_env 2000) demo_state c in
  master_ok m' /\ cn_phase c' = Closed /\ ~ present m' 1 /\ 1 ∉ mi_ready (ma_inner m') /\
  (forall q, q <> 1 -> present m' q <-> present demo_state q) /\ (forall j, connected m' j <-> connected demo_state j) /\
  (forall j, j ∈ Consumers.awaiting 1 (ma_consumers m') <-> j ∈ Consumers.awaiting 1 (ma_consumers demo_state) /\ ~ owes 1 j demo_state) /\
  (forall d, owes 1 d demo_state -> Consumers.assigned d (ma_consumers demo_state) = Some 1 ->
     exists ready addr, Consumers.match_context d (ma_consumers demo_state) = Some (ready, addr) /\
       let entry := {| pc_consumer_id := d; pc_ready := ready; pc_data_addr := addr; pc_done := None |} in
       (entry ∈ mi_waiting (ma_inner m') /\ mi_ready (ma_inner m') = ∅) \/
       (exists q, q <> 1 /\ matched q entry demo_state m')).
Proof.
  intros c. split; [apply demo_owes|]. split; [vm_compute; reflexivity|].
  apply (producer_disconnect_correct (tick_env 2000) demo_state c 1); [apply demo_relay_ok|reflexivity].
Defined.
