(* ===== verification/Reports.v ===== *)
(** * Batch reports and consumer cycles ([finish_producer_batch], [handle_consumer])

    What a DELV, a FAIL and a CRDY do to the whole state of the master, whatever
    matches the freed producer or the new request then lead to: the counters, the
    producer's and the consumer's entries, the queue. *)

From S2P Require Import Prelude Protocol Metrics Matchmaker Server Relay Assignments.
From S2P Require Producers Consumers.

(** The counters of [Metrics] a report moves. *)
Definition totals (m : Master) : Z * Z * Z * Z * Z :=
  let me := ma_metrics m in
  (me_transfers_total me, me_transfer_bytes_total me, me_batches_total me,
   me_delivery_failures_total me, me_requeue_total me).

Definition consumer_entry (j : Z) (m : Master) : option Consumers.ConsumerEntry :=
  Consumers.cr_inner (ma_consumers m) !! j.

(** A consumer matching has nothing to do with: not queued, no ASGN outstanding. *)
Definition bystander (j : Z) (m : Master) : Prop :=
  j ∉ waiting_ids m /\ Consumers.assigned j (ma_consumers m) = None.

(** ** Lemmas *)

Lemma release_bystander p c j r :
  Consumers.consumers_ok r -> Consumers.assigned j r = None ->
  Consumers.cr_inner (Consumers.release_stale_assignments p c r) !! j = Consumers.cr_inner r !! j.
Proof.
  intros Hok Hj. unfold Consumers.release_stale_assignments.
  change (default ∅ (Consumers.cr_awaiting_by_producer r !! p)) with (Consumers.awaiting p r).
  destruct (decide _); [done|]. rewrite Consumers.untrack_inner.
  match goal with |- context [foldl _ r (elements ?s)] => set (stale := s) end.
  destruct (Consumers.foldl_with_entry Consumers.release_entry (elements stale) r (NoDup_elements _)) as (Hl & _).
  rewrite Hl. destruct (decide (j ∈ elements stale)) as [Hin|]; [|done].
  apply elem_of_elements, elem_of_difference in Hin as [Hin _]. apply (Consumers.co_index _ Hok) in Hin. congruence.
Qed.

Lemma mark_bystander p c j r :
  j <> c -> Consumers.cr_inner (Consumers.mark_awaiting_batch c p r) !! j = Consumers.cr_inner r !! j.
Proof.
  intros Hj. unfold Consumers.mark_awaiting_batch, Consumers.track_awaiting, Consumers.with_entry.
  cbn [Consumers.cr_inner]. by rewrite lookup_alter_ne.
Qed.

(** A turn of [try_match] changes the consumers' table by one assignment, or not. *)
Lemma send_match_consumers now io p c m :
  let m' := (send_match now io p c m).1 in
  totals m' = totals m /\
  (ma_consumers m' = ma_consumers m \/
   ma_consumers m' = Consumers.mark_awaiting_batch (pc_consumer_id c) p
                       (Consumers.release_stale_assignments p (pc_consumer_id c) (ma_consumers m))).
Proof.
  cbv zeta. unfold send_match. destruct (encode_assign (assign_of c)) as [frame|err]; [|by split; [|left]].
  destruct (Producers.send_assign io p frame (ma_producers m)) as [[u|msg] r]; [|by split; [|left]]. cbn [fst].
  unfold complete_match, totals. match goal with |- context [send_done c (Ok tt) ?x] => set (m1 := x) end.
  destruct (send_done_fields c (Ok tt) m1) as (_ & -> & _).
  assert (ma_metrics (send_done c (Ok tt) m1) = ma_metrics m1) as -> by (unfold send_done; by destruct (pc_done c)).
  split; [|by right]. unfold m1. cbn [on_metrics ma_metrics]. unfold record_assign_tick, push_tick. by destruct (_ =? 0).
Qed.

Lemma try_match_turn_consumers now io m :
  let m' := (try_match_turn now io m).1 in
  totals m' = totals m /\
  (ma_consumers m' = ma_consumers m \/
   exists p c, c ∈ waiting_ids m /\
     ma_consumers m' = Consumers.mark_awaiting_batch c p (Consumers.release_stale_assignments p c (ma_consumers m))).
Proof.
  cbv zeta. unfold try_match_turn. destruct (_ || _); [by split; [|left]|].
  destruct (Producers.rank_ready_candidates _ _ _) as [[[[p|] stale] rr] r]; [|by split; [|left]].
  match goal with |- context [take_next_waiting_inner ?x] => set (i := x) end.
  destruct (decide (mi_waiting i = [])) as [He|Hne].
  - unfold take_next_waiting_inner. rewrite He. cbn. by split; [|left].
  - destruct (take_next_spec i Hne) as (pick & c & Hc & -> & _).
    match goal with |- context [send_match now io p c ?x] =>
      destruct (send_match_consumers now io p c x) as [-> [->| ->]] end; [by split; [|left]|].
    split; [done|]. right. exists p, (pc_consumer_id c). split; [|done].
    apply list_elem_of_fmap. exists c. split; [done|]. by eapply list_elem_of_lookup_2.
Qed.

Lemma try_match_bystander e m j :
  master_ok m -> bystander j m ->
  let m' := (try_match e m).1 in consumer_entry j m' = consumer_entry j m /\ bystander j m'.
Proof.
  intros Hok Hj. cbv zeta. unfold try_match.
  assert (H : forall n i m, master_ok m -> bystander j m ->
    consumer_entry j (try_match_loop n i e m).1 = consumer_entry j m /\ bystander j (try_match_loop n i e m).1).
  { clear m Hok Hj. induction n as [|n IH]; intros i m Hok Hj; [done|]. cbn [try_match_loop].
    assert (Hgo : consumer_entry j (try_match_turn (env_now e) (env_io e i) m).1 = consumer_entry j m).
    { destruct (try_match_turn_consumers (env_now e) (env_io e i) m) as (_ & [Hs|(p & c & Hc & Hs)]);
        unfold consumer_entry; rewrite Hs; [done|]. destruct Hj as [Hj1 Hj2].
      rewrite mark_bystander by (intros ->; done). apply release_bystander; [by apply mo_consumers|done]. }
    assert (Has : Consumers.assigned j (ma_consumers (try_match_turn (env_now e) (env_io e i) m).1) = None).
    { destruct Hj as [_ Hj2]. unfold Consumers.assigned, consumer_entry in *. by rewrite Hgo. }
    pose proof (try_match_turn_spec (env_now e) (env_io e i) m Hok) as Ht. destruct Hj as [Hj1 Hj2].
    destruct (try_match_turn _ _ m) as [m1 [r|]]; cbn [fst] in *.
    - destruct Ht as [_ Ht]. split; [done|]. split; [|done]. unfold waiting_ids. by rewrite (ts_waiting _ _ Ht).
    - destruct Ht as (p & c & Ht). rewrite <- Hgo. apply IH; [by apply Ht|]. split; [|done].
      intros Hin. apply Hj1. unfold waiting_ids in *. rewrite (tm_waiting _ _ _ _ _ Ht), fmap_app, elem_of_app. by right. }
  specialize (H (S (size (mi_ready (ma_inner m)))) 0%nat m Hok Hj). by destruct (try_match_loop _ _ _ _).
Qed.

Lemma try_match_totals e m : totals (try_match e m).1 = totals m.
Proof.
  unfold try_match. assert (H : forall n i m, totals (try_match_loop n i e m).1 = totals m).
  { induction n as [|n IH]; intros i m0; [done|]. cbn [try_match_loop].
    destruct (try_match_turn_consumers (env_now e) (env_io e i) m0) as (Ht & _).
    destruct (try_match_turn _ _ m0) as [m1 [r|]]; [done|]. by rewrite IH. }
  specialize (H (S (size (mi_ready (ma_inner m)))) 0%nat m). by destruct (try_match_loop _ _ _ _).
Qed.

(** *** The parts of a report *)

(** A consumer's entry after the report about its batch. *)
Definition settled (ok : bool) (n b ts : Z) (e : Consumers.ConsumerEntry) : Consumers.ConsumerEntry :=
  if ok then
    if n =? 0 then
      {| e with Consumers.ce_unacked := 0; Consumers.ce_assigned_producer_id := None; Consumers.ce_state := "idle" |}
    else Consumers.apply_batch_delivery n b ts e
  else
    {| e with Consumers.ce_unacked := 0; Consumers.ce_assigned_producer_id := None;
              Consumers.ce_state := "delivery_failed" |}.

(** The counters after it. *)
Definition counted (ok : bool) (n b : Z) (t : Z * Z * Z * Z * Z) : Z * Z * Z * Z * Z :=
  let '(transfers, bytes, batches, failures, requeue) := t in
  if ok then
    if n =? 0 then t else (wrap 64 (transfers + n), wrap 64 (bytes + b), wrap 64 (batches + 1), failures, requeue)
  else (transfers, bytes, batches, wrap 64 (failures + 1), wrap 64 (requeue + n)).

Lemma settle_entry now p c n b ok msg m :
  consumer_entry c (settle_consumer now p c n b ok msg m) = settled ok n b now <$> consumer_entry c m.
Proof.
  unfold settle_consumer, consumer_entry, settled. destruct ok; cbn [on_metrics on_consumers ma_consumers].
  - unfold Consumers.finish_batch. destruct (Consumers.cr_inner (ma_consumers m) !! c) as [e|] eqn:He.
    + match goal with |- context [Consumers.untrack_stale ?pid c ?r] =>
        destruct (Consumers.untrack_stale_fields pid c r) as (-> & _) end.
      destruct (n =? 0); unfold Consumers.with_entry; cbn [Consumers.cr_inner]; by rewrite lookup_alter_eq, He.
    + by rewrite He.
  - unfold Consumers.set_phase, Consumers.set_state. cbn [String.eqb Ascii.eqb Bool.eqb].
    set (r1 := Consumers.set_unacked c 0 (ma_consumers m)).
    assert (H1 : Consumers.cr_inner r1 !! c =
      (fun e => {| e with Consumers.ce_unacked := 0 |}) <$> Consumers.cr_inner (ma_consumers m) !! c)
      by (unfold r1, Consumers.set_unacked, Consumers.with_entry; cbn; by rewrite lookup_alter_eq).
    rewrite Consumers.take_assigned_spec, H1.
    destruct (Consumers.cr_inner (ma_consumers m) !! c) as [e|] eqn:He; cbn [fmap option_fmap option_map]; [|by rewrite H1].
    unfold Consumers.with_entry at 1. cbn [Consumers.cr_inner]. rewrite lookup_alter_eq.
    match goal with |- context [Consumers.untrack_stale ?pid c ?r] =>
      destruct (Consumers.untrack_stale_fields pid c r) as (-> & _) end.
    unfold Consumers.with_entry. cbn [Consumers.cr_inner]. by rewrite lookup_alter_eq, H1.
Qed.

Lemma settle_totals now p c n b ok msg m :
  c <> 0 -> totals (settle_consumer now p c n b ok msg m) = counted ok n b (totals m).
Proof.
  intros Hc. unfold settle_consumer, totals, counted.
  destruct ok; cbn [on_metrics on_consumers ma_metrics]; unfold record_transfer_tick;
    destruct (Z.eqb_spec c 0); try done; cbn [andb].
  - destruct (n =? 0); [done|]. unfold push_tick. by destruct (c =? 0).
  - unfold push_tick. by destruct (c =? 0).
Qed.

Lemma before_done_entries e p report ok msg m :
  let c := report_target p m in
  let m' := before_done e p report ok msg m in
  let n := dr_msg_count report in
  let b := dr_batch_bytes report in
  totals m' = (if 0 <? c then counted ok n b (totals m) else totals m) /\
  (0 < c -> consumer_entry c m' = settled ok n b (env_now e) <$> consumer_entry c m).
Proof.
  cbv zeta. unfold before_done, report_target, producer_entry.
  destruct (take_pending_fields p (ma_producers m)) as (Hp & _).
  destruct (Producers.take_pending_consumer p (ma_producers m)) as [pending r]. cbn [fst] in Hp. subst pending.
  set (m1 := {| m with ma_producers := r |}). change (ma_consumers m1) with (ma_consumers m).
  set (c := report_consumer p _ (ma_consumers m)).
  match goal with |- totals (if ok then on_producers ?f ?x else on_producers ?g ?x) = _ /\ _ =>
    assert (Hsame : totals (if ok then on_producers f x else on_producers g x) = totals x /\
      consumer_entry c (if ok then on_producers f x else on_producers g x) = consumer_entry c x) by (by destruct ok)
  end.
  destruct Hsame as [-> ->]. destruct (Z.ltb_spec 0 c) as [Hc|Hc].
  - split; [by rewrite settle_totals by lia|]. intros _. by rewrite settle_entry.
  - split; [done|lia].
Qed.

(** The state a report leaves before the matching it triggers. *)
Definition released (p : Z) (m : Master) : Master :=
  on_inner (on_ready (fun s => s ∖ {[p]})) (on_producers (Producers.set_state p Producers.Idle) m).

Lemma released_ok p m : master_ok m -> owes_nothing p m -> master_ok (released p m).
Proof.
  intros Hok Hfree. apply shrink_pool_ok, producers_only_ok; [done|by apply Producers.set_state_ok, Hok|].
  apply Producers.set_state_good; [done| |exact (master_good _ Hok)]. intros e' He'. right. by apply Hfree.
Qed.

(** ** Properties *)

(** The consumer a report is for. *)
Lemma report_settles_consumer e p report ok msg m :
  master_ok m ->
  let c := report_target p m in
  let m' := finish_producer_batch e p report ok msg m in
  0 < c -> c ∉ waiting_ids m ->
  consumer_entry c m' = settled ok (dr_msg_count report) (dr_batch_bytes report) (env_now e) <$> consumer_entry c m /\
  Consumers.assigned c (ma_consumers m') = None.
Proof.
  intros Hok. cbv zeta. rewrite finish_producer_batch_eq.
  destruct (before_done_spec e p report ok msg m Hok) as (Hok1 & Hi & _ & _ & Has).
  pose proof (reported_free p report ok msg e m Hok) as Hfree.
  destruct (before_done_entries e p report ok msg m) as (_ & Hce).
  set (m1 := before_done e p report ok msg m) in *.
  change (on_producer_done e p m1) with (try_match e (released p m1)).1.
  pose proof (released_ok p m1 Hok1 Hfree) as Hok2. intros Hc Hw.
  destruct (try_match_bystander e (released p m1) (report_target p m) Hok2) as [Hb1 [_ Hb2]].
  { split; [unfold waiting_ids in *; cbn; by rewrite Hi|]. cbn. rewrite Has.
    by destruct (decide (_ /\ _)); [|naive_solver]. }
  split; [|done]. rewrite Hb1. by apply Hce.
Qed.

(** C21: a producer's report, DELV or FAIL.  The producer is idle, out of the pool
    and owes nothing any more, with its own counters moved; the consumer the batch
    was for has the state, the unacknowledged count and no assignment, as the
    report says; the master's counters move by exactly this batch, and not at all
    for a report that no consumer waits for or an empty delivery; and no match
    made for others in the same turn changes any of this.  The report wakes the
    matcher: it runs on the queue as it is, the pool without the producer, the
    producers' entries but for this one and the assignments but for this consumer's,
    and ends when nobody waits or nobody is ready.  What is said of the consumer is
    for one that has not asked again meanwhile. *)
Theorem report_settled e p report ok msg m ent :
  master_ok m -> producer_entry p m = Some ent ->
  let c := report_target p m in
  let m' := finish_producer_batch e p report ok msg m in
  let n := dr_msg_count report in
  let b := dr_batch_bytes report in
  master_ok m' /\ p ∉ mi_ready (ma_inner m') /\
  producer_entry p m' = Some (reported ok n ent) /\
  totals m' = (if 0 <? c then counted ok n b (totals m) else totals m) /\
  (0 < c -> c ∉ waiting_ids m ->
     consumer_entry c m' = settled ok n b (env_now e) <$> consumer_entry c m /\
     Consumers.assigned c (ma_consumers m') = None) /\
  (mi_waiting (ma_inner m') = [] \/ mi_ready (ma_inner m') = ∅) /\
  (exists m1 ts, matching_run e 0 m1 ts m' /\ mi_waiting (ma_inner m1) = mi_waiting (ma_inner m) /\
     mi_ready (ma_inner m1) = mi_ready (ma_inner m) ∖ {[p]} /\
     (forall q, producer_entry q m1 = if decide (q = p) then Some (reported ok n ent) else producer_entry q m) /\
     (forall j, Consumers.assigned j (ma_consumers m1) =
        if decide (j = c /\ 0 < c) then None else Consumers.assigned j (ma_consumers m))).
Proof.
  intros Hok He. pose proof (report_settles_consumer e p report ok msg m Hok) as Hset. revert Hset.
  cbv zeta. rewrite finish_producer_batch_eq.
  destruct (before_done_spec e p report ok msg m Hok) as (Hok1 & Hi & Hent & _ & Has).
  pose proof (reported_free p report ok msg e m Hok) as Hfree.
  destruct (before_done_entries e p report ok msg m) as (Htot & Hce).
  set (m1 := before_done e p report ok msg m) in *.
  change (on_producer_done e p m1) with (try_match e (released p m1)).1.
  pose proof (released_ok p m1 Hok1 Hfree) as Hok2.
  destruct (try_match_run e _ Hok2) as (m' & ts & Heq & _ & Hrun).
  destruct (matching_run_frame _ _ _ _ _ Hok2 Hrun) as [Hok' Hend Hsub _ _ _ Hf _ _].
  pose proof (try_match_totals e (released p m1)) as Htm.
  rewrite Heq in *. intros Hset. cbn [fst] in *.
  assert (Hnot : p ∉ mi_ready (ma_inner (released p m1))) by (cbn; set_solver).
  assert (Hrel : forall q, producer_entry q (released p m1) =
    if decide (q = p) then Some (reported ok (dr_msg_count report) ent) else producer_entry q m).
  { intros q. unfold producer_entry at 1, released. cbn [on_inner on_producers ma_producers].
    rewrite Producers.set_state_entry.
    destruct (decide (q = p)) as [->|Hq].
    - change (Producers.pr_inner (ma_producers m1) !! p) with (producer_entry p m1).
      rewrite Hent, He. destruct (decide (p = p)) as [_|]; [|done]. cbn. f_equal. unfold reported. by destruct ok.
    - change (Producers.pr_inner (ma_producers m1) !! q) with (producer_entry q m1).
      rewrite Hent. by destruct (decide (q = p)). }
  split_and!; [done|set_solver| | | |exact Hend|].
  - rewrite Hf by done. rewrite Hrel. by destruct (decide (p = p)).
  - rewrite Htm. exact Htot.
  - exact Hset.
  - exists (released p m1), ts. split_and!; [exact Hrun|unfold released; cbn; by rewrite Hi..|exact Hrel|exact Has].
Qed.

(** C38: a late report takes the consumer from its new producer.  A consumer that gave
    up waiting and asked again is assigned to another producer while the first still
    owes it a batch.  The first one's DELV then clears the assignment to the second,
    which the master goes on holding busy for that consumer: the two tables disagree
    until it reports. *)
Theorem late_report_unassigns e p q c report msg m :
  master_ok m -> p <> q -> 0 < c -> owes p c m -> owes q c m -> Consumers.assigned c (ma_consumers m) = Some q ->
  let m' := finish_producer_batch e p report true msg m in
  master_ok m' /\ Consumers.assigned c (ma_consumers m') = None /\ owes q c m'.
Proof.
  intros Hok Hpq Hc (x & Hx & Hpx) (y & Hy & Hpy) Has. cbv zeta.
  assert (Ht : report_target p m = c) by (unfold report_target, report_consumer; rewrite Hx; cbn; rewrite Hpx; cbn; by destruct (Z.eqb_spec c 0); [lia|]).
  pose proof (report_settles_consumer e p report true msg m Hok) as Hset. cbv zeta in Hset. rewrite Ht in Hset.
  destruct Hset as [_ Hn]; [done| |].
  { intros Hw. destruct (mo_connected _ Hok c Hw) as [_ Hno]. congruence. }
  split_and!; [by apply finish_producer_batch_ok|done|].
  exists y. split; [|done]. rewrite finish_producer_batch_keeps; [done|done|congruence|].
  apply (owes_not_ready q c m Hok). by exists y.
Qed.

(** Producer 2 got consumer 1's ASGN, as the first match, and delivers 3 messages. *)
Definition busy_master : Master := (try_match {| env_now := 500; env_io := fun _ => Ok tt |} demo_master).1.

Lemma busy_master_ok : master_ok busy_master.
Proof. apply try_match_ok, demo_master_ok. Qed.

Lemma report_settled_witness :
  let ent := default (Producers.new_entry "" 0) (producer_entry 2 busy_master) in
  let report := {| dr_msg_count := 3; dr_batch_bytes := 40 |} in
  let m' := finish_producer_batch demo_env 2 report true None busy_master in
  totals m' = (3, 40, 1, 0, 0) /\
  (master_ok m' /\ 2 ∉ mi_ready (ma_inner m') /\ producer_entry 2 m' = Some (reported true 3 ent) /\
   totals m' = (if 0 <? report_target 2 busy_master then counted true 3 40 (totals busy_master) else totals busy_master) /\
   (0 < report_target 2 busy_master -> report_target 2 busy_master ∉ waiting_ids busy_master ->
      consumer_entry (report_target 2 busy_master) m' =
        settled true 3 40 500 <$> consumer_entry (report_target 2 busy_master) busy_master /\
      Consumers.assigned (report_target 2 busy_master) (ma_consumers m') = None) /\
   (mi_waiting (ma_inner m') = [] \/ mi_ready (ma_inner m') = ∅) /\
   (exists m1 ts, matching_run demo_env 0 m1 ts m' /\ mi_waiting (ma_inner m1) = mi_waiting (ma_inner busy_master) /\
      mi_ready (ma_inner m1) = mi_ready (ma_inner busy_master) ∖ {[2]} /\
      (forall q, producer_entry q m1 = if decide (q = 2) then Some (reported true 3 ent) else producer_entry q busy_master) /\
      (forall j, Consumers.assigned j (ma_consumers m1) =
         if decide (j = report_target 2 busy_master /\ 0 < report_target 2 busy_master) then None
         else Consumers.assigned j (ma_consumers busy_master)))).
Proof.
  intros ent report m'. split; [vm_compute; reflexivity|].
  apply (report_settled demo_env 2 report true None busy_master ent); [apply busy_master_ok|vm_compute; reflexivity].
Defined.

(** Consumer 1 asks again while producer 2 owes it a batch, and gets producer 3. *)
Definition calm : env := {| env_now := 500; env_io := fun _ => Ok tt |}.

Definition asked_again : Master :=
  (on_producer_ready calm 3 (queued calm 1 (demo_request "a") "h:1" busy_master)).1.

Lemma asked_again_ok : master_ok asked_again.
Proof.
  apply on_producer_ready_ok, queued_ok; [apply busy_master_ok|..].
  - vm_compute. by eexists.
  - vm_compute. split; discriminate.
  - vm_compute. split; discriminate.
Qed.

Lemma late_report_unassigns_witness :
  let report := {| dr_msg_count := 3; dr_batch_bytes := 40 |} in
  let m' := finish_producer_batch calm 2 report true None asked_again in
  master_ok m' /\ Consumers.assigned 1 (ma_consumers m') = None /\ owes 3 1 m'.
Proof.
  intros report m'. apply (late_report_unassigns calm 2 3 1 report None asked_again).
  - exact asked_again_ok.
  - discriminate.
  - reflexivity.
  - eexists. split; vm_compute; reflexivity.
  - eexists. split; vm_compute; reflexivity.
  - vm_compute. reflexivity.
Defined.
