(* ===== verification/Text.v ===== *)
(** * Text functions of the standard library

    What the sources use of [str]: lines, trimming, splitting, number parsing.  A
    text is the list of its UTF-8 bytes; the separators are ASCII, so splitting
    bytes splits characters.  The second part holds the lemmas on texts without
    white space and on printed numbers. *)

From S2P Require Import Prelude Float64.
From Stdlib Require Import Floats.SpecFloat.

Notation text := (list byte).

Definition byte_is (c : string) (b : byte) : bool := bool_decide ([b] = as_bytes c).

Definition is_digit (b : byte) : bool := (48 <=? byte.unsigned b) && (byte.unsigned b <=? 57).

Definition digit_val (b : byte) : Z := byte.unsigned b - 48.

(** [to_ascii_lowercase] *)
Definition lower_byte (b : byte) : byte :=
  if (65 <=? byte.unsigned b) && (byte.unsigned b <=? 90) then byte.of_Z (byte.unsigned b + 32) else b.

Definition to_ascii_lowercase (t : text) : text := map lower_byte t.

(** ** Splitting *)

(** [split_once(c)]: the parts before and after the first [c]. *)
Fixpoint split_once (c : byte) (t : text) : option (text * text) :=
  match t with
  | [] => None
  | b :: t' =>
    if decide (b = c) then Some ([], t')
    else match split_once c t' with Some (x, y) => Some (b :: x, y) | None => None end
  end.

(** [rsplit_once(c)]: around the last [c]. *)
Definition rsplit_once (c : byte) (t : text) : option (text * text) :=
  match split_once c (rev t) with
  | Some (x, y) => Some (rev y, rev x)
  | None => None
  end.

(** [split(c)]: never empty. *)
Fixpoint split (c : byte) (t : text) : list text :=
  match t with
  | [] => [[]]
  | b :: t' =>
    if decide (b = c) then [] :: split c t'
    else match split c t' with x :: xs => (b :: x) :: xs | [] => [[b]] end
  end.

Definition strip_suffix (suffix t : text) : option text :=
  let n := (length t - length suffix)%nat in
  if bool_decide (drop n t = suffix) then Some (take n t) else None.

Definition strip_prefix (prefix t : text) : option text :=
  if bool_decide (take (length prefix) t = prefix) then Some (drop (length prefix) t) else None.

Definition NL : byte := Byte.x0a.
Definition CR : byte := Byte.x0d.

(** [lines]: a final line ending opens no line, [\r\n] ends one too. *)
Fixpoint lines_of (parts : list text) : list text :=
  match parts with
  | [] => []
  | [last] => if decide (last = []) then [] else [last]
  | x :: rest => default x (strip_suffix [CR] x) :: lines_of rest
  end.

Definition lines (t : text) : list text := lines_of (split NL t).

(** ** Trimming *)

(** The encodings of the characters with the property White_Space. *)
Definition white_space : list text :=
  [[Byte.x09]; [Byte.x0a]; [Byte.x0b]; [Byte.x0c]; [Byte.x0d]; [Byte.x20];
   [Byte.xc2; Byte.x85]; [Byte.xc2; Byte.xa0]; [Byte.xe1; Byte.x9a; Byte.x80];
   [Byte.xe2; Byte.x80; Byte.x80]; [Byte.xe2; Byte.x80; Byte.x81]; [Byte.xe2; Byte.x80; Byte.x82];
   [Byte.xe2; Byte.x80; Byte.x83]; [Byte.xe2; Byte.x80; Byte.x84]; [Byte.xe2; Byte.x80; Byte.x85];
   [Byte.xe2; Byte.x80; Byte.x86]; [Byte.xe2; Byte.x80; Byte.x87]; [Byte.xe2; Byte.x80; Byte.x88];
   [Byte.xe2; Byte.x80; Byte.x89]; [Byte.xe2; Byte.x80; Byte.x8a]; [Byte.xe2; Byte.x80; Byte.xa8];
   [Byte.xe2; Byte.x80; Byte.xa9]; [Byte.xe2; Byte.x80; Byte.xaf]; [Byte.xe2; Byte.x81; Byte.x9f];
   [Byte.xe3; Byte.x80; Byte.x80]].

(** The rest of the text after a pattern of the list, the first that matches. *)
Fixpoint strip_any (strip : text -> text -> option text) (pats : list text) (t : text) : option text :=
  match pats with
  | [] => None
  | p :: ps => match strip p t with Some t' => Some t' | None => strip_any strip ps t end
  end.

(** Every pattern is non-empty: the length is enough fuel. *)
Fixpoint strip_all (strip : text -> text -> option text) (pats : list text) (fuel : nat) (t : text) : text :=
  match fuel with
  | O => t
  | S n => match strip_any strip pats t with Some t' => strip_all strip pats n t' | None => t end
  end.

(** [trim_matches] of the patterns, on both sides. *)
Definition trim_pats (pats : list text) (t : text) : text :=
  let t := strip_all strip_prefix pats (length t) t in
  strip_all strip_suffix pats (length t) t.

Definition trim (t : text) : text := trim_pats white_space t.

Definition trim_matches (b : byte) (t : text) : text := trim_pats [[b]] t.

(** ** Numbers *)

Fixpoint parse_digits (t : text) (acc : Z) : option Z :=
  match t with
  | [] => Some acc
  | b :: t' => if is_digit b then parse_digits t' (acc * 10 + digit_val b) else None
  end.

(** [uN::from_str]: digits, with an optional [+], in range. *)
Definition parse_uint (w : Z) (t : text) : option Z :=
  let digits := match t with b :: t' => if byte_is "+" b then t' else t | [] => t end in
  match digits with
  | [] => None
  | _ => match parse_digits digits 0 with
         | Some n => if n <=? umax w then Some n else None
         | None => None
         end
  end.

(** The longest prefix of digits: its value, its length, the rest. *)
Fixpoint take_digits (t : text) (acc : Z) (n : nat) : Z * nat * text :=
  match t with
  | b :: t' => if is_digit b then take_digits t' (acc * 10 + digit_val b) (S n) else (acc, n, t)
  | [] => (acc, n, [])
  end.

(** [m * 10^e] rounded to the nearest, ties to even. *)
Definition decimal_to_f64 (neg : bool) (m e : Z) : f64 :=
  match m with
  | Zpos _ =>
    if 0 <=? e then binary_normalize prec emax (if neg then - (m * 10 ^ e) else m * 10 ^ e) 0 neg
    else
      let '(q, qe, l) := SFdiv_core_binary prec emax m 0 (10 ^ (- e)) 0 in
      binary_round_aux prec emax neg q qe l
  | _ => S754_zero neg
  end.

(** The exponent part: [e] or [E], an optional sign, digits. *)
Definition parse_exponent (t : text) : option Z :=
  match t with
  | [] => Some 0
  | b :: t' =>
    if byte_is "e" b || byte_is "E" b then
      let '(neg, digits) :=
        match t' with
        | c :: t'' => if byte_is "-" c then (true, t'') else if byte_is "+" c then (false, t'') else (false, t')
        | [] => (false, t')
        end in
      match take_digits digits 0 0 with
      | (n, S _, []) => Some (if neg then - n else n)
      | _ => None
      end
    else None
  end.

(** [f64::from_str]. *)
Definition parse_f64 (t : text) : option f64 :=
  let '(neg, t) :=
    match t with
    | b :: t' => if byte_is "-" b then (true, t') else if byte_is "+" b then (false, t') else (false, t)
    | [] => (false, t)
    end in
  let word := to_ascii_lowercase t in
  if bool_decide (word = as_bytes "inf") || bool_decide (word = as_bytes "infinity") then Some (S754_infinity neg)
  else if bool_decide (word = as_bytes "nan") then Some S754_nan
  else
    let '(m, n1, rest) := take_digits t 0 0 in
    let '(m, n2, rest) :=
      match rest with
      | b :: rest' => if byte_is "." b then take_digits rest' m 0 else (m, 0%nat, rest)
      | [] => (m, 0%nat, rest)
      end in
    if (n1 + n2 =? 0)%nat then None
    else
      match parse_exponent rest with
      | Some e => Some (decimal_to_f64 neg m (e - Z.of_nat n2))
      | None => None
      end.

(** [x as u64]: towards zero, saturating, 0 for NaN. *)
Definition to_u64 (x : f64) : Z :=
  match x with
  | S754_finite false m e => Z.min (umax 64) (Z.shiftl (Zpos m) e)
  | S754_infinity false => umax 64
  | _ => 0
  end.

(** ** Lemmas *)

(** The printing ASCII characters but the space. *)
Definition graphic (b : byte) : bool := (33 <=? byte.unsigned b) && (byte.unsigned b <=? 126).

Definition all (P : byte -> bool) (t : text) : Prop := Forall (fun b => P b = true) t.

(** [Forall] over all the bytes, by computation. *)
Definition every_byte (P : byte -> bool) : bool := forallb (fun n => P (byte.of_Z (Z.of_nat n))) (seq 0 256).

Lemma every_byte_spec P : every_byte P = true -> forall b, P b = true.
Proof.
  unfold every_byte. rewrite forallb_forall. intros H b.
  pose proof (byte.unsigned_range b) as Hr. specialize (H (Z.to_nat (byte.unsigned b))).
  rewrite Z2Nat.id in H by lia. rewrite byte.of_Z_unsigned in H. apply H, in_seq. lia.
Qed.

Lemma not_graphic b : graphic b = false -> forall P, all graphic P -> b ∉ P.
Proof. intros Hb t Ht Hin. unfold all in Ht. rewrite Forall_forall in Ht. specialize (Ht b Hin). congruence. Qed.

Lemma split_once_none c t : c ∉ t -> split_once c t = None.
Proof.
  induction t as [|b t IH]; intros Hc; [done|]. apply not_elem_of_cons in Hc as [Hb Hc]. cbn.
  destruct (decide (b = c)); [congruence|]. by rewrite IH.
Qed.

Lemma split_once_app c x y : c ∉ x -> split_once c (x ++ c :: y) = Some (x, y).
Proof.
  induction x as [|b x IH]; intros Hc; cbn; [by rewrite decide_True|].
  apply not_elem_of_cons in Hc as [Hb Hc]. rewrite decide_False by congruence. by rewrite IH.
Qed.

Lemma rsplit_once_app c x y : c ∉ y -> rsplit_once c (x ++ c :: y) = Some (x, y).
Proof.
  intros Hc. unfold rsplit_once.
  replace (rev (x ++ c :: y)) with (rev y ++ c :: rev x) by (rewrite rev_app_distr; cbn; by rewrite <- app_assoc).
  rewrite split_once_app; [by rewrite !rev_involutive|]. rewrite list_elem_of_In, <- in_rev, <- list_elem_of_In. done.
Qed.

Lemma split_none c t : c ∉ t -> split c t = [t].
Proof.
  induction t as [|b t IH]; intros Hc; [done|]. apply not_elem_of_cons in Hc as [Hb Hc]. cbn.
  rewrite decide_False by congruence. by rewrite IH.
Qed.

Lemma split_app c x y : c ∉ x -> split c (x ++ c :: y) = x :: split c y.
Proof.
  induction x as [|b x IH]; intros Hc; cbn; [by rewrite decide_True|].
  apply not_elem_of_cons in Hc as [Hb Hc]. rewrite decide_False by congruence. by rewrite IH.
Qed.

(** A list of lines, each ended, is read back. *)
Definition unlines (ls : list text) : text := concat (map (fun l => l ++ [NL]) ls).

Lemma lines_unlines ls :
  (forall l, l ∈ ls -> all graphic l) -> lines (unlines ls) = ls.
Proof.
  intros Hls. unfold lines. induction ls as [|l ls IH]; [done|].
  assert (Hl : all graphic l) by (apply Hls; by left).
  unfold unlines. cbn [map concat]. rewrite <- app_assoc. cbn [app].
  rewrite split_app by (by apply (not_graphic NL)). fold (unlines ls).
  assert (IH' : lines_of (split NL (unlines ls)) = ls) by (apply IH; intros; apply Hls; by right).
  assert (Hne : split NL (unlines ls) <> []).
  { destruct (unlines ls) as [|b t]; [done|]. cbn. destruct (decide (b = NL)); [done|]. by destruct (split NL t). }
  assert (Hcr : strip_suffix [CR] l = None).
  { unfold strip_suffix. case_bool_decide as Hd; [|done]. exfalso.
    apply (not_graphic CR eq_refl l Hl). rewrite <- (take_drop (length l - length [CR]) l). rewrite Hd.
    apply elem_of_app. right. by left. }
  cbn [lines_of]. destruct (split NL (unlines ls)) as [|x xs] eqn:Hsp; [done|]. by rewrite Hcr, IH'.
Qed.

(** Texts of graphic characters have nothing to trim. *)
Lemma strip_any_none strip pats t :
  (forall p, p ∈ pats -> strip p t = None) -> strip_any strip pats t = None.
Proof.
  induction pats as [|p ps IH]; intros H; [done|]. cbn. rewrite H by by left. apply IH. intros; apply H; by right.
Qed.

(** A pattern whose outer bytes the text does not have. *)
Lemma strip_prefix_none b p t : b ∉ t -> strip_prefix (b :: p) t = None.
Proof.
  intros Hb. unfold strip_prefix. case_bool_decide as H; [|done]. exfalso. apply Hb.
  rewrite <- (take_drop (length (b :: p)) t), H. apply elem_of_app. left. by left.
Qed.

Lemma strip_suffix_none b p t : b ∉ t -> strip_suffix (p ++ [b]) t = None.
Proof.
  intros Hb. unfold strip_suffix. case_bool_decide as H; [|done]. exfalso. apply Hb.
  rewrite <- (take_drop (length t - length (p ++ [b])) t), H, !elem_of_app. right. right. by left.
Qed.

Lemma trim_pats_id pats t :
  (forall p, p ∈ pats -> exists b p' c p'', p = b :: p' /\ p = p'' ++ [c] /\ b ∉ t /\ c ∉ t) ->
  trim_pats pats t = t.
Proof.
  intros H. assert (Hs : forall n, strip_all strip_prefix pats n t = t).
  { intros [|n]; [done|]. cbn. rewrite strip_any_none; [done|]. intros p Hp.
    destruct (H p Hp) as (b & p' & _ & _ & -> & _ & Hb & _). by apply strip_prefix_none. }
  unfold trim_pats. rewrite Hs. destruct (length t); [done|]. cbn. rewrite strip_any_none; [done|].
  intros p Hp. destruct (H p Hp) as (_ & _ & c & p'' & _ & -> & _ & Hc). by apply strip_suffix_none.
Qed.

Lemma trim_graphic t : all graphic t -> trim t = t.
Proof.
  intros Ht. apply trim_pats_id. intros p Hp.
  assert (Hw : Forall (fun p => exists b p' c p'', p = b :: p' /\ p = p'' ++ [c] /\ graphic b = false /\ graphic c = false) white_space).
  { repeat constructor; (do 2 eexists);
      match goal with |- exists c p'', ?l = _ /\ _ => exists (default Byte.x00 (last l)), (removelast l) end;
      vm_compute; repeat split; reflexivity. }
  rewrite Forall_forall in Hw. destruct (Hw p Hp) as (b & p' & c & p'' & H1 & H2 & H3 & H4).
  exists b, p', c, p''. split_and!; [done|done|by apply not_graphic|by apply not_graphic].
Qed.

Lemma trim_matches_id b t : b ∉ t -> trim_matches b t = t.
Proof.
  intros Hb. apply trim_pats_id. intros p ->%list_elem_of_singleton. by exists b, [], b, [].
Qed.

(** *** Printed numbers *)

Lemma pretty_char_byte d :
  (d < 10)%N ->
  let b := Ascii.byte_of_ascii (pretty.pretty_N_char d) in is_digit b = true /\ digit_val b = Z.of_N d.
Proof.
  intros Hd. assert (Hc : exists k, (k < 10)%nat /\ d = N.of_nat k) by (exists (N.to_nat d); lia).
  destruct Hc as (k & Hk & ->). do 10 (destruct k as [|k]; [by vm_compute|]). lia.
Qed.

Lemma as_bytes_cons c s : as_bytes (String c s) = Ascii.byte_of_ascii c :: as_bytes s.
Proof. done. Qed.

(** Printing pushes the digits in front of [s]: reading them gives the number back. *)
Lemma parse_pretty_go n s :
  parse_digits (as_bytes (pretty.pretty_N_go n s)) 0 = parse_digits (as_bytes s) (Z.of_N n) /\
  (all is_digit (as_bytes s) -> all is_digit (as_bytes (pretty.pretty_N_go n s))).
Proof.
  revert s. induction (N.lt_wf_0 n) as [n _ IH]. intros s.
  destruct (decide (n = 0%N)) as [->|Hn]; [by rewrite pretty.pretty_N_go_0|].
  rewrite pretty.pretty_N_go_step by lia.
  assert (Hlt : (n / 10 < n)%N) by (apply N.div_lt; lia).
  destruct (IH _ Hlt (String (pretty.pretty_N_char (n mod 10)) s)) as [IH1 IH2].
  destruct (pretty_char_byte (n mod 10)) as [Hd Hv]; [apply N.mod_lt; lia|]. split.
  - rewrite IH1, as_bytes_cons. cbn [parse_digits]. rewrite Hd, Hv. f_equal.
    pose proof (N.div_mod n 10 ltac:(lia)). lia.
  - intros Hs. apply IH2. rewrite as_bytes_cons. by constructor.
Qed.

Lemma pretty_nonneg z :
  0 <= z -> pretty z = if decide (z = 0) then "0"%string else pretty.pretty_N_go (Z.to_N z) "".
Proof.
  intros Hz. destruct z as [|p|p]; [done| |lia].
  unfold pretty, pretty.pretty_Z, pretty, pretty.pretty_positive, pretty, pretty.pretty_N.
  by rewrite decide_False.
Qed.

Lemma pretty_digits z : 0 <= z -> all is_digit (as_bytes (pretty z)).
Proof.
  intros Hz. rewrite pretty_nonneg by done. destruct (decide (z = 0)); [by repeat constructor|].
  apply parse_pretty_go. constructor.
Qed.

Lemma pretty_nonempty z : 0 <= z -> as_bytes (pretty z) <> [].
Proof.
  intros Hz. rewrite pretty_nonneg by done. destruct (decide (z = 0)) as [|Hne]; [done|].
  intros He. destruct (parse_pretty_go (Z.to_N z) "") as [Hp _]. rewrite He in Hp. cbn in Hp.
  injection Hp as Hp. lia.
Qed.

Lemma is_digit_graphic b : is_digit b = true -> graphic b = true.
Proof. unfold is_digit, graphic. rewrite !andb_true_iff, !Z.leb_le. lia. Qed.

Lemma digits_graphic t : all is_digit t -> all graphic t.
Proof. intros H. eapply Forall_impl; [exact H|]. intros b. apply is_digit_graphic. Qed.

Lemma not_digit b : is_digit b = false -> forall t, all is_digit t -> b ∉ t.
Proof. intros Hb t Ht Hin. unfold all in Ht. rewrite Forall_forall in Ht. specialize (Ht b Hin). congruence. Qed.

(** [n.to_string().parse() == Ok(n)] *)
Lemma parse_uint_pretty w z : in_u w z -> parse_uint w (as_bytes (pretty z)) = Some z.
Proof.
  intros [Hz Hmax]. pose proof (pretty_digits z Hz) as Hd. pose proof (pretty_nonempty z Hz) as Hne.
  assert (Hp : parse_digits (as_bytes (pretty z)) 0 = Some z).
  { rewrite pretty_nonneg by done. destruct (decide (z = 0)) as [->|Hz0]; [done|].
    rewrite (proj1 (parse_pretty_go _ _)). cbn. f_equal. lia. }
  unfold parse_uint. destruct (as_bytes (pretty z)) as [|b t] eqn:Hs; [done|].
  assert (Hplus : byte_is "+" b = false).
  { apply Forall_cons in Hd as [Hb _]. unfold byte_is. case_bool_decide as He; [|done].
    injection He as ->. by vm_compute in Hb. }
  rewrite Hplus, Hp. destruct (Z.leb_spec z (umax w)); [done|lia].
Qed.
