(* ===== verification/Config.v ===== *)
(** * Configuration ([master/src/config.rs], [main.rs])

    The [key = value] file, sizes with units, socket addresses, and how command
    line, file and defaults combine into the master's configuration.  Reading the
    file and the command line parser are outside. *)

From S2P Require Import Prelude Utf8 Protocol Float64 Text Server.

Definition DEFAULT_HOST : string := "0.0.0.0".
Definition DEFAULT_CONTROL_PORT : Z := 9750.
Definition DEFAULT_METRICS_PORT : Z := 9752.

Record FileConfig := { fc_values : gmap string string }.

Record ResolvedConfig :=
  { rv_config_path : option string; rv_host : string; rv_control_port : Z; rv_metrics_port : Z;
    rv_control : string; rv_metrics : string; rv_history_interval_ms : Z; rv_history_cap : Z;
    rv_dashboard_dir : option string }.

Record CliOverrides :=
  { ov_host : option string; ov_control_port : option Z; ov_metrics_port : option Z;
    ov_history_interval_ms : option Z; ov_history_cap : option Z; ov_dashboard_dir : option string }.

(** ** The file *)

(** A line of the file: the key and value it sets, if any. *)
Definition parse_line (line : text) : option (string * string) :=
  let line := trim (default [] (head (split Byte.x23 line))) in
  if decide (line = []) then None
  else
    match split_once Byte.x3d line with
    | None => None
    | Some (k, v) =>
      let key := to_ascii_lowercase (trim k) in
      let val := trim_matches Byte.x27 (trim_matches Byte.x22 (trim v)) in
      if decide (key = []) then None
      else if decide (val = []) then None
      else Some (string_of_list_byte key, string_of_list_byte val)
    end.

Definition insert_line (out : gmap string string) (line : text) : gmap string string :=
  match parse_line line with Some (k, v) => <[k := v]> out | None => out end.

Definition parse_conf_text (raw : string) : gmap string string :=
  foldl insert_line ∅ (lines (as_bytes raw)).

(** ** Values *)

Definition KB : Z := 1024.
Definition MB : Z := KB * 1024.
Definition GB : Z := MB * 1024.

Definition size_units : list (string * Z) :=
  [("gb", GB); ("g", GB); ("mb", MB); ("m", MB); ("kb", KB); ("k", KB)]%string.

(** The loop over the units: the first suffix decides. *)
Fixpoint parse_units (units : list (string * Z)) (s : text) : option (option Z) :=
  match units with
  | [] => None
  | (suffix, mul) :: rest =>
    match strip_suffix (as_bytes suffix) s with
    | Some n => Some ((fun base => to_u64 (fmul base (of_int mul))) <$> parse_f64 (trim n))
    | None => parse_units rest s
    end
  end.

Definition parse_size (raw : text) : option Z :=
  let s := filter (fun b => b <> Byte.x5f) (to_ascii_lowercase (trim raw)) in
  if decide (s = []) then None
  else
    match parse_units size_units s with
    | Some r => r
    | None => parse_uint 64 s
    end.

Definition get_str (key : string) (f : FileConfig) : option string := fc_values f !! key.

Definition get_usize (key : string) (f : FileConfig) : option Z :=
  get_str key f ≫= fun v => parse_uint usize_w (as_bytes v).

Definition get_u64 (key : string) (f : FileConfig) : option Z :=
  get_str key f ≫= fun v => parse_size (as_bytes v).

Definition get_u16 (key : string) (f : FileConfig) : option Z :=
  get_str key f ≫= fun v => parse_uint 16 (as_bytes v).

(** ** Addresses *)

(** [format!("{host}:{port}")] *)
Definition host_port (host : text) (port : Z) : string :=
  string_of_list_byte (host ++ as_bytes ":" ++ as_bytes (pretty port)).

Definition format_socket_addr (host : string) (port : Z) : string :=
  let host := trim (as_bytes host) in
  if decide (take 1 host = as_bytes "[") then host_port host port
  else if decide (Byte.x3a ∈ host) then host_port (as_bytes "[" ++ host ++ as_bytes "]") port
  else host_port host port.

(** ** Resolution *)

(** [cli.or_else(|| file.and_then(get)).unwrap_or(default)] *)
Definition pick {A} (cli : option A) (get : FileConfig -> option A) (file : option FileConfig) (def : A) : A :=
  match cli with
  | Some a => a
  | None => default def (file ≫= get)
  end.

Definition resolve_bind (cli : CliOverrides) (file : option FileConfig) : string * Z * Z :=
  (pick (ov_host cli) (get_str "host") file DEFAULT_HOST,
   pick (ov_control_port cli) (get_u16 "control_port") file DEFAULT_CONTROL_PORT,
   pick (ov_metrics_port cli) (get_u16 "metrics_port") file DEFAULT_METRICS_PORT).

Definition resolve (file : option FileConfig) (config_path : option string) (cli : CliOverrides) :
    ResolvedConfig :=
  let '(host, control_port, metrics_port) := resolve_bind cli file in
  {| rv_config_path := config_path; rv_host := host; rv_control_port := control_port;
     rv_metrics_port := metrics_port; rv_control := format_socket_addr host control_port;
     rv_metrics := format_socket_addr host metrics_port;
     rv_history_interval_ms := pick (ov_history_interval_ms cli) (get_u64 "history_interval_ms") file 2000;
     rv_history_cap := pick (ov_history_cap cli) (get_usize "history_cap") file 1800;
     rv_dashboard_dir :=
       match ov_dashboard_dir cli with Some d => Some d | None => file ≫= get_str "dashboard_dir" end |}.

(** [Path::join] of a directory and a relative file name. *)
Definition join_path (dir file : string) : string :=
  if String.eqb dir "" then file
  else if decide (last (as_bytes dir) = Some Byte.x2f) then dir +:+ file
  else dir +:+ "/" +:+ file.

(** [env_var] is what [CUPIDMQ_CONFIG] holds. *)
Definition resolve_config_path (explicit env_var : option string) (cwd : string) : string :=
  match explicit with
  | Some p => p
  | None =>
    match env_var with
    | Some e => if String.eqb e "" then join_path cwd "cupidmq.conf" else e
    | None => join_path cwd "cupidmq.conf"
    end
  end.

(** What [main] gives [run]. *)
Definition relay_config (r : ResolvedConfig) : RelayConfig :=
  {| rc_control_addr := rv_control r; rc_metrics_addr := rv_metrics r;
     rc_history_interval_ms := rv_history_interval_ms r; rc_history_cap := rv_history_cap r;
     rc_dashboard_dir := rv_dashboard_dir r |}.

(** ** Lemmas *)

(** A setting that can be written as [key=value] on a line of its own. *)
Definition plain (t : text) : Prop :=
  t <> [] /\ all graphic t /\ Byte.x23 ∉ t /\ Byte.x22 ∉ t /\ Byte.x27 ∉ t.

Definition setting_ok (kv : string * string) : Prop :=
  plain (as_bytes kv.1) /\ plain (as_bytes kv.2) /\ Byte.x3d ∉ as_bytes kv.1 /\
  to_ascii_lowercase (as_bytes kv.1) = as_bytes kv.1.

Definition render_line (kv : string * string) : text := as_bytes kv.1 ++ [Byte.x3d] ++ as_bytes kv.2.

Definition render (kvs : list (string * string)) : string := string_of_list_byte (unlines (map render_line kvs)).

Lemma render_line_graphic kv : setting_ok kv -> all graphic (render_line kv).
Proof.
  intros ((_ & Hk & _) & (_ & Hv & _) & _). unfold render_line, all. rewrite !Forall_app. split_and!; try done.
  by constructor.
Qed.

Lemma parse_render_line kv : setting_ok kv -> parse_line (render_line kv) = Some kv.
Proof.
  intros Hok. pose proof (render_line_graphic kv Hok) as Hg.
  destruct Hok as ((Hkn & Hkg & Hkh & Hkq & Hks) & (Hvn & Hvg & Hvh & Hvq & Hvs) & He & Hl).
  unfold parse_line. rewrite split_none.
  2: { unfold render_line. rewrite !elem_of_app. intros [?|[Heq|?]]; [done| |done].
       apply list_elem_of_singleton in Heq. discriminate. }
  cbn [head default]. unfold default, id. cbn [from_option]. rewrite (trim_graphic _ Hg).
  destruct (decide (render_line kv = [])) as [Hnil|_].
  { unfold render_line in Hnil. by destruct (as_bytes kv.1). }
  unfold render_line at 1. cbn [app]. rewrite split_once_app by done.
  rewrite (trim_graphic _ Hkg), (trim_graphic _ Hvg), Hl, (trim_matches_id Byte.x22), trim_matches_id by done.
  rewrite !decide_False by done. rewrite !of_bytes_as_bytes. by destruct kv.
Qed.

Lemma parse_uint_some w t z : parse_uint w t = Some z -> z <= umax w.
Proof.
  unfold parse_uint. repeat case_match; try done; intros [= <-]; by apply Z.leb_le.
Qed.

(** ** Properties *)

(** A configuration file means what it says: the settings written one per line
    are read back, a later line for a key replaces an earlier one, and nothing
    else is set. *)
Theorem conf_text_roundtrip kvs :
  Forall setting_ok kvs ->
  parse_conf_text (render kvs) = foldl (fun out kv => <[kv.1 := kv.2]> out) ∅ kvs.
Proof.
  intros Hok. unfold parse_conf_text, render. rewrite as_bytes_of_bytes, lines_unlines.
  - generalize (∅ : gmap string string). induction Hok as [|kv kvs Hkv _ IH]; intros out; [done|].
    cbn [map foldl]. unfold insert_line at 2. rewrite parse_render_line by done. destruct kv as [k v]. apply IH.
  - intros l Hl. apply list_elem_of_In, in_map_iff in Hl as (kv & <- & Hin).
    apply list_elem_of_In in Hin. rewrite Forall_forall in Hok. by apply render_line_graphic, Hok.
Qed.

Lemma conf_text_roundtrip_witness :
  let kvs := [("host", "10.0.0.1"); ("history_cap", "64k"); ("host", "::1")]%string in
  parse_conf_text (render kvs) = foldl (fun out kv => <[kv.1 := kv.2]> out) ∅ kvs /\
  parse_conf_text (render kvs) !! "host"%string = Some "::1"%string.
Proof.
  intros kvs. split; [|vm_compute; reflexivity]. apply conf_text_roundtrip.
  repeat constructor; cbn; try discriminate; try (repeat constructor; reflexivity); vm_compute;
    try reflexivity; intros H; repeat (apply elem_of_cons in H as [H|H]; [discriminate|]); by apply elem_of_nil in H.
Defined.

(** Sizes without a unit.  Every [u64] printed in decimal is read back exactly:
    no digit is taken for a unit and nothing goes through floating point. *)
Theorem parse_size_plain n :
  in_u 64 n -> parse_size (as_bytes (pretty n)) = Some n.
Proof.
  intros Hn. pose proof (pretty_digits n (proj1 Hn)) as Hd. pose proof (pretty_nonempty n (proj1 Hn)) as Hne.
  pose proof (parse_uint_pretty 64 n Hn) as Hp.
  unfold parse_size. rewrite (trim_graphic _ (digits_graphic _ Hd)).
  set (t := as_bytes (pretty n)) in *.
  assert (Hlow : to_ascii_lowercase t = t).
  { unfold to_ascii_lowercase. rewrite <- (map_id t) at 2. apply map_ext_in. intros b Hb. unfold lower_byte.
    unfold all in Hd. rewrite Forall_forall in Hd. specialize (Hd b (proj2 (list_elem_of_In _ _) Hb)).
    unfold is_digit in Hd. destruct (Z.leb_spec 65 (byte.unsigned b)); [|done].
    apply andb_true_iff in Hd as [_ Hd%Z.leb_le]. lia. }
  rewrite Hlow, filter_all.
  2: { intros b Hb ->. by apply (not_digit Byte.x5f eq_refl t Hd). }
  rewrite decide_False by done.
  assert (Hunits : forall s p c, as_bytes s = p ++ [c] -> is_digit c = false -> strip_suffix (as_bytes s) t = None)
    by (intros s p c -> Hc; apply strip_suffix_none; by apply not_digit).
  assert (parse_units size_units t = None) as ->; [|done]. unfold size_units. cbn [parse_units].
  by rewrite (Hunits "gb"%string [Byte.x67] Byte.x62), (Hunits "g"%string [] Byte.x67),
    (Hunits "mb"%string [Byte.x6d] Byte.x62), (Hunits "m"%string [] Byte.x6d),
    (Hunits "kb"%string [Byte.x6b] Byte.x62), (Hunits "k"%string [] Byte.x6b).
Qed.

Lemma parse_size_plain_witness : parse_size (as_bytes "18446744073709551615") = Some (umax 64).
Proof. apply (parse_size_plain (umax 64)). vm_compute. split; discriminate. Defined.
