(* ===== verification/Gate.v ===== *)
(** * The gates of the consumer client ([EventGate] of [master/src/consumer/client.rs])

    A gate is an atomic flag with a [tokio::sync::Notify] beside it.  [ConsumerClient]
    uses its two gates as flags that change at once; here [set] and [wait] are taken
    apart into their accesses, any number of setters runs against the one task that
    waits, and the gate is proved to be such a flag and to lose no wake-up. *)

From S2P Require Import Prelude.

(** ** The notification *)

(** What the gate relies on of [Notify], which is not part of the crate: [notify_one]
    leaves a permit when nobody waits and wakes the task that does, so the next poll
    of [notified] after it is ready.  [notified] is [None] while it is pending. *)
Class Notifier :=
  { permit : Type;
    no_permit : permit;
    notify_one : permit -> permit;
    notified : permit -> option permit;
    notify_one_ready n : is_Some (notified (notify_one n)) }.

(** ** The gate *)

Section Gate.
Context `{Notifier}.

Record EventGate := { eg_raised : bool; eg_notify : permit }.

Definition new (raised : bool) : EventGate := {| eg_raised := raised; eg_notify := no_permit |}.

(** [set] is two accesses. *)
Definition store (g : EventGate) : EventGate := {| g with eg_raised := true |}.
Definition wake (g : EventGate) : EventGate := {| g with eg_notify := notify_one (eg_notify g) |}.
Definition set (g : EventGate) : EventGate := wake (store g).

Definition clear (g : EventGate) : EventGate := {| g with eg_raised := false |}.

(** Where the task that waits is: out of the gate, about to load the flag, in
    [notified().await], or past the loop of [wait]. *)
Inductive WaitPhase : Type :=
| Outside
| Loading
| Sleeping
| Returned.

(** A turn of the loop of [wait]; [None] while it is pending, or not in the loop. *)
Definition wait (ph : WaitPhase) (g : EventGate) : option (WaitPhase * EventGate) :=
  match ph with
  | Loading => Some (if eg_raised g then Returned else Sleeping, g)
  | Sleeping =>
    match notified (eg_notify g) with
    | Some n => Some (Loading, {| g with eg_notify := n |})
    | None => None
    end
  | Outside | Returned => None
  end.

(** ** Setters and one waiter *)

(** [gt_setters]: the setters between their two accesses. *)
Record Gated := { gt_gate : EventGate; gt_setters : nat; gt_waiter : WaitPhase }.

Definition boot (raised : bool) : Gated := {| gt_gate := new raised; gt_setters := 0; gt_waiter := Outside |}.

(** [Store], [Wake]: the accesses of any setter.  The rest is the one task that waits:
    it calls [wait], takes a turn, drops the call (the other branch of its [select!]
    was ready), leaves [wait], clears behind it ([wait_and_clear]), or calls [clear]. *)
Inductive gate_event : Type :=
| Store
| Wake
| Call
| Turn
| Cancel
| Leave
| LeaveClear
| Clear.

Definition gate_turn (ev : gate_event) (s : Gated) : option Gated :=
  match ev, gt_waiter s with
  | Store, _ => Some {| s with gt_gate := store (gt_gate s); gt_setters := S (gt_setters s) |}
  | Wake, _ =>
    match gt_setters s with
    | O => None
    | S n => Some {| s with gt_gate := wake (gt_gate s); gt_setters := n |}
    end
  | Call, Outside => Some {| s with gt_waiter := Loading |}
  | Turn, ph =>
    match wait ph (gt_gate s) with
    | Some (ph, g) => Some {| s with gt_gate := g; gt_waiter := ph |}
    | None => None
    end
  | Cancel, (Loading | Sleeping) => Some {| s with gt_waiter := Outside |}
  | Leave, Returned => Some {| s with gt_waiter := Outside |}
  | LeaveClear, Returned => Some {| s with gt_gate := clear (gt_gate s); gt_waiter := Outside |}
  | Clear, Outside => Some {| s with gt_gate := clear (gt_gate s) |}
  | _, _ => None
  end.

Fixpoint gate_run (evs : list gate_event) (s : Gated) : option Gated :=
  match evs with
  | [] => Some s
  | ev :: evs => match gate_turn ev s with Some s => gate_run evs s | None => None end
  end.

(** ** The specification: a flag *)

(** [Take]: seen raised and lowered at once. *)
Inductive flag_op : Type :=
| Raise
| See
| Take
| Lower.

Definition flag_turn (op : flag_op) (b : bool) : option bool :=
  match op with
  | Raise => Some true
  | See => if b then Some true else None
  | Take => if b then Some false else None
  | Lower => Some false
  end.

Fixpoint flag_run (ops : list flag_op) (b : bool) : option bool :=
  match ops with
  | [] => Some b
  | op :: ops => match flag_turn op b with Some b => flag_run ops b | None => None end
  end.

(** What an event is to the flag. *)
Definition ops_of (ev : gate_event) : list flag_op :=
  match ev with
  | Store => [Raise]
  | Leave => [See]
  | LeaveClear => [Take]
  | Clear => [Lower]
  | Wake | Call | Turn | Cancel => []
  end.

(** ** Lemmas *)

(** A task past its wait finds the flag as it saw it; one asleep has a wake-up ready
    or on its way once the flag is raised. *)
Record gate_ok (s : Gated) : Prop :=
  { gk_returned : gt_waiter s = Returned -> eg_raised (gt_gate s) = true;
    gk_wakes : gt_waiter s = Sleeping -> eg_raised (gt_gate s) = true ->
      (0 < gt_setters s)%nat \/ is_Some (notified (eg_notify (gt_gate s))) }.

Lemma boot_gate_ok raised : gate_ok (boot raised).
Proof. by constructor. Qed.

Lemma gate_turn_ok ev s s' : gate_ok s -> gate_turn ev s = Some s' -> gate_ok s'.
Proof.
  intros [Hr Hw]. destruct s as [[raised n] setters ph]. cbn in Hr, Hw.
  destruct ev; cbn; [| |destruct ph; try done..].
  - intros [= <-]. constructor; cbn; [done|]. intros _ _. left. lia.
  - destruct setters as [|k]; [done|]. intros [= <-]. constructor; cbn; [done|].
    intros _ _. right. apply notify_one_ready.
  - intros [= <-]. by constructor.
  - destruct raised; intros [= <-]; by constructor.
  - unfold wait. cbn. destruct (notified n) as [n'|]; [|done]. intros [= <-]. by constructor.
  - intros [= <-]. by constructor.
  - intros [= <-]. by constructor.
  - intros [= <-]. by constructor.
  - intros [= <-]. by constructor.
  - intros [= <-]. by constructor.
Qed.

Lemma gate_run_ok evs s s' : gate_ok s -> gate_run evs s = Some s' -> gate_ok s'.
Proof.
  revert s. induction evs as [|ev evs IH]; intros s Hok; cbn; [by intros [= <-]|].
  destruct (gate_turn ev s) as [t|] eqn:Ht; [|done]. apply IH. by eapply gate_turn_ok.
Qed.

Lemma gate_turn_flag ev s s' :
  gate_ok s -> gate_turn ev s = Some s' ->
  flag_run (ops_of ev) (eg_raised (gt_gate s)) = Some (eg_raised (gt_gate s')).
Proof.
  intros [Hr _]. destruct s as [[raised n] setters ph]. cbn in Hr.
  destruct ev; cbn; try (by intros [= <-]).
  - destruct setters; [done|]. by intros [= <-].
  - by destruct ph; intros; simplify_eq.
  - destruct ph; cbn; try destruct (notified n); intros; by simplify_eq.
  - by destruct ph; intros; simplify_eq.
  - destruct ph; try done. rewrite Hr by done. by intros [= <-].
  - destruct ph; try done. rewrite Hr by done. by intros [= <-].
  - by destruct ph; intros; simplify_eq.
Qed.

Lemma flag_run_app ops1 ops2 b b' : flag_run ops1 b = Some b' -> flag_run (ops1 ++ ops2) b = flag_run ops2 b'.
Proof.
  revert b. induction ops1 as [|op ops1 IH]; intros b; cbn; [by intros [= ->]|].
  destruct (flag_turn op b); [|done]. apply IH.
Qed.

Lemma gate_run_flag evs s s' :
  gate_ok s -> gate_run evs s = Some s' ->
  flag_run (concat (map ops_of evs)) (eg_raised (gt_gate s)) = Some (eg_raised (gt_gate s')).
Proof.
  revert s. induction evs as [|ev evs IH]; intros s Hok; cbn; [by intros [= <-]|].
  destruct (gate_turn ev s) as [t|] eqn:Ht; [|done]. intros Hrun.
  rewrite (flag_run_app _ _ _ _ (gate_turn_flag ev s t Hok Ht)). apply IH; [|done]. by eapply gate_turn_ok.
Qed.

(** ** Properties *)

(** C32: a gate is a flag, and loses no wake-up.  However the accesses of any number of
    setters fall between those of the task that waits, the calls that returned acted
    on the flag at once each: [wait_and_clear] took it raised, [wait] saw it raised.
    And once [set] is through and the gate is raised, a task anywhere in [wait],
    asleep or not, returns within two of its own turns. *)
Theorem gate_is_flag raised evs s :
  gate_run evs (boot raised) = Some s ->
  flag_run (concat (map ops_of evs)) raised = Some (eg_raised (gt_gate s)) /\
  (gt_waiter s = Loading \/ gt_waiter s = Sleeping ->
   eg_raised (gt_gate s) = true -> gt_setters s = 0%nat ->
   exists turns t, (length turns <= 2)%nat /\ Forall (fun ev => ev = Turn) turns /\
     gate_run turns s = Some t /\ gt_waiter t = Returned).
Proof.
  intros Hrun. split; [exact (gate_run_flag evs _ _ (boot_gate_ok raised) Hrun)|].
  destruct (gate_run_ok evs _ _ (boot_gate_ok raised) Hrun) as [_ Hw].
  intros Hph Hraised Hset. destruct s as [[r n] setters ph]. cbn in *. subst r setters.
  destruct Hph as [->| ->].
  - exists [Turn]. eexists. split_and!; [cbn; lia|by repeat constructor|reflexivity|done].
  - destruct (Hw eq_refl eq_refl) as [|[n' Hn]]; [lia|]. exists [Turn; Turn]. cbn. rewrite Hn.
    eexists. split_and!; [lia|by repeat constructor|reflexivity|done].
Qed.
End Gate.

(** ** An instance: the permit of [Notify] for one waiter *)

#[export] Instance one_permit : Notifier :=
  {| permit := bool; no_permit := false; notify_one := fun _ => true;
     notified := fun b => if b then Some false else None; notify_one_ready := fun _ => mk_is_Some _ _ eq_refl |}.

(** The waiter sleeps, two setters come, the first wakes it: it takes the flag, and the
    permit the second leaves costs the next call one turn. *)
Lemma gate_is_flag_witness :
  exists s, gate_run [Call; Turn; Store; Store; Wake; Turn; Turn; LeaveClear; Call; Turn; Wake; Turn; Turn; Store; Wake] (boot false)
    = Some s /\ gt_waiter s = Sleeping /\
  flag_run (concat (map ops_of [Call; Turn; Store; Store; Wake; Turn; Turn; LeaveClear; Call; Turn; Wake; Turn; Turn; Store; Wake])) false
    = Some (eg_raised (gt_gate s)) /\
  (gt_waiter s = Loading \/ gt_waiter s = Sleeping ->
   eg_raised (gt_gate s) = true -> gt_setters s = 0%nat ->
   exists turns t, (length turns <= 2)%nat /\ Forall (fun ev => ev = Turn) turns /\
     gate_run turns s = Some t /\ gt_waiter t = Returned).
Proof.
  eexists. split; [vm_compute; reflexivity|]. split; [reflexivity|]. apply gate_is_flag. vm_compute. reflexivity.
Defined.
