(* ===== verification/ConsumerClient.v ===== *)
(** * The consumer client ([master/src/consumer/client.rs])

    A consumer runs a data plane, which accepts batches from producers, and a
    control plane, which asks the master for one batch at a time.  The two share
    [DataPlane] and the gate [prefetch]; the application takes batches from a
    channel.  The model is a transition system on the shared state: the phases are
    the places where the code awaits, and each task moves on its own, so every
    interleaving of the tasks at these places is a run. *)

From S2P Require Import Prelude Utf8 Protocol Text Config.

Definition DEFAULT_MAX_BATCH_SIZE_COUNT : Z := 32.
Definition DEFAULT_PREFETCH_BATCH_COUNT : Z := 4.
Definition DEFAULT_BATCH_TIMEOUT_SECS : Z := 10.
Definition DEFAULT_DATA_IDLE_SECS : Z := 60.
Definition DEFAULT_RECONNECT_DELAY_SECS : Z := 2.
Definition CONNECT_RETRY_MS : Z := 100.

(** ** Configuration *)

Record ConsumerConfig :=
  { cc_master : string; cc_data_addr : string; cc_bind_addr : option string; cc_consumer_tag : string;
    cc_max_batch_size_count : Z; cc_prefetch_batch_count : Z; cc_batch_timeout_secs : Z;
    cc_data_idle_secs : Z; cc_reconnect : bool; cc_reconnect_delay_secs : Z }.

Definition parse_host_port (addr : string) : result error (string * Z) :=
  match rsplit_once Byte.x3a (as_bytes addr) with
  | None => bail "address must be host:port"
  | Some (host, port_s) =>
    if decide (host = []) then bail "address host required"
    else
      match parse_uint 16 port_s with
      | None => bail "invalid port"
      | Some port => Ok (string_of_list_byte host, port)
      end
  end.

Definition parse_master_addr (addr : string) : result error (string * Z) :=
  match parse_host_port addr with
  | Ok r => Ok r
  | Err _ => Ok (addr, 9750)
  end.

Definition new_config (master data_addr : string) : result error ConsumerConfig :=
  if String.eqb master "" then bail "master address required"
  else if String.eqb data_addr "" then bail "data_addr required (host:port)"
  else
    match parse_host_port data_addr with
    | Err _ => bail "data_addr must be host:port"
    | Ok _ =>
      Ok {| cc_master := master; cc_data_addr := data_addr; cc_bind_addr := None; cc_consumer_tag := "";
            cc_max_batch_size_count := DEFAULT_MAX_BATCH_SIZE_COUNT;
            cc_prefetch_batch_count := DEFAULT_PREFETCH_BATCH_COUNT;
            cc_batch_timeout_secs := DEFAULT_BATCH_TIMEOUT_SECS; cc_data_idle_secs := DEFAULT_DATA_IDLE_SECS;
            cc_reconnect := true; cc_reconnect_delay_secs := DEFAULT_RECONNECT_DELAY_SECS |}
    end.

Definition bind_addr (addr : string) (c : ConsumerConfig) : result error ConsumerConfig :=
  match parse_host_port addr with
  | Err _ => bail "bind_addr must be host:port"
  | Ok _ => Ok {| c with cc_bind_addr := Some addr |}
  end.

Definition consumer_tag (tag : string) (c : ConsumerConfig) : ConsumerConfig :=
  {| c with cc_consumer_tag := tag |}.
Definition max_batch_size_count (n : Z) (c : ConsumerConfig) : ConsumerConfig :=
  {| c with cc_max_batch_size_count := n |}.
Definition prefetch_batch_count (n : Z) (c : ConsumerConfig) : ConsumerConfig :=
  {| c with cc_prefetch_batch_count := Z.max n 1 |}.
Definition batch_timeout_secs (n : Z) (c : ConsumerConfig) : ConsumerConfig :=
  {| c with cc_batch_timeout_secs := Z.max n 1 |}.
Definition data_idle_secs (n : Z) (c : ConsumerConfig) : ConsumerConfig :=
  {| c with cc_data_idle_secs := Z.max n 1 |}.
Definition reconnect (on : bool) (c : ConsumerConfig) : ConsumerConfig := {| c with cc_reconnect := on |}.
Definition reconnect_delay_secs (n : Z) (c : ConsumerConfig) : ConsumerConfig :=
  {| c with cc_reconnect_delay_secs := Z.max n 1 |}.

Definition resolve_bind (c : ConsumerConfig) : result error (string * Z) :=
  match cc_bind_addr c with
  | Some bind => parse_host_port bind
  | None =>
    match parse_host_port (cc_data_addr c) with
    | Ok (_, port) => Ok ("0.0.0.0"%string, port)
    | Err e => Err e
    end
  end.

(** [CONNECT_RETRY_MS.min(reconnect_delay_secs.saturating_mul(1000))] *)
Definition connect_retry_interval (c : ConsumerConfig) : Z :=
  Z.min CONNECT_RETRY_MS (Z.min (cc_reconnect_delay_secs c * 1000) (umax 64)).

(** ** State *)

Definition batch : Type := list (list byte).

(** Where the control plane is.  [LoopTop]: before the test of [stop] in the loop of
    [run_control_plane]; [Connecting]: before a connection attempt;
    [WaitPrefetch] to [Handover]: in a session, waiting for the gate, clearing the
    cycle, writing the CRDY, in the flush behind it with the accept window still
    closed, waiting for the batch, sending it to the channel;
    [Backoff]: the sleep before the next attempt, counted as a reconnect or not;
    [Finishing]: sending the final [None]. *)
Inductive ControlPhase : Type :=
| LoopTop
| Connecting
| WaitPrefetch
| CycleStart
| Asking
| Opening
| WaitBatch
| Handover (b : batch)
| Backoff (counted : bool)
| Finishing
| ControlDone.

(** A data connection: at the top of its loop, before the test of [stop]; reading a
    frame, which no later [stop] interrupts; holding a batch it may store; about to
    raise [batch_ready] for the batch it stored; or ended. *)
Inductive DataPhase : Type :=
| Entering
| Reading
| Holding (b : batch)
| Raising
| DataClosed.

(** The application: in [recv], in the handler, out of [consume], or gone with its
    end of the channel. *)
Inductive AppPhase : Type :=
| Pulling
| Handling (b : batch)
| AppDone
| Dropped.

Record ConsumerStats :=
  { st_batches_in : Z; st_msgs_in : Z; st_reconnects : Z; st_drops : Z; st_empty_waits : Z; st_stale_batches : Z }.

(** [cs_accept], [cs_ready], [cs_pending], [cs_stale]: [DataPlane]; [cs_prefetch]: the
    gate; [cs_channel]: the channel; [cs_dead]: the permit of [session_dead];
    [cs_sent]: the frames written to the master; [cs_handled], [cs_lost]: the
    batches the handler finished, and those it failed on, was dropped with, or nobody
    received. *)
Record ConsumerState :=
  { cs_accept : bool; cs_ready : bool; cs_pending : option batch; cs_stale : Z;
    cs_prefetch : bool; cs_stop : bool; cs_channel : list (option batch); cs_stats : ConsumerStats;
    cs_control : ControlPhase; cs_dead : bool; cs_data : list DataPhase; cs_app : AppPhase;
    cs_sent : list (list byte); cs_handled : list batch; cs_lost : list batch }.

Definition zero_stats : ConsumerStats := Build_ConsumerStats 0 0 0 0 0 0.

(** The state [connect] starts the tasks with. *)
Definition connect : ConsumerState :=
  {| cs_accept := false; cs_ready := false; cs_pending := None; cs_stale := 0; cs_prefetch := true;
     cs_stop := false; cs_channel := []; cs_stats := zero_stats; cs_control := LoopTop; cs_dead := false;
     cs_data := []; cs_app := AppDone; cs_sent := []; cs_handled := []; cs_lost := [] |}.

Definition on_stats (f : ConsumerStats -> ConsumerStats) (s : ConsumerState) : ConsumerState :=
  {| s with cs_stats := f (cs_stats s) |}.

Definition count_drop (st : ConsumerStats) : ConsumerStats := {| st with st_drops := wrap 64 (st_drops st + 1) |}.
Definition count_reconnect (st : ConsumerStats) : ConsumerStats :=
  {| st with st_reconnects := wrap 64 (st_reconnects st + 1) |}.
Definition count_empty (st : ConsumerStats) : ConsumerStats :=
  {| st with st_empty_waits := wrap 64 (st_empty_waits st + 1) |}.
Definition count_batch (b : batch) (st : ConsumerStats) : ConsumerStats :=
  {| st with st_batches_in := wrap 64 (st_batches_in st + 1);
             st_msgs_in := wrap 64 (st_msgs_in st + Z.of_nat (length b)) |}.
Definition count_stale (stale : Z) (st : ConsumerStats) : ConsumerStats := {| st with st_stale_batches := stale |}.

(** ** The data plane *)

(** A frame as [serve_data_connection] reads it: its items, and the bytes left. *)
Definition read_data_batch (input : list byte) : result error (batch * list byte) :=
  match read_batch_frame input with
  | Err e => Err e
  | Ok (payload, rest) =>
    match parse_batch_payload_items payload with
    | Err e => Err e
    | Ok items => Ok (items, rest)
    end
  end.

(** The check of [accept_batch] on a batch just parsed. *)
Definition check_accept (b : batch) (s : ConsumerState) : DataPhase * ConsumerState :=
  if cs_accept s then (Holding b, s)
  else
    let stale := wrap 64 (cs_stale s + 1) in
    (Entering, on_stats (count_stale stale) {| s with cs_stale := stale |}).

(** What the read of a data connection meets: the bytes still to come on its
    stream, or the idle timeout. *)
Inductive data_event : Type :=
| Incoming (input : list byte)
| IdleTimeout.

(** A connection's next step; [store_batch] is two of them.  Only a read looks at the
    event. *)
Definition serve_step (ev : data_event) (ph : DataPhase) (s : ConsumerState) : DataPhase * ConsumerState :=
  match ph with
  | Entering => (if cs_stop s then DataClosed else Reading, s)
  | Reading =>
    match ev with
    | IdleTimeout => (DataClosed, s)
    | Incoming input =>
      match read_data_batch input with
      | Err _ => (DataClosed, s)
      | Ok (items, _) => check_accept items s
      end
    end
  | Holding b => (Raising, {| s with cs_pending := Some b |})
  | Raising => (Entering, {| s with cs_ready := true |})
  | DataClosed => (DataClosed, s)
  end.

Definition data_step (i : nat) (ev : data_event) (s : ConsumerState) : ConsumerState :=
  match cs_data s !! i with
  | None => s
  | Some ph => let '(ph, s) := serve_step ev ph s in {| s with cs_data := <[i := ph]> (cs_data s) |}
  end.

(** [run_data_plane]: one more connection; its first step looks at [stop]. *)
Definition accept_data (s : ConsumerState) : ConsumerState := {| s with cs_data := cs_data s ++ [Entering] |}.

(** ** The control plane *)

Definition set_control (ph : ControlPhase) (s : ConsumerState) : ConsumerState := {| s with cs_control := ph |}.
Definition set_accept_batch (on : bool) (s : ConsumerState) : ConsumerState := {| s with cs_accept := on |}.
Definition set_prefetch (s : ConsumerState) : ConsumerState := {| s with cs_prefetch := true |}.

(** The channel's size. *)
Definition capacity (c : ConsumerConfig) : nat := Z.to_nat (Z.max (cc_prefetch_batch_count c) 1).

Definition gives_up (c : ConsumerConfig) (s : ConsumerState) : bool := negb (cc_reconnect c) || cs_stop s.

(** What [run_control_plane] does with the result of a session. *)
Definition end_session (c : ConsumerConfig) (ok : bool) (s : ConsumerState) : ConsumerState :=
  let s := if ok then s else on_stats count_drop s in
  if gives_up c s then set_control Finishing s else set_control (Backoff true) (set_prefetch s).

(** The top of the session's loop. *)
Definition session_top (c : ConsumerConfig) (s : ConsumerState) : ConsumerState :=
  if cs_stop s then end_session c true s else set_control WaitPrefetch s.

(** A connection to the master that is up: REG!, then the session. *)
Definition register_session (c : ConsumerConfig) (write_ok : bool) (s : ConsumerState) : ConsumerState :=
  match encode_register (cc_data_addr c) with
  | Err _ =>
    let s := on_stats count_drop s in
    set_control (if gives_up c s then Finishing else Backoff false) s
  | Ok reg =>
    if write_ok then session_top c {| s with cs_dead := false; cs_sent := cs_sent s ++ [reg] |}
    else
      let s := on_stats count_drop s in
      set_control (if gives_up c s then Finishing else Backoff true) s
  end.

(** Once [batch_ready] was seen: what is pending is handed over, if anything. *)
Definition take_pending (c : ConsumerConfig) (s : ConsumerState) : ConsumerState :=
  let s := on_stats (count_stale (cs_stale s)) (set_accept_batch false s) in
  let b := default [] (cs_pending s) in
  let s := {| s with cs_pending := None |} in
  match b with
  | [] => session_top c (set_prefetch (on_stats count_empty s))
  | _ => set_control (Handover b) (on_stats (count_batch b) s)
  end.

(** What the control plane meets at its next step. *)
Inductive control_event : Type :=
| Enter
| ConnectFails
| Connects (write_ok : bool)
| GateOpen
| SessionDead
| Cleared
| Written (ok : bool)
| Flushed (ok : bool)
| BatchReady
| BatchTimeout
| ChannelSend
| Slept.

(** The next step, [None] where the event cannot be met.  The [select!] of the
    batch wait is [biased]: a dead session goes first, then the batch. *)
Definition control_step (c : ConsumerConfig) (ev : control_event) (s : ConsumerState) : option ConsumerState :=
  match cs_control s, ev with
  | LoopTop, Enter => Some (set_control (if cs_stop s then Finishing else Connecting) s)
  | Connecting, ConnectFails =>
    let s := on_stats count_drop s in
    Some (if gives_up c s then set_control Finishing s else s)
  | Connecting, Connects write_ok => Some (register_session c write_ok s)
  | WaitPrefetch, GateOpen =>
    if cs_prefetch s then
      let s := {| s with cs_prefetch := false |} in
      Some (if cs_stop s then end_session c true s else set_control CycleStart s)
    else None
  | WaitPrefetch, SessionDead =>
    if cs_dead s then Some (end_session c false {| s with cs_dead := false |}) else None
  | CycleStart, Cleared => Some (set_control Asking {| s with cs_ready := false; cs_pending := None |})
  | Asking, Written ok =>
    match encode_consumer_ready (cc_max_batch_size_count c) (cc_consumer_tag c) with
    | Err _ => Some (end_session c false s)
    | Ok frame =>
      if ok
      then Some (set_control Opening {| s with cs_sent := cs_sent s ++ [frame] |})
      else Some (end_session c false s)
    end
  | Opening, Flushed ok =>
    Some (if ok then set_control WaitBatch (set_accept_batch true s) else end_session c false s)
  | WaitBatch, SessionDead =>
    if cs_dead s then Some (end_session c false (set_accept_batch false {| s with cs_dead := false |})) else None
  | WaitBatch, BatchReady => if cs_ready s && negb (cs_dead s) then Some (take_pending c s) else None
  | WaitBatch, BatchTimeout =>
    if cs_ready s || cs_dead s then None
    else Some (session_top c (set_prefetch (on_stats count_empty (set_accept_batch false s))))
  | Handover b, ChannelSend =>
    match cs_app s with
    | Dropped => Some (end_session c true {| s with cs_lost := cs_lost s ++ [b] |})
    | _ =>
      if (length (cs_channel s) <? capacity c)%nat
      then Some (session_top c {| s with cs_channel := cs_channel s ++ [Some b] |}) else None
    end
  | Backoff counted, Slept =>
    Some (set_control LoopTop (if counted then on_stats count_reconnect s else s))
  | Finishing, ChannelSend =>
    match cs_app s with
    | Dropped => Some (set_control ControlDone s)
    | _ =>
      if (length (cs_channel s) <? capacity c)%nat
      then Some (set_control ControlDone {| s with cs_channel := cs_channel s ++ [None] |}) else None
    end
  | _, _ => None
  end.

(** The watchdog reads a byte or the end of the session's connection. *)
Definition in_session (ph : ControlPhase) : bool :=
  match ph with WaitPrefetch | CycleStart | Asking | Opening | WaitBatch | Handover _ => true | _ => false end.

Definition watchdog (s : ConsumerState) : ConsumerState :=
  if in_session (cs_control s) then {| s with cs_dead := true |} else s.

(** ** The application *)

Definition release_prefetch_slot (s : ConsumerState) : ConsumerState := set_prefetch s.

(** [pull_batch]: [None] while the channel is empty and a sender is left. *)
Definition pull_batch (s : ConsumerState) : option (option batch * ConsumerState) :=
  match cs_channel s with
  | m :: rest => Some (m, {| s with cs_channel := rest |})
  | [] => match cs_control s with ControlDone => Some (None, s) | _ => None end
  end.

(** [Cancelled]: the future of [consume] is dropped where it waits. *)
Inductive app_event : Type :=
| Recv
| HandlerDone (ok : bool)
| Cancelled
| CallConsume
| Close
| DropConsumer.

Definition set_app (ph : AppPhase) (s : ConsumerState) : ConsumerState := {| s with cs_app := ph |}.

Definition close (s : ConsumerState) : ConsumerState := {| s with cs_stop := true |}.

(** The loop of [consume], and the calls around it.  Dropping its future in [recv]
    takes nothing from the channel; in the handler, the batch goes with it, and the
    gate is not released. *)
Definition app_step (ev : app_event) (s : ConsumerState) : option ConsumerState :=
  match cs_app s, ev with
  | Pulling, Recv =>
    match pull_batch s with
    | Some (Some b, s) => Some (set_app (Handling b) s)
    | Some (None, s) => Some (set_app AppDone s)
    | None => None
    end
  | Handling b, HandlerDone true =>
    Some (set_app Pulling (release_prefetch_slot {| s with cs_handled := cs_handled s ++ [b] |}))
  | Handling b, HandlerDone false => Some (set_app AppDone {| s with cs_lost := cs_lost s ++ [b] |})
  | Pulling, Cancelled => Some (set_app AppDone s)
  | Handling b, Cancelled => Some (set_app AppDone {| s with cs_lost := cs_lost s ++ [b] |})
  | AppDone, CallConsume => Some (set_app Pulling s)
  | Dropped, _ => None
  | _, Close => Some (close s)
  | AppDone, DropConsumer => Some (set_app Dropped (close s))
  | _, _ => None
  end.

(** ** The client *)

Inductive client_step (c : ConsumerConfig) : ConsumerState -> ConsumerState -> Prop :=
| cl_control ev s s' : control_step c ev s = Some s' -> client_step c s s'
| cl_watchdog s : client_step c s (watchdog s)
| cl_accept s : client_step c s (accept_data s)
| cl_data i ev s : client_step c s (data_step i ev s)
| cl_app ev s s' : app_step ev s = Some s' -> client_step c s s'.

(** A step of the system, as a function, and a run of them. *)
Inductive client_event : Type :=
| Control (ev : control_event)
| Watchdog
| Accept
| Data (i : nat) (ev : data_event)
| App (ev : app_event).

Definition client_turn (c : ConsumerConfig) (ev : client_event) (s : ConsumerState) : option ConsumerState :=
  match ev with
  | Control ev => control_step c ev s
  | Watchdog => Some (watchdog s)
  | Accept => Some (accept_data s)
  | Data i ev => Some (data_step i ev s)
  | App ev => app_step ev s
  end.

Fixpoint run (c : ConsumerConfig) (evs : list client_event) (s : ConsumerState) : option ConsumerState :=
  match evs with
  | [] => Some s
  | ev :: evs => match client_turn c ev s with Some s => run c evs s | None => None end
  end.

(** ** Where batches and credits are *)

(** The batch a phase holds. *)
Definition in_handover (ph : ControlPhase) : list batch := match ph with Handover b => [b] | _ => [] end.
Definition in_handler (ph : AppPhase) : list batch := match ph with Handling b => [b] | _ => [] end.

(** Taken from the data plane, and not yet with the handler done. *)
Definition outstanding (s : ConsumerState) : list batch :=
  in_handler (cs_app s) ++ omap (fun m => m) (cs_channel s) ++ in_handover (cs_control s).

Definition taken (s : ConsumerState) : list batch := cs_handled s ++ cs_lost s ++ outstanding s.

Definition messages (bs : list batch) : Z := foldr (fun b acc => Z.of_nat (length b) + acc) 0 bs.

(** A cycle that took the gate's credit and has no batch yet. *)
Definition in_cycle (ph : ControlPhase) : bool :=
  match ph with CycleStart | Asking | Opening | WaitBatch => true | _ => false end.

Definition one (b : bool) : nat := if b then 1%nat else 0%nat.

Definition slots (s : ConsumerState) : nat :=
  (length (outstanding s) + one (cs_prefetch s) + one (in_cycle (cs_control s)))%nat.

(** The statistics the accounts look at. *)
Definition counted (st : ConsumerStats) : Z * Z := (st_batches_in st, st_msgs_in st).

Definition is_register (frame : list byte) : bool := bytes_eqb (take 4 frame) MAGIC_REGISTER.

(** The sessions opened so far: the REG! frames sent. *)
Definition sessions (s : ConsumerState) : nat := length (filter (fun f => is_register f = true) (cs_sent s)).

(** What the invariant looks at. *)
Definition ledger (s : ConsumerState) :=
  (cs_channel s, cs_app s, cs_handled s, cs_lost s, cs_sent s, cs_accept s, cs_control s, cs_prefetch s,
   counted (cs_stats s)).

(** What the end of a session, and the top of its loop, do to the accounts. *)
Definition leaves (s' s : ConsumerState) : Prop :=
  cs_channel s' = cs_channel s /\ cs_app s' = cs_app s /\ cs_handled s' = cs_handled s /\
  cs_lost s' = cs_lost s /\ cs_sent s' = cs_sent s /\ cs_accept s' = cs_accept s /\
  counted (cs_stats s') = counted (cs_stats s) /\
  (cs_control s' = WaitPrefetch /\ cs_prefetch s' = cs_prefetch s \/
   cs_control s' = Finishing \/ cs_control s' = Backoff true).

(** The gate is only open, and batches only accepted, where the protocol says; what
    is handed over is not empty; the statistics count the batches there are; and
    the credits: one, and one more for each session that ended. *)
Record client_ok (s : ConsumerState) : Prop :=
  { ck_accept : cs_accept s = true -> cs_control s = WaitBatch;
    ck_nonempty : Forall (fun b => b <> []) (taken s);
    ck_batches : st_batches_in (cs_stats s) = wrap 64 (Z.of_nat (length (taken s)));
    ck_msgs : st_msgs_in (cs_stats s) = wrap 64 (messages (taken s));
    ck_slots : (slots s + one (in_session (cs_control s)) <= 1 + sessions s)%nat }.

(** ** A sample run *)

(** A session up to the wait for its first batch. *)
Definition first_wait : list client_event :=
  [App CallConsume; Control Enter; Control (Connects true); Control GateOpen; Control Cleared; Control (Written true); Control (Flushed true);
   Accept; Accept; Data 0 IdleTimeout; Data 1 IdleTimeout].

(** The batch comes and reaches the handler. *)
Definition first_batch (frame : list byte) : list client_event :=
  [Data 0 (Incoming frame); Data 0 IdleTimeout; Data 0 IdleTimeout; Control BatchReady; Control ChannelSend; App Recv].

Definition sample_config : ConsumerConfig :=
  match new_config "127.0.0.1:9750" "127.0.0.1:9760" with
  | Ok c => prefetch_batch_count 8 c
  | Err _ => Build_ConsumerConfig "" "" None "" 0 0 0 0 false 0
  end.

Definition frame_of (items : list (list byte)) : list byte := encode_batch items.

Definition waiting : ConsumerState := default connect (run sample_config first_wait connect).

(** ** Lemmas *)

Lemma messages_app xs ys : messages (xs ++ ys) = messages xs + messages ys.
Proof. unfold messages. induction xs as [|x xs IH]; cbn; [done|]. lia. Qed.

Lemma wrap_count a b : wrap 64 (wrap 64 a + b) = wrap 64 (a + b).
Proof. unfold wrap. by rewrite Zplus_mod_idemp_l. Qed.

Lemma messages_permutation xs ys : Permutation xs ys -> messages xs = messages ys.
Proof. unfold messages. induction 1; cbn; lia. Qed.

Lemma is_register_reg addr frame : encode_register addr = Ok frame -> is_register frame = true.
Proof. unfold encode_register. destruct (_ || _); [done|]. by intros [= <-]. Qed.

Lemma is_register_crdy n tag frame : encode_consumer_ready n tag = Ok frame -> is_register frame = false.
Proof. unfold encode_consumer_ready. destruct (_ <? _); [done|]. by intros [= <-]. Qed.

Lemma sessions_register s frame :
  is_register frame = true ->
  length (filter (fun f => is_register f = true) (cs_sent s ++ [frame])) = S (sessions s).
Proof. intros H. rewrite filter_app, filter_cons_True, length_app by done. cbn. unfold sessions. lia. Qed.

Lemma sessions_other s frame :
  is_register frame = false ->
  length (filter (fun f => is_register f = true) (cs_sent s ++ [frame])) = sessions s.
Proof.
  intros H. rewrite filter_app, filter_cons_False, length_app by congruence. cbn. unfold sessions. lia.
Qed.

Lemma one_le b : (one b <= 1)%nat.
Proof. destruct b; cbn; lia. Qed.

Lemma accept_closed s : client_ok s -> cs_control s <> WaitBatch -> cs_accept s = false.
Proof. intros [H _ _ _ _] Hn. destruct (cs_accept s); [|done]. by destruct (Hn (H eq_refl)). Qed.

(** A step that takes no batch from the data plane keeps the invariant when it
    moves batches only from one place to another, and creates no credit. *)
Lemma client_ok_move s s' :
  client_ok s -> Permutation (taken s) (taken s') -> counted (cs_stats s') = counted (cs_stats s) ->
  (cs_accept s' = true -> cs_control s' = WaitBatch) ->
  (slots s' + one (in_session (cs_control s')) + sessions s <=
   slots s + one (in_session (cs_control s)) + sessions s')%nat ->
  client_ok s'.
Proof.
  intros [H1 H2 H3 H4 H5] Ht [= Hb Hm] Ha Hle. constructor; [done|by rewrite <- Ht|..|lia].
  - by rewrite Hb, H3, (Permutation_length Ht).
  - by rewrite Hm, H4, (messages_permutation _ _ Ht).
Qed.

Lemma end_session_leaves c ok s : leaves (end_session c ok s) s.
Proof. unfold leaves, end_session. destruct (gives_up c _), ok; cbn; auto 10. Qed.

Lemma session_top_leaves c s : leaves (session_top c s) s.
Proof.
  unfold session_top. destruct (cs_stop s); [apply end_session_leaves|]. unfold leaves; cbn; auto 10.
Qed.

(** A session's end or its next turn keeps the invariant, from any state with the
    credit of a session not yet spent elsewhere. *)
Lemma leave_ok s s0 s' :
  client_ok s ->
  leaves s' s0 -> cs_accept s0 = false -> counted (cs_stats s0) = counted (cs_stats s) ->
  Permutation (taken s) (cs_handled s0 ++ cs_lost s0 ++ in_handler (cs_app s0) ++ omap (fun m => m) (cs_channel s0)) ->
  (length (in_handler (cs_app s0) ++ omap (fun m => m) (cs_channel s0)) + one (cs_prefetch s0) + 1 + sessions s <=
   slots s + one (in_session (cs_control s)) + sessions s0)%nat ->
  (length (in_handler (cs_app s0) ++ omap (fun m => m) (cs_channel s0)) + 1 + sessions s <=
   slots s + one (in_session (cs_control s)) + sessions s0)%nat ->
  client_ok s'.
Proof.
  intros Hok (Hch & Ha & Hh & Hl & Hs & Hacc & Hc & Hph) Hacc0 Hc0 Ht Hn1 Hn2.
  assert (Ho : in_handover (cs_control s') = []) by (destruct Hph as [[-> _]|[->| ->]]; done).
  apply (client_ok_move s); [done| |congruence|congruence|].
  - unfold taken, outstanding. rewrite Ho, Hch, Ha, Hh, Hl, app_nil_r. exact Ht.
  - pose proof (one_le (cs_prefetch s')).
    unfold slots at 1, outstanding. rewrite Ho, Hch, Ha, app_nil_r.
    unfold sessions in *. rewrite Hs. destruct Hph as [[-> ->]|[->| ->]]; cbn; lia.
Qed.

Ltac accounts Hph :=
  unfold taken, slots, outstanding, sessions in *; cbn -[omap filter]; rewrite ?Hph;
  repeat match goal with H : cs_app _ = _ |- _ => rewrite !H; clear H end; cbn -[omap filter];
  rewrite ?app_nil_r.

Lemma register_session_ok c ok s :
  client_ok s -> cs_control s = Connecting -> client_ok (register_session c ok s).
Proof.
  intros Hok Hph. assert (Ha : cs_accept s = false) by (apply accept_closed; [done|by rewrite Hph]).
  unfold register_session. destruct (encode_register (cc_data_addr c)) as [reg|] eqn:He.
  2: destruct (gives_up c _); (apply (client_ok_move s); [done| | |cbn; congruence|]; accounts Hph; done || lia).
  destruct ok.
  2: destruct (gives_up c _); (apply (client_ok_move s); [done| | |cbn; congruence|]; accounts Hph; done || lia).
  eapply (leave_ok s); [done|apply session_top_leaves|done|done|..].
  - by accounts Hph.
  - unfold sessions at 2. cbn [cs_sent]. rewrite sessions_register by (by eapply is_register_reg).
    accounts Hph. lia.
  - unfold sessions at 2. cbn [cs_sent]. rewrite sessions_register by (by eapply is_register_reg).
    accounts Hph. lia.
Qed.

Lemma take_batch_ok c s :
  client_ok s -> cs_control s = WaitBatch -> client_ok (take_pending c s).
Proof.
  intros Hok Hph. unfold take_pending.
  change (cs_pending (on_stats (count_stale (cs_stale s)) (set_accept_batch false s))) with (cs_pending s).
  destruct (default [] (cs_pending s)) as [|x b] eqn:Hb.
  - eapply (leave_ok s); [done|apply session_top_leaves|done|done|..]; accounts Hph; [done|lia..].
  - destruct Hok as [H1 H2 H3 H4 H5].
    assert (Ht : Permutation (taken s ++ [x :: b])
                   (taken (set_control (Handover (x :: b)) s))).
    { unfold taken, outstanding. cbn -[omap]. rewrite Hph. cbn -[omap]. rewrite app_nil_r. by rewrite <- !app_assoc. }
    constructor; cbn -[wrap taken].
    + done.
    + change (Forall (fun b => b <> []) (taken (set_control (Handover (x :: b)) s))).
      rewrite <- Ht. apply Forall_app. split; [done|]. by repeat constructor.
    + change (wrap 64 (st_batches_in (cs_stats s) + 1) = wrap 64 (Z.of_nat (length (taken (set_control (Handover (x :: b)) s))))).
      rewrite <- Ht, H3, wrap_count, length_app. f_equal. cbn. lia.
    + change (wrap 64 (st_msgs_in (cs_stats s) + Z.of_nat (length (x :: b)))
              = wrap 64 (messages (taken (set_control (Handover (x :: b)) s)))).
      rewrite <- (messages_permutation _ _ Ht), H4, wrap_count, messages_app. f_equal; cbn; lia.
    + revert H5. accounts Hph. rewrite !length_app. cbn. lia.
Qed.

Lemma omap_snoc_some (b : batch) ch :
  omap (fun m => m) (ch ++ [Some b]) = omap (fun m : option batch => m) ch ++ [b].
Proof. by rewrite omap_app. Qed.

Lemma omap_snoc_none ch :
  omap (fun m => m) (ch ++ [@None batch]) = omap (fun m : option batch => m) ch.
Proof. rewrite omap_app. apply app_nil_r. Qed.

(** A phase in which no batch is accepted. *)
Ltac closed Hok Hph :=
  match type of Hok with client_ok ?s =>
    assert (cs_accept s = false) by (apply accept_closed; [done|by rewrite Hph])
  end.

(** The session goes on or ends, with no batch moved. *)
Ltac leaves Hph lemma :=
  eapply leave_ok; [eassumption|apply lemma|cbn; congruence|done|..];
  accounts Hph; rewrite ?omap_snoc_some, ?length_app; [first [done|solve_Permutation]|cbn; lia..].

Ltac moves Hph :=
  eapply client_ok_move; [eassumption| |done|cbn; congruence|];
  accounts Hph; rewrite ?omap_snoc_none; [done|try lia].

Lemma control_step_ok c ev s s' : client_ok s -> control_step c ev s = Some s' -> client_ok s'.
Proof.
  intros Hok. unfold control_step. destruct (cs_control s) as [| | | | | | |b|cnt| |] eqn:Hph; destruct ev; try done.
  - closed Hok Hph. intros [= <-]. destruct (cs_stop _) eqn:Hstop; moves Hph.
  - intros [= <-]. closed Hok Hph. destruct (gives_up c _); moves Hph.
  - intros [= <-]. by apply register_session_ok.
  - closed Hok Hph. destruct (cs_prefetch s) eqn:Hp; [|done]. intros [= <-].
    destruct (cs_stop _) eqn:Hstop; [leaves Hph end_session_leaves|].
    moves Hph. rewrite Hp. cbn. lia.
  - closed Hok Hph. destruct (cs_dead s); [|done]. intros [= <-]. leaves Hph end_session_leaves.
  - closed Hok Hph. intros [= <-]. moves Hph.
  - closed Hok Hph. destruct (encode_consumer_ready _ _) as [frame|] eqn:He.
    2: intros [= <-]; leaves Hph end_session_leaves.
    destruct ok; intros [= <-]; [|leaves Hph end_session_leaves].
    apply is_register_crdy in He. eapply client_ok_move; [eassumption|by accounts Hph|done|cbn; congruence|].
    unfold sessions at 2. cbn [cs_sent set_control]. rewrite (sessions_other s frame He).
    accounts Hph. lia.
  - closed Hok Hph. destruct ok; intros [= <-]; [|leaves Hph end_session_leaves].
    eapply client_ok_move; [eassumption|by accounts Hph|done|done|]. accounts Hph. lia.
  - destruct (cs_dead s); [|done]. intros [= <-]. leaves Hph end_session_leaves.
  - destruct (cs_ready s && _); [|done]. intros [= <-]. by apply take_batch_ok.
  - destruct (cs_ready s || _); [done|]. intros [= <-]. leaves Hph session_top_leaves.
  - closed Hok Hph. destruct (cs_app s) eqn:Happ.
    1-3: destruct (_ <? _)%nat; [|done]; intros [= <-]; leaves Hph session_top_leaves.
    intros [= <-]. leaves Hph end_session_leaves.
  - closed Hok Hph. intros [= <-]. destruct cnt; moves Hph.
  - closed Hok Hph. destruct (cs_app s) eqn:Happ.
    1-3: destruct (_ <? _)%nat; [|done]; intros [= <-]; moves Hph.
    intros [= <-]. moves Hph.
Qed.

Ltac plays H :=
  eapply client_ok_move; [eassumption| |done|cbn; intuition congruence|]; accounts H; rewrite ?length_app;
  [first [done|solve_Permutation]|cbn; lia].

Lemma app_step_ok ev s s' : client_ok s -> app_step ev s = Some s' -> client_ok s'.
Proof.
  intros Hok. pose proof (ck_accept s Hok) as Hacc. pose proof (one_le (cs_prefetch s)) as Hone.
  unfold app_step. destruct (cs_app s) as [|b| |] eqn:Happ; destruct ev as [|[]| | | |]; try done.
  1: unfold pull_batch; destruct (cs_channel s) as [|[b|] rest] eqn:Hch.
  1: destruct (cs_control s) eqn:Hph; try done.
  1-3: intros [= <-]; plays Hch.
  all: intros [= <-]; plays Happ.
Qed.

Lemma client_ok_ledger s s' : client_ok s -> ledger s' = ledger s -> client_ok s'.
Proof.
  intros Hok. pose proof (ck_accept s Hok) as Hacc. intros [= ??????????].
  eapply client_ok_move; [eassumption|..]; unfold taken, slots, outstanding, sessions, counted;
    repeat match goal with H : _ = _ |- _ => rewrite H; clear H end; done || lia.
Qed.

Lemma data_step_ok i ev s : client_ok s -> client_ok (data_step i ev s).
Proof.
  intros Hok. pose proof (ck_accept s Hok) as Hacc.
  assert (Hsame : forall s', ledger s' = ledger s -> client_ok s') by (intros; by eapply client_ok_ledger).
  unfold data_step. destruct (cs_data s !! i) as [ph|]; [|done].
  unfold serve_step, check_accept. destruct ph; try (by apply Hsame).
  - destruct ev as [input|]; [|by apply Hsame]. destruct (read_data_batch input) as [[items rest]|]; [|by apply Hsame].
    destruct (cs_accept s) eqn:Ha; apply Hsame; unfold ledger; cbn -[wrap]; by rewrite ?Ha.
Qed.

Lemma client_step_ok c s s' : client_ok s -> client_step c s s' -> client_ok s'.
Proof.
  intros Hok Hstep. destruct Hstep.
  - by eapply control_step_ok.
  - apply (client_ok_ledger s); [done|]. unfold watchdog. by destruct (in_session _).
  - by apply (client_ok_ledger s).
  - by apply data_step_ok.
  - by eapply app_step_ok.
Qed.

Lemma connect_ok : client_ok connect.
Proof. constructor; cbn; done || constructor. Qed.

(** ** The credit of the gate *)

(** C18: whatever the master, the producers and the application do, in any order: a
    batch is accepted only between a CRDY and the end of its wait; no empty batch
    reaches the application; the statistics count exactly the batches and items
    handed over; and in the first session at most one batch is between a CRDY and the
    end of its handler, each further session adding at most one. *)
Theorem client_reachable_ok c s : star (client_step c) connect s -> client_ok s.
Proof. intros H. eapply star_invariant; [intros; by eapply client_step_ok|exact H|apply connect_ok]. Qed.

(** C33: [prefetch_batch_count] sizes the channel and nothing else.  In the first
    session a CRDY is sent only when the handlers of all the batches before it are
    done: while a batch is on its way, nothing is in the channel, nothing is with the
    handler, and no second credit waits, for every value of the setting. *)
Theorem no_prefetch c s :
  star (client_step c) connect s -> (sessions s <= 1)%nat -> in_cycle (cs_control s) = true ->
  outstanding s = [] /\ cs_prefetch s = false.
Proof.
  intros Hr Hs Hc.
  assert (Hok : client_ok s).
  { eapply star_invariant; [intros; by eapply client_step_ok|exact Hr|apply connect_ok]. }
  apply ck_slots in Hok. unfold slots in Hok.
  assert (in_session (cs_control s) = true) as Hi by (by destruct (cs_control s)).
  rewrite Hc, Hi in Hok. cbn [one] in Hok.
  destruct (cs_prefetch s); cbn [one] in Hok; [lia|]. split; [|done]. apply nil_length_inv. lia.
Qed.

Lemma run_star c evs s s' : run c evs s = Some s' -> star (client_step c) s s'.
Proof.
  revert s. induction evs as [|ev evs IH]; intros s; cbn; [intros [= <-]; constructor|].
  destruct (client_turn c ev s) as [t|] eqn:Ht; [|done]. intros H.
  apply star_step with t; [|by apply IH]. destruct ev; cbn in Ht; simplify_eq; by econstructor.
Qed.

Lemma client_reachable_ok_witness :
  exists s, run sample_config (first_wait ++ first_batch (frame_of [[Byte.x61]])) connect = Some s /\
    cs_app s = Handling [[Byte.x61]] /\ client_ok s.
Proof.
  eexists. split; [vm_compute; reflexivity|]. split; [reflexivity|].
  apply (client_reachable_ok sample_config).
  apply run_star with (first_wait ++ first_batch (frame_of [[Byte.x61]])). vm_compute. reflexivity.
Defined.

Lemma no_prefetch_witness :
  exists s, run sample_config (first_wait ++ first_batch (frame_of [[Byte.x61]]) ++ [App (HandlerDone true); Control GateOpen])
    connect = Some s /\ cs_handled s = [[[Byte.x61]]] /\ outstanding s = [] /\ cs_prefetch s = false.
Proof.
  eexists. split; [vm_compute; reflexivity|]. split; [reflexivity|].
  apply (no_prefetch sample_config); [|vm_compute; lia|reflexivity].
  apply run_star with (first_wait ++ first_batch (frame_of [[Byte.x61]]) ++ [App (HandlerDone true); Control GateOpen]).
  vm_compute. reflexivity.
Defined.

Lemma run_data c i ev evs s : run c (Data i ev :: evs) s = run c evs (data_step i ev s).
Proof. done. Qed.

(** The steps of a data connection, one by one. *)
Lemma data_read i input b rest s :
  cs_data s !! i = Some Reading -> cs_accept s = true -> read_data_batch input = Ok (b, rest) ->
  data_step i (Incoming input) s = {| s with cs_data := <[i := Holding b]> (cs_data s) |}.
Proof.
  destruct s. cbn. intros Hi -> Hr. unfold data_step, serve_step, check_accept. cbn. by rewrite Hi, Hr.
Qed.

Lemma data_store i b ev s :
  cs_data s !! i = Some (Holding b) ->
  data_step i ev s = {| s with cs_pending := Some b; cs_data := <[i := Raising]> (cs_data s) |}.
Proof. intros Hi. unfold data_step, serve_step. by rewrite Hi. Qed.

Lemma data_raise i ev s :
  cs_data s !! i = Some Raising ->
  data_step i ev s = {| s with cs_ready := true; cs_data := <[i := Entering]> (cs_data s) |}.
Proof. intros Hi. unfold data_step, serve_step. by rewrite Hi. Qed.

(** Keeps the state a record of values. *)
Ltac tidy :=
  cbn [cs_accept cs_ready cs_pending cs_stale cs_prefetch cs_stop cs_channel cs_stats cs_control cs_dead cs_data
       cs_app cs_sent cs_handled cs_lost].

(** Looks up a connection after the insertions. *)
Ltac slot :=
  cbn; repeat first [rewrite list_lookup_insert_ne by congruence
                    |rewrite list_lookup_insert_eq by (rewrite ?length_insert; lia)]; done.

(** [stop] is looked at before a read, not after: a connection that was reading when
    [close] was called still takes its batch. *)
Example read_outlives_close :
  match run sample_config [App Close; Data 0 (Incoming (frame_of [[Byte.x61]])); Data 1 IdleTimeout;
                           Data 0 IdleTimeout; Data 0 IdleTimeout; Data 0 IdleTimeout] waiting with
  | Some s => cs_pending s = Some [[Byte.x61]] /\ cs_data s = [DataClosed; DataClosed]
  | None => False
  end.
Proof. vm_compute. done. Qed.

(** Two batches in one accept window.  Both connections see the window open; the
    second [store_batch] replaces the first batch, which is neither handed over nor
    counted as stale, although its producer was told the write succeeded. *)
Theorem second_batch_overwrites c s i j in1 in2 b1 b2 rest1 rest2 :
  cs_control s = WaitBatch -> cs_accept s = true -> cs_stop s = false -> cs_dead s = false -> i <> j ->
  cs_data s !! i = Some Reading -> cs_data s !! j = Some Reading ->
  read_data_batch in1 = Ok (b1, rest1) -> read_data_batch in2 = Ok (b2, rest2) -> b2 <> [] ->
  exists s',
    run c [Data i (Incoming in1); Data j (Incoming in2); Data i IdleTimeout; Data j IdleTimeout;
           Data i IdleTimeout; Data j IdleTimeout; Control BatchReady] s = Some s' /\
    cs_control s' = Handover b2 /\ cs_pending s' = None /\ Permutation (taken s') (b2 :: taken s) /\
    cs_stale s' = cs_stale s /\ st_stale_batches (cs_stats s') = cs_stale s.
Proof.
  intros Hc Ha Hs Hd Hij Hi Hj H1 H2 Hb2. destruct b2 as [|x b2]; [done|].
  assert (Hli : (i < length (cs_data s))%nat) by (by eapply lookup_lt_Some).
  assert (Hlj : (j < length (cs_data s))%nat) by (by eapply lookup_lt_Some).
  destruct s as [? ? ? ? ? ? ? ? ? ? dt ? ? ? ?]. cbn in Hc, Ha, Hs, Hd, Hi, Hj, Hli, Hlj. subst.
  rewrite (run_data c i), (data_read i in1 b1 rest1) by done. tidy.
  rewrite (run_data c j), (data_read j in2 (x :: b2) rest2) by (done || slot). tidy.
  rewrite (run_data c i), (data_store i b1) by slot. tidy.
  rewrite (run_data c j), (data_store j (x :: b2)) by slot. tidy.
  rewrite (run_data c i), (data_raise i) by slot. tidy.
  rewrite (run_data c j), (data_raise j) by slot. tidy.
  cbn -[wrap]. eexists. split; [reflexivity|]. repeat split; cbn -[wrap].
  unfold taken, outstanding. cbn -[omap]. solve_Permutation.
Qed.

Lemma second_batch_overwrites_witness :
  run sample_config first_wait connect = Some waiting /\
  exists s', run sample_config
      [Data 0 (Incoming (frame_of [[Byte.x61]])); Data 1 (Incoming (frame_of [[Byte.x62]])); Data 0 IdleTimeout;
       Data 1 IdleTimeout; Data 0 IdleTimeout; Data 1 IdleTimeout; Control BatchReady] waiting = Some s' /\
    cs_control s' = Handover [[Byte.x62]] /\ cs_pending s' = None /\
    Permutation (taken s') ([[Byte.x62]] :: taken waiting) /\ cs_stale s' = cs_stale waiting /\
    st_stale_batches (cs_stats s') = cs_stale waiting.
Proof.
  split; [vm_compute; reflexivity|].
  apply (second_batch_overwrites sample_config waiting 0 1 _ _ [[Byte.x61]] [[Byte.x62]] [] []);
    try discriminate; vm_compute; reflexivity.
Defined.

(** C35: a batch that comes early is lost.  The CRDY is with the master before the accept
    window opens: its write and the flush behind it are awaited first.  A batch that
    a producer writes in between is read, dropped and counted as stale; the consumer
    then opens its window for nothing, and no event but the timeout or the end of
    the session ends the wait. *)
Theorem early_batch_dropped c i s frame input b rest :
  client_ok s -> cs_control s = Asking -> encode_consumer_ready (cc_max_batch_size_count c) (cc_consumer_tag c) = Ok frame ->
  cs_stop s = false -> cs_ready s = false -> cs_dead s = false ->
  cs_data s !! i = Some Reading -> read_data_batch input = Ok (b, rest) ->
  exists s',
    run c [Control (Written true); Data i (Incoming input); Control (Flushed true)] s = Some s' /\
    cs_sent s' = cs_sent s ++ [frame] /\ cs_control s' = WaitBatch /\ cs_accept s' = true /\
    taken s' = taken s /\ cs_pending s' = cs_pending s /\ cs_stale s' = wrap 64 (cs_stale s + 1) /\
    (forall ev t, control_step c ev s' = Some t -> ev = BatchTimeout /\
       st_empty_waits (cs_stats t) = wrap 64 (st_empty_waits (cs_stats s) + 1) /\ taken t = taken s).
Proof.
  intros Hok Hc Hf Hs Hr Hd Hi Hb. pose proof (accept_closed s Hok) as Ha. rewrite Hc in Ha. specialize (Ha ltac:(done)).
  clear Hok. destruct s as [? ? ? ? ? ? ? ? ? ? dt ? ? ? ?]. cbn in Hc, Hs, Hr, Hd, Hi, Ha. subst.
  cbn [run client_turn control_step cs_control]. rewrite Hf. unfold data_step, serve_step, check_accept.
  cbn [set_control cs_data cs_stop cs_accept]. rewrite Hi, Hb.
  eexists. split; [reflexivity|]. split_and!; [done..|].
  intros ev t. destruct ev; cbn -[wrap]; try done. unfold session_top. cbn -[wrap]. intros [= <-].
  split_and!; done.
Qed.

(** A consumer about to write its CRDY, a producer connected. *)
Definition asking : ConsumerState := default connect (run sample_config (list.take 5 first_wait ++ [Accept; Data 0 IdleTimeout]) connect).

Lemma early_batch_dropped_witness :
  star (client_step sample_config) connect asking /\
  exists frame s',
    run sample_config [Control (Written true); Data 0 (Incoming (frame_of [[Byte.x61]])); Control (Flushed true)] asking
      = Some s' /\
    cs_sent s' = cs_sent asking ++ [frame] /\ cs_control s' = WaitBatch /\ cs_accept s' = true /\
    taken s' = taken asking /\ cs_pending s' = cs_pending asking /\ cs_stale s' = wrap 64 (cs_stale asking + 1) /\
    (forall ev t, control_step sample_config ev s' = Some t -> ev = BatchTimeout /\
       st_empty_waits (cs_stats t) = wrap 64 (st_empty_waits (cs_stats asking) + 1) /\ taken t = taken asking).
Proof.
  assert (Hr : star (client_step sample_config) connect asking).
  { apply run_star with (list.take 5 first_wait ++ [Accept; Data 0 IdleTimeout]). vm_compute. reflexivity. }
  split; [exact Hr|]. eexists.
  apply (early_batch_dropped sample_config 0 asking _ (frame_of [[Byte.x61]]) [[Byte.x61]] []); try (vm_compute; reflexivity).
  eapply star_invariant; [intros a b; apply client_step_ok|exact Hr|apply connect_ok].
Defined.

(** ** Addresses *)

Lemma host_port_read host port :
  in_u 16 port -> host <> [] ->
  parse_host_port (host_port host port) = Ok (string_of_list_byte host, port).
Proof.
  intros Hp Hne. unfold parse_host_port, host_port. rewrite as_bytes_of_bytes.
  change (as_bytes ":" ++ as_bytes (pretty port)) with (Byte.x3a :: as_bytes (pretty port)).
  rewrite rsplit_once_app by (apply not_digit; [done|apply pretty_digits; unfold in_u in Hp; lia]).
  destruct (decide (host = [])); [done|]. by rewrite parse_uint_pretty.
Qed.

(** The addresses the configuration writes are read back: a host (an IPv6 one in
    brackets) and a port become the same host and port, whatever colons the host has. *)
Theorem socket_addr_read_back host port :
  in_u 16 port -> all graphic (as_bytes host) -> as_bytes host <> [] ->
  exists h, parse_host_port (format_socket_addr host port) = Ok (h, port) /\
    (Byte.x3a ∉ as_bytes host -> h = host) /\
    (Byte.x3a ∈ as_bytes host -> take 1 (as_bytes host) <> as_bytes "[" ->
     as_bytes h = as_bytes "[" ++ as_bytes host ++ as_bytes "]").
Proof.
  intros Hp Hg Hne. unfold format_socket_addr. rewrite trim_graphic by done.
  destruct (decide _) as [Hb|Hb]; [|destruct (decide _) as [Hc|Hc]].
  - exists host. rewrite host_port_read by done. rewrite of_bytes_as_bytes. by repeat split.
  - eexists. rewrite host_port_read by done. split; [done|]. split; [done|]. intros _ _. apply as_bytes_of_bytes.
  - exists host. rewrite host_port_read by done. rewrite of_bytes_as_bytes. by repeat split.
Qed.

Lemma socket_addr_read_back_witness :
  exists h, parse_host_port (format_socket_addr "::1" 9750) = Ok (h, 9750) /\
    (Byte.x3a ∉ as_bytes "::1" -> h = "::1"%string) /\
    (Byte.x3a ∈ as_bytes "::1" -> take 1 (as_bytes "::1") <> as_bytes "[" ->
     as_bytes h = as_bytes "[" ++ as_bytes "::1" ++ as_bytes "]").
Proof.
  apply (socket_addr_read_back "::1" 9750); [unfold in_u, umax; lia| |done].
  repeat constructor.
Defined.
