(* ===== verification/EndToEnd.v ===== *)
(** * One cycle, from a publication to a handler

    The components of one exchange put together: the consumer client asks
    ([consumer/client.rs]), the master reads its frames and writes an ASGN
    ([server.rs], [producers.rs]), the producer client reads it, takes the oldest
    payloads and writes a BATC ([producer/client.rs]), and the consumer's data plane
    and control plane hand it to the application. *)

From S2P Require Import Prelude Utf8 Protocol ByteRing Accumulator DeliveryPool ProducerClient.
From S2P Require Import ControlSelect Pipeline Matchmaker Server.
From S2P Require ConsumerClient.

Import ConsumerClient.

(** The writes of a delivery take everything and are flushed. *)
Definition writes_all {stream} (n : net stream) (attempt : nat) (conn : stream) : Prop :=
  (forall slices, net_write n attempt conn slices = Ok (length (concat slices))) /\
  net_flush n attempt conn = Ok tt.

(** A consumer in the wait for its batch, with a producer connected as [i], nothing
    in its channel and its application in [recv]. *)
Record awaiting_batch (i : nat) (s : ConsumerState) : Prop :=
  { aw_wait : cs_control s = WaitBatch;
    aw_accept : cs_accept s = true;
    aw_running : cs_stop s = false;
    aw_alive : cs_dead s = false;
    aw_channel : cs_channel s = [];
    aw_app : cs_app s = Pulling;
    aw_conn : cs_data s !! i = Some Reading }.

(** The consumer's steps from the bytes of a batch on connection [i] to its handler. *)
Definition hand_over (i : nat) (bytes : list byte) : list client_event :=
  [Data i (Incoming bytes); Data i IdleTimeout; Data i IdleTimeout; Control BatchReady; Control ChannelSend; App Recv].

(** A sample: a producer with batches of at most 1 MiB that published three payloads,
    and a network that takes every write. *)
Definition small_batches : ProducerConfig := ProducerClient.max_batch_bytes (default_config "m:7000") (1024 * 1024).

Definition published : Inner :=
  cl_inner (foldl run_task (ProducerClient.connect small_batches)
    (map (fun i => TaskPublish i {| now_ms := 1000; now_ns := 1 |}) demo_items)).

Definition good_net : net unit :=
  {| net_connect := fun _ _ => Ok tt; net_write := fun _ _ slices => Ok (length (concat slices));
     net_flush := fun _ _ => Ok tt; net_now := fun _ _ => 0 |}.

(** ** Lemmas *)

Lemma deliver_writes {stream} (n : net stream) attempt conn items :
  writes_all n attempt conn ->
  inner_batch_payload_len items <= MAX_INGRESS_BATCH_FRAME_BYTES ->
  tcp_deliver_batch_once n attempt conn items = (encode_batch items, Ok tt).
Proof.
  intros [Hw Hf] Hmax. unfold tcp_deliver_batch_once, write_batch_vectored, write_framed_batch_vectored.
  rewrite Hw, Hf, take_ge by done. by rewrite batch_slices_concat.
Qed.

Lemma read_data_encoded items :
  Forall item_ok items -> Z.of_nat (length items) <= umax 16 ->
  inner_batch_payload_len items <= MAX_INGRESS_BATCH_FRAME_BYTES ->
  read_data_batch (encode_batch items) = Ok (items, []).
Proof.
  intros Hf Hn Hmax. unfold read_data_batch. rewrite <- (app_nil_r (encode_batch items)).
  destruct (encode_batch_shape items []) as (cnt & Hc & ->).
  { unfold MAX_INGRESS_BATCH_FRAME_BYTES, umax in *. lia. }
  rewrite inner_batch_payload_len_spec in *. rewrite read_batch_frame_app by done.
  rewrite <- (app_nil_r (encode_batch_payload items)).
  by rewrite parse_batch_payload_items_complete.
Qed.

Lemma hand_over_run c s i bytes b rest :
  awaiting_batch i s -> read_data_batch bytes = Ok (b, rest) -> b <> [] ->
  exists s', run c (hand_over i bytes) s = Some s' /\ cs_app s' = Handling b /\
    st_batches_in (cs_stats s') = wrap 64 (st_batches_in (cs_stats s) + 1) /\
    st_msgs_in (cs_stats s') = wrap 64 (st_msgs_in (cs_stats s) + Z.of_nat (length b)).
Proof.
  intros [H1 H2 H3 H4 H5 H6 H7] Hread Hb. destruct b as [|x b]; [done|].
  assert (Hli : (i < length (cs_data s))%nat) by (by eapply lookup_lt_Some).
  destruct s as [? ? ? ? ? ? ? ? ? ? dt ? ? ? ?].
  cbn in H1, H2, H3, H4, H5, H6, H7, Hli. subst. unfold hand_over.
  rewrite (run_data c i), (data_read i bytes (x :: b) rest) by done. tidy.
  rewrite (run_data c i), (data_store i (x :: b)) by slot. tidy.
  rewrite (run_data c i), (data_raise i) by slot. tidy.
  assert (Hcap : (0 <? capacity c)%nat = true) by (apply Nat.ltb_lt; unfold capacity; lia).
  cbn -[wrap capacity Nat.ltb]. rewrite Hcap. cbn -[wrap].
  eexists. split; [reflexivity|]. by cbn -[wrap].
Qed.

(** The frames of the request: REG! and CRDY as the consumer writes them, what the
    master reads, the ASGN it writes, what the producer reads. *)
Definition request_carried (cc : ConsumerConfig) (assign : AssignRequest) : Prop :=
  exists reg crdy ready frame,
    encode_register (cc_data_addr cc) = Ok reg /\
    encode_consumer_ready (cc_max_batch_size_count cc) (cc_consumer_tag cc) = Ok crdy /\
    read_register (reg ++ crdy) = Ok (cc_data_addr cc, crdy) /\
    read_consumer_ready_request crdy = Ok (ready, []) /\
    (forall id done,
       encode_assign (assign_of {| pc_consumer_id := id; pc_ready := ready; pc_data_addr := cc_data_addr cc;
                                   pc_done := done |}) = Ok frame) /\
    read_assign_frame frame = Ok (assign, []) /\
    ar_max_items assign = cc_max_batch_size_count cc /\ ar_data_addr assign = cc_data_addr cc.

Lemma request_is_carried cc :
  wire_string (cc_consumer_tag cc) -> wire_string (cc_data_addr cc) -> 1 <= slen (cc_data_addr cc) ->
  in_u 16 (cc_max_batch_size_count cc) -> exists assign, request_carried cc assign.
Proof.
  intros Ht Ha Hne Hm.
  destruct (read_ready_encode (cc_max_batch_size_count cc) (cc_consumer_tag cc) [] Hm Ht) as (crdy & Hc & Hrc).
  destruct (read_register_encode (cc_data_addr cc) crdy Ha Hne) as (reg & Hr & Hrr).
  destruct (read_assign_encode (cc_max_batch_size_count cc) (cc_consumer_tag cc) (cc_data_addr cc) [] Hm Ht Ha Hne)
    as (frame & Hf & _).
  pose proof (read_assign_frame_encode
    {| ar_max_items := cc_max_batch_size_count cc; ar_consumer_tag := cc_consumer_tag cc;
       ar_data_addr := cc_data_addr cc |} [] frame Hm Ht Ha Hne Hf) as Hrf.
  rewrite app_nil_r in Hrc, Hrf. eexists. exists reg, crdy. do 2 eexists.
  split_and!; [exact Hr|exact Hc|exact Hrr|exact Hrc|intros; exact Hf|exact Hrf|done|done].
Qed.

(** What an ASGN takes, when the producer is below its cap. *)
Lemma assign_batch now assign st items st' :
  inner_ok st -> in_u 16 (ar_max_items assign) -> everything st <> [] ->
  total_len (everything st) <= rb_max_bytes (in_ring st) ->
  assign_take now assign st = (items, st') ->
  let b := map qm_payload items in
  b <> [] /\ everything st = b ++ everything st' /\ Z.of_nat (length b) <= Z.max (ar_max_items assign) 1 /\
  Forall (fun p => 1 <= blen p) b /\
  ((length b <= 1)%nat \/ total_len b <= cfg_max_batch_bytes (in_config st)).
Proof.
  intros Hok Hmi Hne Hcap Heq. cbv zeta.
  pose proof (take_dwindles now assign st items st' Hok Heq) as [_ Hall]. specialize (Hall Hcap).
  pose proof (assign_take_items now assign st Hok Hmi) as (_ & Hpos & _). rewrite Heq in Hpos. cbn [fst] in Hpos.
  destruct (assign_take_spec now assign st Hok) as (n & Heq' & Hn & Hlen & H1 & Hmb & _). rewrite Heq in Heq'.
  destruct (flush_ingress_spec now st Hok) as (_ & _ & Hp & Ha & _ & _).
  set (st1 := flush_ingress_to_ring now st) in *. simplify_eq.
  assert (Hb : map qm_payload (map message_of (list.take n (rb_queue (in_ring st1))))
               = payloads (list.take n (rb_queue (in_ring st1)))) by apply qm_payload_messages.
  rewrite length_map, length_map, length_take, Nat.min_l by done. split_and!; [|done|done| |].
  - rewrite Hb. intros Hnil. unfold payloads in Hnil. apply map_eq_nil in Hnil. rewrite Hb, Hnil in Hall.
    assert (rb_queue (in_ring st1) <> []) as Hq.
    { intros Hq. apply Hne. rewrite <- Hall. unfold everything.
      cbn [in_ring in_accumulator in_pending with_queue rb_queue]. by rewrite Hq, Hp, Ha, drop_nil. }
    specialize (H1 Hq). destruct (rb_queue (in_ring st1)), n; done || lia.
  - apply Forall_map. exact Hpos.
  - rewrite Hb. destruct Hmb as [Hmb|Hmb]; [by left|by right].
Qed.

(** ** Properties *)

(** C1: one cycle, end to end.  A consumer that waits for its batch and a producer
    below its cap that holds something: the consumer's request reaches the producer
    as it was configured; the producer takes the oldest payloads, and nothing else;
    when the write takes everything, the application's handler gets exactly these
    payloads in the order of publication, and the producer reports their number.
    The payloads are at most 32 MiB and [max_batch_bytes] leaves room for the item
    headers in the frame limit. *)
Theorem cycle_reaches_handler {stream} cc st now (n : net stream) attempt conn i s :
  wire_string (cc_consumer_tag cc) -> wire_string (cc_data_addr cc) -> 1 <= slen (cc_data_addr cc) ->
  in_u 16 (cc_max_batch_size_count cc) ->
  inner_ok st -> everything st <> [] -> total_len (everything st) <= rb_max_bytes (in_ring st) ->
  Forall (fun p => blen p <= MAX_INGRESS_ITEM_BYTES) (everything st) ->
  cfg_max_batch_bytes (in_config st) + 4 * umax 16 + 2 <= MAX_INGRESS_BATCH_FRAME_BYTES ->
  writes_all n attempt conn -> awaiting_batch i s ->
  exists assign, request_carried cc assign /\
  let '(items, st') := assign_take now assign st in
  let b := map qm_payload items in
  b <> [] /\ everything st = b ++ everything st' /\
  Z.of_nat (length b) <= Z.max (cc_max_batch_size_count cc) 1 /\
  let '(bytes, r) := tcp_deliver_batch_once n attempt conn b in
  r = Ok tt /\
  exists s' rep, run cc (hand_over i bytes) s = Some s' /\ cs_app s' = Handling b /\
    (assign_finish items Delivered st').2 = Ok rep /\ dr_msg_count rep = Z.of_nat (length b) /\
    st_msgs_in (cs_stats s') = wrap 64 (st_msgs_in (cs_stats s) + Z.of_nat (length b)).
Proof.
  intros Ht Ha Hne Hm Hok Hsome Hcap Hsize Hmb Hwr Haw.
  destruct (request_is_carried cc Ht Ha Hne Hm) as (assign & Hcar). exists assign. split; [exact Hcar|].
  destruct Hcar as (_ & _ & _ & _ & _ & _ & _ & _ & _ & _ & Hmi & _).
  assert (Hmu : in_u 16 (ar_max_items assign)) by (by rewrite Hmi).
  pose proof (assign_take_items now assign st Hok Hmu) as (Hlen & _ & _).
  destruct (assign_take now assign st) as [items st'] eqn:Heq. cbn [fst] in Hlen.
  destruct (assign_batch now assign st items st' Hok Hmu Hsome Hcap Heq) as (Hb & Hall & Hl & Hpos & Hbound).
  rewrite Hmi in Hl. set (b := map qm_payload items) in *.
  assert (Hlb : length b = length items) by apply length_map.
  assert (Hitems : Forall item_ok b).
  { rewrite Hall in Hsize. apply Forall_app in Hsize as [Hs _].
    apply Forall_forall. intros p Hp. rewrite Forall_forall in Hs, Hpos. split; [by apply Hpos|by apply Hs]. }
  assert (Hcount : Z.of_nat (length b) <= umax 16) by (unfold in_u in Hlen; rewrite Hlb; lia).
  assert (Hinner : inner_batch_payload_len b <= MAX_INGRESS_BATCH_FRAME_BYTES).
  { rewrite inner_batch_payload_len_total. destruct Hbound as [H1|H1]; [|lia].
    destruct b as [|x [|y b']]; [done| |simpl in H1; lia].
    apply Forall_cons in Hitems as [[_ Hx] _]. cbn. rewrite Z.add_0_r.
    unfold MAX_INGRESS_ITEM_BYTES, MAX_INGRESS_BATCH_FRAME_BYTES in *. lia. }
  split_and!; [exact Hb|exact Hall|exact Hl|].
  rewrite (deliver_writes n attempt conn b Hwr Hinner). split; [done|].
  destruct (hand_over_run cc s i (encode_batch b) b [] Haw (read_data_encoded b Hitems Hcount Hinner) Hb)
    as (s' & Hrun & Happ & _ & Hmsgs).
  exists s'. unfold assign_finish. rewrite wrap_small by exact Hlen. rewrite <- Hlb.
  destruct (Z.eqb_spec (Z.of_nat (length b)) 0) as [Hz|_]; [destruct b; [done|simpl in Hz; lia]|].
  eexists. split_and!; [exact Hrun|exact Happ|reflexivity|done|exact Hmsgs].
Qed.

Lemma published_ok : inner_ok published.
Proof.
  unfold published. apply run_tasks_ok.
  apply (po_inner (cap_of small_batches) (start small_batches)), start_ok; vm_compute; discriminate.
Qed.

Lemma cycle_reaches_handler_witness :
  run sample_config first_wait connect = Some waiting /\
  exists assign, request_carried sample_config assign /\
  let '(items, st') := assign_take demo_now assign published in
  let b := map qm_payload items in
  b <> [] /\ everything published = b ++ everything st' /\
  Z.of_nat (length b) <= Z.max (cc_max_batch_size_count sample_config) 1 /\
  let '(bytes, r) := tcp_deliver_batch_once good_net 0 tt b in
  r = Ok tt /\
  exists s' rep, run sample_config (hand_over 0 bytes) waiting = Some s' /\ cs_app s' = Handling b /\
    (assign_finish items Delivered st').2 = Ok rep /\ dr_msg_count rep = Z.of_nat (length b) /\
    st_msgs_in (cs_stats s') = wrap 64 (st_msgs_in (cs_stats waiting) + Z.of_nat (length b)).
Proof.
  split; [vm_compute; reflexivity|].
  apply (cycle_reaches_handler sample_config published demo_now good_net 0 tt 0 waiting).
  - vm_compute. split; [discriminate|reflexivity].
  - vm_compute. split; [discriminate|reflexivity].
  - vm_compute. discriminate.
  - vm_compute. split; discriminate.
  - exact published_ok.
  - vm_compute. discriminate.
  - vm_compute. discriminate.
  - repeat (constructor; [vm_compute; discriminate|]). constructor.
  - vm_compute. discriminate.
  - split; reflexivity.
  - constructor; vm_compute; reflexivity.
Defined.
