(* ===== verification/DataStream.v ===== *)
(** * The stream of a data connection

    A pooled connection carries one BATC after another, and the consumer's
    [serve_data_connection] reads them in a loop.  Here the two ends are put
    together: what the loop reads of a stream of whole frames, of one cut short, and
    of one in which a short write left a frame incomplete before the next. *)

From S2P Require Import Prelude Protocol ByteRing DeliveryPool ControlSelect.
From S2P Require Import EndToEnd.
From S2P Require ConsumerClient.

Import ConsumerClient.

(** ** Definitions *)

(** The reads of the loop of [serve_data_connection] on the whole stream: the batches,
    and the error that ends it; [None] when the fuel is used up. *)
Fixpoint read_batches (fuel : nat) (input : list byte) : list batch * option error :=
  match fuel with
  | O => ([], None)
  | S fuel =>
    match read_data_batch input with
    | Err e => ([], Some e)
    | Ok (b, rest) => let '(bs, e) := read_batches fuel rest in (b :: bs, e)
    end
  end.

(** A frame has ten bytes at least. *)
Definition read_stream (input : list byte) : list batch * option error := read_batches (S (length input)) input.

(** A batch every consumer accepts. *)
Definition batch_ok (b : batch) : Prop :=
  Forall item_ok b /\ Z.of_nat (length b) <= umax 16 /\ inner_batch_payload_len b <= MAX_INGRESS_BATCH_FRAME_BYTES.

(** [x] with its last [k] bytes replaced by the first [k] of [t]. *)
Definition overlaid (k : nat) (t x : list byte) : list byte := list.take (length x - k)%nat x ++ list.take k t.

(** A net whose first delivery writes [k] bytes less than the frame, on connection [s]. *)
Definition short_net {stream} (s : stream) (k : nat) (now : reading -> Z) : net stream :=
  {| net_connect := fun _ _ => Ok s; net_write := fun _ _ slices => Ok (length (concat slices) - k)%nat;
     net_flush := fun _ _ => Ok tt; net_now := fun _ => now |}.

(** ** Lemmas *)

Lemma incremental_batch_frame : incremental read_batch_frame.
Proof.
  unfold read_batch_frame. apply incremental_bind; [apply incremental_read_exact|]. intros magic.
  destruct (negb _); [apply incremental_fail|]. apply incremental_bind; [apply incremental_read_exact|]. intros hdr.
  destruct (_ <? _); [apply incremental_fail|]. destruct (_ <? _); [apply incremental_read_exact|apply incremental_ret].
Qed.

Lemma batch_frame_rest b rest :
  batch_ok b -> read_batch_frame (encode_batch b ++ rest) = Ok (encode_batch_payload b, rest).
Proof.
  intros (Hf & Hn & Hmax). destruct (encode_batch_shape b rest) as (cnt & Hc & ->).
  { unfold MAX_INGRESS_BATCH_FRAME_BYTES, umax in *. lia. }
  rewrite inner_batch_payload_len_spec in *. by apply read_batch_frame_app.
Qed.

Lemma read_data_rest b rest : batch_ok b -> read_data_batch (encode_batch b ++ rest) = Ok (b, rest).
Proof.
  intros Hb. unfold read_data_batch. rewrite batch_frame_rest by done. destruct Hb as (Hf & Hn & _).
  rewrite <- (app_nil_r (encode_batch_payload b)). by rewrite parse_batch_payload_items_complete.
Qed.

Lemma read_data_cut b p q :
  batch_ok b -> p ++ q = encode_batch b -> q <> [] -> read_data_batch p = Err ReadExact.
Proof.
  intros Hb Hpq Hq. pose proof (batch_frame_rest b [] Hb) as Hr. rewrite app_nil_r, <- Hpq in Hr.
  pose proof (incremental_batch_frame p q) as Hi. unfold read_data_batch.
  destruct (read_batch_frame p) as [[x rest]|[]]; try congruence.
  rewrite Hi in Hr. simplify_eq. by destruct rest, q.
Qed.

Lemma read_exact_length n s bs rest : read_exact n s = Ok (bs, rest) -> (length rest + n = length s)%nat.
Proof. intros [-> Hn]%read_exact_ok. rewrite length_app. lia. Qed.

(** Every batch read takes bytes off the stream. *)
Lemma read_data_shrinks input b rest : read_data_batch input = Ok (b, rest) -> (length rest < length input)%nat.
Proof.
  unfold read_data_batch. destruct (read_batch_frame input) as [[payload r]|] eqn:Hf; [|done].
  destruct (parse_batch_payload_items payload); [|done]. intros [= _ <-]. revert Hf. unfold read_batch_frame.
  intros (magic & s1 & H1%read_exact_length & H)%bind_ok. destruct (negb _); [done|].
  apply bind_ok in H as (hdr & s2 & H2%read_exact_length & H).
  destruct (_ <? _); [done|]. destruct (_ <? _); [apply read_exact_length in H; lia|].
  unfold ret in H. simplify_eq. lia.
Qed.

Lemma read_batches_ends fuel input : (length input < fuel)%nat -> exists bs e, read_batches fuel input = (bs, Some e).
Proof.
  revert input. induction fuel as [|fuel IH]; intros input Hf; [lia|]. cbn [read_batches].
  destruct (read_data_batch input) as [[b rest]|e] eqn:Hr; [|by exists [], e].
  apply read_data_shrinks in Hr. destruct (IH rest ltac:(lia)) as (bs & e & ->). by exists (b :: bs), e.
Qed.

Lemma read_batches_frames fuel bs tail :
  Forall batch_ok bs -> (length bs < fuel)%nat ->
  read_batches fuel (concat (map encode_batch bs) ++ tail) =
    let '(more, e) := read_batches (fuel - length bs) tail in (bs ++ more, e).
Proof.
  intros Hbs. revert fuel. induction Hbs as [|b bs Hb _ IH]; intros fuel Hf.
  { cbn. rewrite Nat.sub_0_r. by destruct (read_batches fuel tail). }
  destruct fuel as [|fuel]; [cbn in Hf; lia|]. cbn [map concat length read_batches Nat.sub]. rewrite <- app_assoc.
  rewrite read_data_rest by done. rewrite IH by (cbn in Hf; lia). by destruct (read_batches _ tail).
Qed.

Lemma encode_batch_len b : (10 <= length (encode_batch b))%nat.
Proof.
  unfold encode_batch, encode_framed_batch. rewrite !length_app, !length_to_le. cbn. lia.
Qed.

Lemma concat_frames_len (bs : list batch) : (length bs <= length (concat (map encode_batch bs)))%nat.
Proof.
  induction bs as [|b bs IH]; [done|]. cbn. rewrite length_app. pose proof (encode_batch_len b). lia.
Qed.

Lemma read_data_items input b rest : read_data_batch input = Ok (b, rest) -> Forall item_ok b.
Proof.
  unfold read_data_batch. destruct (read_batch_frame input) as [[payload r]|]; [|done].
  destruct (parse_batch_payload_items payload) as [items|] eqn:Hp; [|done]. intros [= <- _].
  unfold parse_batch_payload_items, batch_item_count in Hp. destruct (Z.ltb_spec (blen payload) 2); [done|].
  cbn in Hp. apply parse_items_sound in Hp as (_ & Hf & _); [exact Hf|]. unfold blen in *. lia.
Qed.

Lemma read_batches_items fuel input bs e : read_batches fuel input = (bs, e) -> Forall (Forall item_ok) bs.
Proof.
  revert input bs e.
  induction fuel as [|fuel IH]; intros input bs e; cbn [read_batches]; [intros [= <- _]; constructor|].
  destruct (read_data_batch input) as [[b rest]|] eqn:Hr; [|intros [= <- _]; constructor].
  destruct (read_batches fuel rest) as [bs' e'] eqn:Hrec. intros [= <- _].
  constructor; [by eapply read_data_items|by eapply IH].
Qed.

(** The last item of a frame is its end, behind a part its bytes do not matter for. *)
Lemma encode_batch_snoc (init : batch) (x : list byte) :
  exists pre, forall y, length y = length x -> encode_batch (init ++ [y]) = pre ++ y.
Proof.
  eexists (MAGIC_BATCH ++ to_le 2 (wrap 16 (Z.of_nat (length init + 1))) ++
    to_le 4 (wrap 32 (2 + 4 * Z.of_nat (length init + 1) + (total_len init + blen x))) ++
    to_le 2 (wrap 16 (Z.of_nat (length init + 1))) ++ concat (map encode_item init) ++ to_le 4 (wrap 32 (blen x))).
  intros y Hy. assert (Hb : blen y = blen x) by (unfold blen; by rewrite Hy).
  unfold encode_batch, encode_framed_batch. rewrite <- inner_batch_payload_len_spec, inner_batch_payload_len_total.
  unfold encode_batch_payload. rewrite length_app, total_len_app. cbn [length total_len foldr].
  rewrite Z.add_0_r, map_app, concat_app. cbn [map concat]. unfold encode_item at 2.
  rewrite app_nil_r, Hb, <- !app_assoc. done.
Qed.

Lemma overlaid_length k t x : (k <= length x)%nat -> (k <= length t)%nat -> length (overlaid k t x) = length x.
Proof. intros Hx Ht. unfold overlaid. rewrite length_app, !length_take. lia. Qed.

(** A frame without its last [k] bytes, and [k] bytes of what follows in their place. *)
Lemma overlaid_frame (init : batch) x k t :
  (k <= length x)%nat -> (k <= length t)%nat ->
  list.take (length (encode_batch (init ++ [x])) - k) (encode_batch (init ++ [x])) ++ list.take k t
    = encode_batch (init ++ [overlaid k t x]).
Proof.
  intros Hx Ht. destruct (encode_batch_snoc init x) as [pre Hpre].
  rewrite (Hpre x eq_refl), (Hpre (overlaid k t x)) by (by apply overlaid_length).
  rewrite length_app, take_app_ge by lia. unfold overlaid. rewrite app_assoc.
  by replace (length pre + length x - k - length pre)%nat with (length x - k)%nat by lia.
Qed.

Lemma overlaid_ok init x k t :
  (k <= length x)%nat -> (k <= length t)%nat -> batch_ok (init ++ [x]) -> batch_ok (init ++ [overlaid k t x]).
Proof.
  intros Hx Ht (Hf & Hn & Hmax).
  assert (Hb : blen (overlaid k t x) = blen x) by (unfold blen; by rewrite overlaid_length).
  apply Forall_app in Hf as [Hi Hl]. split_and!.
  - apply Forall_app. split; [done|]. constructor; [|constructor]. unfold item_ok. rewrite Hb. by inversion Hl.
  - rewrite length_app in *. exact Hn.
  - rewrite inner_batch_payload_len_total, length_app, total_len_app in *. cbn in *. by rewrite Hb.
Qed.

(** A delivery over a connection made for it. *)
Lemma deliver_fresh {stream} (s : stream) k now addr items idle :
  tcp_deliver_batch (short_net s k now) addr items (new idle) =
    (put (now PutEvict) (now PutSince) addr s (evict_stale (now TakeEvict) (new idle)),
     [(s, list.take (length (encode_batch items) - k) (encode_batch items))], Ok tt).
Proof.
  unfold tcp_deliver_batch. cbn [deliver_loop]. unfold get_or_connect, take.
  rewrite evict_lookup. cbn [dp_conns new]. rewrite lookup_empty. cbn -[tcp_deliver_batch_once].
  unfold tcp_deliver_batch_once.
  unfold write_batch_vectored, write_framed_batch_vectored. cbn -[batch_slices]. by rewrite batch_slices_concat.
Qed.

(** A delivery over the connection the pool holds. *)
Lemma deliver_pooled {stream} (s s' : stream) since now addr items p :
  dp_conns p !! addr = Some {| pc_stream := s; pc_idle_since := since |} ->
  elapsed (now TakeEvict) since < dp_idle_timeout p -> elapsed (now TakeCheck) since < dp_idle_timeout p ->
  exists p', tcp_deliver_batch (short_net s' 0 now) addr items p = (p', [(s, encode_batch items)], Ok tt).
Proof.
  intros Hp He Hc. unfold tcp_deliver_batch. cbn [deliver_loop]. unfold get_or_connect.
  rewrite take_spec, Hp. cbn [pc_idle_since pc_stream short_net net_now].
  rewrite (proj2 (Z.ltb_lt _ _) He), (proj2 (Z.ltb_lt _ _) Hc). cbn [andb].
  unfold tcp_deliver_batch_once, write_batch_vectored, write_framed_batch_vectored. cbn -[batch_slices].
  rewrite batch_slices_concat, Nat.sub_0_r. eexists. rewrite firstn_all. reflexivity.
Qed.

(** ** Properties *)

(** C15: a connection hands over whole batches.  The loop of the consumer reads a stream
    of frames as the batches that were encoded, in order; of one cut short at any byte
    it reads nothing, and ends.  On any bytes at all it ends, and every item it took is
    of a size the protocol allows. *)
Theorem data_stream_integrity :
  (forall bs b p q, Forall batch_ok bs -> batch_ok b -> p ++ q = encode_batch b -> q <> [] ->
     read_stream (concat (map encode_batch bs) ++ p) = (bs, Some ReadExact)) /\
  (forall input, exists bs e, read_stream input = (bs, Some e) /\ Forall (Forall item_ok) bs).
Proof.
  split.
  - intros bs b p q Hbs Hb Hpq Hq. unfold read_stream. pose proof (concat_frames_len bs).
    rewrite read_batches_frames; [|done|rewrite length_app; lia].
    destruct (S _ - _)%nat as [|n] eqn:Hn; [rewrite length_app in Hn; lia|].
    cbn [read_batches]. rewrite (read_data_cut b p q) by done. by rewrite app_nil_r.
  - intros input. destruct (read_batches_ends (S (length input)) input) as (bs & e & Hr); [lia|].
    exists bs, e. split; [exact Hr|]. by eapply read_batches_items.
Qed.

(** C34: a short write corrupts the next batch of the connection.  One write of all the
    slices is made, and what it took is not looked at: with [k] bytes missing the
    delivery succeeds and its connection goes back to the pool; the next delivery to
    the consumer, before the idle timeout, succeeds on the same connection; and the handler of the consumer is
    given the first batch with the last bytes of its last item replaced by the head
    of the second frame, an item nobody published.  The second batch is then refused. *)
Theorem short_write_corrupts {stream} (s s' : stream) k now now' addr idle init x items2 c i st :
  batch_ok (init ++ [x]) -> batch_ok items2 -> (1 <= k <= length x)%nat -> (k <= 10)%nat ->
  elapsed (now' TakeEvict) (now PutSince) < idle -> elapsed (now' TakeCheck) (now PutSince) < idle ->
  awaiting_batch i st ->
  exists p1 p2 bytes1 bytes2 st',
    tcp_deliver_batch (short_net s k now) addr (init ++ [x]) (new idle) = (p1, [(s, bytes1)], Ok tt) /\
    tcp_deliver_batch (short_net s' 0 now') addr items2 p1 = (p2, [(s, bytes2)], Ok tt) /\
    run c (hand_over i (bytes1 ++ bytes2)) st = Some st' /\
    cs_app st' = Handling (init ++ [overlaid k (encode_batch items2) x]) /\
    ((k <= 3)%nat -> read_data_batch (drop k bytes2) = Err (Bail "expected BATC magic" [])).
Proof.
  intros H1 H2 [Hk Hx] Hk10 Hidle Hidle' Hst. pose proof (encode_batch_len items2) as Hlen.
  set (p1 := put (now PutEvict) (now PutSince) addr s (evict_stale (now TakeEvict) (new idle))).
  destruct (deliver_pooled s s' (now PutSince) now' addr items2 p1) as [p2 Hp2];
    [apply lookup_insert_eq|exact Hidle|exact Hidle'|].
  set (bytes1 := list.take (length (encode_batch (init ++ [x])) - k) (encode_batch (init ++ [x]))).
  assert (Hread : read_data_batch (bytes1 ++ encode_batch items2) =
    Ok (init ++ [overlaid k (encode_batch items2) x], drop k (encode_batch items2))).
  { rewrite <- (take_drop k (encode_batch items2)) at 1. rewrite app_assoc. unfold bytes1.
    rewrite overlaid_frame by lia. apply read_data_rest. apply overlaid_ok; [lia|lia|done]. }
  destruct (hand_over_run c st i (bytes1 ++ encode_batch items2) _ _ Hst Hread) as (st' & Hrun & Happ & _);
    [by destruct init|].
  exists p1, p2, bytes1, (encode_batch items2), st'.
  split_and!; [apply deliver_fresh|exact Hp2|exact Hrun|exact Happ|].
  intros Hk3. destruct (encode_batch_shape items2 []) as (cnt & Hc & Heq).
  { destruct H2 as (_ & _ & Hmax). unfold MAX_INGRESS_BATCH_FRAME_BYTES, umax in *. lia. }
  rewrite app_nil_r in Heq. rewrite Heq.
  destruct cnt as [|c1 [|c2 [|]]]; try done.
  remember (to_le 4 (inner_batch_payload_len items2)) as len eqn:Hlen4.
  pose proof (length_to_le 4 (inner_batch_payload_len items2)) as Hl4. rewrite <- Hlen4 in Hl4.
  destruct len as [|l1 [|l2 [|l3 [|l4 [|]]]]]; try done.
  destruct k as [|[|[|[|k]]]]; [lia| | | |lia]; reflexivity.
Qed.

(** *** Witnesses *)

Definition ab : batch := [as_bytes "first"; as_bytes "second"].
Definition xy : batch := [as_bytes "third"].

Lemma ab_ok : batch_ok ab.
Proof. split_and!; [repeat constructor; vm_compute; discriminate| |]; vm_compute; discriminate. Qed.

Lemma xy_ok : batch_ok xy.
Proof. split_and!; [repeat constructor; vm_compute; discriminate| |]; vm_compute; discriminate. Qed.

Lemma data_stream_integrity_witness :
  read_stream (encode_batch ab ++ encode_batch xy ++ list.take 12 (encode_batch ab)) = ([ab; xy], Some ReadExact).
Proof.
  rewrite app_assoc.
  replace (encode_batch ab ++ encode_batch xy) with (concat (map encode_batch [ab; xy])) by (cbn; by rewrite app_nil_r).
  apply (proj1 data_stream_integrity [ab; xy] ab _ (drop 12 (encode_batch ab))).
  - constructor; [apply ab_ok|]. constructor; [apply xy_ok|constructor].
  - apply ab_ok.
  - apply take_drop.
  - vm_compute. discriminate.
Defined.

(** The clock of an attempt that takes three nanoseconds. *)
Definition ticking (t : Z) (r : reading) : Z :=
  match r with TakeEvict => t | TakeCheck => t + 1 | PutEvict => t + 2 | PutSince => t + 3 end.

(** "second" reaches the handler as "secBAT". *)
Lemma short_write_corrupts_witness :
  exists p1 p2 bytes1 bytes2 st',
    tcp_deliver_batch (short_net 1%nat 3 (ticking 1000)) "c:9760" ab (new 60) = (p1, [(1%nat, bytes1)], Ok tt) /\
    tcp_deliver_batch (short_net 2%nat 0 (ticking 1010)) "c:9760" xy p1 = (p2, [(1%nat, bytes2)], Ok tt) /\
    run sample_config (hand_over 0 (bytes1 ++ bytes2)) waiting = Some st' /\
    cs_app st' = Handling [as_bytes "first"; as_bytes "secBAT"].
Proof.
  destruct (short_write_corrupts 1%nat 2%nat 3 (ticking 1000) (ticking 1010) "c:9760" 60 [as_bytes "first"] (as_bytes "second") xy
    sample_config 0 waiting ab_ok xy_ok) as (p1 & p2 & bytes1 & bytes2 & st' & H1 & H2 & H3 & H4 & _);
    [vm_compute; lia|lia|reflexivity|reflexivity|constructor; vm_compute; reflexivity|].
  exists p1, p2, bytes1, bytes2, st'. split; [exact H1|]. split; [exact H2|]. split; [exact H3|].
  rewrite H4. vm_compute. reflexivity.
Defined.
