(* ===== verification/Conservation.v ===== *)
(** * What becomes of a batch in a consumer

    A batch read off a data connection is held by its connection, stored in
    [DataPlane.pending], taken by the control task and handed to the application; or it
    is lost.  This file keeps the account of every event of [ConsumerClient], and
    proves that it balances: what was read is exactly what is somewhere in the
    client, what was dropped as stale, and what was dropped at two other places. *)

From S2P Require Import Prelude Protocol.
From S2P Require ConsumerClient.

Import ConsumerClient.

(** ** The account *)

(** A batch on its way from a connection to the control task. *)
Definition held (ph : DataPhase) : option batch := match ph with Holding b => Some b | _ => None end.

(** All the batches a client has, or had with its application. *)
Definition inside (s : ConsumerState) : list batch :=
  taken s ++ option_list (cs_pending s) ++ omap held (cs_data s).

(** The batch an event reads off a connection. *)
Definition arrived (ev : client_event) (s : ConsumerState) : list batch :=
  match ev with
  | Data k (Incoming input) =>
    match cs_data s !! k with
    | Some Reading => match read_data_batch input with Ok (b, _) => [b] | Err _ => [] end
    | _ => []
    end
  | _ => []
  end.

(** The batch refused because the accept window is closed: the one counted as stale. *)
Definition refused (ev : client_event) (s : ConsumerState) : list batch :=
  if cs_accept s then [] else arrived ev s.

(** What is dropped without a trace: the batch a store replaces, the batch a new cycle
    finds in [pending], and an empty batch. *)
Definition dropped (ev : client_event) (s : ConsumerState) : list batch :=
  match ev with
  | Data k _ => match cs_data s !! k with Some (Holding _) => option_list (cs_pending s) | _ => [] end
  | Control Cleared => option_list (cs_pending s)
  | Control BatchReady => match cs_pending s with Some [] => [[]] | _ => [] end
  | _ => []
  end.

(** The account of a run. *)
Record Tally := { ta_arrived : list batch; ta_refused : list batch; ta_dropped : list batch }.

Fixpoint tally (c : ConsumerConfig) (evs : list client_event) (s : ConsumerState) : Tally :=
  match evs with
  | [] => Build_Tally [] [] []
  | ev :: evs =>
    let t := tally c evs (default s (client_turn c ev s)) in
    {| ta_arrived := arrived ev s ++ ta_arrived t; ta_refused := refused ev s ++ ta_refused t;
       ta_dropped := dropped ev s ++ ta_dropped t |}
  end.

(** ** Lemmas *)

(** [s'] has what [s] had, but for [d]. *)
Definition balanced (s' s : ConsumerState) (d : list batch) : Prop := Permutation (inside s) (inside s' ++ d).

Lemma balanced_places s' s :
  cs_pending s' = cs_pending s -> cs_data s' = cs_data s -> Permutation (taken s) (taken s') -> balanced s' s [].
Proof. intros Hp Hd Ht. unfold balanced, inside. by rewrite Hp, Hd, Ht, app_nil_r. Qed.

Lemma leaves_taken s' s :
  leaves s' s -> taken s' = cs_handled s ++ cs_lost s ++ in_handler (cs_app s) ++ omap (fun m => m) (cs_channel s).
Proof.
  intros (Hch & Ha & Hh & Hl & _ & _ & _ & Hph). unfold taken, outstanding. rewrite Hch, Ha, Hh, Hl.
  assert (in_handover (cs_control s') = []) as -> by (destruct Hph as [[-> _]|[->| ->]]; done). by rewrite app_nil_r.
Qed.

Lemma end_session_places c ok s :
  cs_pending (end_session c ok s) = cs_pending s /\ cs_data (end_session c ok s) = cs_data s.
Proof. unfold end_session. by destruct ok, (gives_up c _). Qed.

Lemma session_top_places c s :
  cs_pending (session_top c s) = cs_pending s /\ cs_data (session_top c s) = cs_data s.
Proof. unfold session_top. destruct (cs_stop s); [apply end_session_places|done]. Qed.

(** The end of a session or the top of its loop, from a state [s0] whose batches in the
    application and the channel are those of [s]. *)
Lemma end_session_balanced c ok s0 s :
  cs_pending s0 = cs_pending s -> cs_data s0 = cs_data s ->
  Permutation (taken s) (cs_handled s0 ++ cs_lost s0 ++ in_handler (cs_app s0) ++ omap (fun m => m) (cs_channel s0)) ->
  balanced (end_session c ok s0) s [].
Proof.
  intros Hp Hd Ht. destruct (end_session_places c ok s0) as [Hp' Hd'].
  apply balanced_places; [congruence..|]. by rewrite (leaves_taken _ _ (end_session_leaves c ok s0)).
Qed.

Lemma session_top_balanced c s0 s :
  cs_pending s0 = cs_pending s -> cs_data s0 = cs_data s ->
  Permutation (taken s) (cs_handled s0 ++ cs_lost s0 ++ in_handler (cs_app s0) ++ omap (fun m => m) (cs_channel s0)) ->
  balanced (session_top c s0) s [].
Proof.
  intros Hp Hd Ht. destruct (session_top_places c s0) as [Hp' Hd'].
  apply balanced_places; [congruence..|]. by rewrite (leaves_taken _ _ (session_top_leaves c s0)).
Qed.

Ltac places Hph :=
  unfold taken, outstanding; cbn -[omap]; rewrite ?Hph;
  repeat match goal with H : cs_app _ = _ |- _ => rewrite !H; clear H end;
  cbn -[omap]; rewrite ?app_nil_r, ?omap_snoc_some, ?omap_snoc_none, <- ?app_assoc;
  first [done|solve_Permutation].

Ltac ends Hph :=
  first [apply end_session_balanced|apply session_top_balanced|apply balanced_places]; [done|done|places Hph].

Lemma register_session_balanced c ok s : cs_control s = Connecting -> balanced (register_session c ok s) s [].
Proof.
  intros Hph. unfold register_session. destruct (encode_register _) as [reg|]; [destruct ok|]; [ends Hph|..];
    destruct (gives_up c _); ends Hph.
Qed.

Lemma take_pending_balanced c s :
  cs_control s = WaitBatch -> balanced (take_pending c s) s (dropped (Control BatchReady) s).
Proof.
  intros Hph. unfold take_pending, dropped.
  change (cs_pending (on_stats (count_stale (cs_stale s)) (set_accept_batch false s))) with (cs_pending s).
  destruct (cs_pending s) as [[|x b]|] eqn:Hp; cbn [default option_list from_option id].
  2: { unfold balanced, inside, taken, outstanding. rewrite Hp. cbn -[omap]. rewrite ?Hph. cbn -[omap].
       rewrite ?app_nil_r, <- !app_assoc. solve_Permutation. }
  all: match goal with |- balanced (session_top ?c1 ?s1) _ _ =>
         assert (Hb : balanced (session_top c1 s1) s1 []) by ends Hph end;
    unfold balanced in *; rewrite app_nil_r in Hb; rewrite <- Hb; unfold inside, taken, outstanding; rewrite Hp;
    cbn -[omap]; rewrite ?app_nil_r, <- ?app_assoc; solve_Permutation.
Qed.

Lemma control_step_balanced c ev s s' : control_step c ev s = Some s' -> balanced s' s (dropped (Control ev) s).
Proof.
  unfold control_step. destruct (cs_control s) as [| | | | | | |b|cnt| |] eqn:Hph; destruct ev; try done;
    cbn [dropped].
  - intros [= <-]. destruct (cs_stop s); ends Hph.
  - intros [= <-]. destruct (gives_up c _); ends Hph.
  - intros [= <-]. by apply register_session_balanced.
  - destruct (cs_prefetch s); [|done]. intros [= <-]. destruct (cs_stop _); ends Hph.
  - destruct (cs_dead s); [|done]. intros [= <-]. ends Hph.
  - intros [= <-]. unfold balanced, inside, taken, outstanding. cbn -[omap]. rewrite ?Hph. cbn -[omap]. solve_Permutation.
  - destruct (encode_consumer_ready _ _) as [frame|]; [destruct ok|]; intros [= <-]; ends Hph.
  - intros [= <-]. destruct ok; ends Hph.
  - destruct (cs_dead s); [|done]. intros [= <-]. ends Hph.
  - destruct (cs_ready s && _); [|done]. intros [= <-]. by apply take_pending_balanced.
  - destruct (cs_ready s || _); [done|]. intros [= <-]. ends Hph.
  - destruct (cs_app s) eqn:Happ; [destruct (_ <? _)%nat; [|done]..|]; intros [= <-]; ends Hph.
  - intros [= <-]. destruct cnt; ends Hph.
  - destruct (cs_app s) eqn:Happ; [destruct (_ <? _)%nat; [|done]..|]; intros [= <-]; ends Hph.
Qed.

Lemma app_step_balanced ev s s' : app_step ev s = Some s' -> balanced s' s [].
Proof.
  unfold app_step. destruct (cs_app s) as [|b| |] eqn:Happ; destruct ev as [|[]| | | |]; try done.
  1: unfold pull_batch; destruct (cs_channel s) as [|[b|] rest] eqn:Hch.
  1: destruct (cs_control s) eqn:Hph; try done.
  1-3: intros [= <-]; ends Hch.
  all: intros [= <-]; ends Happ.
Qed.

(** A step of a data connection. *)
Lemma data_step_balanced k ev s :
  Permutation (inside s ++ arrived (Data k ev) s)
    (inside (data_step k ev s) ++ refused (Data k ev) s ++ dropped (Data k ev) s).
Proof.
  unfold refused, arrived, dropped, data_step. destruct (cs_data s !! k) as [ph|] eqn:Hk.
  2: { destruct ev, (cs_accept s); by rewrite !app_nil_r. }
  pose proof (omap_insert held (cs_data s) k ph) as Ho.
  assert (Hkeep : forall ph', held ph = None -> held ph' = None ->
            Permutation (inside s) (inside {| s with cs_data := <[k := ph']> (cs_data s) |})).
  { intros ph' H1 H2. specialize (Ho ph' Hk). rewrite H1, H2 in Ho. cbn in Ho. rewrite !app_nil_r in Ho.
    unfold inside. cbn -[omap taken].
    change (taken (Build_ConsumerState _ _ _ _ _ _ _ _ _ _ _ _ _ _ _)) with (taken s). by rewrite Ho. }
  destruct ph as [| |b| |]; unfold serve_step.
  - destruct ev, (cs_accept s), (cs_stop s); rewrite !app_nil_r; by apply Hkeep.
  - destruct ev as [input|]; [|destruct (cs_accept s); rewrite !app_nil_r; by apply Hkeep].
    destruct (read_data_batch input) as [[b rest]|]; [|destruct (cs_accept s); rewrite !app_nil_r; by apply Hkeep].
    unfold check_accept. destruct (cs_accept s) eqn:Ha.
    + specialize (Ho (Holding b) Hk). cbn -[omap] in Ho. rewrite app_nil_r in Ho. unfold inside. cbn -[omap taken].
      change (taken (Build_ConsumerState _ _ _ _ _ _ _ _ _ _ _ _ _ _ _)) with (taken s).
      rewrite Ho, !app_nil_r. by rewrite <- !app_assoc.
    + rewrite app_nil_r. apply Permutation_app_tail. specialize (Hkeep Entering eq_refl eq_refl). by rewrite Hkeep.
  - specialize (Ho Raising Hk). cbn -[omap] in Ho. rewrite app_nil_r in Ho.
    assert (Ha : (if cs_accept s then [] else match ev with Incoming _ | _ => @nil batch end) = []) by (by destruct (cs_accept s), ev).
    unfold inside. cbn -[omap taken].
    change (taken (Build_ConsumerState _ _ _ _ _ _ _ _ _ _ _ _ _ _ _)) with (taken s). rewrite <- Ho.
    destruct (cs_accept s), ev, (cs_pending s); cbn -[omap taken]; solve_Permutation.
  - destruct ev, (cs_accept s); rewrite !app_nil_r; by apply Hkeep.
  - destruct ev, (cs_accept s); rewrite !app_nil_r; by apply Hkeep.
Qed.

Lemma client_turn_balanced c ev s s' :
  client_turn c ev s = Some s' ->
  Permutation (inside s ++ arrived ev s) (inside s' ++ refused ev s ++ dropped ev s).
Proof.
  assert (Hb : forall d, balanced s' s d -> arrived ev s = [] -> dropped ev s = d ->
            Permutation (inside s ++ arrived ev s) (inside s' ++ refused ev s ++ dropped ev s)).
  { intros d H Ha Hd. unfold refused. rewrite Ha, Hd, app_nil_r. destruct (cs_accept s); exact H. }
  destruct ev as [ev| | |k ev|ev]; cbn [client_turn].
  - intros H. by eapply Hb; [by eapply control_step_balanced|..].
  - intros [= <-]. eapply Hb; [|done|done]. unfold watchdog. destruct (in_session _); by apply balanced_places.
  - intros [= <-]. eapply Hb; [|done|done]. unfold balanced, inside. cbn -[omap taken]. rewrite omap_app. cbn -[omap taken].
    by rewrite !app_nil_r.
  - intros [= <-]. apply data_step_balanced.
  - intros H. eapply Hb; [by eapply app_step_balanced|done|done].
Qed.

(** The counter of stale batches. *)
Lemma end_session_stale c ok s : cs_stale (end_session c ok s) = cs_stale s.
Proof. unfold end_session. by destruct ok, (gives_up c _). Qed.

Lemma session_top_stale c s : cs_stale (session_top c s) = cs_stale s.
Proof. unfold session_top. destruct (cs_stop s); [apply end_session_stale|done]. Qed.

Lemma client_turn_stale c ev s s' :
  client_turn c ev s = Some s' -> wrap 64 (cs_stale s') = wrap 64 (cs_stale s + Z.of_nat (length (refused ev s))).
Proof.
  assert (Hb : cs_stale s' = cs_stale s -> arrived ev s = [] ->
            wrap 64 (cs_stale s') = wrap 64 (cs_stale s + Z.of_nat (length (refused ev s)))).
  { intros H Ha. unfold refused. rewrite Ha, H. destruct (cs_accept s); by rewrite Z.add_0_r. }
  destruct ev as [ev| | |k ev|ev]; cbn [client_turn].
  - intros H. apply Hb; [|done]. revert H. unfold control_step.
    destruct (cs_control s), ev; try done; repeat case_match; intros; simplify_eq;
      rewrite ?end_session_stale, ?session_top_stale; try done.
    + unfold register_session. repeat case_match; rewrite ?session_top_stale; done.
    + unfold take_pending. case_match; rewrite ?session_top_stale; done.
  - intros [= <-]. apply Hb; [|done]. unfold watchdog. by destruct (in_session _).
  - intros [= <-]. by apply Hb.
  - intros [= <-]. unfold refused, arrived, data_step, serve_step, check_accept.
    destruct (cs_data s !! k) as [[| |b| |]|]; [destruct ev, (cs_accept s); by rewrite Z.add_0_r|
      |destruct ev, (cs_accept s); by rewrite Z.add_0_r..].
    destruct ev as [input|]; [|destruct (cs_accept s); by rewrite Z.add_0_r].
    destruct (read_data_batch input) as [[b rest]|]; [|destruct (cs_accept s); by rewrite Z.add_0_r].
    destruct (cs_accept s); [by rewrite Z.add_0_r|]. cbn -[wrap].
    pose proof (wrap_count (cs_stale s + 1) 0) as Hw. rewrite !Z.add_0_r in Hw. exact Hw.
  - intros H. apply Hb; [|done]. revert H. unfold app_step. repeat case_match; intros; simplify_eq; try done.
    all: unfold pull_batch in *; repeat case_match; by simplify_eq.
Qed.

Lemma run_tally c evs s s' :
  run c evs s = Some s' ->
  let t := tally c evs s in
  Permutation (inside s ++ ta_arrived t) (inside s' ++ ta_refused t ++ ta_dropped t) /\
  wrap 64 (cs_stale s') = wrap 64 (cs_stale s + Z.of_nat (length (ta_refused t))).
Proof.
  revert s. induction evs as [|ev evs IH]; intros s; cbn [run tally]; cbv zeta.
  { intros [= <-]. cbn -[wrap]. by rewrite Z.add_0_r. }
  destruct (client_turn c ev s) as [t|] eqn:Ht; [|done]. intros Hrun.
  destruct (IH t Hrun) as [Hp Hs]. pose proof (client_turn_balanced c ev s t Ht) as Hb.
  pose proof (client_turn_stale c ev s t Ht) as Hst. cbn [default from_option id ta_arrived ta_refused ta_dropped].
  set (tl := tally c evs t) in *. split.
  - rewrite app_assoc, Hb, <- !app_assoc.
    transitivity (refused ev s ++ dropped ev s ++ (inside t ++ ta_arrived tl)); [solve_Permutation|].
    rewrite Hp. solve_Permutation.
  - rewrite Hs, length_app, Nat2Z.inj_add, Z.add_assoc, <- wrap_count, Hst, wrap_count. done.
Qed.

(** ** Properties *)

(** C19: every batch is accounted for.  In every run of a consumer, the batches read off
    its data connections are, each exactly once: with the application (handled,
    failed on, or on the way to its handler), in [pending], held by a connection,
    refused outside the accept window, or dropped.  [cs_stale] counts the refused
    ones, modulo 2^64, and not the dropped ones: those a second store replaced, and
    those stored after their window had closed, which the next cycle clears. *)
Theorem batches_conserved c evs s :
  run c evs connect = Some s ->
  let t := tally c evs connect in
  Permutation (ta_arrived t)
    (taken s ++ option_list (cs_pending s) ++ omap held (cs_data s) ++ ta_refused t ++ ta_dropped t) /\
  wrap 64 (cs_stale s) = wrap 64 (Z.of_nat (length (ta_refused t))).
Proof.
  intros Hrun. destruct (run_tally c evs connect s Hrun) as [Hp Hs]. split; [|exact Hs].
  cbn [inside] in Hp. unfold inside in Hp. cbn [taken] in Hp. rewrite <- !app_assoc in Hp. exact Hp.
Qed.

(** The batch 01 passes the window and is stored after the timeout: the next cycle
    drops it.  02 comes in between and is stale; 03 reaches the handler. *)
Definition late_store : list client_event :=
  first_wait ++
  [Data 0 (Incoming (frame_of [[Byte.x01]])); Control BatchTimeout; Data 0 IdleTimeout; Data 0 IdleTimeout;
   Data 1 (Incoming (frame_of [[Byte.x02]])); Data 1 IdleTimeout; Control GateOpen; Control Cleared; Control (Written true);
   Control (Flushed true); Data 1 (Incoming (frame_of [[Byte.x03]])); Data 1 IdleTimeout; Data 1 IdleTimeout;
   Control BatchReady; Control ChannelSend; App Recv].

Lemma batches_conserved_witness :
  exists s, run sample_config late_store connect = Some s /\
    taken s = [[[Byte.x03]]] /\ cs_stale s = 1 /\
    ta_refused (tally sample_config late_store connect) = [[[Byte.x02]]] /\
    ta_dropped (tally sample_config late_store connect) = [[[Byte.x01]]] /\
    let t := tally sample_config late_store connect in
    Permutation (ta_arrived t)
      (taken s ++ option_list (cs_pending s) ++ omap held (cs_data s) ++ ta_refused t ++ ta_dropped t) /\
    wrap 64 (cs_stale s) = wrap 64 (Z.of_nat (length (ta_refused t))).
Proof.
  eexists. split; [vm_compute; reflexivity|]. do 4 (split; [vm_compute; reflexivity|]).
  apply (batches_conserved sample_config late_store). vm_compute. reflexivity.
Defined.
