(* ===== verification/Network.v ===== *)
(** * The deployment: producers, consumers and the connections between them

    [Pipeline] is one producer, [ConsumerClient] one consumer, [DataStream] one
    connection.  Here any number of each run together, every task of every client
    between its own points of suspension, with the bytes in flight on each connection.
    The master appears as what it can do to the clients: it may write any ASGN to any
    producer at any time and end any session, and carries no payload.  So what is
    proved of a run of the deployment holds for every behaviour of the master. *)

From S2P Require Import Prelude Utf8 Protocol ByteRing Accumulator DeliveryPool ProducerClient Pipeline EndToEnd DataStream Conservation.
From S2P Require ConsumerClient.

Import ConsumerClient.

(** ** State *)

(** A data connection: the consumer and its index in [cs_data]. *)
Definition address : Type := nat * nat.

(** [lk_bytes]: written and not yet read; [lk_open]: the producer's end. *)
Record Link := { lk_open : bool; lk_bytes : list byte }.

(** [pn_outcome]: how the delivery of the batch on the wire ended, before
    [deliver_assign] looks at it; [pn_sent]: the batches written, whole. *)
Record ProducerNode :=
  { pn_producer : Producer; pn_pool : DeliveryPool address; pn_outcome : option delivery; pn_sent : list batch }.

Record ConsumerNode := { cn_config : ConsumerConfig; cn_client : ConsumerState; cn_links : list Link }.

Record Network := { nw_producers : list ProducerNode; nw_consumers : list ConsumerNode }.

Definition producer_node (cfg : ProducerConfig) : ProducerNode :=
  {| pn_producer := start cfg; pn_pool := DeliveryPool.new (from_secs (cfg_delivery_idle_secs cfg));
     pn_outcome := None; pn_sent := [] |}.

Definition consumer_node (cc : ConsumerConfig) : ConsumerNode :=
  {| cn_config := cc; cn_client := ConsumerClient.connect; cn_links := [] |}.

Definition deploy (pcs : list ProducerConfig) (ccs : list ConsumerConfig) : Network :=
  {| nw_producers := map producer_node pcs; nw_consumers := map consumer_node ccs |}.

Definition with_producer (j : nat) (n : ProducerNode) (w : Network) : Network :=
  {| w with nw_producers := <[j := n]> (nw_producers w) |}.
Definition with_consumer (i : nat) (n : ConsumerNode) (w : Network) : Network :=
  {| w with nw_consumers := <[i := n]> (nw_consumers w) |}.

(** ** The connections *)

(** Bytes put on a connection; on one that was reset they are lost. *)
Definition put_link (bytes : list byte) (l : Link) : Link :=
  if lk_open l then {| l with lk_bytes := lk_bytes l ++ bytes |} else l.

Definition put_node (k : nat) (bytes : list byte) (n : ConsumerNode) : ConsumerNode :=
  {| n with cn_links := alter (put_link bytes) k (cn_links n) |}.

(** What a delivery wrote, on its connections. *)
Fixpoint carry (log : list (address * list byte)) (cs : list ConsumerNode) : list ConsumerNode :=
  match log with
  | [] => cs
  | ((i, k), bytes) :: log => carry log (alter (put_node k bytes) i cs)
  end.

(** The end of a connection, with [m] of the bytes in flight still to be read. *)
Definition reset_link (m : nat) (l : Link) : Link := {| lk_open := false; lk_bytes := list.take m (lk_bytes l) |}.

(** What the read of connection [k] leaves on it. *)
Definition leftover (s : ConsumerState) (k : nat) (input : list byte) : list byte :=
  match cs_data s !! k with
  | Some Reading => match read_data_batch input with Ok (_, rest) => rest | Err _ => input end
  | _ => input
  end.

Definition read_link (k : nat) (l : Link) (n : ConsumerNode) : ConsumerNode :=
  {| n with cn_client := data_step k (Incoming (lk_bytes l)) (cn_client n);
            cn_links := <[k := {| l with lk_bytes := leftover (cn_client n) k (lk_bytes l) |}]> (cn_links n) |}.

Definition connect_link (n : ConsumerNode) : ConsumerNode :=
  {| n with cn_client := accept_data (cn_client n); cn_links := cn_links n ++ [{| lk_open := true; lk_bytes := [] |}] |}.

(** A write takes every byte or fails, and the flush of a socket does nothing. *)
Definition whole_writes (n : net address) : Prop :=
  (forall attempt s slices k, net_write n attempt s slices = Ok k -> k = length (concat slices)) /\
  (forall attempt s, net_flush n attempt s = Ok tt).

(** ** Steps *)

(** A payload of a size its length field can hold. *)
Definition small (p : payload) : Prop := blen p + 6 <= umax 32.

(** An event of the consumer's own: no new connection, no bytes read. *)
Definition internal (ev : client_event) : bool :=
  match ev with Accept => false | Data _ (Incoming _) => false | _ => true end.

Definition outcome_of (r : result chain unit) : delivery :=
  match r with Ok _ => Delivered | Err e => DeliveryFailed e end.

(** The end of [deliver_assign], as [pd_settle]. *)
Definition settled (items : list QueuedMessage) (d : delivery) (p : Producer) : Producer :=
  let '(st, report) := assign_finish items d (cl_inner (pd_client p)) in
  {| p with pd_client := with_inner st (pd_client p); pd_wire := None;
            pd_delivered := match report with
                            | Ok _ => pd_delivered p ++ map qm_payload items
                            | Err _ => pd_delivered p
                            end |}.

(** [nt_producer]: a step of a producer, its delivery apart.  [nt_deliver]: the delivery
    of the batch on the wire, in at most two attempts, over the pool; an empty batch
    is not delivered.  [nt_timeout]: the timeout, with nothing written.  [nt_settle]: the
    rest of [deliver_assign].  [nt_connect], [nt_reset]: a data connection comes up, or
    ends.  [nt_consumer]: a step of a consumer.  [nt_read]: a read of a connection. *)
Inductive net_step (w : Network) : Network -> Prop :=
| nt_producer j n p :
    nw_producers w !! j = Some n -> producer_step (pn_producer n) p ->
    pd_wire (pn_producer n) = None \/ pd_wire p = pd_wire (pn_producer n) -> Forall small (pd_published p) ->
    net_step w (with_producer j {| n with pn_producer := p |} w)
| nt_deliver j n items addr nt pool log r :
    nw_producers w !! j = Some n -> pd_wire (pn_producer n) = Some items -> items <> [] -> pn_outcome n = None ->
    whole_writes nt -> tcp_deliver_batch nt addr (map qm_payload items) (pn_pool n) = (pool, log, r) ->
    net_step w
      {| nw_producers := <[j := {| n with pn_pool := pool; pn_outcome := Some (outcome_of r);
                                          pn_sent := if r is Ok _ then pn_sent n ++ [map qm_payload items] else pn_sent n |}]>
                           (nw_producers w);
         nw_consumers := carry log (nw_consumers w) |}
| nt_timeout j n items now later addr :
    nw_producers w !! j = Some n -> pd_wire (pn_producer n) = Some items -> items <> [] -> pn_outcome n = None ->
    net_step w (with_producer j {| n with pn_pool := (DeliveryPool.take now later addr (pn_pool n)).2;
                                          pn_outcome := Some DeliveryTimeout |} w)
| nt_settle j n items d :
    nw_producers w !! j = Some n -> pd_wire (pn_producer n) = Some items -> pn_outcome n = Some d \/ items = [] ->
    net_step w (with_producer j {| n with pn_producer := settled items d (pn_producer n); pn_outcome := None |} w)
| nt_connect i n :
    nw_consumers w !! i = Some n -> net_step w (with_consumer i (connect_link n) w)
| nt_reset i n k m :
    nw_consumers w !! i = Some n ->
    net_step w (with_consumer i {| n with cn_links := alter (reset_link m) k (cn_links n) |} w)
| nt_consumer i n ev s :
    nw_consumers w !! i = Some n -> internal ev = true -> client_turn (cn_config n) ev (cn_client n) = Some s ->
    net_step w (with_consumer i {| n with cn_client := s |} w)
| nt_read i n k l :
    nw_consumers w !! i = Some n -> cn_links n !! k = Some l -> net_step w (with_consumer i (read_link k l n) w).

(** ** Where batches are *)

(** What the applications were given, or will be: with the handler, in the channel, on
    the way there, handled, or failed on. *)
Definition handed (w : Network) : list batch := concat (map (fun n => taken (cn_client n)) (nw_consumers w)).

Definition sent (w : Network) : list batch := concat (map pn_sent (nw_producers w)).

Definition published (w : Network) : list payload := concat (map (fun n => pd_published (pn_producer n)) (nw_producers w)).

(** A frame as a producer writes it. *)
Definition frame_ok (b : batch) : Prop :=
  Forall (fun p => 1 <= blen p) b /\ Z.of_nat (length b) <= umax 16 /\ inner_batch_payload_len b <= umax 32.

(** The frames on a connection; one that was reset can end within a frame. *)
Definition carries (l : Link) (bs : list batch) : Prop :=
  Forall frame_ok bs /\
  exists cut b q, lk_bytes l = concat (map encode_batch bs) ++ cut /\ (lk_open l = true -> cut = []) /\
    frame_ok b /\ cut ++ q = encode_batch b /\ q <> [].

(** What a consumer and its connections hold. *)
Definition holds (n : ConsumerNode) (bs : list batch) : Prop :=
  exists fs, Forall2 carries (cn_links n) fs /\ bs = concat fs ++ inside (cn_client n).

(** A producer of configuration [cfg]; what it sent is what it reported and, before it
    looks at the outcome, what it has on the wire. *)
Record node_ok (cfg : ProducerConfig) (n : ProducerNode) : Prop :=
  { no_producer : producer_ok (cap_of cfg) (pn_producer n);
    no_order : in_order (abstraction (cap_of cfg) (pn_producer n));
    no_config : in_config (cl_inner (pd_client (pn_producer n))) = cfg;
    no_small : Forall small (pd_published (pn_producer n));
    no_fits : forall items, pd_wire (pn_producer n) = Some items ->
      (length items <= 1)%nat \/ qm_bytes items <= cfg_max_batch_bytes cfg;
    no_idle : pd_wire (pn_producer n) = None -> pn_outcome n = None;
    no_sent : concat (pn_sent n) = pd_delivered (pn_producer n) ++
      (if pn_outcome n is Some Delivered then wire_payloads (pd_wire (pn_producer n)) else []) }.

Definition network_ok (pcs : list ProducerConfig) (w : Network) : Prop :=
  Forall2 node_ok pcs (nw_producers w) /\
  exists bss, Forall2 holds (nw_consumers w) bss /\ concat bss ⊆+ sent w.

(** A configuration the size fields can carry. *)
Definition config_fits (cfg : ProducerConfig) : Prop :=
  cfg_outbound_max_bytes cfg <= umax 63 /\ cfg_max_batch_bytes cfg <= umax 63 /\
  cfg_max_batch_bytes cfg + 4 * umax 16 + 2 <= umax 32.

(** ** Lemmas *)

(** *** Frames *)

Lemma encode_item_inj x y r1 r2 :
  blen x <= umax 32 -> blen y <= umax 32 -> encode_item x ++ r1 = encode_item y ++ r2 -> x = y /\ r1 = r2.
Proof.
  intros Hx Hy Heq. unfold encode_item in Heq. rewrite <- !app_assoc in Heq.
  pose proof (f_equal (u_at 4 0) Heq) as Hl. rewrite !u_at_head in Hl. change (Z.of_nat 4 * 8) with 32 in Hl.
  pose proof (blen_nonneg x). pose proof (blen_nonneg y).
  rewrite !(wrap_small 32) in Hl by (rewrite ?wrap_small; unfold in_u; lia).
  apply app_inj_1 in Heq as [_ Heq]; [|by rewrite !length_to_le].
  apply app_inj_1 in Heq; [done|]. unfold blen in Hl. lia.
Qed.

Lemma encode_items_inj xs ys r1 r2 :
  length xs = length ys -> Forall (fun x => blen x <= umax 32) xs -> Forall (fun y => blen y <= umax 32) ys ->
  concat (map encode_item xs) ++ r1 = concat (map encode_item ys) ++ r2 -> xs = ys.
Proof.
  intros Hl Hx. revert ys Hl. induction Hx as [|x xs Hx _ IH]; intros [|y ys] Hl Hy Heq; try done.
  apply Forall_cons in Hy as [Hy Hys]. cbn in Hl, Heq. rewrite <- !app_assoc in Heq.
  apply encode_item_inj in Heq as [-> Heq]; [|done..]. f_equal. apply IH; [lia|done..].
Qed.

Lemma frame_item_le b x : frame_ok b -> x ∈ b -> blen x <= umax 32.
Proof.
  intros (_ & _ & Hmax) Hin. rewrite inner_batch_payload_len_total in Hmax.
  apply list_elem_of_split in Hin as (b1 & b2 & ->). rewrite total_len_app, total_len_cons in Hmax.
  pose proof (total_len_nonneg b1). pose proof (total_len_nonneg b2). unfold umax in *. lia.
Qed.

Lemma frame_items_le b : frame_ok b -> Forall (fun x => blen x <= umax 32) b.
Proof. intros Hb. apply Forall_forall. intros x. by apply frame_item_le. Qed.

(** What a reader takes of a frame is the batch, or an error. *)
Lemma read_frame b rest b' rest' :
  frame_ok b -> read_data_batch (encode_batch b ++ rest) = Ok (b', rest') -> b' = b /\ rest' = rest.
Proof.
  intros Hb. pose proof Hb as (Hpos & Hn & Hmax). unfold read_data_batch.
  destruct (encode_batch_shape b rest Hmax) as (cnt & Hc & ->).
  destruct (Z.leb_spec (inner_batch_payload_len b) MAX_INGRESS_BATCH_FRAME_BYTES) as [Hle|Hgt].
  2: by rewrite read_batch_frame_too_large.
  rewrite inner_batch_payload_len_spec in *. rewrite read_batch_frame_app by done.
  destruct (parse_batch_payload_items (encode_batch_payload b)) as [items|] eqn:Hp; [|done]. intros [= <- <-].
  split; [|done]. revert Hp. unfold parse_batch_payload_items, batch_item_count, encode_batch_payload.
  rewrite blen_app, blen_to_le. pose proof (blen_nonneg (concat (map encode_item b))).
  destruct (Z.ltb_spec (Z.of_nat 2 + blen (concat (map encode_item b))) 2); [lia|]. cbn [res_bind].
  rewrite u_at_head. change (Z.of_nat 2 * 8) with 16.
  rewrite !(wrap_small 16) by (rewrite ?wrap_small; unfold in_u; lia). rewrite Nat2Z.id.
  intros (Hl & Hf & tail & Ht)%parse_items_sound; [|rewrite length_app, length_to_le; lia].
  rewrite drop_app_length' in Ht by (by rewrite length_to_le).
  rewrite <- (app_nil_r (concat (map encode_item b))) in Ht. symmetry in Ht.
  eapply encode_items_inj; [done| |by apply frame_items_le|exact Ht].
  eapply Forall_impl; [exact Hf|]. unfold item_ok, MAX_INGRESS_ITEM_BYTES, umax. lia.
Qed.

(** Of one cut short, nothing. *)
Lemma read_cut b p q r : frame_ok b -> p ++ q = encode_batch b -> q <> [] -> read_data_batch p = Ok r -> False.
Proof.
  intros (_ & _ & Hmax) Hpq Hq. pose proof (incremental_batch_frame p q) as Hi. unfold read_data_batch.
  destruct (read_batch_frame p) as [[x rest]|]; [|done]. intros _. rewrite Hpq in Hi.
  destruct (encode_batch_shape b [] Hmax) as (cnt & Hc & Heq). rewrite app_nil_r in Heq. rewrite Heq in Hi.
  destruct (Z.leb_spec (inner_batch_payload_len b) MAX_INGRESS_BATCH_FRAME_BYTES) as [Hle|Hgt].
  2: by rewrite read_batch_frame_too_large in Hi.
  rewrite inner_batch_payload_len_spec in Hi, Hle. rewrite read_batch_frame_app in Hi by done.
  simplify_eq. by destruct rest, q.
Qed.

Lemma frame_nil : frame_ok [].
Proof. split_and!; [constructor|vm_compute; discriminate..]. Qed.

(** *** Connections *)

Lemma carries_new : carries {| lk_open := true; lk_bytes := [] |} [].
Proof.
  split; [constructor|]. exists [], [], (encode_batch []). split_and!; [done..|exact frame_nil|done|done].
Qed.

Lemma carries_put l bs b :
  carries l bs -> frame_ok b ->
  exists bs', carries (put_link (encode_batch b) l) bs' /\ bs' ⊆+ bs ++ [b].
Proof.
  intros [Hf (cut & b0 & q & Hl & Hopen & H0 & Hq & Hne)] Hb. unfold put_link. destruct (lk_open l) eqn:Ho.
  - exists (bs ++ [b]). split; [|done]. split; [apply Forall_app; split; [done|by constructor]|].
    exists [], [], (encode_batch []). cbn. rewrite Hl, (Hopen eq_refl), map_app, concat_app. cbn.
    split_and!; [by rewrite !app_nil_r|done|exact frame_nil|done|done].
  - exists bs. split; [|by apply submseteq_inserts_r]. split; [done|]. rewrite Ho in *. by exists cut, b0, q.
Qed.

Lemma carries_put_nil l bs : carries l bs -> carries (put_link [] l) bs.
Proof.
  intros H. unfold put_link. destruct l as [[] bytes]; cbn; [by rewrite app_nil_r|done].
Qed.

(** The bytes left after a cut: whole frames, and a part of one. *)
Lemma take_frames m (bs : list batch) cut b q :
  Forall frame_ok bs -> frame_ok b -> cut ++ q = encode_batch b -> q <> [] ->
  exists j cut' b' q', list.take m (concat (map encode_batch bs) ++ cut) = concat (map encode_batch (list.take j bs)) ++ cut' /\
    frame_ok b' /\ cut' ++ q' = encode_batch b' /\ q' <> [].
Proof.
  intros Hbs Hb Hq Hne. revert m. induction Hbs as [|x bs Hx Hbs IH]; intros m.
  - exists 0%nat, (list.take m cut), b, (drop m cut ++ q). cbn. split_and!; [done|done| |].
    + by rewrite app_assoc, take_drop.
    + intros [_ Hqn]%app_nil. done.
  - destruct (decide (length (encode_batch x) <= m)%nat) as [Hle|Hgt].
    + destruct (IH (m - length (encode_batch x))%nat) as (j & cut' & b' & q' & Heq & H').
      exists (S j), cut', b', q'. split; [|done]. cbn [map concat firstn]. rewrite <- !app_assoc, take_app_ge by done. by rewrite Heq.
    + exists 0%nat, (list.take m (encode_batch x)), x, (drop m (encode_batch x)). cbn [map concat firstn]. rewrite <- app_assoc.
      split_and!; [by rewrite take_app_le by lia|done|apply take_drop|].
      intros Hd. apply (f_equal length) in Hd. rewrite length_drop in Hd. cbn [length] in Hd. lia.
Qed.

Lemma carries_reset m l bs : carries l bs -> exists bs', carries (reset_link m l) bs' /\ bs' ⊆+ bs.
Proof.
  intros [Hf (cut & b & q & Hl & _ & Hb & Hq & Hne)].
  destruct (take_frames m bs cut b q Hf Hb Hq Hne) as (j & cut' & b' & q' & Heq & Hb' & Hq' & Hne').
  exists (list.take j bs). split; [|by apply sublist_submseteq, sublist_take].
  split; [by apply Forall_take|]. exists cut', b', q'. cbn. rewrite Hl. split_and!; done.
Qed.

(** Reading takes the first batch off a connection. *)
Lemma carries_read l bs b rest :
  carries l bs -> read_data_batch (lk_bytes l) = Ok (b, rest) ->
  exists bs', bs = b :: bs' /\ carries {| l with lk_bytes := rest |} bs'.
Proof.
  intros [Hf (cut & b0 & q & Hl & Hopen & H0 & Hq & Hne)] Hr. rewrite Hl in Hr.
  destruct bs as [|x bs]; [by destruct (read_cut b0 cut q _ H0 Hq Hne Hr)|].
  apply Forall_cons in Hf as [Hx Hbs]. cbn [map concat] in Hr. rewrite <- app_assoc in Hr.
  apply read_frame in Hr as [-> ->]; [|done]. exists bs. split; [done|]. split; [done|].
  by exists cut, b0, q.
Qed.

(** *** Consumers *)

(** [s'] has what [s] had, or less of it. *)
Definition shrinks (s' s : ConsumerState) : Prop := inside s' ⊆+ inside s.

Lemma client_turn_shrinks c ev s s' : internal ev = true -> client_turn c ev s = Some s' -> shrinks s' s.
Proof.
  intros Hint Ht. pose proof (client_turn_balanced c ev s s' Ht) as Hb.
  assert (arrived ev s = []) as Ha by (destruct ev as [| | |k []|]; done).
  rewrite Ha, app_nil_r in Hb. unfold shrinks. rewrite Hb. by apply submseteq_inserts_r.
Qed.

(** A read takes one batch off the connection, and the consumer has it or refuses it; or
    it takes nothing. *)
Lemma data_step_inside k input s :
  (leftover s k input = input /\ shrinks (data_step k (Incoming input) s) s) \/
  (exists b rest, read_data_batch input = Ok (b, rest) /\ leftover s k input = rest /\
     inside (data_step k (Incoming input) s) ⊆+ inside s ++ [b]).
Proof.
  pose proof (data_step_balanced k (Incoming input) s) as Hb. unfold shrinks.
  assert (Hle : inside (data_step k (Incoming input) s) ⊆+ inside s ++ arrived (Data k (Incoming input)) s).
  { rewrite Hb. by apply submseteq_inserts_r. }
  clear Hb. revert Hle. unfold leftover, arrived.
  destruct (cs_data s !! k) as [[| |b| |]|]; [rewrite app_nil_r; by left| |rewrite app_nil_r; by left..].
  destruct (read_data_batch input) as [[b rest]|]; [|rewrite app_nil_r; by left]. intros Hle. right. by exists b, rest.
Qed.

(** *** Deliveries *)

Lemma once_whole n attempt s items bytes r :
  whole_writes n -> tcp_deliver_batch_once n attempt s items = (bytes, r) ->
  match r with Ok _ => bytes = encode_batch items | Err _ => bytes = [] end.
Proof.
  intros [Hw Hf]. unfold tcp_deliver_batch_once, write_batch_vectored, write_framed_batch_vectored.
  rewrite batch_slices_concat. destruct (net_write n attempt s _) as [k|e] eqn:Hk; [|by intros [= <- <-]].
  apply Hw in Hk. rewrite batch_slices_concat in Hk. rewrite Hf. intros [= <- <-]. rewrite Hk. by apply take_ge.
Qed.

(** Of the attempts of a delivery only the last can write, and it writes the frame. *)
Lemma deliver_loop_whole n addr items left attempt e p p' log r :
  whole_writes n -> deliver_loop n addr items left attempt e p = (p', log, r) ->
  exists log0, Forall (fun w => w.2 = []) log0 /\
    match r with Ok _ => exists s, log = log0 ++ [(s, encode_batch items)] | Err _ => log = log0 end.
Proof.
  intros Hw. revert attempt e p p' log r. induction left as [|left IH]; intros attempt e p p' log r; cbn [deliver_loop].
  { intros [= <- <- <-]. by exists []. }
  destruct (get_or_connect _ _ _ _ p) as [[s|e1] p1]; [|intros [= <- <- <-]; by exists []].
  destruct (tcp_deliver_batch_once n attempt s items) as [bytes r1] eqn:H1. apply once_whole in H1; [|done].
  destruct r1 as [[]|e1]; subst bytes.
  - intros [= <- <- <-]. exists []. split; [done|]. by exists s.
  - destruct (deliver_loop n addr items left (S attempt) e1 (invalidate addr p1)) as [[p2 log2] r2] eqn:H2.
    intros [= <- <- <-]. destruct (IH _ _ _ _ _ _ H2) as (log0 & Hl & Hr). exists ((s, []) :: log0).
    split; [by constructor|]. destruct r2; [|by rewrite Hr]. destruct Hr as [s2 ->]. by exists s2.
Qed.

Lemma put_node_nil k n : put_node k [] n = n.
Proof.
  destruct n as [cc s links]. unfold put_node. cbn. f_equal. apply list_alter_id.
  intros [[] bytes]; unfold put_link; cbn; by rewrite ?app_nil_r.
Qed.

Lemma carry_nothing log cs : Forall (fun w => w.2 = []) log -> carry log cs = cs.
Proof.
  intros H. revert cs. induction H as [|[[i k] bytes] log Hb _ IH]; intros cs; [done|]. cbn in *. subst.
  rewrite list_alter_id by apply put_node_nil. apply IH.
Qed.

Lemma carry_app log1 log2 cs : carry (log1 ++ log2) cs = carry log2 (carry log1 cs).
Proof. revert cs. induction log1 as [|[[i k] bytes] log1 IH]; intros cs; [done|]. apply IH. Qed.

(** A frame more on a connection. *)
Lemma holds_put k b n bs :
  frame_ok b -> holds n bs -> exists bs', holds (put_node k (encode_batch b) n) bs' /\ bs' ⊆+ bs ++ [b].
Proof.
  intros Hb (fs & Hfs & ->). unfold put_node. rewrite alter_lookup. destruct (cn_links n !! k) as [l|] eqn:Hk.
  2: { exists (concat fs ++ inside (cn_client n)). split; [by exists fs|by apply submseteq_inserts_r]. }
  destruct (Forall2_concat_insert carries _ _ k l (put_link (encode_batch b) l) [b] Hfs Hk) as (fs' & Hfs' & Hs).
  { intros bs Hl. by apply carries_put. }
  exists (concat fs' ++ inside (cn_client n)). split; [by exists fs'|].
  etrans; [by apply submseteq_skips_r|]. solve_submseteq.
Qed.

(** *** Producers *)

Lemma local_step_config p p' : producer_ok (rb_max_bytes (in_ring (cl_inner (pd_client p)))) p -> producer_step p p' ->
  in_config (cl_inner (pd_client p')) = in_config (cl_inner (pd_client p)).
Proof.
  intros [Hok _ _] Hstep. destruct Hstep as [item now p|now p|now assign items st p Hw Hmi Heq|d items st report p Hw Heq|c p Hp Hr Ha Hc].
  - done.
  - by destruct (accumulator_turn_link now (pd_client p)) as [[Hc _] _].
  - destruct (assign_take_spec now assign _ Hok) as (n & Heq' & _). rewrite Heq in Heq'. simplify_eq. cbn.
    by destruct (flush_ingress_spec now _ Hok) as (_ & (Hc & _) & _).
  - revert Heq. unfold assign_finish, requeue_items. cbn. destruct (_ =? 0); [by intros [= <- _]|].
    destruct d; intros [= <- _]; destruct items; done.
  - done.
Qed.

Lemma local_step_fits p p' items : producer_ok (rb_max_bytes (in_ring (cl_inner (pd_client p)))) p -> producer_step p p' ->
  pd_wire p = None -> pd_wire p' = Some items ->
  (length items <= 1)%nat \/ qm_bytes items <= cfg_max_batch_bytes (in_config (cl_inner (pd_client p))).
Proof.
  intros [Hok _ _] Hstep H0 H1.
  destruct Hstep as [item now p|now p|now assign its st p Hw Hmi Heq|d its st report p Hw Heq|c p Hp Hr Ha Hc];
    cbn in H1; try congruence.
  destruct (assign_take_spec now assign _ Hok) as (n & Heq' & _ & Hn & _ & Hmb & _). rewrite Heq in Heq'.
  simplify_eq. rewrite qm_bytes_messages, length_map, length_take. destruct Hmb; [left; lia|by right].
Qed.

Lemma local_step_delivered p p' :
  producer_step p p' -> pd_wire p = None \/ pd_wire p' = pd_wire p -> pd_delivered p' = pd_delivered p.
Proof.
  intros Hstep Hl. destruct Hstep as [item now p|now p|now assign its st p Hw Hmi Heq|d its st report p Hw Heq|c p Hp Hr Ha Hc];
    try done. cbn in Hl. destruct Hl; congruence.
Qed.

Lemma step_in_order cap p p' :
  producer_ok cap p -> in_order (abstraction cap p) -> producer_step p p' ->
  producer_ok cap p' /\ in_order (abstraction cap p').
Proof.
  intros Hok Hin Hstep. destruct (producer_step_refines cap p p' Hok Hstep) as [Hok' Hs]. split; [done|].
  eapply star_invariant; [apply lossy_in_order|exact Hs|exact Hin].
Qed.

Lemma local_step_ok cfg n p :
  node_ok cfg n -> producer_step (pn_producer n) p ->
  pd_wire (pn_producer n) = None \/ pd_wire p = pd_wire (pn_producer n) -> Forall small (pd_published p) ->
  node_ok cfg {| n with pn_producer := p |}.
Proof.
  intros Hn Hstep Hl Hsmall. destruct Hn as [Hok Hin Hcfg _ Hfits Hidle Hsent].
  assert (Hok0 : producer_ok (rb_max_bytes (in_ring (cl_inner (pd_client (pn_producer n))))) (pn_producer n)).
  { pose proof (po_cap _ _ Hok) as Hc. by rewrite Hc. }
  destruct (step_in_order _ _ _ Hok Hin Hstep) as [Hok' Hin'].
  assert (Hout : pd_wire p = None -> pn_outcome n = None).
  { intros H. apply Hidle. destruct Hl; congruence. }
  constructor; cbn; [done|done| |done| |done|].
  - by rewrite (local_step_config _ _ Hok0 Hstep).
  - intros items Hw. rewrite <- Hcfg. destruct Hl as [Hl|Hl]; [by eapply local_step_fits|].
    rewrite Hcfg. apply Hfits. congruence.
  - rewrite Hsent, (local_step_delivered _ _ Hstep Hl). f_equal.
    destruct Hl as [Hl| ->]; [|done]. by rewrite (Hidle Hl).
Qed.

(** The batch on the wire is a frame, of payloads published. *)
Lemma node_frame cfg n items :
  config_fits cfg -> node_ok cfg n -> pd_wire (pn_producer n) = Some items -> frame_ok (map qm_payload items).
Proof.
  intros (_ & _ & Hcfg) [Hok [Hin _] _ Hsmall Hfits _ _] Hw. destruct (po_wire _ _ Hok items Hw) as (Hlen & Hpos & _).
  unfold in_u in Hlen. split_and!; [by apply Forall_map|rewrite length_map; lia|].
  rewrite inner_batch_payload_len_total, length_map.
  assert (Hs : Forall small (map qm_payload items)).
  { cbn in Hin. rewrite Hw in Hin. cbn in Hin. apply Forall_forall. intros x Hx. rewrite Forall_forall in Hsmall.
    apply Hsmall. eapply elem_of_submseteq; [|by apply sublist_submseteq].
    rewrite !elem_of_app. auto. }
  destruct (Hfits items Hw) as [Hone|Hmb].
  - destruct items as [|m [|m' items]]; cbn in Hone; [vm_compute; discriminate| |lia].
    apply Forall_cons in Hs as [Hs _]. unfold small in Hs. cbn. lia.
  - unfold qm_bytes in Hmb. lia.
Qed.

Lemma settled_step items d p : pd_wire p = Some items -> producer_step p (settled items d p).
Proof. intros Hw. unfold settled. destruct (assign_finish _ _ _) as [st report] eqn:Heq. by eapply pd_settle. Qed.

Lemma settled_ok cfg n items d :
  node_ok cfg n -> pd_wire (pn_producer n) = Some items -> pn_outcome n = Some d \/ items = [] ->
  node_ok cfg {| n with pn_producer := settled items d (pn_producer n); pn_outcome := None |}.
Proof.
  intros [Hok Hin Hcfg Hsmall Hfits Hidle Hsent] Hw Hd. pose proof (settled_step items d _ Hw) as Hstep.
  assert (Hok0 : producer_ok (rb_max_bytes (in_ring (cl_inner (pd_client (pn_producer n))))) (pn_producer n)).
  { pose proof (po_cap _ _ Hok) as Hc. by rewrite Hc. }
  destruct (step_in_order _ _ _ Hok Hin Hstep) as [Hok' Hin']. pose proof (local_step_config _ _ Hok0 Hstep) as Hc'.
  destruct (po_wire _ _ Hok items Hw) as (Hlen & Hpos & Hb).
  pose proof (assign_finish_spec items d (cl_inner (pd_client (pn_producer n))) (po_inner _ _ Hok) Hlen Hpos) as Hspec.
  rewrite (po_cap _ _ Hok) in Hspec. specialize (Hspec Hb). revert Hstep Hok' Hin' Hc'. unfold settled.
  destruct (assign_finish _ _ _) as [st report]. intros _ Hok' Hin' Hc'. cbn in Hc'.
  constructor; cbn; [done|done|congruence|done|done|done|]. rewrite Hsent, Hw, app_nil_r. cbn.
  destruct report as [rep|rep].
  - destruct Hspec as ([->| ->] & _).
    + by destruct (pn_outcome n) as [[]|]; rewrite ?app_nil_r.
    + destruct Hd as [->| ->]; [done|]. by destruct (pn_outcome n) as [[]|]; rewrite ?app_nil_r.
  - destruct Hspec as (Hne & Hnd & _). destruct Hd as [->|]; [|done]. destruct d; [done|by rewrite app_nil_r..].
Qed.

(** An outcome for the batch on the wire, sent if and only if it is [Delivered]. *)
Lemma outcome_ok cfg n items pool d sent' :
  node_ok cfg n -> pd_wire (pn_producer n) = Some items -> pn_outcome n = None ->
  concat sent' = concat (pn_sent n) ++ (if d is Delivered then map qm_payload items else []) ->
  node_ok cfg {| n with pn_pool := pool; pn_outcome := Some d; pn_sent := sent' |}.
Proof.
  intros [Hok Hin Hcfg Hsmall Hfits Hidle Hsent] Hw Ho Hs. constructor; cbn; try done; [congruence|].
  rewrite Hs, Hsent, Ho, app_nil_r, Hw. done.
Qed.

Lemma producer_node_ok cfg : config_fits cfg -> node_ok cfg (producer_node cfg).
Proof.
  intros (H1 & H2 & _). constructor; cbn; try done. by apply start_ok.
Qed.

(** *** The whole deployment *)

Lemma holds_less n n' bs :
  cn_links n' = cn_links n -> shrinks (cn_client n') (cn_client n) -> holds n bs -> exists bs', holds n' bs' /\ bs' ⊆+ bs ++ [].
Proof.
  intros Hl Hs (fs & Hfs & ->). exists (concat fs ++ inside (cn_client n')). split; [exists fs; by rewrite Hl|].
  rewrite app_nil_r. by apply submseteq_skips_l.
Qed.

Lemma holds_connect n bs : holds n bs -> exists bs', holds (connect_link n) bs' /\ bs' ⊆+ bs ++ [].
Proof.
  intros (fs & Hfs & ->). exists (concat (fs ++ [[]]) ++ inside (cn_client (connect_link n))).
  split; [exists (fs ++ [[]]); split; [|done]; apply Forall2_app; [done|]; constructor; [apply carries_new|constructor]|].
  rewrite concat_app. unfold inside, connect_link. cbn -[omap]. rewrite omap_app. cbn -[omap].
  by rewrite !app_nil_r.
Qed.

Lemma holds_reset n k m bs :
  holds n bs -> exists bs', holds {| n with cn_links := alter (reset_link m) k (cn_links n) |} bs' /\ bs' ⊆+ bs ++ [].
Proof.
  intros (fs & Hfs & ->). rewrite alter_lookup. destruct (cn_links n !! k) as [l|] eqn:Hk.
  2: { exists (concat fs ++ inside (cn_client n)). split; [by exists fs|by rewrite app_nil_r]. }
  destruct (Forall2_concat_insert carries _ _ k l (reset_link m l) [] Hfs Hk) as (fs' & Hfs' & Hs).
  { intros bs Hl. rewrite app_nil_r. by apply carries_reset. }
  exists (concat fs' ++ inside (cn_client n)). split; [by exists fs'|]. rewrite app_nil_r in *. by apply submseteq_skips_r.
Qed.

Lemma holds_read n k l bs :
  cn_links n !! k = Some l -> holds n bs -> exists bs', holds (read_link k l n) bs' /\ bs' ⊆+ bs ++ [].
Proof.
  intros Hk (fs & Hfs & ->). destruct (data_step_inside k (lk_bytes l) (cn_client n)) as [[Hl Hs]|(b & rest & Hr & Hl & Hs)].
  - exists (concat fs ++ inside (cn_client (read_link k l n))). unfold read_link. rewrite Hl. split.
    + exists fs. split; [|done]. cbn. by rewrite list_insert_id by (by destruct l).
    + rewrite app_nil_r. by apply submseteq_skips_l.
  - destruct (Forall2_lookup_l _ _ _ _ _ Hfs Hk) as (f & Hf & Hc).
    destruct (carries_read l f b rest Hc Hr) as (f' & -> & Hc').
    exists (concat (<[k := f']> fs) ++ inside (cn_client (read_link k l n))). unfold read_link. rewrite Hl. split.
    + exists (<[k := f']> fs). split; [|done]. cbn. by apply Forall2_insert.
    + rewrite app_nil_r. cbn [cn_client].
      assert (Hp : Permutation (concat fs) (concat (<[k := f']> fs) ++ [b])).
      { rewrite <- (list_insert_id fs k (b :: f')) at 1 by done.
        assert (Hd : forall g, Permutation (concat (<[k := g]> fs)) (g ++ concat (delete k fs))).
        { intros g. rewrite insert_take_drop by (by eapply lookup_lt_Some). rewrite concat_app, delete_take_drop, concat_app.
          cbn. solve_Permutation. }
        rewrite !Hd. cbn. solve_Permutation. }
      rewrite Hp. etrans; [by apply submseteq_skips_l|]. solve_submseteq.
Qed.

Lemma network_consumer_step pcs w i n n' :
  network_ok pcs w -> nw_consumers w !! i = Some n ->
  (forall bs, holds n bs -> exists bs', holds n' bs' /\ bs' ⊆+ bs ++ []) -> network_ok pcs (with_consumer i n' w).
Proof.
  intros (Hps & bss & Hcs & Hs) Hi Hstep. split; [done|].
  destruct (Forall2_concat_insert holds _ _ i n n' [] Hcs Hi Hstep) as (bss' & Hcs' & Hs').
  exists bss'. split; [done|]. rewrite app_nil_r in Hs'. by etrans.
Qed.

Lemma network_producer_step pcs w j n n' :
  network_ok pcs w -> nw_producers w !! j = Some n -> (forall cfg, cfg ∈ pcs -> node_ok cfg n -> node_ok cfg n') ->
  pn_sent n' = pn_sent n -> network_ok pcs (with_producer j n' w).
Proof.
  intros (Hps & bss & Hcs & Hs) Hj Hstep Hsent. split; [by eapply Forall2_replace|]. exists bss. split; [done|].
  unfold sent. cbn. by rewrite (map_insert_same pn_sent _ j n n').
Qed.

Lemma network_deliver pcs w j n items addr nt pool log r :
  Forall config_fits pcs -> network_ok pcs w ->
  nw_producers w !! j = Some n -> pd_wire (pn_producer n) = Some items -> pn_outcome n = None ->
  whole_writes nt -> tcp_deliver_batch nt addr (map qm_payload items) (pn_pool n) = (pool, log, r) ->
  network_ok pcs
    {| nw_producers := <[j := {| n with pn_pool := pool; pn_outcome := Some (outcome_of r);
                                        pn_sent := if r is Ok _ then pn_sent n ++ [map qm_payload items] else pn_sent n |}]>
                         (nw_producers w);
       nw_consumers := carry log (nw_consumers w) |}.
Proof.
  intros Hfit (Hps & bss & Hcs & Hs) Hj Hw Ho Hnt Hd. set (b := map qm_payload items) in *.
  destruct (deliver_loop_whole _ _ _ _ _ _ _ _ _ _ Hnt Hd) as (log0 & Hlog0 & Hlog). split.
  - eapply Forall2_replace; [exact Hps|exact Hj|]. intros cfg _ Hn. eapply outcome_ok; [done..|].
    destruct r; cbn; [by rewrite concat_app; cbn; rewrite app_nil_r|by rewrite app_nil_r].
  - unfold sent. destruct r as [[]|e]; cbn.
    + destruct Hlog as [[i k] ->]. rewrite carry_app, (carry_nothing log0) by done. cbn.
      match goal with |- context [map pn_sent (<[j := ?n']> _)] =>
        pose proof (concat_insert_more pn_sent _ j n n' [b] Hj eq_refl) as Hmore end.
      rewrite alter_lookup.
      destruct (nw_consumers w !! i) as [cn|] eqn:Hi.
      2: { exists bss. split; [done|]. rewrite Hmore. by apply submseteq_inserts_r. }
      destruct (Forall2_concat_insert holds _ _ i cn (put_node k (encode_batch b) cn) [b] Hcs Hi) as (bss' & Hcs' & Hs').
      { intros bs. apply holds_put. destruct (Forall2_lookup_r _ _ _ _ _ Hps Hj) as (cfg & Hcfg & Hn).
        rewrite Forall_forall in Hfit. eapply node_frame; [|done|done]. apply Hfit. by eapply list_elem_of_lookup_2. }
      exists bss'. split; [done|]. rewrite Hmore. etrans; [exact Hs'|]. by apply submseteq_skips_r.
    + rewrite Hlog, carry_nothing by done. exists bss. split; [done|]. by rewrite (map_insert_same pn_sent _ j n).
Qed.

Lemma net_step_ok pcs w w' : Forall config_fits pcs -> network_ok pcs w -> net_step w w' -> network_ok pcs w'.
Proof.
  intros Hfit Hok Hstep.
  destruct Hstep as [j n p Hj Hp Hl Hsm|j n items addr nt pool log r Hj Hw Hne Ho Hnt Hd|j n items now addr Hj Hw Hne Ho
                    |j n items d Hj Hw Hd|i n Hi|i n k m Hi|i n ev s Hi Hint Ht|i n k l Hi Hk].
  - eapply network_producer_step; [done|done| |done]. intros cfg _ Hn. by apply local_step_ok.
  - by apply (network_deliver pcs w j n items addr nt pool log r).
  - eapply network_producer_step; [done|done| |done]. intros cfg _ Hn. eapply outcome_ok; [done..|]. by rewrite app_nil_r.
  - eapply network_producer_step; [done|done| |done]. intros cfg _ Hn. by apply settled_ok.
  - eapply network_consumer_step; [done|done|]. apply holds_connect.
  - eapply network_consumer_step; [done|done|]. apply holds_reset.
  - eapply network_consumer_step; [done|done|]. intros bs. apply holds_less; [done|]. by eapply client_turn_shrinks.
  - eapply network_consumer_step; [done|done|]. intros bs. by apply holds_read.
Qed.

Lemma deploy_ok pcs ccs : Forall config_fits pcs -> network_ok pcs (deploy pcs ccs).
Proof.
  intros Hfit. split.
  - cbn. induction Hfit; constructor; [by apply producer_node_ok|done].
  - exists (map (fun _ => []) ccs). split.
    + cbn. induction ccs; constructor; [|done]. exists []. split; [constructor|done].
    + assert (concat (map (fun _ => @nil batch) ccs) = []) as -> by (by induction ccs). apply submseteq_nil_l.
Qed.

Lemma holds_taken cs bss : Forall2 holds cs bss -> concat (map (fun n => taken (cn_client n)) cs) ⊆+ concat bss.
Proof.
  induction 1 as [|n bs cs bss (fs & _ & ->) _ IH]; cbn; [done|]. apply submseteq_app; [|done].
  unfold inside. apply submseteq_inserts_l. by apply submseteq_inserts_r.
Qed.

Lemma node_sublist cfg n : node_ok cfg n -> sublist (concat (pn_sent n)) (pd_published (pn_producer n)).
Proof.
  intros [_ [Hin _] _ _ _ _ Hsent]. etrans; [|exact Hin]. cbn. rewrite Hsent. apply sublist_app; [done|].
  destruct (pn_outcome n) as [[]|]; [by apply sublist_inserts_r|apply sublist_nil_l..].
Qed.

Lemma concat_sent w : concat (sent w) = concat (map (fun n => concat (pn_sent n)) (nw_producers w)).
Proof. unfold sent. induction (nw_producers w) as [|n ns IH]; cbn; [done|]. by rewrite concat_app, IH. Qed.

(** A consumer's own events, one after another. *)
Lemma net_consumer_run i evs s w n :
  nw_consumers w !! i = Some n -> forallb internal evs = true -> run (cn_config n) evs (cn_client n) = Some s ->
  star net_step w (with_consumer i {| n with cn_client := s |} w).
Proof.
  revert w n. induction evs as [|ev evs IH]; intros w n Hi Hint Hrun; cbn in Hint, Hrun.
  - simplify_eq. replace (with_consumer i _ w) with w; [apply star_refl|].
    destruct w as [ps cs]. unfold with_consumer. cbn in *. f_equal. symmetry. apply list_insert_id. by destruct n.
  - apply andb_true_iff in Hint as [Hev Hint]. destruct (client_turn _ ev _) as [t|] eqn:Ht; [|done].
    eapply star_step; [by eapply nt_consumer|].
    assert (Hli : (i < length (nw_consumers w))%nat) by (by eapply lookup_lt_Some).
    pose proof (IH (with_consumer i {| n with cn_client := t |} w) {| n with cn_client := t |}) as Hs.
    cbn in Hs. rewrite list_lookup_insert_eq in Hs by done. specialize (Hs eq_refl Hint Hrun).
    unfold with_consumer in *. cbn in Hs. by rewrite list_insert_insert_eq in Hs.
Qed.

(** ** Properties *)

(** C2: at most once, across the whole deployment.  Any number of producers and
    consumers, any master, any interleaving of all their tasks, deliveries that
    succeed, fail or time out, connections that end anywhere within a frame: as long
    as a write takes all or nothing, the payloads the applications of all the
    consumers were given are payloads published, each publication given at most once
    and to one application only.  A batch given is a batch one producer sent, whole;
    the batches of a producer hold what it published in the order of publication; and
    it sent exactly what it reports as delivered: nothing it reports as failed, or
    still holds, was given to anyone. *)
Theorem deployment_at_most_once pcs ccs w :
  Forall config_fits pcs -> star net_step (deploy pcs ccs) w ->
  concat (handed w) ⊆+ published w /\ handed w ⊆+ sent w /\
  (forall j n, nw_producers w !! j = Some n ->
     let p := pn_producer n in
     sublist (concat (pn_sent n)) (pd_published p) /\
     concat (pn_sent n) = pd_delivered p ++ (if pn_outcome n is Some Delivered then wire_payloads (pd_wire p) else [])).
Proof.
  intros Hfit Hrun. assert (Hok : network_ok pcs w).
  { eapply star_invariant; [intros a b; by apply net_step_ok|exact Hrun|by apply deploy_ok]. }
  destruct Hok as (Hps & bss & Hcs & Hs).
  assert (Hh : handed w ⊆+ sent w) by (etrans; [by apply holds_taken|exact Hs]).
  split_and!; [|exact Hh|].
  - etrans; [apply concat_submseteq; exact Hh|]. rewrite concat_sent. unfold published.
    apply concat_map_submseteq. apply Forall_forall. intros n [j Hj]%list_elem_of_lookup.
    destruct (Forall2_lookup_r _ _ _ _ _ Hps Hj) as (cfg & _ & Hn). by eapply sublist_submseteq, node_sublist.
  - intros j n Hj. destruct (Forall2_lookup_r _ _ _ _ _ Hps Hj) as (cfg & _ & Hn).
    split; [by eapply node_sublist|]. by apply (no_sent cfg).
Qed.

(** *** A run *)

(** One producer, one consumer, the connection 0 between them. *)
Definition sample_net : net address :=
  {| net_connect := fun _ _ => Ok (0%nat, 0%nat); net_write := fun _ _ slices => Ok (length (concat slices));
     net_flush := fun _ _ => Ok tt; net_now := fun _ _ => 0 |}.

Definition two : AssignRequest := {| ar_max_items := 2; ar_data_addr := "127.0.0.1:9760"; ar_consumer_tag := "t" |}.

Lemma sample_whole : whole_writes sample_net.
Proof. split; [intros ? ? ? ? [= <-]; done|done]. Qed.

(** A run with its states evaluated. *)
Lemma run_to w w1 w2 u : star net_step w w1 -> w1 = w2 -> star net_step w2 u -> star net_step w u.
Proof. intros H <-. by apply star_trans. Qed.

Lemma step_to w w1 w2 u : net_step w w1 -> w1 = w2 -> star net_step w2 u -> star net_step w u.
Proof. intros H <-. by apply star_step. Qed.

Ltac evaluated := vm_compute; reflexivity.

Ltac publishes b :=
  eapply step_to; [eapply (nt_producer _ 0); [reflexivity|apply (pd_publish [b] demo_now)|by left|by repeat constructor]|evaluated|].

Ltac assigned :=
  eapply step_to; [eapply (nt_producer _ 0);
    [reflexivity|eapply (pd_assign demo_now two); [reflexivity|vm_compute; split; discriminate|evaluated]
    |by left|by repeat constructor]|evaluated|].

Ltac delivered :=
  eapply step_to; [eapply (nt_deliver _ 0 _ _ "127.0.0.1:9760" sample_net);
    [reflexivity|reflexivity|discriminate|reflexivity|apply sample_whole|evaluated]|evaluated|].

(** Three payloads published, two of them assigned, delivered, read and handled; the
    third delivered and still on its connection. *)
Lemma sample_deployment :
  exists w, star net_step (deploy [default_config "m:7000"] [sample_config]) w /\
    handed w = [[[Byte.x01]; [Byte.x02]]] /\ sent w = [[[Byte.x01]; [Byte.x02]]; [[Byte.x03]]] /\
    published w = [[Byte.x01]; [Byte.x02]; [Byte.x03]].
Proof.
  assert (Hsm : forall b, small [b]) by (intros b; vm_compute; discriminate).
  eexists. split.
  - eapply run_to; [eapply (net_consumer_run 0 (list.take 7 first_wait)); [reflexivity|reflexivity|evaluated]|evaluated|].
    eapply step_to; [eapply (nt_connect _ 0); reflexivity|evaluated|].
    eapply step_to; [eapply (nt_consumer _ 0 _ (Data 0 IdleTimeout)); [reflexivity|reflexivity|evaluated]|evaluated|].
    publishes Byte.x01. publishes Byte.x02. publishes Byte.x03. assigned. delivered.
    eapply step_to; [eapply (nt_read _ 0 _ 0); reflexivity|evaluated|].
    eapply step_to; [eapply (nt_settle _ 0); [reflexivity|reflexivity|left; reflexivity]|evaluated|].
    eapply run_to; [eapply (net_consumer_run 0 (tail (first_batch []) ++ [App (HandlerDone true); Data 0 IdleTimeout]));
      [reflexivity|reflexivity|evaluated]|evaluated|].
    assigned. delivered. apply star_refl.
  - split_and!; evaluated.
Defined.

Lemma deployment_at_most_once_witness :
  exists w, star net_step (deploy [default_config "m:7000"] [sample_config]) w /\
    handed w = [[[Byte.x01]; [Byte.x02]]] /\ sent w = [[[Byte.x01]; [Byte.x02]]; [[Byte.x03]]] /\
    concat (handed w) ⊆+ published w /\ handed w ⊆+ sent w /\
    (forall j n, nw_producers w !! j = Some n ->
       let p := pn_producer n in
       sublist (concat (pn_sent n)) (pd_published p) /\
       concat (pn_sent n) = pd_delivered p ++ (if pn_outcome n is Some Delivered then wire_payloads (pd_wire p) else [])).
Proof.
  destruct sample_deployment as (w & Hr & Hh & Hs & _). exists w. split; [exact Hr|]. split; [exact Hh|]. split; [exact Hs|].
  apply (deployment_at_most_once [default_config "m:7000"] [sample_config]); [|exact Hr].
  constructor; [|constructor]. split_and!; vm_compute; discriminate.
Defined.
