(* ===== verification/Facade.v ===== *)
(** * The client facade ([master/src/client/mod.rs])

    [CupidMQ] is a producer or a consumer; each call goes to the one it is for, and
    is refused by the other. *)

From S2P Require Import Prelude Protocol.
From S2P Require ProducerClient ConsumerClient.

Inductive CupidMQ : Type :=
| Producer (p : ProducerClient.Client)
| Consumer (c : ConsumerClient.ConsumerState).

Definition connect_producer (config : ProducerClient.ProducerConfig) : CupidMQ :=
  Producer (ProducerClient.connect config).

Definition connect_consumer : CupidMQ := Consumer ConsumerClient.connect.

Definition enqueue (payload : list byte) (now : ProducerClient.clock) (q : CupidMQ) : result error CupidMQ :=
  match q with
  | Producer p => Ok (Producer (ProducerClient.publish_batch payload now p))
  | Consumer _ => bail "enqueue: not a producer"
  end.

(** The call of [consume]; its loop is [ConsumerClient.app_step].  It borrows the
    client mutably, so no other call of it is running. *)
Definition consume (q : CupidMQ) : result error CupidMQ :=
  match q with
  | Consumer c => Ok (Consumer (default c (ConsumerClient.app_step ConsumerClient.CallConsume c)))
  | Producer _ => bail "consume: not a consumer"
  end.

Definition producer_stats (q : CupidMQ) : result error ProducerClient.ProducerStats :=
  match q with
  | Producer p => Ok (ProducerClient.cl_stats p)
  | Consumer _ => bail "stats: not a producer"
  end.

Definition consumer_stats (q : CupidMQ) : result error ConsumerClient.ConsumerStats :=
  match q with
  | Consumer c => Ok (ConsumerClient.cs_stats c)
  | Producer _ => bail "stats: not a consumer"
  end.
