(* ===== verification/Examples.v ===== *)
(** * The programs of [master/examples]

    The stress producer ([cupidmq-producer.rs]): its arguments, the payloads it
    builds, its pacing and its loop; the consumer of the container
    ([docker-consumer.rs]); the two minimal clients ([producer.rs], [consumer.rs]).
    Random numbers come from the [rand] crate, a parameter; the clocks and what the
    client's own tasks do between two calls are an environment. *)

From S2P Require Import Prelude Utf8 Protocol Float64 Text.
From S2P Require ByteRing Accumulator ProducerClient ConsumerClient Pipeline Facade.

(** ** Arguments *)

Definition KB : Z := 1024.
Definition MAGIC : list byte := as_bytes "CUPIDMQ" ++ [Byte.x00].
Definition HEADER_LEN : Z := blen MAGIC + 8 + 4.

Inductive PayloadPattern : Type := Zeros | Random | Increment.

Record Args :=
  { ar_master : string; ar_label : string; ar_reconnect_delay_secs : Z;
    ar_rate : Z; ar_rate_min : Z; ar_rate_max : Z; ar_count : Z; ar_duration_secs : Z; ar_publish_mult : Z;
    ar_source_id : Z; ar_payload_bytes : Z; ar_payload_bytes_min : Z; ar_payload_bytes_max : Z;
    ar_payload_pattern : PayloadPattern; ar_reuse_payload : bool;
    ar_batch_mode : bool; ar_max_batch_size_mb : Z; ar_flush_timeout_ms : Z; ar_outbound_max_mb : Z;
    ar_delivery_timeout_secs : Z; ar_delivery_idle_secs : Z }.

(** The [default_value]s. *)
Definition default_args : Args :=
  {| ar_master := "127.0.0.1:9750"; ar_label := "producer"; ar_reconnect_delay_secs := 2;
     ar_rate := 0; ar_rate_min := 0; ar_rate_max := 0; ar_count := 0; ar_duration_secs := 0; ar_publish_mult := 1;
     ar_source_id := 1; ar_payload_bytes := 8 * KB; ar_payload_bytes_min := 0; ar_payload_bytes_max := 0;
     ar_payload_pattern := Zeros; ar_reuse_payload := false;
     ar_batch_mode := false; ar_max_batch_size_mb := 64; ar_flush_timeout_ms := 100; ar_outbound_max_mb := 4096;
     ar_delivery_timeout_secs := 8; ar_delivery_idle_secs := ProducerClient.DEFAULT_DELIVERY_IDLE_SECS |}.

Record RatePlan := { rp_idle : bool; rp_min : Z; rp_max : Z }.

Definition rate_plan (a : Args) : RatePlan :=
  let idle := (ar_rate a =? 0) && (ar_rate_min a =? 0) && (ar_rate_max a =? 0) in
  if idle then {| rp_idle := true; rp_min := 0; rp_max := 0 |}
  else if (0 <? ar_rate_min a) || (0 <? ar_rate_max a) then
    let min := Z.max (ar_rate_min a) 1 in
    {| rp_idle := false; rp_min := min; rp_max := Z.max (ar_rate_max a) min |}
  else
    let r := Z.max (ar_rate a) 1 in {| rp_idle := false; rp_min := r; rp_max := r |}.

Definition payload_byte_range (a : Args) : Z * Z :=
  let '(lo, hi) :=
    if (0 <? ar_payload_bytes_min a) || (0 <? ar_payload_bytes_max a) then
      let lo := if 0 <? ar_payload_bytes_min a then ar_payload_bytes_min a else ar_payload_bytes a in
      let hi := if 0 <? ar_payload_bytes_max a then ar_payload_bytes_max a else lo in
      (lo, hi)
    else (ar_payload_bytes a, ar_payload_bytes a) in
  let lo := Z.max (Z.min lo hi) HEADER_LEN in
  let hi := Z.max (Z.max lo hi) HEADER_LEN in
  (lo, hi).

(** [saturating_mul] on [usize] *)
Definition sat_mul (x y : Z) : Z := Z.min (x * y) (umax usize_w).

Definition producer_config (a : Args) : ProducerClient.ProducerConfig :=
  let mb := 1024 * 1024 in
  let c := ProducerClient.default_config (ar_master a) in
  let c := ProducerClient.max_batch_bytes c (sat_mul (ar_max_batch_size_mb a) mb) in
  let c := ProducerClient.flush_timeout_ms c (ar_flush_timeout_ms a) in
  let c := ProducerClient.outbound_max_bytes c (sat_mul (ar_outbound_max_mb a) mb) in
  let c := ProducerClient.reconnect_delay_secs c (ar_reconnect_delay_secs a) in
  let c := ProducerClient.delivery_timeout_secs c (ar_delivery_timeout_secs a) in
  ProducerClient.delivery_idle_secs c (ar_delivery_idle_secs a).

(** ** Pacing *)

(** Round a quotient to the nearest integer, ties to even. *)
Definition round_half_even (num den : Z) : Z :=
  let q := num / den in
  let r := 2 * (num mod den) in
  if r <? den then q else if den <? r then q + 1 else if Z.even q then q else q + 1.

(** [Duration::from_secs_f64] in nanoseconds, for a finite number that is not
    negative; the others panic. *)
Definition from_secs_f64 (x : f64) : option Z :=
  match x with
  | SpecFloat.S754_zero _ => Some 0
  | SpecFloat.S754_finite false m e =>
    Some (if 0 <=? e then Zpos m * 2 ^ e * 1000000000 else round_half_even (Zpos m * 1000000000) (2 ^ (- e)))
  | _ => None
  end.

(** [Duration::from_secs_f64(1.0 / rate as f64)] *)
Definition interval_of (rate : Z) : option Z := from_secs_f64 (fdiv (of_int 1) (of_int rate)).

(** The new [*next], and how long it sleeps. *)
Definition sleep_until (next interval now : Z) : Z * option Z :=
  let next := next + interval in
  if now <? next then (next, Some (next - now)) else (now, None).

(** ** The loop *)

Section Rand.

(** [rand::thread_rng()]: its state, [gen::<u8>()] and [gen_range(lo..=hi)]. *)
Context {Rng : Type} (gen_u8 : Rng -> byte * Rng) (gen_range : Z -> Z -> Rng -> Z * Rng).

Fixpoint gen_bytes (n : nat) (rng : Rng) : list byte * Rng :=
  match n with
  | O => ([], rng)
  | S n => let '(b, rng) := gen_u8 rng in let '(bs, rng) := gen_bytes n rng in (b :: bs, rng)
  end.

Definition header (seq source_id : Z) : list byte := MAGIC ++ to_le 8 seq ++ to_le 4 source_id.

Definition build_payload (seq source_id size : Z) (pattern : PayloadPattern) (rng : Rng) : list byte * Rng :=
  let size := Z.max size HEADER_LEN in
  let buf := header seq source_id in
  let body_len := Z.to_nat (size - HEADER_LEN) in
  match pattern with
  | Zeros => (buf ++ repeat Byte.x00 (Z.to_nat (size - blen buf)), rng)
  | Random => let '(body, rng) := gen_bytes body_len rng in (buf ++ body, rng)
  | Increment =>
    (buf ++ map (fun i => byte.of_Z (wrap 8 (wrap 8 seq + wrap 8 (Z.of_nat i)))) (List.seq 0 body_len), rng)
  end.

Definition tick_interval (plan : RatePlan) (rng : Rng) : option Z * Rng :=
  if rp_min plan =? rp_max plan then (interval_of (rp_min plan), rng)
  else let '(rate, rng) := gen_range (rp_min plan) (rp_max plan) rng in (interval_of rate, rng).

Definition next_payload (a : Args) (seq size_lo size_hi : Z) (template : option (list byte)) (rng : Rng) :
    list byte * Rng :=
  match template with
  | Some bytes => (bytes, rng)
  | None =>
    let '(size, rng) := if size_lo =? size_hi then (size_lo, rng) else gen_range size_lo size_hi rng in
    build_payload seq (ar_source_id a) size (ar_payload_pattern a) rng
  end.

(** What the loop finds in its [n]-th turn: the seconds elapsed at its test, the clock
    at its [sleep_until]; at its [k]-th publish, the clocks, after the tasks of the
    client have moved it. *)
Record Env :=
  { ev_elapsed : nat -> Z; ev_now : nat -> Z; ev_clock : nat -> nat -> ProducerClient.clock;
    ev_tasks : nat -> nat -> Facade.CupidMQ -> Facade.CupidMQ }.

(** [published] collects the payloads the client accepted. *)
Fixpoint publish_mult (e : Env) (n k mult : nat) (item : list byte) (batch_mode : bool) (sent : Z)
    (client : Facade.CupidMQ) (published : list (list byte)) :
    result error Z * Facade.CupidMQ * list (list byte) :=
  match mult with
  | O => (Ok sent, client, published)
  | S mult =>
    let client := ev_tasks e n k client in
    match Facade.enqueue item (ev_clock e n k) client with
    | Ok client => publish_mult e n (S k) mult item batch_mode (wrap 64 (sent + 1)) client (published ++ [item])
    | Err err =>
      if batch_mode then (Err err, client, published)
      else publish_mult e n (S k) mult item batch_mode (wrap 64 (sent + 1)) client published
    end
  end.

(** The variables of the loop; [st_slept] collects what [sleep_until] slept. *)
Record Stress :=
  { st_client : Facade.CupidMQ; st_next_tick : Z; st_seq : Z; st_ticks : Z; st_items_sent : Z; st_rng : Rng;
    st_published : list (list byte); st_slept : list (option Z) }.

Inductive stress_end : Type :=
| Done (stats : ProducerClient.ProducerStats)
| Failed (e : error)
| Panicked.

Section Loop.
Context (e : Env) (a : Args) (plan : RatePlan).

Definition mult : Z := Z.max (ar_publish_mult a) 1.

Definition goes_on (n : nat) (s : Stress) : bool :=
  ((ar_count a =? 0) || (st_ticks s <? ar_count a)) &&
  ((ar_duration_secs a =? 0) || (ev_elapsed e n <? ar_duration_secs a)).

(** The body of the [while]. *)
Definition stress_turn (n : nat) (template : option (list byte)) (s : Stress) : Stress * option stress_end :=
  let '(size_lo, size_hi) := payload_byte_range a in
  let seq := wrap 64 (st_seq s + 1) in
  let ticks := wrap 64 (st_ticks s + 1) in
  let '(item, rng) := next_payload a seq size_lo size_hi template (st_rng s) in
  let '(sent, client, published) :=
    publish_mult e n 0 (Z.to_nat mult) item (ar_batch_mode a) 0 (st_client s) (st_published s) in
  let s := {| s with st_client := client; st_seq := seq; st_ticks := ticks; st_rng := rng; st_published := published |} in
  match sent with
  | Err err => (s, Some (Failed err))
  | Ok sent =>
    let s := {| s with st_items_sent := wrap 64 (st_items_sent s + sent) |} in
    let '(interval, rng) := tick_interval plan (st_rng s) in
    let s := {| s with st_rng := rng |} in
    match interval with
    | None => (s, Some Panicked)
    | Some interval =>
      let '(next, slept) := sleep_until (st_next_tick s) interval (ev_now e n) in
      ({| s with st_next_tick := next; st_slept := st_slept s ++ [slept] |}, None)
    end
  end.

Definition finish (s : Stress) : stress_end :=
  match Facade.producer_stats (st_client s) with Ok stats => Done stats | Err err => Failed err end.

(** The loop from its [n]-th turn; [None] when the fuel is used up. *)
Fixpoint stress_loop (fuel n : nat) (template : option (list byte)) (s : Stress) : option (Stress * stress_end) :=
  match fuel with
  | O => None
  | S fuel =>
    if goes_on n s then
      match stress_turn n template s with
      | (s, Some out) => Some (s, out)
      | (s, None) => stress_loop fuel (S n) template s
      end
    else Some (s, finish s)
  end.

Definition make_template (rng : Rng) : option (list byte) * Rng :=
  if ar_reuse_payload a then
    let '(bytes, rng) := build_payload 1 (ar_source_id a) (payload_byte_range a).1 (ar_payload_pattern a) rng in
    (Some bytes, rng)
  else (None, rng).

Definition stress_start (client : Facade.CupidMQ) (now : Z) (rng : Rng) : Stress :=
  {| st_client := client; st_next_tick := now; st_seq := 0; st_ticks := 0; st_items_sent := 0; st_rng := rng;
     st_published := []; st_slept := [] |}.

(** The evaluation of [fixed_interval] before the loop can panic too. *)
Definition run_stress (fuel : nat) (client : Facade.CupidMQ) (now : Z) (rng : Rng) : option (Stress * stress_end) :=
  let fixed := if rp_min plan =? rp_max plan then interval_of (rp_min plan) else Some 0 in
  let '(template, rng) := make_template rng in
  match fixed with
  | None => Some (stress_start client now rng, Panicked)
  | Some _ => stress_loop fuel 0 template (stress_start client now rng)
  end.

End Loop.

(** [main]: refused, idle for ever, or the result of [run_stress]. *)
Inductive main_end : Type :=
| Bailed (msg : string)
| Idles (client : Facade.CupidMQ)
| Stressed (r : option (Stress * stress_end)).

Definition main (e : Env) (a : Args) (fuel : nat) (now : Z) (rng : Rng) : main_end :=
  let plan := rate_plan a in
  let '(size_lo, _) := payload_byte_range a in
  if size_lo <? HEADER_LEN then Bailed "payload_bytes must be at least 20"
  else
    let client := Facade.connect_producer (producer_config a) in
    if rp_idle plan then Idles client else Stressed (run_stress e a plan fuel client now rng).

End Rand.

(** ** The other examples *)

(** [docker-consumer.rs].  [vars] is [env::var]. *)
Module DockerConsumer.

Definition required (vars : string -> option string) (name : string) : result error string :=
  match vars name with Some v => Ok v | None => bail (name +:+ " required") end.

Definition config (vars : string -> option string) : result error ConsumerClient.ConsumerConfig :=
  let master := default "127.0.0.1:9750"%string (vars "CUPIDMQ_MASTER"%string) in
  let? data_addr := required vars "CUPIDMQ_DATA_ADDR" in
  let? config := ConsumerClient.new_config master data_addr in
  let? config := match vars "CUPIDMQ_BIND_ADDR"%string with
                 | Some bind => ConsumerClient.bind_addr bind config
                 | None => Ok config
                 end in
  let config := match vars "CUPIDMQ_CONSUMER_TAG"%string with
                | Some tag => ConsumerClient.consumer_tag tag config
                | None => config
                end in
  let? bind := ConsumerClient.resolve_bind config in Ok config.

Definition env_u64 (vars : string -> option string) (name : string) (def : Z) : Z :=
  default def (vars name ≫= fun v => parse_uint 64 (as_bytes v)).

Definition process_ms (vars : string -> option string) : Z * Z :=
  let process_min_ms := env_u64 vars "CUPIDMQ_PROCESS_MS_MIN" 2 in
  (process_min_ms, Z.max (env_u64 vars "CUPIDMQ_PROCESS_MS_MAX" 16) process_min_ms).

(** The handler: the milliseconds it sleeps; [None] when [gen_range] panics on an empty range. *)
Fixpoint handler {Rng} (gen_range : Z -> Z -> Rng -> Z * Rng) (process : Z * Z) (batch : list (list byte)) (rng : Rng) :
    option (list Z) :=
  match batch with
  | [] => Some []
  | _ :: batch =>
    if process.2 <? process.1 then None
    else
      let '(ms, rng) := gen_range process.1 process.2 rng in
      slept ← handler gen_range process batch rng; Some (if 0 <? ms then ms :: slept else slept)
  end.
End DockerConsumer.

(** [producer.rs] and [consumer.rs]: every knob, with the value its comment calls the default. *)
Module Minimal.

Definition producer_config : ProducerClient.ProducerConfig :=
  let mb := 1024 * 1024 in
  let c := ProducerClient.default_config "127.0.0.1:9750" in
  let c := ProducerClient.max_batch_bytes c (64 * mb) in
  let c := ProducerClient.flush_timeout_ms c 100 in
  let c := ProducerClient.outbound_max_bytes c (4096 * mb) in
  let c := ProducerClient.reconnect_delay_secs c 2 in
  let c := ProducerClient.delivery_timeout_secs c 8 in
  ProducerClient.delivery_idle_secs c 60.

(** The payloads of the loop. *)
Definition hellos : list (list byte) := map (fun i => as_bytes ("hello-" +:+ pretty (Z.of_nat i))) (List.seq 0 10).

Definition consumer_config : result error ConsumerClient.ConsumerConfig :=
  let? c := ConsumerClient.new_config "127.0.0.1:9750" "127.0.0.1:9760" in
  let c := ConsumerClient.consumer_tag "" c in
  let c := ConsumerClient.max_batch_size_count 32 c in
  let c := ConsumerClient.prefetch_batch_count 4 c in
  let c := ConsumerClient.batch_timeout_secs 10 c in
  let c := ConsumerClient.data_idle_secs 60 c in
  let c := ConsumerClient.reconnect true c in
  Ok (ConsumerClient.reconnect_delay_secs 2 c).
End Minimal.

(** ** Lemmas *)

(** The arguments as the parser leaves them. *)
Record args_ok (a : Args) : Prop :=
  { ao_rate : in_u 64 (ar_rate a); ao_rate_min : in_u 64 (ar_rate_min a); ao_rate_max : in_u 64 (ar_rate_max a);
    ao_count : in_u 64 (ar_count a); ao_duration : in_u 64 (ar_duration_secs a); ao_mult : in_u 64 (ar_publish_mult a);
    ao_source : in_u 32 (ar_source_id a); ao_bytes : in_u 64 (ar_payload_bytes a);
    ao_bytes_min : in_u 64 (ar_payload_bytes_min a); ao_bytes_max : in_u 64 (ar_payload_bytes_max a) }.

Lemma rate_plan_range a :
  args_ok a -> rp_idle (rate_plan a) = false ->
  1 <= rp_min (rate_plan a) <= rp_max (rate_plan a) /\ rp_max (rate_plan a) <= umax 64.
Proof.
  intros [] Hidle. unfold rate_plan, in_u in *. destruct (_ && _); [done|].
  assert (1 <= umax 64) by (vm_compute; discriminate). destruct (_ || _); cbn; lia.
Qed.

Lemma payload_range_ok a : HEADER_LEN <= (payload_byte_range a).1 <= (payload_byte_range a).2.
Proof. unfold payload_byte_range. destruct (_ || _); cbn; lia. Qed.

Lemma round_half_even_nonneg num den : 0 <= num -> 0 < den -> 0 <= round_half_even num den.
Proof.
  intros. unfold round_half_even. pose proof (Z.div_pos num den).
  destruct (_ <? _); [lia|]. destruct (_ <? _); [lia|]. destruct (Z.even _); lia.
Qed.

Lemma interval_of_some rate : 1 <= rate <= umax 64 -> exists i, interval_of rate = Some i /\ 0 <= i.
Proof.
  intros Hr. pose proof (inverse_within rate) as H. unfold umax in Hr. specialize (H ltac:(lia)).
  unfold interval_of, from_secs_f64. destruct (fdiv _ _) as [[]| | |[] m e]; cbn in H; try done; [by exists 0|].
  eexists. split; [done|]. destruct (Z.leb_spec 0 e); [lia|]. apply round_half_even_nonneg; lia.
Qed.

Lemma header_len seq source : blen (header seq source) = HEADER_LEN.
Proof. unfold header. autorewrite with cupid. done. Qed.

Section RandProofs.
Context {Rng : Type} (gen_u8 : Rng -> byte * Rng) (gen_range : Z -> Z -> Rng -> Z * Rng).

Lemma gen_bytes_len n rng : length (gen_bytes gen_u8 n rng).1 = n.
Proof.
  revert rng. induction n as [|n IH]; intros rng; [done|]. cbn [gen_bytes].
  destruct (gen_u8 rng) as [b r]. specialize (IH r). destruct (gen_bytes gen_u8 n r). cbn in *. by f_equal.
Qed.

(** What [build_payload] builds: the header and a body of the size left. *)
Lemma build_payload_shape seq source size pattern rng :
  exists body, (build_payload gen_u8 seq source size pattern rng).1 = header seq source ++ body /\
    blen body = Z.max size HEADER_LEN - HEADER_LEN.
Proof.
  unfold build_payload. pose proof (Z.le_max_r size HEADER_LEN) as Hm.
  destruct pattern.
  - eexists. split; [done|]. unfold blen at 1. rewrite repeat_length, header_len. lia.
  - destruct (gen_bytes _ _ _) as [body r] eqn:Hb. pose proof (gen_bytes_len (Z.to_nat (Z.max size HEADER_LEN - HEADER_LEN)) rng) as Hl.
    rewrite Hb in Hl. cbn in *. exists body. split; [done|]. unfold blen. lia.
  - eexists. split; [done|]. unfold blen. rewrite length_map, length_seq. lia.
Qed.

Lemma tick_interval_some plan rng :
  (forall lo hi g, lo <= hi -> lo <= (gen_range lo hi g).1 <= hi) ->
  1 <= rp_min plan <= rp_max plan -> rp_max plan <= umax 64 ->
  exists i rng', tick_interval gen_range plan rng = (Some i, rng') /\ 0 <= i.
Proof.
  intros Hg Hmin Hmax. unfold tick_interval. destruct (_ =? _).
  - destruct (interval_of_some (rp_min plan)) as (i & -> & Hi); [lia|]. by exists i, rng.
  - pose proof (Hg (rp_min plan) (rp_max plan) rng ltac:(lia)) as H. destruct (gen_range _ _ _) as [rate r]. cbn in H.
    destruct (interval_of_some rate) as (i & -> & Hi); [lia|]. by exists i, r.
Qed.
End RandProofs.

(** ** Runs of the loop *)

(** Between two calls the client's own tasks move it, and publish nothing. *)
Definition tasks_ok (e : Env) : Prop :=
  forall n k p, exists p',
    star Pipeline.producer_step p p' /\ Pipeline.pd_published p' = Pipeline.pd_published p /\
    ev_tasks e n k (Facade.Producer (Pipeline.pd_client p)) = Facade.Producer (Pipeline.pd_client p').

(** A payload of the turn [i]: its header, and a size in the range asked for. *)
Definition payload_of (a : Args) (i : Z) (item : list byte) : Prop :=
  exists body, item = header i (ar_source_id a) ++ body /\
    (payload_byte_range a).1 <= blen item <= (payload_byte_range a).2.

(** With [reuse_payload] every turn sends the payload of the first. *)
Definition turn_payload (a : Args) (i : Z) (item : list byte) : Prop :=
  payload_of a (if ar_reuse_payload a then 1 else i) item.

Definition copies (a : Args) (item : list byte) : list (list byte) := repeat item (Z.to_nat (mult a)).

Section StressRun.
Context {Rng : Type} (gen_u8 : Rng -> byte * Rng) (gen_range : Z -> Z -> Rng -> Z * Rng).
Hypothesis gen_range_in : forall lo hi g, lo <= hi -> lo <= (gen_range lo hi g).1 <= hi.
Context (e : Env) (a : Args).
Hypothesis Hargs : args_ok a.
Hypothesis Hrate : rp_idle (rate_plan a) = false.


Lemma build_payload_of seq size rng :
  (payload_byte_range a).1 <= size <= (payload_byte_range a).2 ->
  payload_of a seq (build_payload gen_u8 seq (ar_source_id a) size (ar_payload_pattern a) rng).1.
Proof.
  intros Hs. destruct (build_payload_shape gen_u8 seq (ar_source_id a) size (ar_payload_pattern a) rng) as (body & -> & Hb).
  exists body. split; [done|]. rewrite blen_app, header_len. pose proof (payload_range_ok a). lia.
Qed.

Lemma next_payload_of seq template rng :
  (forall t, template = Some t -> payload_of a 1 t) -> (template = None <-> ar_reuse_payload a = false) ->
  turn_payload a seq (next_payload gen_u8 gen_range a seq (payload_byte_range a).1 (payload_byte_range a).2 template rng).1.
Proof.
  intros Ht Hr. unfold next_payload, turn_payload. destruct template as [t|].
  - destruct (ar_reuse_payload a); [by apply Ht|]. destruct Hr as [_ Hr]. discriminate (Hr eq_refl).
  - destruct Hr as [-> _]; [|done]. pose proof (payload_range_ok a) as Hrg. destruct (Z.eqb_spec (payload_byte_range a).1 (payload_byte_range a).2).
    + apply build_payload_of. lia.
    + pose proof (gen_range_in (payload_byte_range a).1 (payload_byte_range a).2 rng ltac:(lia)) as Hin.
      destruct (gen_range _ _ _) as [size r]. by apply build_payload_of.
Qed.

Lemma make_template_ok rng :
  let t := (make_template gen_u8 a rng).1 in
  (forall x, t = Some x -> payload_of a 1 x) /\ (t = None <-> ar_reuse_payload a = false).
Proof.
  cbv zeta. unfold make_template. destruct (ar_reuse_payload a); [|done].
  pose proof (build_payload_of 1 (payload_byte_range a).1 rng ltac:(pose proof (payload_range_ok a); lia)) as H.
  destruct (build_payload _ _ _ _ _ _) as [bytes r]. cbn in *. split; [congruence|done].
Qed.

Hypothesis Htasks : tasks_ok e.

(** The copies of one payload, published. *)
Lemma publish_mult_runs n k m item bm sent p pub :
  item <> [] -> in_u 64 sent ->
  exists p', star Pipeline.producer_step p p' /\
    Pipeline.pd_published p' = Pipeline.pd_published p ++ repeat item m /\
    publish_mult e n k m item bm sent (Facade.Producer (Pipeline.pd_client p)) pub =
      (Ok (wrap 64 (sent + Z.of_nat m)), Facade.Producer (Pipeline.pd_client p'), pub ++ repeat item m).
Proof.
  intros Hne. revert k sent p pub. induction m as [|m IH]; intros k sent p pub Hsent; cbn [publish_mult repeat].
  - exists p. rewrite Z.add_0_r, wrap_small, !app_nil_r by done. split_and!; [apply star_refl|done|done].
  - destruct (Htasks n k p) as (p1 & Hs1 & Hp1 & ->). cbn [Facade.enqueue].
    set (p2 := {| p1 with Pipeline.pd_client := ProducerClient.publish_batch item (ev_clock e n k) (Pipeline.pd_client p1);
                          Pipeline.pd_published := if decide (item = []) then Pipeline.pd_published p1 else Pipeline.pd_published p1 ++ [item] |}).
    destruct (IH (S k) (wrap 64 (sent + 1)) p2 (pub ++ [item])) as (p' & Hs & Hp & Heq).
    { by apply wrap_range. }
    exists p'. split_and!.
    + eapply star_trans; [exact Hs1|]. eapply star_step; [apply (Pipeline.pd_publish item (ev_clock e n k))|exact Hs].
    + rewrite Hp. unfold p2. cbn [Pipeline.pd_published]. rewrite decide_False by done. by rewrite Hp1, <- app_assoc.
    + change (Facade.Producer (ProducerClient.publish_batch item (ev_clock e n k) (Pipeline.pd_client p1)))
        with (Facade.Producer (Pipeline.pd_client p2)).
      rewrite Heq, <- app_assoc. do 3 f_equal. unfold wrap. rewrite Zplus_mod_idemp_l. f_equal. lia.
Qed.

Definition cfg : ProducerClient.ProducerConfig := producer_config a.

(** The state after [n] turns that began at the time [now0]. *)
Record after (now0 : Z) (n : nat) (s : Stress (Rng := Rng)) : Prop :=
  { af_ticks : st_ticks s = Z.of_nat n; af_seq : st_seq s = Z.of_nat n;
    af_items : st_items_sent s = wrap 64 (Z.of_nat n * mult a);
    af_payloads : exists items, length items = n /\ st_published s = concat (map (copies a) items) /\
      forall i x, items !! i = Some x -> turn_payload a (Z.of_nat (S i)) x;
    af_client : exists p, st_client s = Facade.Producer (Pipeline.pd_client p) /\
      star Pipeline.producer_step (Pipeline.start cfg) p /\ Pipeline.pd_published p = st_published s;
    af_pace : forall i, rp_min (rate_plan a) = rp_max (rate_plan a) -> interval_of (rp_min (rate_plan a)) = Some i ->
      now0 + Z.of_nat n * i <= st_next_tick s }.

Lemma payload_nonempty i item : turn_payload a i item -> item <> [].
Proof. intros (body & -> & _) H. apply (f_equal blen) in H. rewrite blen_app, header_len, blen_nil in H. pose proof (blen_nonneg body).
  change HEADER_LEN with 20 in H. lia. Qed.

Lemma sleep_until_next next interval now :
  next + interval <= (sleep_until next interval now).1.
Proof. unfold sleep_until. destruct (Z.ltb_spec now (next + interval)); cbn; lia. Qed.

Lemma turn_after now0 n template s :
  (forall t, template = Some t -> payload_of a 1 t) -> (template = None <-> ar_reuse_payload a = false) ->
  Z.of_nat (S n) <= umax 64 -> after now0 n s ->
  exists s', stress_turn gen_u8 gen_range e a (rate_plan a) n template s = (s', None) /\ after now0 (S n) s'.
Proof.
  intros Ht Hr Hn [H1 H2 H3 (items & Hlen & Hpub & Hitems) (p & Hcl & Hst & Hpp) H6].
  unfold stress_turn. rewrite (surjective_pairing (payload_byte_range a)).
  pose proof (next_payload_of (wrap 64 (st_seq s + 1)) template (st_rng s) Ht Hr) as Hnext.
  destruct (next_payload _ _ _ _ _ _ _ _) as [item rng]. cbn [fst] in Hnext.
  pose proof (payload_nonempty _ _ Hnext) as Hne.
  destruct (publish_mult_runs n 0 (Z.to_nat (mult a)) item (ar_batch_mode a) 0 p (st_published s) Hne)
    as (p' & Hst' & Hpp' & Heq); [vm_compute; split; discriminate|].
  rewrite Hcl, Heq. cbn [st_rng st_items_sent st_next_tick st_slept].
  destruct (rate_plan_range a Hargs Hrate) as [Hmin Hmax].
  destruct (tick_interval_some gen_range (rate_plan a) rng gen_range_in Hmin Hmax) as (i & rng' & Hti & Hi).
  rewrite Hti. pose proof (sleep_until_next (st_next_tick s) i (ev_now e n)) as Hsl.
  destruct (sleep_until _ _ _) as [next slept]. cbn [fst] in Hsl. eexists. split; [done|].
  assert (Hw : wrap 64 (Z.of_nat n + 1) = Z.of_nat (S n)) by (rewrite wrap_small; unfold in_u; lia).
  constructor; cbn [st_ticks st_seq st_items_sent st_published st_client st_next_tick].
  - by rewrite H1.
  - by rewrite H2.
  - rewrite H3. unfold wrap. rewrite <- Zplus_mod. f_equal. pose proof (ao_mult _ Hargs) as [Hm _]. unfold mult. lia.
  - exists (items ++ [item]). rewrite length_app, map_app, concat_app, Hlen, Hpub. cbn. rewrite app_nil_r.
    split_and!; [lia|done|]. intros j x Hj. apply lookup_snoc_Some in Hj as [[_ Hj]|[-> <-]]; [by apply Hitems|].
    by rewrite <- Hw, <- H2, Hlen || rewrite Hlen, <- Hw, <- H2.
  - exists p'. split_and!; [done|by eapply star_trans|]. by rewrite Hpp', Hpp.
  - intros j Heqm Hj. specialize (H6 j Heqm Hj). unfold tick_interval in Hti. rewrite Heqm, Z.eqb_refl in Hti.
    rewrite Heqm in Hj. rewrite Hj in Hti. simplify_eq. lia.
Qed.

Lemma start_after client now rng p :
  client = Facade.Producer (Pipeline.pd_client p) -> p = Pipeline.start cfg ->
  after now 0 (stress_start client now rng).
Proof.
  intros -> ->. constructor; cbn; try done.
  - exists []. split_and!; [done|done|]. intros i x Hi. by rewrite lookup_nil in Hi.
  - exists (Pipeline.start cfg). split_and!; [done|apply star_refl|done].
  - intros i _ _. lia.
Qed.

Lemma goes_on_count n (s : Stress (Rng := Rng)) :
  ar_duration_secs a = 0 -> 0 < ar_count a -> goes_on e a n s = (st_ticks s <? ar_count a).
Proof.
  intros Hd Hc. unfold goes_on. rewrite Hd. cbn. rewrite andb_true_r.
  by destruct (Z.eqb_spec (ar_count a) 0); [lia|].
Qed.

(** With a count and no duration the loop makes exactly that many turns. *)
Lemma loop_counts fuel now0 n template s :
  (forall t, template = Some t -> payload_of a 1 t) -> (template = None <-> ar_reuse_payload a = false) ->
  ar_duration_secs a = 0 -> 0 < ar_count a -> Z.of_nat n <= ar_count a ->
  (Z.to_nat (ar_count a) < fuel + n)%nat -> after now0 n s ->
  exists s', stress_loop gen_u8 gen_range e a (rate_plan a) fuel n template s = Some (s', finish s') /\
    after now0 (Z.to_nat (ar_count a)) s'.
Proof.
  intros Ht Hr Hd Hc. pose proof (ao_count _ Hargs) as [_ Hcmax].
  revert n s. induction fuel as [|fuel IH]; intros n s Hn Hf Haf; [lia|]. cbn [stress_loop].
  rewrite goes_on_count, (af_ticks _ _ _ Haf) by done. destruct (Z.ltb_spec (Z.of_nat n) (ar_count a)) as [Hlt|Hge].
  - destruct (turn_after now0 n template s Ht Hr ltac:(lia) Haf) as (s' & -> & Haf'). apply IH; [lia|lia|done].
  - exists s. split; [done|]. by replace (Z.to_nat (ar_count a)) with n by lia.
Qed.

(** A turn neither fails nor panics, in any state. *)
Lemma turn_goes n template s p :
  (forall t, template = Some t -> payload_of a 1 t) -> (template = None <-> ar_reuse_payload a = false) ->
  st_client s = Facade.Producer (Pipeline.pd_client p) ->
  exists s' p', stress_turn gen_u8 gen_range e a (rate_plan a) n template s = (s', None) /\
    st_client s' = Facade.Producer (Pipeline.pd_client p').
Proof.
  intros Ht Hr Hcl. unfold stress_turn. rewrite (surjective_pairing (payload_byte_range a)).
  pose proof (next_payload_of (wrap 64 (st_seq s + 1)) template (st_rng s) Ht Hr) as Hnext.
  destruct (next_payload _ _ _ _ _ _ _ _) as [item rng]. cbn [fst] in Hnext.
  destruct (publish_mult_runs n 0 (Z.to_nat (mult a)) item (ar_batch_mode a) 0 p (st_published s) (payload_nonempty _ _ Hnext))
    as (p' & _ & _ & Heq); [vm_compute; split; discriminate|].
  rewrite Hcl, Heq. cbn [st_rng st_items_sent st_next_tick st_slept].
  destruct (rate_plan_range a Hargs Hrate) as [Hmin Hmax].
  destruct (tick_interval_some gen_range (rate_plan a) rng gen_range_in Hmin Hmax) as (i & rng' & Hti & Hi).
  rewrite Hti. destruct (sleep_until _ _ _) as [next slept]. by eexists _, p'.
Qed.

(** With neither a count nor a duration it never ends. *)
Lemma loop_forever fuel n template s p :
  (forall t, template = Some t -> payload_of a 1 t) -> (template = None <-> ar_reuse_payload a = false) ->
  ar_duration_secs a = 0 -> ar_count a = 0 -> st_client s = Facade.Producer (Pipeline.pd_client p) ->
  stress_loop gen_u8 gen_range e a (rate_plan a) fuel n template s = None.
Proof.
  intros Ht Hr Hd Hc. revert n s p. induction fuel as [|fuel IH]; intros n s p Hcl; [done|]. cbn [stress_loop].
  unfold goes_on. rewrite Hd, Hc. cbn.
  destruct (turn_goes n template s p Ht Hr Hcl) as (s' & p' & -> & Hcl'). by eapply IH.
Qed.

End StressRun.

(** *** When the loop ends, whatever the client *)

Section Ends.
Context {Rng : Type} (gen_u8 : Rng -> byte * Rng) (gen_range : Z -> Z -> Rng -> Z * Rng).
Context (e : Env) (a : Args) (plan : RatePlan).

Lemma turn_ticks n template s s' :
  stress_turn gen_u8 gen_range e a plan n template s = (s', None) -> st_ticks s' = wrap 64 (st_ticks s + 1).
Proof.
  unfold stress_turn. destruct (payload_byte_range a) as [lo hi].
  destruct (next_payload _ _ _ _ _ _ _ _) as [item rng].
  destruct (publish_mult _ _ _ _ _ _ _ _ _) as [[[sent|err] client] published]; [|done].
  cbn [st_rng]. destruct (tick_interval _ _ _) as [[i|] rng']; [|done].
  destruct (sleep_until _ _ _) as [next slept]. by intros [= <-].
Qed.

Lemma loop_ends_count fuel n template s :
  0 < ar_count a <= umax 64 -> 0 <= st_ticks s <= ar_count a -> ar_count a - st_ticks s < Z.of_nat fuel ->
  is_Some (stress_loop gen_u8 gen_range e a plan fuel n template s).
Proof.
  intros Hc. revert n s. induction fuel as [|fuel IH]; intros n s Ht Hf; [lia|]. cbn [stress_loop].
  destruct (goes_on e a n s) eqn:Hg; [|by eexists].
  destruct (stress_turn _ _ _ _ _ _ _ _) as [s' [out|]] eqn:Hturn; [by eexists|].
  apply turn_ticks in Hturn. unfold goes_on in Hg. apply andb_true_iff in Hg as [Hg _].
  apply orb_true_iff in Hg as [Hg%Z.eqb_eq|Hg%Z.ltb_lt]; [lia|].
  rewrite wrap_small in Hturn by (unfold in_u; lia). apply IH; lia.
Qed.

Lemma loop_ends_duration fuel n stop template s :
  ar_duration_secs a <> 0 -> ar_duration_secs a <= ev_elapsed e stop -> (n <= stop)%nat -> (stop < fuel + n)%nat ->
  is_Some (stress_loop gen_u8 gen_range e a plan fuel n template s).
Proof.
  intros Hd He. revert n s. induction fuel as [|fuel IH]; intros n s Hn Hf; [lia|]. cbn [stress_loop].
  destruct (goes_on e a n s) eqn:Hg; [|by eexists].
  destruct (stress_turn _ _ _ _ _ _ _ _) as [s' [out|]]; [by eexists|]. apply IH; [|lia].
  destruct (decide (n = stop)) as [->|]; [|lia]. unfold goes_on in Hg. apply andb_true_iff in Hg as [_ Hg].
  apply orb_true_iff in Hg as [Hg%Z.eqb_eq|Hg%Z.ltb_lt]; lia.
Qed.

End Ends.

(** ** Properties *)

Section Properties.
Context {Rng : Type} (gen_u8 : Rng -> byte * Rng) (gen_range : Z -> Z -> Rng -> Z * Rng).
Hypothesis gen_range_in : forall lo hi g, lo <= hi -> lo <= (gen_range lo hi g).1 <= hi.
Context (e : Env) (a : Args).

(** C31: when the stress loop ends.  With a [count] it makes at most that many turns,
    with a duration it ends at the first test at which the duration is over, whatever
    the client answers; with neither, and a client that is a producer, no number of
    turns ends it. *)
Theorem stress_terminates client now rng :
  args_ok a -> rp_idle (rate_plan a) = false -> tasks_ok e ->
  let run fuel := run_stress gen_u8 gen_range e a (rate_plan a) fuel client now rng in
  (ar_count a <> 0 -> forall fuel, ar_count a < Z.of_nat fuel -> is_Some (run fuel)) /\
  (ar_duration_secs a <> 0 -> forall stop fuel, ar_duration_secs a <= ev_elapsed e stop -> (stop < fuel)%nat ->
     is_Some (run fuel)) /\
  (ar_count a = 0 -> ar_duration_secs a = 0 -> client = Facade.connect_producer (producer_config a) ->
     forall fuel, run fuel = None).
Proof.
  intros Ha Hrate Htasks. cbv zeta. pose proof (ao_count _ Ha) as Hc. unfold in_u in Hc. unfold run_stress.
  pose proof (make_template_ok gen_u8 a rng) as [Ht Hr].
  destruct (make_template gen_u8 a rng) as [template rng']. cbn [fst] in Ht, Hr.
  destruct (rate_plan_range a Ha Hrate) as [Hmin Hmax].
  destruct (interval_of_some (rp_min (rate_plan a))) as (i & Hi & _); [lia|]. rewrite Hi.
  assert (is_Some (if rp_min (rate_plan a) =? rp_max (rate_plan a) then Some i else Some 0)) as [x ->]
    by (destruct (_ =? _); by eexists).
  split_and!.
  - intros Hn fuel Hf. apply loop_ends_count; cbn [stress_start st_ticks]; lia.
  - intros Hn stop fuel He Hf. apply (loop_ends_duration _ _ _ _ _ _ _ stop); [done|done|lia|lia].
  - intros Hn Hd -> fuel.
    by apply (loop_forever gen_u8 gen_range gen_range_in e a Ha Hrate Htasks fuel 0 template _ (Pipeline.start (producer_config a))).
Qed.

(** C30: what a run with a count does.  It ends with the client's statistics after
    exactly [count] turns; it published [publish_mult] copies of one payload per
    turn, each with its header and a size in the range asked for; the count of items
    it reports is theirs; and at a fixed rate the schedule is at least [count]
    intervals after its start.  Those copies, and nothing else, are what the
    producer was given, and whatever it has delivered later, after any run of its
    tasks, are some of them, each at most once and in the order of their numbers. *)
Theorem stress_run_correct now rng :
  args_ok a -> rp_idle (rate_plan a) = false -> tasks_ok e ->
  0 < ar_count a -> ar_duration_secs a = 0 ->
  Z.max (sat_mul (ar_outbound_max_mb a) (1024 * 1024)) 1 <= umax 63 ->
  Z.max (sat_mul (ar_max_batch_size_mb a) (1024 * 1024)) 1 <= umax 63 ->
  exists s stats items p,
    run_stress gen_u8 gen_range e a (rate_plan a) (S (Z.to_nat (ar_count a)))
      (Facade.connect_producer (producer_config a)) now rng = Some (s, Done stats) /\
    st_client s = Facade.Producer (Pipeline.pd_client p) /\ stats = ProducerClient.cl_stats (Pipeline.pd_client p) /\
    st_ticks s = ar_count a /\ st_items_sent s = wrap 64 (ar_count a * mult a) /\
    Z.of_nat (length items) = ar_count a /\
    (forall i x, items !! i = Some x -> turn_payload a (Z.of_nat (S i)) x) /\
    (forall i, rp_min (rate_plan a) = rp_max (rate_plan a) -> interval_of (rp_min (rate_plan a)) = Some i ->
       now + ar_count a * i <= st_next_tick s) /\
    Pipeline.pd_published p = concat (map (copies a) items) /\
    (forall p', star Pipeline.producer_step p p' -> Pipeline.pd_published p' = Pipeline.pd_published p ->
       sublist (Pipeline.pd_delivered p') (concat (map (copies a) items))).
Proof.
  intros Ha Hrate Htasks Hc Hd Hcap Hbatch. unfold run_stress.
  pose proof (make_template_ok gen_u8 a rng) as [Ht Hr].
  destruct (make_template gen_u8 a rng) as [template rng']. cbn [fst] in Ht, Hr.
  destruct (rate_plan_range a Ha Hrate) as [Hmin Hmax].
  destruct (interval_of_some (rp_min (rate_plan a))) as (i & Hi & _); [lia|]. rewrite Hi.
  assert (is_Some (if rp_min (rate_plan a) =? rp_max (rate_plan a) then Some i else Some 0)) as [x ->]
    by (destruct (_ =? _); by eexists).
  destruct (loop_counts gen_u8 gen_range gen_range_in e a Ha Hrate Htasks (S (Z.to_nat (ar_count a))) now 0 template
    (stress_start (Facade.connect_producer (producer_config a)) now rng') Ht Hr Hd Hc) as (s & Hrun & Haf);
    [lia|lia|by eapply start_after with (p := Pipeline.start (producer_config a))|].
  rewrite Hrun. destruct Haf as [H1 H2 H3 (items & Hlen & Hpub & Hitems) (p & Hcl & Hst & Hpp) H6].
  rewrite Z2Nat.id in * by lia. exists s, (ProducerClient.cl_stats (Pipeline.pd_client p)), items, p.
  split_and!; try done; [unfold finish; by rewrite Hcl|lia|by rewrite <- Hi|congruence|].
  intros p' Hp' Hsame. rewrite <- Hpub, <- Hpp, <- Hsame.
  destruct (Pipeline.start_refines (producer_config a) Hcap Hbatch p') as [_ Href]; [by eapply star_trans|].
  assert (Hin : Pipeline.in_order (Pipeline.abstraction (Pipeline.cap_of (producer_config a)) p')).
  { eapply star_invariant; [apply Pipeline.lossy_in_order|exact Href|]. apply Pipeline.dwindles_refl. }
  destruct Hin as [Hsub _]. cbn in Hsub. etransitivity; [|exact Hsub]. by apply sublist_inserts_r.
Qed.

End Properties.

(** The other programs.  The knobs of the minimal producer and consumer, and the
    stress producer's arguments left out, are the clients' defaults, as their
    comments say; the stress producer's refusal of small payloads is never reached,
    because the range is raised to the header first, and it idles exactly when no
    rate is given; the container's handler never asks for a number of an empty
    range, whatever the environment holds. *)
Theorem example_programs_correct {Rng} (gen_u8 : Rng -> byte * Rng) gen_range :
  producer_config default_args = ProducerClient.default_config "127.0.0.1:9750" /\
  Minimal.producer_config = ProducerClient.default_config "127.0.0.1:9750" /\
  Minimal.consumer_config = ConsumerClient.new_config "127.0.0.1:9750" "127.0.0.1:9760" /\
  (forall e a fuel now rng,
     match main gen_u8 gen_range e a fuel now rng with
     | Bailed _ => False
     | Idles c => rp_idle (rate_plan a) = true /\ c = Facade.connect_producer (producer_config a)
     | Stressed _ => rp_idle (rate_plan a) = false
     end) /\
  (forall vars batch rng,
     is_Some (DockerConsumer.handler gen_range (DockerConsumer.process_ms vars) batch rng)).
Proof.
  split_and!; [reflexivity|reflexivity|reflexivity| |].
  - intros e a fuel now rng. unfold main. pose proof (payload_range_ok a) as H.
    destruct (payload_byte_range a) as [lo hi]. cbn in H. destruct (Z.ltb_spec lo HEADER_LEN); [lia|].
    by destruct (rp_idle (rate_plan a)).
  - intros vars batch. induction batch as [|item batch IH]; intros rng; [by eexists|].
    cbn [DockerConsumer.handler].
    destruct (Z.ltb_spec (DockerConsumer.process_ms vars).2 (DockerConsumer.process_ms vars).1) as [Hlt|_];
      [cbn in Hlt; lia|].
    destruct (gen_range _ _ rng) as [ms rng']. destruct (IH rng') as [slept ->]. by eexists.
Qed.

(** *** Witnesses *)

(** Six turns a second of two copies each; the accumulator's task runs between the calls. *)
Definition demo_args : Args :=
  {| default_args with ar_rate := 6; ar_count := 3; ar_publish_mult := 2; ar_payload_bytes_min := 24;
     ar_payload_bytes_max := 32; ar_payload_pattern := Increment |}.

Definition demo_gen (g : Z) : byte * Z := (byte.of_Z g, g + 1).
Definition demo_range (lo hi g : Z) : Z * Z := (lo + Z.max 0 g mod (hi - lo + 1), g + 5).

Definition demo_env : Env :=
  {| ev_elapsed := fun n => Z.of_nat n; ev_now := fun n => 100000000 * Z.of_nat n;
     ev_clock := fun n _ => {| ProducerClient.now_ms := Z.of_nat n; ProducerClient.now_ns := Z.of_nat n |};
     ev_tasks := fun n _ c =>
       match c with
       | Facade.Producer p =>
         Facade.Producer (ProducerClient.accumulator_turn
           {| ProducerClient.now_ms := Z.of_nat n; ProducerClient.now_ns := Z.of_nat n |} p).1
       | c => c
       end |}.

Lemma demo_range_in lo hi g : lo <= hi -> lo <= (demo_range lo hi g).1 <= hi.
Proof. intros H. cbn. pose proof (Z.mod_pos_bound (Z.max 0 g) (hi - lo + 1)). lia. Qed.

Lemma demo_tasks : tasks_ok demo_env.
Proof.
  intros n k p. eexists. split; [eapply star_step; [apply Pipeline.pd_accumulate|apply star_refl]|]. done.
Qed.

Lemma demo_args_ok : args_ok demo_args.
Proof. constructor; vm_compute; split; discriminate. Qed.

Lemma stress_terminates_witness :
  is_Some (run_stress demo_gen demo_range demo_env demo_args (rate_plan demo_args) 4
             (Facade.connect_producer (producer_config demo_args)) 0 0) /\
  forall fuel, run_stress demo_gen demo_range demo_env {| demo_args with ar_count := 0 |}
    (rate_plan {| demo_args with ar_count := 0 |}) fuel
    (Facade.connect_producer (producer_config {| demo_args with ar_count := 0 |})) 0 0 = None.
Proof.
  split.
  - apply (stress_terminates demo_gen demo_range demo_range_in demo_env demo_args _ 0 0 demo_args_ok eq_refl demo_tasks);
      vm_compute; [discriminate|reflexivity].
  - apply (stress_terminates demo_gen demo_range demo_range_in demo_env {| demo_args with ar_count := 0 |} _ 0 0);
      [constructor; vm_compute; split; discriminate|reflexivity|apply demo_tasks|reflexivity|reflexivity|reflexivity].
Defined.

Lemma stress_run_correct_witness :
  exists s stats items p,
    run_stress demo_gen demo_range demo_env demo_args (rate_plan demo_args) 4
      (Facade.connect_producer (producer_config demo_args)) 0 0 = Some (s, Done stats) /\
    st_items_sent s = 6 /\ Pipeline.pd_published p = concat (map (copies demo_args) items) /\ length items = 3%nat.
Proof.
  destruct (stress_run_correct demo_gen demo_range demo_range_in demo_env demo_args 0 0 demo_args_ok eq_refl demo_tasks)
    as (s & stats & items & p & Hrun & _ & _ & _ & Hs & Hl & _ & _ & Hp & _); [vm_compute; done..|].
  exists s, stats, items, p. split; [exact Hrun|]. split; [exact Hs|]. split; [exact Hp|].
  change (ar_count demo_args) with 3 in Hl. lia.
Defined.
