(* ===== verification/Entry.v ===== *)
(** * The program: [main.rs], the HTTP routes of [server.rs], [dashboard_embed.rs]

    What the process does before and around the relay of [Relay.v]: the
    configuration it starts it with, the routes of the HTTP server and the built-in
    dashboard.  The disk, the command line parser ([clap]), the assets baked in by
    [rust_embed] and the router of [axum] are parameters. *)

From S2P Require Import Prelude Utf8 Text Protocol Metrics Matchmaker Server Relay Config.

(** ** The built-in dashboard *)
Module Dashboard.

Record Response := { re_status : Z; re_content_type : option string; re_body : list byte }.

Definition INDEX : text := as_bytes "index.html".

Arguments INDEX : simpl never.

(** [path.rsplit('.').next().unwrap_or("")]: the whole path when it has no dot. *)
Definition extension (path : text) : text :=
  match rsplit_once Byte.x2e path with Some (_, ext) => ext | None => path end.

Definition content_types : list (string * string) :=
  [("html", "text/html; charset=utf-8"); ("js", "application/javascript"); ("css", "text/css");
   ("svg", "image/svg+xml"); ("png", "image/png"); ("ico", "image/x-icon"); ("json", "application/json");
   ("woff2", "font/woff2"); ("woff", "font/woff"); ("txt", "text/plain")]%string.

Definition content_type (path : text) : string :=
  match list_find (fun kv => as_bytes kv.1 = extension path) content_types with
  | Some (_, kv) => kv.2
  | None => "application/octet-stream"
  end.

(** [trim_start_matches(c)] *)
Fixpoint trim_start (c : byte) (t : text) : text :=
  match t with
  | b :: t' => if decide (b = c) then trim_start c t' else t
  | [] => []
  end.

Section Assets.

(** [DashboardAssets::get], and [HeaderValue::from_str]. *)
Context (assets : text -> option (list byte)) (header_value : string -> option string).

Definition response_for (path : text) : option Response :=
  file ← assets path;
  Some {| re_status := 200; re_content_type := header_value (content_type path); re_body := file |}.

Definition not_found : Response := {| re_status := 404; re_content_type := None; re_body := [] |}.

Definition serve (uri_path : text) : Response :=
  let path := trim_start Byte.x2f uri_path in
  let path := if decide (path = []) then INDEX else path in
  match response_for path with
  | Some res => res
  | None => default not_found (response_for INDEX)
  end.

Definition has_index : bool := bool_decide (is_Some (assets INDEX)).

End Assets.
End Dashboard.

(** ** The HTTP server *)
Module Http.

Inductive api_route : Type := MetricsRoute | TicksRoute | HistoryRoute | HealthRoute.

Inductive fallback : Type :=
| ServeDir (dir index : string)
| Embedded.

Definition api : list (string * api_route) :=
  [("/metrics", MetricsRoute); ("/metrics/ticks", TicksRoute); ("/metrics/history", HistoryRoute);
   ("/health", HealthRoute)]%string.

(** [axum]'s [Router], for GET: a path that was added goes to its handler, every other
    one to the fallback, and without one is not found. *)
Class AxumRouter := {
  dispatch : list (string * api_route) -> option fallback -> string -> option (api_route + fallback);
  dispatch_route routes fb path h :
    NoDup routes.*1 -> (path, h) ∈ routes -> dispatch routes fb path = Some (inl h);
  dispatch_fallback routes fb path :
    path ∉ routes.*1 -> dispatch routes fb path = inr <$> fb }.

Section Server.
Context (assets : text -> option (list byte)) (header_value : string -> option string).

(** The fallback [run_metrics_server] adds to the API.  [embed]: the feature
    [embed-dashboard]. *)
Definition run_metrics_server (embed : bool) (is_dir : string -> bool) (dashboard_dir : option string) : option fallback :=
  match dashboard_dir ≫= fun p => if is_dir p then Some p else None with
  | Some dir => Some (ServeDir dir (join_path dir "index.html"))
  | None => if embed && Dashboard.has_index assets then Some Embedded else None
  end.

(** What a GET answers, with a query the extractor of [axum] accepts; files of a directory are served by [tower_http]. *)
Inductive reply : Type :=
| Snapshot (snap : MetricsSnapshot)
| Ticks (ticks : list TransferTick)
| Points (history : HistoryResponse)
| Text (body : string)
| File (dir index path : string)
| Page (res : Dashboard.Response)
| NotFound.

Definition handle (e : env) (q : HistoryQuery) (h : api_route) (st : RelayState) : reply * RelayState :=
  match h with
  | MetricsRoute => let '(snap, st) := metrics_handler e st in (Snapshot snap, st)
  | TicksRoute => let '(ticks, st) := ticks_handler st in (Ticks ticks, st)
  | HistoryRoute => (Points (history_handler e q st), st)
  | HealthRoute => (Text "ok", st)
  end.

Definition get `{AxumRouter} (fb : option fallback) (e : env) (path : string) (q : HistoryQuery) (st : RelayState) :
    reply * RelayState :=
  match dispatch api fb path with
  | Some (inl h) => handle e q h st
  | Some (inr (ServeDir dir index)) => (File dir index path, st)
  | Some (inr Embedded) => (Page (Dashboard.serve assets header_value (as_bytes path)), st)
  | None => (NotFound, st)
  end.

End Server.
End Http.

(** ** [main] *)
Module Main.

(** The arguments as [clap] leaves them: the command line, else the environment. *)
Record Args :=
  { ag_config : string; ag_host : option string; ag_control_port : option Z; ag_metrics_port : option Z;
    ag_history_interval_ms : option Z; ag_history_cap : option Z; ag_dashboard_dir : option string }.

(** The disk: [is_file] at each of its calls, and [read_to_string]. *)
Record Disk := { dk_is_file : nat -> string -> bool; dk_read : string -> result string string }.

Definition load (disk : Disk) (path : string) : result error FileConfig :=
  match dk_read disk path with
  | Ok raw => Ok {| fc_values := parse_conf_text raw |}
  | Err _ => bail ("read config " +:+ path)
  end.

(** What [run] is started with. *)
Definition main (disk : Disk) (args : Args) : result error RelayConfig :=
  let config_path := ag_config args in
  let? file_cfg :=
    if dk_is_file disk 0 config_path then let? f := load disk config_path in Ok (Some f) else Ok None in
  let resolved :=
    resolve file_cfg (if dk_is_file disk 1 config_path then Some config_path else None)
      {| ov_host := ag_host args; ov_control_port := ag_control_port args; ov_metrics_port := ag_metrics_port args;
         ov_history_interval_ms := ag_history_interval_ms args; ov_history_cap := ag_history_cap args;
         ov_dashboard_dir := ag_dashboard_dir args |} in
  Ok (relay_config resolved).

End Main.

(** ** Lemmas *)

(** The settings of a configuration file, line by line, and the value they give a
    key: that of the last line for it. *)
Definition settings (raw : string) : list (string * string) := omap parse_line (lines (as_bytes raw)).

Fixpoint last_setting (key : string) (kvs : list (string * string)) : option string :=
  match kvs with
  | [] => None
  | (k, v) :: kvs =>
    match last_setting key kvs with
    | Some v => Some v
    | None => if String.eqb k key then Some v else None
    end
  end.

(** The command line or environment, else the file, else the default. *)
Definition chosen {A} (cli file : option A) (def : A) : A := default def (union cli file).

Lemma insert_lines_lookup key ls out :
  foldl insert_line out ls !! key =
    match last_setting key (omap parse_line ls) with Some v => Some v | None => out !! key end.
Proof.
  revert out. induction ls as [|l ls IH]; intros out; [done|]. cbn. rewrite IH. unfold insert_line.
  destruct (parse_line l) as [[k v]|]; [|done]. cbn. destruct (last_setting key _); [done|].
  destruct (String.eqb_spec k key) as [->|Hne]; [by rewrite lookup_insert_eq|by rewrite lookup_insert_ne].
Qed.

Lemma conf_lookup key raw : parse_conf_text raw !! key = last_setting key (settings raw).
Proof. unfold parse_conf_text. rewrite insert_lines_lookup, lookup_empty. by destruct (last_setting _ _). Qed.

Lemma pick_chosen {A} (cli : option A) get file def : pick cli get file def = chosen cli (file ≫= get) def.
Proof. unfold pick, chosen. by destruct cli, (file ≫= get). Qed.

Lemma api_nodup : NoDup Http.api.*1.
Proof. apply (bool_decide_unpack _). vm_compute. exact I. Qed.

Lemma handle_step e q h r :
  (Http.handle e q h (ry_state r)).2 = ry_state r \/
  relay_step r {| r with ry_state := (Http.handle e q h (ry_state r)).2 |}.
Proof.
  destruct h; [right|right|by left|by left].
  - pose proof (rs_get_metrics e r) as H. unfold on_state in H. cbn [Http.handle].
    destruct (metrics_handler e (ry_state r)) as [snap st]. exact H.
  - pose proof (rs_get_ticks r) as H. unfold on_state in H. cbn [Http.handle].
    destruct (ticks_handler (ry_state r)) as [ticks st]. exact H.
Qed.

Lemma trim_start_replicate c slashes name :
  Forall (eq c) slashes -> head name <> Some c -> Dashboard.trim_start c (slashes ++ name) = name.
Proof.
  intros Hall Hn. induction Hall as [|b slashes <- _ IH]; cbn.
  - destruct name as [|b name]; [done|]. cbn in *. destruct (decide (b = c)); [congruence|done].
  - by destruct (decide (c = c)).
Qed.

Lemma extensions_plain : Forall (fun kv => Byte.x2e ∉ as_bytes kv.1) Dashboard.content_types.
Proof. apply (bool_decide_unpack _). vm_compute. exact I. Qed.

Lemma extensions_distinct : NoDup ((fun kv => as_bytes kv.1) <$> Dashboard.content_types).
Proof. apply (bool_decide_unpack _). vm_compute. exact I. Qed.

(** The type of a name that ends in a known extension. *)
Lemma content_type_known stem ext kind :
  (ext, kind) ∈ Dashboard.content_types -> Dashboard.content_type (stem ++ Byte.x2e :: as_bytes ext) = kind.
Proof.
  intros Hin. pose proof (proj1 (Forall_forall _ _) extensions_plain _ Hin) as Hdot. cbn [fst] in Hdot.
  unfold Dashboard.content_type, Dashboard.extension. rewrite (rsplit_once_app _ _ _ Hdot).
  apply list_elem_of_lookup in Hin as [i Hi].
  assert (list_find (fun kv => as_bytes kv.1 = as_bytes ext) Dashboard.content_types = Some (i, (ext, kind))) as ->; [|done].
  apply list_find_Some. split_and!; [exact Hi|done|]. intros j [x k] Hj Hlt Heq. cbn in Heq.
  assert (i = j); [|lia]. apply (NoDup_lookup _ i j (as_bytes ext) extensions_distinct);
    rewrite list_lookup_fmap; [by rewrite Hi|by rewrite Hj, <- Heq].
Qed.

(** The answers of the API, on the state the request finds. *)
Definition metrics_answer (e : env) (st : RelayState) (out : Http.reply * RelayState) : Prop :=
  let m := rs_master st in
  exists snap, out.1 = Http.Snapshot snap /\
    sn_consumers_queued snap = waiting_count m /\ sn_consumers_waiting snap = waiting_count m /\
    match rs_metrics_cache st with
    | Some cached => out.2 = st /\ snap = with_queue (waiting_count m) cached
    | None =>
        sn_ts_ms snap = env_now e /\
        (sn_transfers_total snap, sn_transfer_bytes_total snap, sn_batches_total snap,
         sn_delivery_failures_total snap, sn_ticks_buffered snap) =
        (me_transfers_total (ma_metrics m), me_transfer_bytes_total (ma_metrics m), me_batches_total (ma_metrics m),
         me_delivery_failures_total (ma_metrics m), ticks_buffered (ma_metrics m)) /\
        sn_producers_connected snap = Z.of_nat (size (Producers.pr_inner (ma_producers m))) /\
        ma_inner (rs_master out.2) = ma_inner m /\ rs_metrics_cache out.2 = None
    end.

Definition ticks_answer (st : RelayState) (out : Http.reply * RelayState) : Prop :=
  let m := rs_master st in let m' := rs_master out.2 in
  out.1 = Http.Ticks (TickBuffer.inner (me_ticks (ma_metrics m))) /\ ticks_buffered (ma_metrics m') = 0 /\
  ma_inner m' = ma_inner m /\ ma_producers m' = ma_producers m /\ ma_consumers m' = ma_consumers m /\
  me_transfers_total (ma_metrics m') = me_transfers_total (ma_metrics m).

(** The points from [since_ms] on, else those of the last [minutes], else all. *)
Definition history_answer (e : env) (q : HistoryQuery) (st : RelayState) (out : Http.reply * RelayState) : Prop :=
  exists points, out.1 = Http.Points {| hr_interval_ms := rs_history_interval_ms st; hr_points := points |} /\
    out.2 = st /\ points `sublist_of` History.list_all (rs_history st) /\
    forall pt, 0 <= hp_ts pt -> pt ∈ points <->
      pt ∈ History.list_all (rs_history st) /\
      match hq_since_ms q, hq_minutes q with
      | Some since, _ => since <= hp_ts pt
      | None, Some minutes => env_now e - hp_ts pt <= minutes * 60000
      | None, None => True
      end.

(** The built-in dashboard: the asset the path names after its slashes, else the index
    page. *)
Definition dashboard_answer (assets : text -> option (list byte)) (header_value : string -> option string)
    (path : string) (answer : Http.reply) : Prop :=
  let page kind file :=
    Http.Page {| Dashboard.re_status := 200; Dashboard.re_content_type := header_value kind; Dashboard.re_body := file |} in
  forall slashes name, as_bytes path = slashes ++ name -> Forall (eq Byte.x2f) slashes -> head name <> Some Byte.x2f ->
    (forall file, name <> [] -> assets name = Some file ->
       answer = page (Dashboard.content_type name) file /\
       (forall stem ext kind, (ext, kind) ∈ Dashboard.content_types -> name = stem ++ Byte.x2e :: as_bytes ext ->
          answer = page kind file)) /\
    (name = [] \/ assets name = None ->
       exists file, assets (as_bytes "index.html") = Some file /\ answer = page "text/html; charset=utf-8"%string file).

Lemma backlog_growth_keeps backlog now m :
  let m' := (compute_backlog_growth_per_sec backlog now m).2 in
  (me_transfers_total m', me_transfer_bytes_total m', me_batches_total m', me_delivery_failures_total m', ticks_buffered m') =
  (me_transfers_total m, me_transfer_bytes_total m, me_batches_total m, me_delivery_failures_total m, ticks_buffered m).
Proof. cbv zeta. unfold compute_backlog_growth_per_sec. by repeat case_match. Qed.

Lemma list_rows_length secs now r :
  length (Producers.list_rows secs now r).1 = size (Producers.pr_inner r).
Proof.
  unfold Producers.list_rows. cbn. by rewrite merge_sort_Permutation, length_fmap, length_map_to_list, map_size_fmap.
Qed.

Lemma metrics_answered e q st : metrics_answer e st (Http.handle e q Http.MetricsRoute st).
Proof.
  unfold metrics_answer, Http.handle, metrics_handler, get. cbv zeta.
  destruct (rs_metrics_cache st) as [cached|] eqn:Hc; [by eexists|].
  unfold take_snapshot, Metrics.snapshot. destruct (History.last_rates _) as [[tps bps] yps].
  pose proof (backlog_growth_keeps (Producers.backlog_messages (Producers.backlog_totals (ma_producers (rs_master st))))
    (env_now e) (ma_metrics (rs_master st))) as Hk. cbv zeta in Hk.
  destruct (compute_backlog_growth_per_sec _ _ _) as [growth me].
  destruct (Consumers.list_with_capacity _ _ _ _) as [[pct rows] cr].
  pose proof (list_rows_length (unix_secs e) (env_now e) (ma_producers (rs_master st))) as Hl.
  destruct (Producers.list_rows _ _ _) as [prows pr]. cbn [fst snd] in *.
  eexists. split; [reflexivity|]. cbn. split_and!; try done. by rewrite Hl.
Qed.

Lemma ticks_answered e q st : ticks_answer st (Http.handle e q Http.TicksRoute st).
Proof. by split_and!. Qed.

Lemma history_answered e q st :
  0 <= env_now e <= umax 64 -> history_answer e q st (Http.handle e q Http.HistoryRoute st).
Proof.
  intros Hnow. unfold history_answer, Http.handle, history_handler, query_since, History.list_since, History.list_all.
  eexists. split; [reflexivity|]. split; [reflexivity|]. unfold minutes_ms, sat_sub.
  destruct (hq_since_ms q) as [since|]; [|destruct (hq_minutes q) as [minutes|]]; cbn.
  - split; [apply sublist_filter|]. intros pt Hpt. rewrite list_elem_of_filter. tauto.
  - split; [apply sublist_filter|]. intros pt Hpt. rewrite list_elem_of_filter. split; intros [H1 H2]; (split; [tauto|lia]) || (split; [lia|tauto]).
  - split; [reflexivity|]. tauto.
Qed.

Lemma dashboard_answered assets header_value path :
  Dashboard.has_index assets = true ->
  dashboard_answer assets header_value path (Http.Page (Dashboard.serve assets header_value (as_bytes path))).
Proof.
  intros [index Hindex]%bool_decide_eq_true. unfold dashboard_answer. cbv zeta. intros slashes name Hpath Hsl Hhead. change (as_bytes "index.html") with Dashboard.INDEX.
  unfold Dashboard.serve. cbv zeta. rewrite Hpath, trim_start_replicate by done. unfold Dashboard.response_for. split.
  - intros file Hne Hfile. destruct (decide (name = [])); [done|]. rewrite Hfile. cbn. split; [done|].
    intros stem ext kind Hin ->. by rewrite (content_type_known _ _ _ Hin).
  - intros Hno. exists index. split; [done|].
    destruct (decide (name = [])) as [_|Hne]; [by rewrite Hindex|]. destruct Hno as [?|Hno]; [done|].
    rewrite Hno, Hindex. reflexivity.
Qed.

(** ** Properties *)

(** C29: what a GET answers, with every dashboard configured.  [/metrics]: the length of
    the queue at this moment in the snapshot the sampler left, or when there is none in
    a fresh one, which is not stored.  [/metrics/ticks]: the transfers since the last
    GET of it, and the buffer is empty then.  [/metrics/history]: the points since the
    time or of the last minutes asked for, in their order.  [/health]: "ok".  Any other
    path changes nothing: the directory of the configuration answers it when there is
    one; else the built-in dashboard when it has an index page, with the asset named
    and its content type, or with the index page when there is no such asset; else it
    is not found.  And the effect of any GET on the relay is none or a step of
    [Relay.v]. *)
Theorem http_get_correct `{Http.AxumRouter} assets header_value embed is_dir dashboard_dir e path q r :
  0 <= env_now e <= umax 64 ->
  let st := ry_state r in
  let fb := Http.run_metrics_server assets embed is_dir dashboard_dir in
  let out := Http.get assets header_value fb e path q st in
  (path = "/metrics"%string -> metrics_answer e st out) /\
  (path = "/metrics/ticks"%string -> ticks_answer st out) /\
  (path = "/metrics/history"%string -> history_answer e q st out) /\
  (path = "/health"%string -> out = (Http.Text "ok", st)) /\
  (path ∉ ["/metrics"; "/metrics/ticks"; "/metrics/history"; "/health"]%string ->
     out.2 = st /\
     ((exists dir, dashboard_dir = Some dir /\ is_dir dir = true /\
         out.1 = Http.File dir (join_path dir "index.html") path) \/
      ((forall dir, dashboard_dir = Some dir -> is_dir dir = false) /\
       if embed && bool_decide (is_Some (assets (as_bytes "index.html")))
       then dashboard_answer assets header_value path out.1 else out.1 = Http.NotFound))) /\
  (out.2 = st \/ relay_step r {| r with ry_state := out.2 |}).
Proof.
  intros Hnow. cbv zeta. set (fb := Http.run_metrics_server assets embed is_dir dashboard_dir).
  assert (Hapi : forall p h, (p, h) ∈ Http.api ->
    Http.get assets header_value fb e p q (ry_state r) = Http.handle e q h (ry_state r)).
  { intros p h Hh. unfold Http.get. by rewrite (Http.dispatch_route _ _ _ _ api_nodup Hh). }
  split_and!.
  - intros ->. rewrite (Hapi _ Http.MetricsRoute) by set_solver. apply metrics_answered.
  - intros ->. rewrite (Hapi _ Http.TicksRoute) by set_solver. apply ticks_answered.
  - intros ->. rewrite (Hapi _ Http.HistoryRoute) by set_solver. by apply history_answered.
  - intros ->. by rewrite (Hapi _ Http.HealthRoute) by set_solver.
  - intros Hout. unfold Http.get. rewrite Http.dispatch_fallback by exact Hout.
    subst fb. unfold Http.run_metrics_server. fold (Dashboard.has_index assets).
    destruct dashboard_dir as [dir|]; cbn -[Dashboard.has_index]; [destruct (is_dir dir) eqn:Hd|].
    + split; [done|]. left. by exists dir.
    + destruct (embed && _) eqn:He; cbn; (split; [done|right]); (split; [by intros ? [= <-]|]); [|done].
      apply andb_true_iff in He as [_ He]. by apply dashboard_answered.
    + destruct (embed && _) eqn:He; cbn; (split; [done|right]); (split; [done|]); [|done].
      apply andb_true_iff in He as [_ He]. by apply dashboard_answered.
  - unfold Http.get. destruct (decide (path ∈ Http.api.*1)) as [Hin|Hout].
    + apply list_elem_of_fmap in Hin as ([path' h] & -> & Hh). cbn [fst].
      rewrite (Http.dispatch_route _ _ _ _ api_nodup Hh). apply handle_step.
    + left. rewrite Http.dispatch_fallback by done. by destruct fb as [[]|].
Qed.

(** The configuration the program starts with.  Whatever the file holds, each
    value is the one of the command line or environment, else of the last line of the
    file that sets its key if it reads as a number of its type, else the default; a
    file that is not there counts as empty, and only one that is there and cannot be
    read stops the program. *)
Theorem main_configures disk args :
  let path := Main.ag_config args in
  match (if Main.dk_is_file disk 0 path then Main.dk_read disk path else Ok ""%string) with
  | Err _ => Main.main disk args = bail ("read config " +:+ path)
  | Ok raw =>
    let file key := last_setting key (settings raw) in
    let number w key := file key ≫= fun v => parse_uint w (as_bytes v) in
    let host := chosen (Main.ag_host args) (file "host"%string) "0.0.0.0"%string in
    Main.main disk args = Ok
      {| rc_control_addr :=
           format_socket_addr host (chosen (Main.ag_control_port args) (number 16 "control_port"%string) 9750);
         rc_metrics_addr :=
           format_socket_addr host (chosen (Main.ag_metrics_port args) (number 16 "metrics_port"%string) 9752);
         rc_history_interval_ms :=
           chosen (Main.ag_history_interval_ms args)
             (file "history_interval_ms"%string ≫= fun v => parse_size (as_bytes v)) 2000;
         rc_history_cap := chosen (Main.ag_history_cap args) (number usize_w "history_cap"%string) 1800;
         rc_dashboard_dir := union (Main.ag_dashboard_dir args) (file "dashboard_dir"%string) |}
  end.
Proof.
  cbv zeta. unfold Main.main, Main.load. destruct (Main.dk_is_file disk 0 _).
  - destruct (Main.dk_read disk (Main.ag_config args)) as [raw|err]; [|done]. cbn -[last_setting settings].
    unfold resolve, resolve_bind, relay_config. rewrite !pick_chosen. cbn -[last_setting settings format_socket_addr].
    unfold get_u16, get_usize, get_u64, get_str. cbn [fc_values]. rewrite !conf_lookup.
    repeat f_equal. by destruct (Main.ag_dashboard_dir args), (last_setting "dashboard_dir" _).
  - cbn [res_bind]. unfold resolve, resolve_bind, relay_config. rewrite !pick_chosen. cbn -[format_socket_addr].
    repeat f_equal.
Qed.

(** *** Witnesses *)

(** A router: the first route with the path. *)
Definition demo_dispatch (routes : list (string * Http.api_route)) (fb : option Http.fallback) (path : string) :
    option (Http.api_route + Http.fallback) :=
  match list_find (fun kv => kv.1 = path) routes with
  | Some (_, kv) => Some (inl kv.2)
  | None => inr <$> fb
  end.

#[export] Instance demo_router : Http.AxumRouter.
Proof.
  refine {| Http.dispatch := demo_dispatch |}; unfold demo_dispatch.
  - intros routes fb path h Hnd Hin. apply list_elem_of_lookup in Hin as [i Hi].
    assert (list_find (fun kv => kv.1 = path) routes = Some (i, (path, h))) as ->; [|done].
    apply list_find_Some. split_and!; [exact Hi|done|]. intros j [p' h'] Hj Hlt <-. cbn in *.
    assert (i = j); [|lia]. apply (NoDup_lookup routes.*1 i j p'); [done|..]; by rewrite list_lookup_fmap, ?Hi, ?Hj.
  - intros routes fb path Hout.
    assert (list_find (fun kv => kv.1 = path) routes = None) as ->; [|done].
    apply list_find_None. apply Forall_forall. intros [p h] Hin Heq. cbn in Heq. apply Hout.
    apply list_elem_of_fmap. by exists (p, h).
Defined.

Definition demo_assets (name : text) : option (list byte) :=
  if decide (name = Dashboard.INDEX) then Some (as_bytes "<html>")
  else if decide (name = as_bytes "a.js") then Some (as_bytes "go()") else None.

(** An asset, a path without one, and a GET that drains the ticks. *)
Lemma http_get_correct_witness :
  let e := {| env_now := 5; env_io := fun _ => Ok tt |} in
  let q := {| hq_since_ms := None; hq_minutes := None |} in
  let get path := Http.get demo_assets Some (Some Http.Embedded) e path q (ry_state demo_relay) in
  let page kind body := Http.Page {| Dashboard.re_status := 200; Dashboard.re_content_type := Some kind;
                                     Dashboard.re_body := as_bytes body |} in
  (get "//a.js"%string).1 = page "application/javascript"%string "go()"%string /\
  (get "/x/y.js"%string).1 = page "text/html; charset=utf-8"%string "<html>"%string /\
  ticks_answer (ry_state demo_relay) (get "/metrics/ticks"%string).
Proof.
  intros e q get page.
  pose proof (fun path => http_get_correct demo_assets Some true (fun _ => false) (Some "dist"%string) e path q demo_relay
    ltac:(cbn; unfold umax; lia)) as H. split_and!.
  - destruct (H "//a.js"%string) as (_ & _ & _ & _ & Ho & _).
    destruct (Ho ltac:(apply (bool_decide_unpack _); vm_compute; exact I)) as [_ [(d & _ & Hd & _)|[_ Hp]]]; [done|].
    destruct (Hp [Byte.x2f; Byte.x2f] (as_bytes "a.js") eq_refl ltac:(repeat constructor) ltac:(done)) as [Hf _].
    destruct (Hf (as_bytes "go()") ltac:(done) eq_refl) as [_ Hk].
    apply (Hk (as_bytes "a") "js"%string); [set_solver|reflexivity].
  - destruct (H "/x/y.js"%string) as (_ & _ & _ & _ & Ho & _).
    destruct (Ho ltac:(apply (bool_decide_unpack _); vm_compute; exact I)) as [_ [(d & _ & Hd & _)|[_ Hp]]]; [done|].
    destruct (Hp [Byte.x2f] (as_bytes "x/y.js") eq_refl ltac:(repeat constructor) ltac:(done)) as [_ Hno].
    destruct (Hno (or_intror eq_refl)) as (file & Hf & Hans). vm_compute in Hf. injection Hf as <-. exact Hans.
  - destruct (H "/metrics/ticks"%string) as (_ & Ht & _). exact (Ht eq_refl).
Defined.
