(* ===== verification/UnitTests.v ===== *)
(** * The crate's unit tests ([#[cfg(test)]] of every file)

    Each test of the crate, translated and run on the model: [true] when every
    assertion holds and no [unwrap] or index panics.  The sockets the tests of the
    producer registry open only give the registry a write half. *)

From S2P Require Import Prelude Utf8 Protocol Float64 Capacity Metrics Matchmaker Text Config.
From S2P Require Producers Consumers ByteRing Accumulator ConsumerClient.

(** [v.unwrap()], [v[i]] and the like: a panic fails the test. *)
Notation "'unwrap' x <- a ; b" := (match a with Some x => b | None => false end)
  (at level 200, x pattern, a at level 100, b at level 200).

Definition ok {A} (r : result error A) : option A := match r with Ok a => Some a | Err _ => None end.

Definition str_is (s : string) (o : option string) : bool := bool_decide (o = Some s).

(** ** [capacity.rs] *)
Module CapacityTests.

Definition keeps_up_when_mu_exceeds_lambda : bool :=
  let cap := per_consumer_capacity_model (of_int 32) (of_int 256) (of_int 120) 2 in
  fltb (of_int 100) cap.

Definition global_extrapolates_above_100 : bool :=
  let inputs :=
    [ {| ci_batch_items := of_int 32; ci_cycle_ms := of_int 256 |};
      {| ci_batch_items := of_int 32; ci_cycle_ms := of_int 256 |} ] in
  let g := global_capacity_model inputs (of_int 120) in
  fltb (of_int 100) g.

Definition partial_batches_fall_behind : bool :=
  let cap := per_consumer_capacity_model (of_int 8) (of_int 280) (of_int 553) 9 in
  fltb (of_int 40) cap && fltb cap (of_int 55).

Definition global_sums_consumers : bool :=
  let inputs :=
    [ {| ci_batch_items := of_int 32; ci_cycle_ms := of_int 256 |};
      {| ci_batch_items := of_int 16; ci_cycle_ms := of_int 256 |} ] in
  let g := global_capacity_model inputs (of_int 240) in
  fltb (of_int 50) g && fltb g (of_int 100).

Definition demand_includes_backlog_growth : bool :=
  fltb (SpecFloat.SFabs (fsub (demand_per_sec (of_int 100) (of_int 50)) (of_int 150))) (lit 1 100) &&
  fltb (SpecFloat.SFabs (fsub (demand_per_sec (of_int 100) (of_int (-10))) (of_int 100))) (lit 1 100).

Definition idle_demand_is_full : bool :=
  SpecFloat.SFeqb (per_consumer_capacity_model (of_int 32) (of_int 256) f0 1) (of_int 100).
End CapacityTests.

(** ** [config.rs] *)
Module ConfigTests.

(** [CliOverrides::default()] *)
Definition cli_default : CliOverrides :=
  {| ov_host := None; ov_control_port := None; ov_metrics_port := None; ov_history_interval_ms := None;
     ov_history_cap := None; ov_dashboard_dir := None |}.

(** The lines of a literal with [\n]. *)
Definition text_of (ls : list string) : string := String.concat (String (Ascii.ascii_of_nat 10) "") ls.

Definition parse_conf_ignores_comments : bool :=
  let m := parse_conf_text
    (text_of ["# comment"; "host=0.0.0.0"; "control_port=9750"; ""; "history_cap=1800"])%string in
  str_is "0.0.0.0" (m !! "host"%string) && str_is "9750" (m !! "control_port"%string) &&
  str_is "1800" (m !! "history_cap"%string).

Definition resolve_host_and_ports : bool :=
  let file := {| fc_values := parse_conf_text (text_of ["host=0.0.0.0"; "control_port=9750"; "metrics_port=9752"])%string |} in
  let resolved := resolve (Some file) None cli_default in
  String.eqb (rv_host resolved) "0.0.0.0" && (rv_control_port resolved =? 9750) &&
  (rv_metrics_port resolved =? 9752) && String.eqb (rv_control resolved) "0.0.0.0:9750" &&
  String.eqb (rv_metrics resolved) "0.0.0.0:9752".

Definition resolve_cli_overrides_file : bool :=
  let file := {| fc_values := parse_conf_text (text_of ["host=0.0.0.0"; "control_port=9750"; "metrics_port=9752"])%string |} in
  let cli := {| ov_host := Some "10.0.0.5"%string; ov_control_port := Some 19750; ov_metrics_port := None;
                ov_history_interval_ms := None; ov_history_cap := None; ov_dashboard_dir := None |} in
  let resolved := resolve (Some file) None cli in
  String.eqb (rv_host resolved) "10.0.0.5" && (rv_control_port resolved =? 19750) &&
  (rv_metrics_port resolved =? 9752).

Definition format_ipv6_socket_addr : bool :=
  String.eqb (format_socket_addr "::1" 9750) "[::1]:9750" &&
  String.eqb (format_socket_addr "[::1]" 9750) "[::1]:9750".

Definition parse_size_units : bool :=
  bool_decide (parse_size (as_bytes "1024mb") = Some (1024 * 1024 * 1024)) &&
  bool_decide (parse_size (as_bytes "512m") = Some (512 * 1024 * 1024)) &&
  bool_decide (parse_size (as_bytes "1073741824") = Some 1073741824).
End ConfigTests.

(** ** [consumer/client.rs] *)
Module BindTests.
Import ConsumerClient.

Definition bound_to (host : string) (port : Z) (cfg : option ConsumerConfig) : bool :=
  unwrap cfg <- cfg; unwrap hp <- ok (resolve_bind cfg); String.eqb hp.1 host && (hp.2 =? port).

Definition resolve_bind_defaults_to_all_interfaces : bool :=
  bound_to "0.0.0.0" 9760 (ok (new_config "127.0.0.1:9750" "192.168.1.10:9760")).

Definition resolve_bind_honors_explicit_bind_addr : bool :=
  bound_to "0.0.0.0" 9761
    (ok (new_config "127.0.0.1:9750" "127.0.0.1:9760") ≫= fun c => ok (bind_addr "0.0.0.0:9761" c)).
End BindTests.

(** ** [protocol.rs] *)
Module ProtocolTests.

Definition bytes (l : list Z) : list byte := map byte.of_Z l.

(** [&frame[..4] == magic], [uN::from_le_bytes([frame[off], ..])], [&frame[off..off + n]] *)
Definition starts_with (magic frame : list byte) : bool := bool_decide (take 4 frame = magic).

Definition le_at (n off : nat) (frame : list byte) : option Z :=
  if (off + n <=? length frame)%nat then Some (u_at n off frame) else None.

Definition sub (off : nat) (n : Z) (frame : list byte) : option (list byte) :=
  if Z.of_nat off + n <=? blen frame then Some (slice off (Z.to_nat n) frame) else None.

Definition encode_batch_roundtrip_count : bool :=
  let items := [bytes [1; 2; 3]; bytes [4; 5]] in
  let frame := encode_batch items in
  unwrap count <- le_at 2 4 frame;
  unwrap plen <- le_at 4 6 frame;
  unwrap payload <- sub 10 plen frame;
  unwrap n <- ok (batch_item_count payload);
  starts_with MAGIC_BATCH frame && (count =? 2) && (n =? 2)%nat && (2 + 4 + 4 + 4 <? blen payload).

Definition parse_ready_with_tag : bool :=
  let body := MAGIC_CONSUMER_READY ++ to_le 2 32 ++ to_le 2 11 ++ as_bytes "consumer-g0" in
  unwrap req <- ok (parse_ready body);
  (rr_max_items req =? 32) && String.eqb (rr_consumer_tag req) "consumer-g0".

Definition parse_ready_empty_tag : bool :=
  let body := MAGIC_CONSUMER_READY ++ to_le 2 16 ++ to_le 2 0 in
  unwrap req <- ok (parse_ready body); String.eqb (rr_consumer_tag req) "".

Definition pub_batch_roundtrip : bool :=
  let items := [bytes [1; 2; 3]; bytes [4; 5; 6; 7]] in
  let frame := encode_pub_batch items in
  unwrap plen <- le_at 4 6 frame;
  unwrap payload <- sub 10 plen frame;
  unwrap parsed <- ok (parse_batch_payload_items payload);
  starts_with MAGIC_PUB_BATCH frame && (length parsed =? 2)%nat &&
  bool_decide (parsed !! 0%nat = Some (bytes [1; 2; 3])) &&
  bool_decide (parsed !! 1%nat = Some (bytes [4; 5; 6; 7])).

Definition assign_roundtrip : bool :=
  let req := {| ar_max_items := 32; ar_consumer_tag := "consumer-g0"; ar_data_addr := "127.0.0.1:9760" |} in
  unwrap frame <- ok (encode_assign req); starts_with MAGIC_ASSIGN frame.

Definition register_roundtrip : bool :=
  unwrap frame <- ok (encode_register "127.0.0.1:9760"); starts_with MAGIC_REGISTER frame.

Definition heartbeat_payload_size : bool :=
  let hb := {| hb_pending_messages := 10; hb_pending_bytes := 1024; hb_ring_messages := 5;
               hb_ring_bytes := 512; hb_drops_total := 3 |} in
  let frame := encode_heartbeat hb in
  (blen frame =? 4 + 24) && starts_with MAGIC_HEARTBEAT frame.
(** The items as the source hands them out: [payload.slice(offset..offset + item_len)], an
    offset and a length into the shared payload. *)
Fixpoint parse_views (count : nat) (payload : list byte) (offset : nat) : result error (list (nat * nat)) :=
  match count with
  | O => Ok []
  | S n =>
    if (length payload <? offset + 4)%nat then bail "batch payload truncated at item len"
    else
      let item_len := u_at 4 offset payload in
      let offset := (offset + 4)%nat in
      if (item_len =? 0) || (MAX_INGRESS_ITEM_BYTES <? item_len)
      then Err (Bail "invalid batch item len" [item_len])
      else if blen payload <? Z.of_nat offset + item_len
      then bail "batch payload truncated at item body"
      else
        let k := Z.to_nat item_len in
        let? rest := parse_views n payload (offset + k)%nat in
        Ok ((offset, k) :: rest)
  end.

Definition view (payload : list byte) (v : nat * nat) : list byte := slice v.1 v.2 payload.

Definition pub_batch_slices_share_parent : bool :=
  let items := [bytes [1; 2; 3]; bytes [4; 5]] in
  let frame := encode_pub_batch items in
  unwrap plen <- le_at 4 6 frame;
  unwrap payload <- sub 10 plen frame;
  unwrap count <- ok (batch_item_count payload);
  unwrap parsed <- ok (parse_views count payload 2);
  forallb (fun v => Z.of_nat v.1 + Z.of_nat v.2 <=? plen) parsed.

End ProtocolTests.

(** ** [producers.rs] *)
Module ProducersTests.

(** The clock of the tests; every write succeeds. *)
Definition e0 : env := {| env_now := 1000; env_io := fun _ => Ok tt |}.

Definition register_test_producer (r : Producers.ProducerRegistry) : Z * Producers.ProducerRegistry :=
  Producers.register "test" 1 r.

Definition backlog_weight_prefers_msgs_then_bytes : bool :=
  let '(id, registry) := register_test_producer Producers.new in
  let '(_, registry) := Producers.record_heartbeat 1000 id
    {| hb_pending_messages := 2; hb_pending_bytes := 100; hb_ring_messages := 3; hb_ring_bytes := 500;
       hb_drops_total := 0 |} registry in
  bool_decide (Producers.backlog_weight id registry = (5, 600)).

(** [Matchmaker::new] with one registered producer. *)
Definition matcher : Z * Master :=
  let m := Matchmaker.new 0 in
  let '(pid, producers) := register_test_producer (ma_producers m) in
  (pid, {| m with ma_producers := producers |}).

Definition clear_ready_pool_for_test (m : Master) : Master := on_inner (on_ready (fun _ => ∅)) m.

Definition ready_contains_for_test (id : Z) (m : Master) : bool := bool_decide (id ∈ mi_ready (ma_inner m)).

Definition readied_ok (r : Master * result string unit) : option Master :=
  match r with (m, Ok _) => Some m | (_, Err _) => None end.

Definition ready_producer_reenters_pool_on_duplicate_prdy : bool :=
  let '(pid, m) := matcher in
  unwrap m <- readied_ok (on_producer_ready e0 pid m);
  (ready_pool_len m =? 1) &&
  (let m := clear_ready_pool_for_test m in
   unwrap m <- readied_ok (on_producer_ready e0 pid m); ready_contains_for_test pid m).

Definition pending (id : Z) : PendingConsumer :=
  {| pc_consumer_id := id;
     pc_ready := {| rr_max_items := 32; rr_consumer_tag := "c-" +:+ pretty id |};
     pc_data_addr := "127.0.0.1:" +:+ pretty id; pc_done := None |}.

Definition take_id (i : MatchmakerInner) : option (Z * MatchmakerInner) :=
  match take_next_waiting_inner i with (Some c, i) => Some (pc_consumer_id c, i) | (None, _) => None end.

Definition consumer_round_robin_not_fifo : bool :=
  let inner := {| mi_ready := ∅; mi_waiting := [pending 1; pending 2; pending 3]; mi_consumer_rr := 0; mi_producer_rr := 0 |} in
  unwrap (p1, inner) <- take_id inner; unwrap (p2, inner) <- take_id inner; unwrap (p3, inner) <- take_id inner;
  bool_decide ([p1; p2; p3] = [1; 3; 2]) &&
  (let inner := {| inner with mi_waiting := [pending 10; pending 20]; mi_consumer_rr := 0 |} in
   unwrap (p1, inner) <- take_id inner; unwrap (p2, inner) <- take_id inner;
   let inner := {| inner with mi_waiting := [pending 10; pending 20] |} in
   unwrap (p3, inner) <- take_id inner; unwrap (p4, inner) <- take_id inner;
   bool_decide ([p1; p2; p3; p4] = [10; 20; 10; 20])).

Definition producer_disconnect_requeues_awaiting_batch_consumer : bool :=
  let '(pid, m) := matcher in
  let '(cid, consumers) := Consumers.register "127.0.0.1:1" "127.0.0.1:9760" 1 (ma_consumers m) in
  let m := {| m with ma_consumers := consumers |} in
  let m := on_consumers (Consumers.begin_cycle cid 32 "c1" 0) m in
  let m := on_consumers (Consumers.set_phase cid "awaiting_batch") m in
  let m := on_producers (Producers.mark_assigned pid cid 1000) m in
  let m := on_producer_disconnect e0 pid m in
  str_is "matcher_queue" (Consumers.state_of cid (ma_consumers m)) && (waiting_count m =? 1).
End ProducersTests.

(** ** [ring.rs] and [ring/byte_ring.rs] *)
Module RingTests.
Import ByteRing.

Definition after_pushes : ByteRing :=
  let ring := ByteRing.new 2 in
  let '(ring, _) := push [byte.of_Z 1] 100 ring in
  let '(ring, _) := push [byte.of_Z 2] 200 ring in
  let '(ring, _) := push [byte.of_Z 3] 300 ring in ring.

Definition drop_oldest_when_full : bool :=
  let ring := after_pushes in
  unwrap (msg, _) <- pop_front ring;
  (rb_drops_total ring =? 1) && (len ring =? 2) && bool_decide (qm_payload msg = [byte.of_Z 2]).

Definition drop_oldest_when_full_at : bool :=
  let ring := after_pushes in
  unwrap (msg, _) <- pop_front ring;
  (rb_drops_total ring =? 1) && (len ring =? 2) && bool_decide (qm_payload msg = [byte.of_Z 2]) &&
  (qm_enqueued_ms msg =? 200).
End RingTests.

(** ** [tick_buffer.rs], [metrics_history.rs] and [accumulator.rs] *)
Module BufferTests.

Definition tick (i : Z) : TransferTick :=
  {| tk_ts_ms := i; tk_producer_id := 1; tk_consumer_id := 2; tk_msg_count := 1; tk_batch_bytes := 10;
     tk_phase := "deliver"; tk_ok := true; tk_fail_message := None; tk_producer_state := "busy";
     tk_consumer_state := "processing" |}.

Definition respects_cap : bool :=
  let buf := foldl (fun b i => TickBuffer.push (tick i) b) (TickBuffer.new 3) [0; 1; 2; 3; 4] in
  let '(drained, _) := TickBuffer.drain buf in
  unwrap first <- drained !! 0%nat;
  (TickBuffer.len buf =? 3) && (length drained =? 3)%nat && (tk_ts_ms first =? 2).

Definition sample (i : Z) : Sample :=
  {| sm_ts := i * 1000; sm_producer_backlog := i; sm_producer_pending := i / 2; sm_producer_ring := i / 2;
     sm_consumer_inflight := 0; sm_transfers_total := i * 10; sm_transfer_bytes_total := i * 1000;
     sm_batches_total := i; sm_delivery_failures_total := 0; sm_drops_total := 0; sm_producers_ready := 1;
     sm_producers_busy := 0; sm_consumers_waiting := 0 |}.

Definition ring_buffer_respects_cap : bool :=
  let h := foldl (fun h i => History.record (sample i) h) (History.new 3) [0; 1; 2; 3; 4] in
  let all := History.list_all h in
  unwrap first <- all !! 0%nat; (length all =? 3)%nat && (hp_ts first =? 2000).

Definition bytes_of (b : Z) (n : nat) : list byte := repeat (byte.of_Z b) n.

(** [Duration::from_secs(60)] *)
Definition minute : Z := 60 * 1000000000.

Definition flush_on_size : bool :=
  let acc := Accumulator.new 10 minute in
  let '(out, acc) := Accumulator.push (bytes_of 1 6) 0 acc in
  let '(batches, acc) := Accumulator.push (bytes_of 2 6) 1 acc in
  unwrap b0 <- batches !! 0%nat; unwrap b00 <- b0 !! 0%nat;
  bool_decide (out = []) && (length batches =? 1)%nat && (length b0 =? 1)%nat && (length b00 =? 6)%nat &&
  (Accumulator.pending_items acc =? 1).

Definition oversized_item_own_batch : bool :=
  let acc := Accumulator.new 10 minute in
  let '(_, acc) := Accumulator.push (bytes_of 1 4) 0 acc in
  let '(batches, _) := Accumulator.push (bytes_of 9 20) 1 acc in
  unwrap b0 <- batches !! 0%nat; unwrap b1 <- batches !! 1%nat; unwrap b10 <- b1 !! 0%nat;
  (length batches =? 2)%nat && (length b0 =? 1)%nat && (length b10 =? 20)%nat.
End BufferTests.

(** ** The suite *)

Definition suite : list (string * bool) :=
  ([("keeps_up_when_mu_exceeds_lambda", CapacityTests.keeps_up_when_mu_exceeds_lambda);
    ("global_extrapolates_above_100", CapacityTests.global_extrapolates_above_100);
    ("partial_batches_fall_behind", CapacityTests.partial_batches_fall_behind);
    ("global_sums_consumers", CapacityTests.global_sums_consumers);
    ("demand_includes_backlog_growth", CapacityTests.demand_includes_backlog_growth);
    ("idle_demand_is_full", CapacityTests.idle_demand_is_full);
    ("parse_conf_ignores_comments", ConfigTests.parse_conf_ignores_comments);
    ("resolve_host_and_ports", ConfigTests.resolve_host_and_ports);
    ("resolve_cli_overrides_file", ConfigTests.resolve_cli_overrides_file);
    ("format_ipv6_socket_addr", ConfigTests.format_ipv6_socket_addr);
    ("parse_size_units", ConfigTests.parse_size_units);
    ("resolve_bind_defaults_to_all_interfaces", BindTests.resolve_bind_defaults_to_all_interfaces);
    ("resolve_bind_honors_explicit_bind_addr", BindTests.resolve_bind_honors_explicit_bind_addr);
    ("encode_batch_roundtrip_count", ProtocolTests.encode_batch_roundtrip_count);
    ("parse_ready_with_tag", ProtocolTests.parse_ready_with_tag);
    ("parse_ready_empty_tag", ProtocolTests.parse_ready_empty_tag);
    ("pub_batch_roundtrip", ProtocolTests.pub_batch_roundtrip);
    ("pub_batch_slices_share_parent", ProtocolTests.pub_batch_slices_share_parent);
    ("assign_roundtrip", ProtocolTests.assign_roundtrip);
    ("register_roundtrip", ProtocolTests.register_roundtrip);
    ("heartbeat_payload_size", ProtocolTests.heartbeat_payload_size);
    ("backlog_weight_prefers_msgs_then_bytes", ProducersTests.backlog_weight_prefers_msgs_then_bytes);
    ("ready_producer_reenters_pool_on_duplicate_prdy", ProducersTests.ready_producer_reenters_pool_on_duplicate_prdy);
    ("consumer_round_robin_not_fifo", ProducersTests.consumer_round_robin_not_fifo);
    ("producer_disconnect_requeues_awaiting_batch_consumer",
      ProducersTests.producer_disconnect_requeues_awaiting_batch_consumer);
    ("drop_oldest_when_full", RingTests.drop_oldest_when_full);
    ("drop_oldest_when_full_at", RingTests.drop_oldest_when_full_at);
    ("respects_cap", BufferTests.respects_cap);
    ("ring_buffer_respects_cap", BufferTests.ring_buffer_respects_cap);
    ("flush_on_size", BufferTests.flush_on_size);
    ("oversized_item_own_batch", BufferTests.oversized_item_own_batch)])%string.

(** ** Properties *)

(** The model passes the crate's unit tests: every one of them, evaluated on the
    definitions of this library, holds, and none panics. *)
Theorem unit_tests_pass : filter (fun t => t.2 = false) suite = [].
Proof. vm_compute. reflexivity. Qed.

(** No item is copied, and none reaches outside: the parser's items are views of the
    payload, each within it, and the next one starts behind it. *)
Theorem items_are_views n payload off :
  parse_items n payload off =
    match ProtocolTests.parse_views n payload off with
    | Ok vs => Ok (map (ProtocolTests.view payload) vs)
    | Err e => Err e
    end /\
  (forall vs, ProtocolTests.parse_views n payload off = Ok vs ->
     Forall (fun v => off + 4 <= v.1 /\ v.1 + v.2 <= length payload)%nat vs).
Proof.
  revert off. induction n as [|n IH]; intros off; cbn [parse_items ProtocolTests.parse_views]; [split; [done|by intros ? [= <-]]|].
  destruct (_ <? _)%nat; [done|]. destruct (_ || _); [done|].
  destruct (Z.ltb_spec (blen payload) (Z.of_nat (off + 4) + u_at 4 off payload)) as [|Hb]; [done|].
  destruct (IH (off + 4 + Z.to_nat (u_at 4 off payload))%nat) as [-> Hv].
  destruct (ProtocolTests.parse_views _ _ _) as [vs|]; cbn; [|done]. split; [done|]. intros ? [= <-].
  pose proof (u_at_range 4 off payload) as [Hr _]. unfold blen in Hb.
  constructor; [cbn; lia|]. eapply Forall_impl; [by apply Hv|]. cbn. lia.
Qed.
